(* ===== verification/_CoqProject ===== *)
-Q . S2P
Prelude.v
Float64.v
FloatFacts.v
GoRuntime.v
GoString.v
GoParse.v
CPUPool.v
CoreSet.v
ApiTypes.v
Kube.v
ApiServer.v
Budget.v
Threshold.v
Conversions.v
Scheduling.v
SchedulingSpec.v
Validator.v
Mutator.v
DeepCopy.v
DataCollector.v
Pressure.v
NodeEvents.v
Controller.v
Housekeeping.v
Overrun.v
Preemption.v
Reconcile.v
ReconcileSpec.v
RuntimeStates.v
Manager.v
Concurrency.v
EndToEnd.v
