(* ===== verification/Prelude.v ===== *)
(** * MC-Kube verification

    MC-Kube is a Kubernetes operator for real-time pods of mixed criticality
    (LOW, MIDDLE, HIGH).  A custom resource [MCKube] gives the pod it names a
    period, a low and a high runtime and a core; the operator chooses nodes and
    cores, books the budgets in memory, applies them through a daemon on each
    node (the node-actuator), raises a pod to its high runtime when it overruns,
    preempts pods of lower criticality and degrades or evicts pods under CPU
    pressure.  This library models the operator's Go code function by function
    and proves what each part promises.

    ** The program and how its parts interact

    - [internal/cpupool] keeps, per node, the budgets booked on each core
      ([globalPools]).  The webhooks read it to place and to check pods; the
      controller writes it.
    - [internal/webhook/pod_mutator.go], the mutating webhook, selects a node and
      a core for a new pod, writes them to its resource, annotates the pod and
      starts a task that configures the running pod.
    - [internal/webhook/rt_validator.go], the validating webhook, then checks the
      settings and that the core can hold the pod.
    - [internal/controller/mckube_controller.go], the reconciler: finalizers,
      registration in the pools with preemption by migration or eviction, the
      settings of containers, overruns and recovery.
    - [internal/ipvs]: the handling of CPU pressure (tiers of criticality,
      degradation, eviction, escalation), its data and the watch of nodes.  The
      reconciler and the watch both call it.
    - [cmd/main.go] reads the command line and sets the manager up: controller,
      watches, overrun listener, webhooks, taint thread.
    - [api/v1] has the resource and its generated deep copies; the webhook patches
      a resource against such a copy.

    The API server, the node-actuator, the clock and the library that reads
    dynamic resources are other code: interfaces ([KubeClient], [NodeActuator],
    [PodCodec], [Unstructured], [Clock]) over a type [W] of worlds, with laws
    where a theorem needs them ([KubeClientLaws], [NodeActuatorLaws],
    [ClockLaws]).  [ApiServer] has an instance that meets the laws; examples and
    witnesses are evaluated on it.

    ** Files

    Go and its library:
    - [Prelude]: tactics, [int64] with wrap-around, lists, maps and sums;
    - [Float64], [FloatFacts]: binary64 and its rounding errors over the reals;
    - [GoRuntime]: what Go leaves open (map order, ties of [sort.Slice],
      out-of-range conversions); theorems hold for every choice;
    - [GoString], [GoParse]: [strings], [strconv] and [Sscanf].

    The program:
    - [CPUPool]: cpupool.go up to [FindLeastLoadedCore] (the pools);
    - [CoreSet]: [ParseCoreSet], [filterValidCores] of cpupool.go;
    - [Scheduling]: [SelectBestNodeAndCore] to [greedyMinVictims] of cpupool.go;
    - [ApiTypes]: api/v1/mckube_types.go and the Kubernetes records;
    - [Kube], [ApiServer]: the interfaces and their reference instance;
    - [Validator], [Mutator]: rt_validator.go and pod_mutator.go;
    - [DeepCopy]: zz_generated.deepcopy.go on a heap of typed cells, and
      [patchMcKubeCore] of pod_mutator.go on the pointers it really has;
    - [DataCollector]: data_collector.go;
    - [Pressure]: pod_spec_handler.go and event_handler.go;
    - [NodeEvents]: [FindObjectsForNode] of event_handler.go and the flag of the
      nodes whose handler runs, as a step relation;
    - [Controller]: the state [St] of the controller (the package variables of
      mckube_controller.go and of the packages it calls), the monad [ctl] of its
      operations and its reasoning rules;
    - [Housekeeping]: finalizer lists, throttling markers, clean-up, events of
      pods, the taint thread, timing;
    - [Overrun]: [handleOverrunEvent], [handleCPURecovery] and their callees;
    - [Preemption]: [checkAndPreemptForPod] and its callees;
    - [Reconcile]: [Reconcile], [updateCPUPoolForPod],
      [applyRTSettingsToContainers];
    - [Manager]: cmd/main.go, [SetupWithManager] and the constructors of the
      handlers, with Go's [flag.Parse].

    Facts that several components share:
    - [Budget], [Threshold], [Conversions]: what the floating-point tests and
      conversions decide, in exact integers;
    - [SchedulingSpec], [ReconcileSpec]: the contracts of the two central
      functions;
    - [RuntimeStates]: the state machine of the pods' runtimes, which all entry
      points of the controller together refine;
    - [Concurrency]: the operations that share the runtime states and the pools
      as threads of atomic actions, a scheduler, and a rely-guarantee logic;
    - [EndToEnd]: from the admission of a pod to its booking, across the webhooks
      and the reconciler.

    ** What the theorems show

    - Accounting: [CPUPool.reachable_pools_wf] (in every state the pool operations
      reach, in any order, the usage of a core is the sum of its bookings and of
      the budgets that [AddPodToCore] has overwritten),
      [Preemption.checkAndPreempt_accounting],
      [Reconcile.updateCPUPoolForPod_books]; [Preemption.migration_breaks_accounting]
      and [CPUPool.AddPodToCore_overwrite_drift] show where it fails.
    - Placement: the search refines an exact integer contract
      ([SchedulingSpec.SelectBest_refines], [SelectBest_worst_fit],
      [SelectBest_eviction], [Check_refines], [Select_accepted_by_Check]).
      [EndToEnd.placed_pod_fits] carries the placement over to the booking;
      [admissions_overcommit] (any two pods that fit alone are both admitted and
      booked) and [cores_beyond_pool_unbooked] show its limits.
    - Admission: [Validator.Handle_admits_fits], [Handle_denies_unfit],
      [validateRTSettings_spec], [Handle_fails_open]; [Mutator.mutate_then_validate]
      and [Handle_idempotent] connect the two webhooks;
      [DeepCopy.patchMcKubeCore_refines] justifies the values in place of pointers.
    - Preemption: only booked pods of lower criticality, in the pools and in
      every call ([Preemption.checkAndPreempt_lower_only]),
      not without need ([checkAndPreempt_idle]), to a least used core where the
      victim fits ([findMigrationTargetCore_spec]).
    - The two runtimes of a pod: [Overrun.handleOverrunEvent_escalates],
      [handleCPURecovery_spec], [ReconcileSpec.throttled_victim_stays_low],
      [applyRTSettings_sends]; step by step [RuntimeStates.states_refine_machine]
      (only an accepted overrun raises a pod), over whole runs [hi_was_accepted].
    - The loop: [ReconcileSpec.Reconcile_finalizers], [Reconcile_returns],
      [reachable_controller] (invariants over all sequences of the entry points),
      [Reconcile.registerPod_idempotent].
    - Pressure: [Pressure.ProcessCurrentTier_actions], [HandleNodeCPUPressure_total],
      [CollectSortedTiers_spec], [pressure_stalls]; [NodeEvents.processing_exclusive]
      (how many handlers of a node run, recoveries included).
    - Goroutines: each thread of [Concurrency] alone is its operation
      ([threads_run_alone]); under every interleaving the accounting is exact
      ([interleaved_accounting]) and a pod is "hi" only after an accepted request
      ([interleaved_hi_escalated]); [escalation_lost] is what goes wrong, in any
      state with an overrun of a pod whose settings the worker applies.
    - Setup: [Manager.main_follows_plan], [Parse_print], [http2_off_by_default].
    - Copies: [DeepCopy.DeepCopy_independent], [List_DeepCopy_independent].
    - Parsing: [CoreSet.ParseCoreSet_roundtrip], [ParseCoreSet_range],
      [ParseCoreSet_terminates].
    - Defects, as computations on concrete clusters: for example
      [ReconcileSpec.migrated_pod_booked_twice], [Reconcile_panics_without_core],
      [direct_fit_still_preempts], [selects_missing_core],
      [Overrun.recovery_ignores_refusals], [Preemption.own_booking_preempts].

    ** Bounds and fuel

    - The contracts of the search ([workload], [request]) assume a period of at
      most 10^8 microseconds and at most 100 pods of 0 to 1000 milli-CPUs on a
      core; then the rounding errors stay below one unit of the exact
      inequality.  [Threshold] compares sums of usages up to 10^6 milli-CPUs.
    - [ProcessCurrentTier] recurs at most once per tier above the current one;
      [tierFuel] = 4 is enough because there are three ranks
      ([Pressure.ProcessCurrentTier_returns]).
    - A range of cores is unrolled with one unit of fuel per core ([range_loop]);
      fuel is short only when the Go loop never ends, and [ParseCoreSet] then
      returns [None].
    - The string functions recur on the length of their argument.

    ** What is not modelled

    - The scaffolded tests, the names and the registration of the resource's
      types (groupversion_info.go), the logger's options in [main].
    - Log messages and the values computed for them only.
    - The HTTP transport and JSON encoding; a request or an answer is its decoded
      value, a decoding error a value of the interface.  The server in
      [StartOverrunListener] is its endpoint [serveOverrun], the taint thread
      its round [taintRound].
    - Mutexes: each access to shared state is atomic, as the source holds its
      locks over single accesses.  In the step relation of [ReconcileSpec] an
      invocation of an entry point is one step.  The interleavings of single
      accesses are modelled in [NodeEvents], for the flag of nodes, and in
      [Concurrency], for overruns, events of pods, the registration in the pools,
      the application of settings and recovery; preemption and pressure handling
      are not modelled at that grain.  The reconciler has one worker, the default
      of the library, which the source does not change.
    - [RemovePodFromPool] takes the locks of the pools one after the other and is
      one action in [Concurrency]: another thread touches one pool at a time.
    - The object a successful [Update] or [Patch] of a resource stores back into
      its argument is taken to be the argument (the server changes nothing the
      source reads later); for the pods of degradation and eviction the answer
      of the server is modelled. *)
From stdpp Require Export base tactics list gmap strings sorting.
From stdpp Require Import options.
From Stdlib Require Export ZArith Lia.

Open Scope Z_scope.

(** ** Tactics *)

Create HintDb mckube.

(** Case analysis on every [match], [if] and decision of the goal. *)
Ltac cases_goal :=
  repeat (case_match || case_decide || case_bool_decide); simplify_eq/=; try done.

(** Turns boolean comparisons on [Z] of the context into propositions. *)
Ltac z_bools :=
  repeat match goal with
  | H : (_ <? _) = true |- _ => apply Z.ltb_lt in H
  | H : (_ <? _) = false |- _ => apply Z.ltb_ge in H
  | H : (_ <=? _) = true |- _ => apply Z.leb_le in H
  | H : (_ <=? _) = false |- _ => apply Z.leb_gt in H
  | H : (_ =? _) = true |- _ => apply Z.eqb_eq in H
  | H : (_ =? _) = false |- _ => apply Z.eqb_neq in H
  | H : (_ && _)%bool = true |- _ => apply andb_true_iff in H as [? ?]
  | H : (_ && _)%bool = false |- _ => apply andb_false_iff in H
  | H : (_ || _)%bool = true |- _ => apply orb_true_iff in H
  | H : (_ || _)%bool = false |- _ => apply orb_false_iff in H as [? ?]
  | H : negb _ = true |- _ => apply negb_true_iff in H
  | H : negb _ = false |- _ => apply negb_false_iff in H
  end.

(** Decidability of a proposition through an equivalent one. *)
Definition dec_iff {P Q : Prop} `{HQ : Decision Q} (H : P <-> Q) : Decision P :=
  match decide Q with
  | left q => left (proj2 H q)
  | right nq => right (fun p => nq (proj1 H p))
  end.

(** ** 64-bit integers

    Go's [int] and [int64] on a 64-bit platform: a [Z] in the signed range,
    with the wrap-around of addition and subtraction written out. *)

Definition wrap64 (z : Z) : Z := (z + 2 ^ 63) mod 2 ^ 64 - 2 ^ 63.

Definition int64 (z : Z) : Prop := - 2 ^ 63 <= z < 2 ^ 63.

#[export] Instance int64_dec z : Decision (int64 z).
Proof. unfold int64. apply _. Defined.

Lemma wrap64_range z : int64 (wrap64 z).
Proof. unfold int64, wrap64. pose proof (Z.mod_pos_bound (z + 2 ^ 63) (2 ^ 64)). lia. Qed.

Lemma wrap64_id z : int64 z -> wrap64 z = z.
Proof. unfold int64, wrap64. intros. rewrite Z.mod_small; lia. Qed.

(** Wrapping twice is wrapping once, on either side of a sum. *)
Lemma wrap64_add_l a b : wrap64 (wrap64 a + b) = wrap64 (a + b).
Proof.
  unfold wrap64. f_equal.
  replace ((a + 2 ^ 63) mod 2 ^ 64 - 2 ^ 63 + b + 2 ^ 63) with ((a + 2 ^ 63) mod 2 ^ 64 + b) by lia.
  rewrite Zplus_mod_idemp_l. f_equal. lia.
Qed.

Lemma wrap64_sub_l a b : wrap64 (wrap64 a - b) = wrap64 (a - b).
Proof. apply (wrap64_add_l a (- b)). Qed.

#[export] Hint Resolve wrap64_range : mckube.

(** ** Lists *)

(** A map that does not change membership commutes with a filter. *)
Lemma filter_fmap_stable {A} (P : A -> Prop) `{!forall x, Decision (P x)} (f : A -> A) (l : list A) :
  (forall x, P (f x) <-> P x) -> filter P (f <$> l) = f <$> filter P l.
Proof.
  intros Hf. induction l as [|x l IH]; [done|]. rewrite fmap_cons. destruct (decide (P x)) as [Hx|Hx].
  - rewrite !filter_cons_True by (by rewrite ?Hf). by rewrite IH.
  - rewrite !filter_cons_False by (by rewrite ?Hf). done.
Qed.

Lemma filter_ext_elem {A} (P Q : A -> Prop) `{!forall x, Decision (P x), !forall x, Decision (Q x)} (l : list A) :
  (forall x, x ∈ l -> P x <-> Q x) -> filter P l = filter Q l.
Proof.
  induction l as [|x l IH]; intros Hl; [done|]. rewrite !filter_cons, IH by (intros; apply Hl; by right).
  by rewrite (decide_ext (P x) (Q x)) by (apply Hl; by left).
Qed.

(** ** Sums over lists and maps *)

Definition sumZ {A} (f : A -> Z) (l : list A) : Z := foldr (fun x s => f x + s) 0 l.

Lemma sumZ_app {A} (f : A -> Z) l1 l2 : sumZ f (l1 ++ l2) = sumZ f l1 + sumZ f l2.
Proof. induction l1; simpl; lia. Qed.

Lemma sumZ_fmap {A B} (f : B -> Z) (g : A -> B) l : sumZ f (g <$> l) = sumZ (fun x => f (g x)) l.
Proof. induction l as [|x l IH]; [done|]. rewrite fmap_cons. cbn [sumZ foldr]. unfold sumZ in IH. by rewrite IH. Qed.

#[export] Instance sumZ_perm {A} (f : A -> Z) : Proper ((≡ₚ) ==> (=)) (sumZ f).
Proof. induction 1; simpl; lia. Qed.

Lemma sumZ_nonneg {A} (f : A -> Z) l : Forall (fun x => 0 <= f x) l -> 0 <= sumZ f l.
Proof. induction 1; simpl; lia. Qed.

(** The sum of [f] over the values of a map. *)
Definition map_sumZ {K A} `{Countable K} (f : A -> Z) (m : gmap K A) : Z :=
  sumZ (fun kv => f kv.2) (map_to_list m).

Section map_sumZ.
Context {K A : Type} `{Countable K} (f : A -> Z).
Implicit Types (m : gmap K A).

Lemma map_sumZ_empty : map_sumZ f (∅ : gmap K A) = 0.
Proof. unfold map_sumZ. by rewrite map_to_list_empty. Qed.

Lemma map_sumZ_insert m k x :
  m !! k = None -> map_sumZ f (<[k := x]> m) = f x + map_sumZ f m.
Proof. intros Hk. unfold map_sumZ. by rewrite map_to_list_insert. Qed.

Lemma map_sumZ_delete m k x :
  m !! k = Some x -> map_sumZ f (delete k m) = map_sumZ f m - f x.
Proof.
  intros Hk. rewrite <- (insert_delete_id m k x Hk) at 2.
  rewrite map_sumZ_insert by apply lookup_delete_eq. lia.
Qed.

(** Overwriting an entry replaces its term of the sum. *)
Lemma map_sumZ_replace m k x y :
  m !! k = Some x -> map_sumZ f (<[k := y]> m) = map_sumZ f m - f x + f y.
Proof.
  intros Hk. rewrite <- insert_delete_eq.
  rewrite map_sumZ_insert by apply lookup_delete_eq.
  rewrite (map_sumZ_delete m k x Hk). lia.
Qed.

Lemma map_sumZ_lookup_le m k x :
  map_Forall (fun _ y => 0 <= f y) m -> m !! k = Some x -> f x <= map_sumZ f m.
Proof.
  intros Hm Hk. rewrite <- (insert_delete_id m k x Hk).
  rewrite map_sumZ_insert by apply lookup_delete_eq.
  assert (0 <= map_sumZ f (delete k m)); [|lia].
  apply sumZ_nonneg, Forall_forall. intros [k' y] Hin.
  apply elem_of_map_to_list in Hin. apply (Hm k').
  apply lookup_delete_Some in Hin. tauto.
Qed.
End map_sumZ.

(** Searching with predicates that agree. *)
Lemma find_ext {A} (f g : A -> bool) l : (forall x, f x = g x) -> List.find f l = List.find g l.
Proof. intros H. induction l as [|x l IH]; [done|]. simpl. by rewrite H, IH. Qed.

Lemma existsb_ext' {A} (f g : A -> bool) l : (forall x, f x = g x) -> existsb f l = existsb g l.
Proof. intros H. induction l as [|x l IH]; [done|]. simpl. by rewrite H, IH. Qed.
