(* ===== verification/Float64.v ===== *)
(** * Float64: Go's [float64]

    Go's [float64] is IEEE-754 binary64 with round-to-nearest-even.  The values
    are the [spec_float] of the standard library's [SpecFloat] (an executable
    specification of IEEE arithmetic over [Z], with no axioms), at precision 53
    and maximal exponent 1024.  The expressions of the source never have the
    shape [x*y + z], so no fused operation can replace the ones written here.

    - [of_int n] is the conversion [float64(n)] of an integer;
    - [to_int undef f] is the conversion [int64(f)]: truncation toward zero,
      where the language leaves the result of an out-of-range operand to the
      implementation, here the argument [undef];
    - [const_0_95], [const_0_9], ... are the literals of the source.

    The second half shows that the boolean comparisons are those of a total
    preorder on the values that are not NaN. *)
From Stdlib Require Import ZArith Lia Bool.
From Corelib Require Export SpecFloat.

Local Open Scope Z_scope.

(** ** Format and operations *)

Abbreviation f64 := spec_float.

Definition prec : Z := 53.
Definition emax : Z := 1024.

Definition fadd : f64 -> f64 -> f64 := SFadd prec emax.
Definition fsub : f64 -> f64 -> f64 := SFsub prec emax.
Definition fmul : f64 -> f64 -> f64 := SFmul prec emax.
Definition fdiv : f64 -> f64 -> f64 := SFdiv prec emax.

Definition fltb : f64 -> f64 -> bool := SFltb.
Definition fleb : f64 -> f64 -> bool := SFleb.
(** [x > y] and [x >= y] *)
Definition fgtb (x y : f64) : bool := SFltb y x.
Definition fgeb (x y : f64) : bool := SFleb y x.

(** [float64(n)] *)
Definition of_int (n : Z) : f64 := binary_normalize prec emax n 0 false.

Definition fzero : f64 := S754_zero false.

(** A literal [p/q] of the source: the nearest double of the exact rational.
    For [p, q] below [2^53] the conversions are exact, so the quotient is
    rounded once. *)
Definition literal (p q : Z) : f64 := fdiv (of_int p) (of_int q).

(** ** Conversion to [int64] *)

Definition int64_min : Z := - 2 ^ 63.
Definition int64_max : Z := 2 ^ 63 - 1.

(** The integer part of a finite value, truncated toward zero. *)
Definition trunc (f : f64) : option Z :=
  match f with
  | S754_zero _ => Some 0
  | S754_finite s m e =>
      let a := if 0 <=? e then Zpos m * 2 ^ e else Zpos m / 2 ^ (- e) in
      Some (if s then - a else a)
  | _ => None
  end.

(** [int64(f)] *)
Definition to_int (undef : f64 -> Z) (f : f64) : Z :=
  match trunc f with
  | Some z => if (int64_min <=? z) && (z <=? int64_max) then z else undef f
  | None => undef f
  end.

(** ** The comparisons as a total preorder

    [fkey] sends a value that is not NaN to a triple of integers whose
    lexicographic order is the order of the values. *)
Definition fkey (f : f64) : Z * Z * Z :=
  match f with
  | S754_zero _ => (0, 0, 0)
  | S754_infinity s => ((if s then -2 else 2), 0, 0)
  | S754_nan => (3, 0, 0)
  | S754_finite false m e => (1, e, Zpos m)
  | S754_finite true m e => (-1, - e, Zneg m)
  end.

Definition lex_lt (a b : Z * Z * Z) : Prop :=
  let '(a1, a2, a3) := a in
  let '(b1, b2, b3) := b in
  a1 < b1 \/ (a1 = b1 /\ (a2 < b2 \/ (a2 = b2 /\ a3 < b3))).

Definition is_nan (f : f64) : bool :=
  match f with S754_nan => true | _ => false end.

Definition is_finite (f : f64) : bool :=
  match f with S754_zero _ | S754_finite _ _ _ => true | _ => false end.

Lemma is_finite_not_nan f : is_finite f = true -> is_nan f = false.
Proof. now destruct f. Qed.

Ltac fcompare_cases :=
  repeat match goal with
  | b : bool |- _ => destruct b
  end;
  simpl;
  repeat match goal with
  | |- context [Z.compare ?a ?b] => destruct (Z.compare_spec a b)
  | |- context [Pos.compare_cont Eq ?a ?b] =>
      change (Pos.compare_cont Eq a b) with (Pos.compare a b);
      destruct (Pos.compare_spec a b)
  end; simpl.

Lemma fltb_lex f g :
  is_nan f = false -> is_nan g = false ->
  fltb f g = true <-> lex_lt (fkey f) (fkey g).
Proof.
  unfold fltb, SFltb.
  destruct f as [s| s| |s m e], g as [s'| s'| |s' m' e']; try discriminate;
    intros _ _; fcompare_cases; split; intros; try discriminate; try reflexivity; lia.
Qed.

Lemma fleb_lex f g :
  is_nan f = false -> is_nan g = false ->
  fleb f g = true <-> ~ lex_lt (fkey g) (fkey f).
Proof.
  unfold fleb, SFleb.
  destruct f as [s| s| |s m e], g as [s'| s'| |s' m' e']; try discriminate;
    intros _ _; fcompare_cases; split; intros; try discriminate; try reflexivity; lia.
Qed.

Lemma fltb_false_lex f g :
  is_nan f = false -> is_nan g = false ->
  fltb f g = false <-> ~ lex_lt (fkey f) (fkey g).
Proof.
  intros Hf Hg. rewrite <- (fltb_lex f g Hf Hg).
  destruct (fltb f g); split; congruence.
Qed.

(** On values that are not NaN, [f <= g] is the negation of [g < f]. *)
Lemma fleb_negb f g :
  is_nan f = false -> is_nan g = false -> fleb f g = negb (fltb g f).
Proof.
  intros Hf Hg. apply eq_true_iff_eq. rewrite negb_true_iff, fleb_lex, fltb_false_lex by assumption.
  reflexivity.
Qed.

Lemma lex_lt_asym a b : lex_lt a b -> ~ lex_lt b a.
Proof. destruct a as [[a1 a2] a3], b as [[b1 b2] b3]; simpl; lia. Qed.

Lemma lex_lt_cotrans a b c : lex_lt a b -> lex_lt a c \/ lex_lt c b.
Proof. destruct a as [[a1 a2] a3], b as [[b1 b2] b3], c as [[c1 c2] c3]; simpl; lia. Qed.

(** NaN compares false with everything. *)
Lemma fleb_nan_l f : fleb S754_nan f = false.
Proof. now destruct f. Qed.

Lemma fleb_nan_r f : fleb f S754_nan = false.
Proof. now destruct f. Qed.
