(* ===== verification/FloatFacts.v ===== *)
(** * FloatFacts: the rounding error of [float64] operations

    The real value [val f] of a finite double, and for each operation of
    [Float64] the statement that its result is a correct rounding of the exact
    real result ([rounded]): it lies on the grid of doubles around the exact
    value, at most half a grid step away.  From [rounded] follow the relative
    error bound [rounded_error], the exactness at integers [rounded_int], and
    with [fltb_val] and [trunc_val] the meaning of comparisons and of the
    conversion to an integer. *)
From Stdlib Require Import ZArith Lia Bool Reals Lra Psatz.
From S2P Require Import Float64.

Local Open Scope R_scope.

Lemma Rabs_le_inv x b : Rabs x <= b -> - b <= x <= b.
Proof. intros H. pose proof (Rle_abs x). pose proof (Rle_abs (- x)). rewrite Rabs_Ropp in *. lra. Qed.

(** ** Powers of two *)

Definition bpow (e : Z) : R := powerRZ 2 e.

Lemma bpow_pos e : 0 < bpow e.
Proof. apply powerRZ_lt. lra. Qed.

Lemma bpow_add a b : bpow (a + b) = bpow a * bpow b.
Proof. apply powerRZ_add. lra. Qed.

Lemma bpow_succ e : bpow (e + 1) = 2 * bpow e.
Proof. rewrite bpow_add. unfold bpow at 2. simpl. lra. Qed.

Lemma bpow_half e : bpow (e - 1) = bpow e / 2.
Proof. replace e with (e - 1 + 1)%Z at 2 by lia. rewrite bpow_succ. lra. Qed.

Lemma bpow_0 : bpow 0 = 1.
Proof. reflexivity. Qed.

Lemma bpow_IZR n : (0 <= n)%Z -> bpow n = IZR (2 ^ n).
Proof.
  intros Hn. unfold bpow.
  rewrite <- (Z2Nat.id n) at 1 by assumption.
  rewrite <- pow_powerRZ, pow_IZR, Z2Nat.id by assumption. reflexivity.
Qed.

Lemma bpow_opp e : bpow e * bpow (- e) = 1.
Proof. rewrite <- bpow_add, Z.add_opp_diag_r. apply bpow_0. Qed.

Lemma bpow_le a b : (a <= b)%Z -> bpow a <= bpow b.
Proof.
  intros H. replace b with (a + (b - a))%Z by lia. rewrite bpow_add.
  rewrite (bpow_IZR (b - a)) by lia.
  assert (1 <= IZR (2 ^ (b - a))) by (apply IZR_le; pose proof (Z.pow_pos_nonneg 2 (b - a)); lia).
  pose proof (bpow_pos a). nra.
Qed.

Lemma bpow_lt_inv a b : bpow a < bpow b -> (a < b)%Z.
Proof.
  intros H. destruct (Z.lt_ge_cases a b) as [|Hba]; [assumption|].
  apply bpow_le in Hba. lra.
Qed.

(** An integer multiple of [bpow a] is one of [bpow b] when [b <= a]. *)
Lemma bpow_scale a b : (b <= a)%Z -> bpow a = IZR (2 ^ (a - b)) * bpow b.
Proof.
  intros H. rewrite <- bpow_IZR by lia. rewrite <- bpow_add. f_equal. lia.
Qed.

(** ** The value of a double *)

Definition sgn (s : bool) : R := if s then -1 else 1.

Definition val (f : f64) : R :=
  match f with
  | S754_finite s m e => sgn s * IZR (Zpos m) * bpow e
  | _ => 0
  end.

Definition canonical (f : f64) : Prop := valid_binary prec emax f = true.

Lemma Zdigits2_bounds m :
  (0 < m)%Z -> (2 ^ (Zdigits2 m - 1) <= m < 2 ^ Zdigits2 m)%Z.
Proof.
  intros Hm. destruct m as [|p|p]; try lia. clear Hm.
  change (Zdigits2 (Zpos p)) with (Zpos (digits2_pos p)).
  assert (Hsucc : forall d, (2 ^ Z.succ (Zpos d) = 2 * (2 * 2 ^ (Zpos d - 1)))%Z).
  { intros d. rewrite <- !Z.pow_succ_r by lia. f_equal. lia. }
  induction p as [p IH|p IH|]; [| |cbn; lia]; cbn [digits2_pos];
    rewrite Pos2Z.inj_succ, Hsucc;
    replace (Z.succ (Zpos (digits2_pos p)) - 1)%Z with (Z.succ (Zpos (digits2_pos p) - 1)) by lia;
    rewrite Z.pow_succ_r by lia;
    (replace (2 ^ Zpos (digits2_pos p))%Z with (2 * 2 ^ (Zpos (digits2_pos p) - 1))%Z in IH
      by (rewrite <- Z.pow_succ_r by lia; f_equal; lia)); lia.
Qed.

Lemma Zdigits2_unique m d :
  (0 < m)%Z -> (2 ^ (d - 1) <= m < 2 ^ d)%Z -> Zdigits2 m = d.
Proof.
  intros Hm Hd. pose proof (Zdigits2_bounds m Hm) as Hb.
  assert (0 < Zdigits2 m)%Z by (destruct m; simpl; lia).
  assert (0 <= d)%Z by (destruct (Z.le_gt_cases 0 d); [lia|rewrite (Z.pow_neg_r 2 d) in Hd by lia; lia]).
  assert (Hlt : forall a b, (2 ^ a <= m < 2 ^ b)%Z -> (0 <= b)%Z -> (a < b)%Z).
  { intros a b Hab Hb0. apply (Z.pow_lt_mono_r_iff 2); lia. }
  pose proof (Hlt (d - 1) (Zdigits2 m))%Z. pose proof (Hlt (Zdigits2 m - 1) d)%Z. lia.
Qed.

Lemma Zdigits2_le m d : (0 <= d)%Z -> (0 <= m < 2 ^ d)%Z -> (Zdigits2 m <= d)%Z.
Proof.
  intros Hd Hm. destruct (Z.eq_dec m 0) as [->|Hne]; [simpl; lia|].
  pose proof (Zdigits2_bounds m ltac:(lia)) as Hb.
  assert (Zdigits2 m - 1 < d)%Z by (apply (Z.pow_lt_mono_r_iff 2); lia). lia.
Qed.

Lemma fexp_unfold e : fexp prec emax e = Z.max (e - 53) (-1074).
Proof. reflexivity. Qed.

(** ** Locations: where a real lies between two mantissas *)

Definition inbetween (m e : Z) (l : location) (x : R) : Prop :=
  match l with
  | loc_Exact => x = IZR m * bpow e
  | loc_Inexact Lt => IZR m * bpow e < x < (IZR m + / 2) * bpow e
  | loc_Inexact Eq => x = (IZR m + / 2) * bpow e
  | loc_Inexact Gt => (IZR m + / 2) * bpow e < x < (IZR m + 1) * bpow e
  end.

Lemma inbetween_bounds m e l x :
  inbetween m e l x -> IZR m * bpow e <= x < (IZR m + 1) * bpow e.
Proof.
  pose proof (bpow_pos e). destruct l as [|[]]; simpl; intros; nra.
Qed.

Lemma shr_1_nonneg mrs : (0 <= shr_m mrs)%Z -> (0 <= shr_m (shr_1 mrs))%Z.
Proof. destruct mrs as [[|[p|p|]|[p|p|]] r s]; simpl; lia. Qed.

Lemma shr_1_inbetween mrs e x :
  (0 <= shr_m mrs)%Z ->
  inbetween (shr_m mrs) e (loc_of_shr_record mrs) x ->
  inbetween (shr_m (shr_1 mrs)) (e + 1) (loc_of_shr_record (shr_1 mrs)) x.
Proof.
  intros Hm. pose proof (bpow_pos e) as Hb.
  destruct mrs as [m r s]; simpl in Hm.
  destruct m as [|[p|p|]|p]; try lia;
    try rewrite (Pos2Z.inj_xI p); try rewrite (Pos2Z.inj_xO p);
    destruct r, s; simpl; rewrite ?bpow_succ;
    try rewrite (Pos2Z.inj_xI p); try rewrite (Pos2Z.inj_xO p);
    rewrite ?plus_IZR, ?mult_IZR; intros; nra.
Qed.

Lemma iter_pos_nat {A} (f : A -> A) p x :
  iter_pos f p x = Nat.iter (Pos.to_nat p) f x.
Proof.
  revert x. induction p as [p IH|p IH|]; intros x; simpl iter_pos.
  - rewrite !IH, Pos2Nat.inj_xI. replace (S (2 * Pos.to_nat p)) with (Pos.to_nat p + (Pos.to_nat p + 1))%nat by lia.
    rewrite !Nat.iter_add. reflexivity.
  - rewrite !IH, Pos2Nat.inj_xO. replace (2 * Pos.to_nat p)%nat with (Pos.to_nat p + Pos.to_nat p)%nat by lia.
    rewrite Nat.iter_add. reflexivity.
  - reflexivity.
Qed.

Lemma shr_inbetween mrs e n x mrs' e' :
  (0 <= shr_m mrs)%Z ->
  inbetween (shr_m mrs) e (loc_of_shr_record mrs) x ->
  shr mrs e n = (mrs', e') ->
  (0 <= shr_m mrs')%Z /\ e' = Z.max e (e + n) /\
  inbetween (shr_m mrs') e' (loc_of_shr_record mrs') x.
Proof.
  intros Hm Hx Hshr. destruct n as [|p|p]; simpl in Hshr; inversion Hshr; subst; clear Hshr;
    try (repeat split; [assumption|lia|assumption]).
  rewrite iter_pos_nat.
  replace (e + Zpos p)%Z with (e + Z.of_nat (Pos.to_nat p))%Z by lia.
  assert (Hiter : forall k,
    (0 <= shr_m (Nat.iter k shr_1 mrs))%Z /\
    inbetween (shr_m (Nat.iter k shr_1 mrs)) (e + Z.of_nat k)
      (loc_of_shr_record (Nat.iter k shr_1 mrs)) x).
  { induction k as [|k [IH1 IH2]]; [rewrite Z.add_0_r; auto|].
    rewrite Nat2Z.inj_succ, <- Z.add_1_r, Z.add_assoc. simpl.
    split; [now apply shr_1_nonneg|now apply shr_1_inbetween]. }
  destruct (Hiter (Pos.to_nat p)) as [H1 H2]. repeat split; [assumption|lia|assumption].
Qed.

Lemma loc_of_shr_record_of_loc m l : loc_of_shr_record (shr_record_of_loc m l) = l.
Proof. destruct l as [|[]]; reflexivity. Qed.

Lemma shr_m_record_of_loc m l : shr_m (shr_record_of_loc m l) = m.
Proof. destruct l as [|[]]; reflexivity. Qed.

Lemma round_nearest_even_bounds m e l x :
  inbetween m e l x ->
  (m <= round_nearest_even m l <= m + 1)%Z /\
  Rabs (IZR (round_nearest_even m l) * bpow e - x) <= bpow e / 2.
Proof.
  pose proof (bpow_pos e). intros Hx.
  destruct l as [|[]]; simpl in *;
    try (destruct (Z.even m)); (split; [lia|]); rewrite ?plus_IZR;
    apply Rabs_le; nra.
Qed.

(** ** Correct rounding *)

(** [f] is a correct rounding of [x] in the range of the format. *)
Definition rounded (x : R) (f : f64) : Prop :=
  is_finite f = true /\ canonical f /\
  exists m e : Z,
    val f = IZR m * bpow e /\
    Rabs (val f - x) <= bpow e / 2 /\
    ((e = -1074)%Z /\ Rabs x < bpow (e + 53) \/
     (-1074 <= e)%Z /\ bpow (e + 52) <= Rabs x < bpow (e + 53)).

Lemma canonical_finite s m e :
  fexp prec emax (Zdigits2 (Zpos m) + e) = e -> (e <= 971)%Z ->
  canonical (S754_finite s m e).
Proof.
  intros H1 H2. unfold canonical. simpl. unfold bounded, canonical_mantissa.
  apply andb_true_intro. split; [apply Z.eqb_eq; exact H1|apply Z.leb_le; exact H2].
Qed.

Lemma shr_fexp_fits m e :
  (0 <= m < 2 ^ 53)%Z -> (-1074 <= e)%Z ->
  shr_fexp prec emax m e loc_Exact = ({| shr_m := m; shr_r := false; shr_s := false |}, e).
Proof.
  intros Hm He. pose proof (Zdigits2_le m 53 ltac:(lia) Hm) as Hd.
  unfold shr_fexp. rewrite fexp_unfold. simpl shr_record_of_loc.
  destruct (Z.max (Zdigits2 m + e - 53) (-1074) - e)%Z eqn:E; try reflexivity. lia.
Qed.

Lemma shr_fexp_carry e :
  (-1074 <= e)%Z ->
  shr_fexp prec emax (2 ^ 53) e loc_Exact =
    ({| shr_m := 2 ^ 52; shr_r := false; shr_s := false |}, (e + 1)%Z).
Proof.
  intros He. unfold shr_fexp. rewrite fexp_unfold.
  replace (Z.max (Zdigits2 (2 ^ 53) + e - 53) (-1074) - e)%Z with 1%Z.
  - reflexivity.
  - change (Zdigits2 (2 ^ 53)) with 54%Z. lia.
Qed.

(** The value and the canonicity of a rounded mantissa. *)
Lemma finish_round s m2 e1 :
  (0 <= m2 <= 2 ^ 53)%Z -> (-1074 <= e1 <= 970)%Z ->
  (e1 = -1074 \/ 2 ^ 52 <= m2)%Z ->
  let '(mrs, e2) := shr_fexp prec emax m2 e1 loc_Exact in
  let f := match shr_m mrs with
           | Z0 => S754_zero s
           | Zpos m => if Z.leb e2 (emax - prec) then S754_finite s m e2 else S754_infinity s
           | _ => S754_nan
           end in
  is_finite f = true /\ canonical f /\ val f = sgn s * IZR m2 * bpow e1.
Proof.
  intros Hm He Hc. destruct (Z.eq_dec m2 (2 ^ 53)) as [->|Hne].
  - rewrite shr_fexp_carry by lia. cbn -[Z.pow].
    change (2 ^ 52)%Z with (Zpos (2 ^ 52)). change (2 ^ 53)%Z with (Zpos (2 ^ 52) * 2)%Z.
    destruct (Z.leb_spec (e1 + 1) 971); [|lia].
    split; [reflexivity|split].
    + apply canonical_finite; [|lia]. rewrite fexp_unfold.
      change (Zdigits2 (Zpos (2 ^ 52))) with 53%Z. lia.
    + cbn [val]. rewrite mult_IZR, bpow_succ. ring.
  - rewrite shr_fexp_fits by lia. cbn [shr_m].
    destruct m2 as [|p|p]; [| |lia].
    + split; [reflexivity|split; [reflexivity|]]. simpl. ring.
    + change (emax - prec)%Z with 971%Z. destruct (Z.leb_spec e1 971); [|lia].
      split; [reflexivity|split; [|reflexivity]].
      apply canonical_finite; [|lia]. rewrite fexp_unfold.
      pose proof (Zdigits2_le (Zpos p) 53 ltac:(lia) ltac:(lia)).
      destruct Hc as [->|Hc]; [lia|].
      rewrite (Zdigits2_unique (Zpos p) 53) by lia. lia.
Qed.

Lemma IZR_lt_bpow m e k : IZR m * bpow e < bpow k -> (e <= k)%Z -> (m < 2 ^ (k - e))%Z.
Proof.
  intros H Hk. rewrite (bpow_scale k e Hk) in H. apply lt_IZR.
  pose proof (bpow_pos e). nra.
Qed.

(** The exponent chosen by [shr_fexp], and what it says of the operand. *)
Lemma round_exponent m e l x e1 :
  (0 <= m)%Z -> inbetween m e l x -> x < bpow 1000 ->
  (e <= fexp prec emax (Zdigits2 m + e))%Z ->
  e1 = fexp prec emax (Zdigits2 m + e) ->
  0 <= x /\ (-1074 <= e1 <= 970)%Z /\ x < bpow (e1 + 53) /\
  (e1 = (-1074)%Z \/ bpow (e1 + 52) <= x).
Proof.
  intros Hm Hin Hx Hle ->. destruct (inbetween_bounds _ _ _ _ Hin) as [Hlo Hhi].
  pose proof (bpow_pos e) as Hb. rewrite fexp_unfold in *.
  assert (0 <= IZR m) by (apply IZR_le; lia).
  assert (Hd : x < bpow (Zdigits2 m + e)).
  { destruct (Z.eq_dec m 0) as [->|Hne].
    - simpl Zdigits2. rewrite Z.add_0_l. lra.
    - destruct (Zdigits2_bounds m) as [_ Hb2]; [lia|].
      assert (0 <= Zdigits2 m)%Z by (destruct m; simpl; lia).
      rewrite bpow_add, bpow_IZR by assumption.
      assert (IZR m + 1 <= IZR (2 ^ Zdigits2 m)) by (rewrite <- plus_IZR; apply IZR_le; lia).
      apply Rlt_le_trans with (1 := Hhi). apply Rmult_le_compat_r; lra. }
  assert (Hlow : (0 < m)%Z -> bpow (Zdigits2 m + e - 1) <= x).
  { intros Hpos. destruct (Zdigits2_bounds m Hpos) as [Hb2 _].
    replace (Zdigits2 m + e - 1)%Z with ((Zdigits2 m - 1) + e)%Z by lia.
    assert (0 < Zdigits2 m)%Z by (destruct m; simpl; lia).
    rewrite bpow_add, bpow_IZR by lia. apply IZR_le in Hb2.
    apply Rle_trans with (2 := Hlo). apply Rmult_le_compat_r; lra. }
  split; [nra|]. split; [|split].
  - split; [lia|]. destruct (Z.eq_dec m 0) as [->|Hne].
    + simpl in *. lia.
    + specialize (Hlow ltac:(lia)).
      assert (Zdigits2 m + e - 1 < 1000)%Z by (apply bpow_lt_inv; lra). lia.
  - eapply Rlt_le_trans; [exact Hd|]. apply bpow_le. lia.
  - destruct (Z.le_gt_cases (Zdigits2 m + e - 53) (-1074)); [left; lia|right].
    destruct (Z.eq_dec m 0) as [->|Hne]; [simpl in *; lia|].
    eapply Rle_trans; [|apply Hlow; lia]. apply bpow_le. lia.
Qed.

Lemma sgn_abs s x : Rabs (sgn s * x) = Rabs x.
Proof. destruct s; simpl; [rewrite <- (Rabs_Ropp x)|]; f_equal; ring. Qed.

(** The rounding function of the format is a correct rounding. *)
Lemma round_aux_spec s m e l x :
  (0 <= m)%Z -> inbetween m e l x -> x < bpow 1000 ->
  (e <= fexp prec emax (Zdigits2 m + e))%Z ->
  rounded (sgn s * x) (binary_round_aux prec emax s m e l).
Proof.
  intros Hm Hin Hx Hle.
  destruct (round_exponent _ _ _ _ _ Hm Hin Hx Hle eq_refl) as (Hx0 & He1 & Hhi & Hlo).
  unfold binary_round_aux, shr_fexp at 1.
  destruct (shr (shr_record_of_loc m l) e _) as [mrs e1] eqn:Hshr.
  apply (shr_inbetween _ _ _ x) in Hshr;
    [|rewrite shr_m_record_of_loc; exact Hm
     |rewrite shr_m_record_of_loc, loc_of_shr_record_of_loc; exact Hin].
  destruct Hshr as (Hm1 & He & Hin1).
  assert (Ee : e1 = fexp prec emax (Zdigits2 m + e)) by lia.
  rewrite <- Ee in *. clear Ee He Hle Hin.
  destruct (inbetween_bounds _ _ _ _ Hin1) as [Hb1 Hb2].
  destruct (round_nearest_even_bounds _ _ _ _ Hin1) as [Hr1 Hr2].
  set (m2 := round_nearest_even _ _) in *.
  assert (Hm1hi : (shr_m mrs < 2 ^ 53)%Z).
  { replace 53%Z with ((e1 + 53) - e1)%Z by lia. apply IZR_lt_bpow; [lra|lia]. }
  assert (Hm1lo : (e1 = -1074 \/ 2 ^ 52 <= shr_m mrs)%Z).
  { destruct Hlo as [|Hlo]; [now left|right].
    assert (2 ^ 52 < shr_m mrs + 1)%Z; [|lia]. apply lt_IZR.
    rewrite bpow_add, (bpow_IZR 52), plus_IZR in * by lia. pose proof (bpow_pos e1). nra. }
  pose proof (finish_round s m2 e1 ltac:(lia) He1 ltac:(lia)) as Hf.
  destruct (shr_fexp prec emax m2 e1 loc_Exact) as [mrs2 e2].
  destruct Hf as (Hfin & Hcan & Hval). split; [exact Hfin|split; [exact Hcan|]].
  exists (if s then - m2 else m2)%Z, e1. rewrite Hval.
  assert (IZR (if s then - m2 else m2) = sgn s * IZR m2) as ->
    by (destruct s; simpl; rewrite ?opp_IZR; ring).
  split; [reflexivity|split].
  - replace (sgn s * IZR m2 * bpow e1 - sgn s * x) with (sgn s * (IZR m2 * bpow e1 - x)) by ring.
    rewrite sgn_abs. exact Hr2.
  - rewrite sgn_abs, Rabs_pos_eq by assumption.
    destruct Hlo as [->|Hlo]; [left; split; [reflexivity|lra]|right; lra || (split; [lia|lra])].
Qed.

(** ** The operations *)

Lemma canonical_inv s m e :
  canonical (S754_finite s m e) ->
  fexp prec emax (Zdigits2 (Zpos m) + e) = e /\ (-1074 <= e <= 971)%Z.
Proof.
  unfold canonical. simpl. unfold bounded, canonical_mantissa.
  rewrite andb_true_iff, Z.eqb_eq, Z.leb_le. change (emax - prec)%Z with 971%Z.
  intros [H1 H2]. split; [exact H1|]. rewrite fexp_unfold in H1. lia.
Qed.

Lemma shl_align_spec m e e' :
  let '(m', e'') := shl_align m e e' in
  IZR (Zpos m') * bpow e'' = IZR (Zpos m) * bpow e /\ e'' = Z.min e e'.
Proof.
  unfold shl_align. destruct (e' - e)%Z as [|d|d] eqn:E; try (split; [reflexivity|lia]).
  split; [|lia].
  assert (Hiter : Zpos (Pos.iter xO m d) = (Zpos m * 2 ^ Zpos d)%Z).
  { rewrite Pos2Nat.inj_iter, <- (positive_nat_Z d). clear E.
    induction (Pos.to_nat d) as [|k IH]; [cbn; lia|].
    rewrite Nat2Z.inj_succ, Z.pow_succ_r by lia.
    etransitivity; [exact (f_equal (Z.mul 2) IH)|]. ring. }
  rewrite Hiter, mult_IZR, (bpow_scale e e') by lia.
  replace (e - e')%Z with (Zpos d) by lia. ring.
Qed.

Lemma binary_round_spec s m e :
  IZR (Zpos m) * bpow e < bpow 1000 ->
  rounded (sgn s * (IZR (Zpos m) * bpow e)) (binary_round prec emax s m e).
Proof.
  intros Hx. unfold binary_round.
  pose proof (shl_align_spec m e (fexp prec emax (Zpos (digits2_pos m) + e))) as Hs.
  destruct (shl_align m e _) as [m' e'] eqn:E. destruct Hs as [Hval He'].
  apply round_aux_spec; [lia|now rewrite <- Hval|exact Hx|].
  change (Zpos (digits2_pos m)) with (Zdigits2 (Zpos m)) in *.
  destruct (Z.le_gt_cases e (fexp prec emax (Zdigits2 (Zpos m) + e))) as [Hle|Hgt].
  - unfold shl_align in E. destruct (fexp prec emax (Zdigits2 (Zpos m) + e) - e)%Z eqn:E2;
      try lia; injection E as -> ->; exact Hle.
  - (* shifted left to the target exponent: the digits shift with it *)
    assert (Hd : (Zdigits2 (Zpos m') + e' = Zdigits2 (Zpos m) + e)%Z).
    { destruct (Zdigits2_bounds (Zpos m)) as [H1 H2]; [lia|].
      assert (Hm' : Zpos m' = (Zpos m * 2 ^ (e - e'))%Z).
      { apply eq_IZR. rewrite mult_IZR. rewrite (bpow_scale e e') in Hval by lia.
        pose proof (bpow_pos e'). apply (Rmult_eq_reg_r (bpow e')); [|lra].
        rewrite Hval. ring. }
      assert (0 < Zdigits2 (Zpos m))%Z by reflexivity.
      rewrite (Zdigits2_unique (Zpos m') (Zdigits2 (Zpos m) + (e - e'))); [lia|lia|].
      rewrite Hm'. replace (Zdigits2 (Zpos m) + (e - e') - 1)%Z with ((Zdigits2 (Zpos m) - 1) + (e - e'))%Z by lia.
      rewrite !Z.pow_add_r by lia. pose proof (Z.pow_pos_nonneg 2 (e - e')). nia. }
    rewrite Hd. lia.
Qed.

Lemma rounded_zero s : rounded 0 (S754_zero s).
Proof.
  split; [reflexivity|split; [reflexivity|]]. exists 0%Z, (-1074)%Z.
  simpl val. rewrite Rminus_0_r, Rabs_R0.
  pose proof (bpow_pos (-1074)). pose proof (bpow_pos (-1074 + 53)).
  split; [ring|split; [lra|left; split; [reflexivity|assumption]]].
Qed.

Lemma normalize_spec m e s :
  Rabs (IZR m * bpow e) < bpow 1000 ->
  rounded (IZR m * bpow e) (binary_normalize prec emax m e s).
Proof.
  pose proof (bpow_pos e). destruct m as [|p|p]; intros Hx; cbn [binary_normalize].
  - rewrite Rmult_0_l. apply rounded_zero.
  - replace (IZR (Zpos p) * bpow e) with (sgn false * (IZR (Zpos p) * bpow e)) by (simpl; ring).
    apply binary_round_spec. rewrite Rabs_pos_eq in Hx; [exact Hx|].
    apply Rmult_le_pos; [apply IZR_le; lia|lra].
  - rewrite <- Pos2Z.opp_pos, opp_IZR, Ropp_mult_distr_l_reverse, Rabs_Ropp in *.
    replace (- (IZR (Zpos p) * bpow e)) with (sgn true * (IZR (Zpos p) * bpow e)) by (simpl; ring).
    apply binary_round_spec. rewrite Rabs_pos_eq in Hx; [exact Hx|].
    apply Rmult_le_pos; [apply IZR_le; lia|lra].
Qed.

Lemma bpow_1000 z : (z < 2 ^ 1000)%Z -> IZR z < bpow 1000.
Proof. intros H. rewrite bpow_IZR by lia. now apply IZR_lt. Qed.

Lemma of_int_spec n : (Z.abs n < 2 ^ 1000)%Z -> rounded (IZR n) (of_int n).
Proof.
  intros Hn. pose proof (normalize_spec n 0 false) as H. rewrite bpow_0, Rmult_1_r in H.
  apply H. rewrite <- abs_IZR. now apply bpow_1000.
Qed.

(** A finite canonical value rounds to itself. *)
Lemma rounded_self f : is_finite f = true -> canonical f -> rounded (val f) f.
Proof.
  intros Hf Hc. destruct f as [s| | |s m e]; try discriminate; [apply rounded_zero|].
  split; [reflexivity|split; [exact Hc|]]. apply canonical_inv in Hc as [Hc He].
  exists (if s then Zneg m else Zpos m), e.
  replace (val (S754_finite s m e) - _) with 0 by ring. rewrite Rabs_R0.
  pose proof (bpow_pos e) as Hb. split; [|split; [lra|]].
  { destruct s; cbn [val sgn]; [change (Zneg m) with (- Zpos m)%Z; rewrite (opp_IZR (Zpos m))|]; ring. }
  cbn [val]. rewrite Rmult_assoc, sgn_abs, Rabs_pos_eq by (apply Rmult_le_pos; [apply IZR_le; lia|lra]).
  destruct (Zdigits2_bounds (Zpos m)) as [H1 H2]; [lia|]. apply IZR_le in H1. apply IZR_lt in H2.
  assert (0 < Zdigits2 (Zpos m))%Z by reflexivity.
  rewrite <- !bpow_IZR in * by lia.
  rewrite fexp_unfold in Hc.
  assert (Hhi : IZR (Zpos m) * bpow e < bpow (e + 53)).
  { rewrite Z.add_comm, bpow_add. apply Rmult_lt_compat_r; [assumption|].
    eapply Rlt_le_trans; [exact H2|]. apply bpow_le. lia. }
  destruct (Z.eq_dec e (-1074)) as [->|Hne]; [left; split; [reflexivity|assumption]|right].
  split; [lia|split; [|assumption]].
  rewrite Z.add_comm, bpow_add. apply Rmult_le_compat_r; [lra|].
  eapply Rle_trans; [|exact H1]. apply bpow_le. lia.
Qed.

Lemma val_cond_Zopp s m e : IZR (cond_Zopp s (Zpos m)) * bpow e = val (S754_finite s m e).
Proof. destruct s; cbn [cond_Zopp val sgn]; rewrite ?(opp_IZR (Zpos m)); ring. Qed.

Lemma align_val s m e ez :
  (ez <= e)%Z ->
  IZR (cond_Zopp s (Zpos (fst (shl_align m e ez)))) * bpow ez = val (S754_finite s m e).
Proof.
  intros H. pose proof (shl_align_spec m e ez) as Hs.
  destruct (shl_align m e ez) as [m' e'']. destruct Hs as [Hv He]. cbn [fst].
  replace (Z.min e ez) with ez in He by lia. subst e''.
  rewrite val_cond_Zopp. cbn [val]. rewrite !Rmult_assoc, Hv. reflexivity.
Qed.

Lemma fadd_spec f g :
  is_finite f = true -> is_finite g = true -> canonical f -> canonical g ->
  Rabs (val f + val g) < bpow 1000 -> rounded (val f + val g) (fadd f g).
Proof.
  intros Hf Hg Cf Cg Hx. unfold fadd, SFadd.
  destruct f as [s| | |s m e], g as [s'| | |s' m' e']; try discriminate.
  - rewrite Rplus_0_r. destruct s, s'; apply rounded_zero.
  - change (val (S754_zero s)) with 0. rewrite Rplus_0_l. now apply rounded_self.
  - change (val (S754_zero s')) with 0. rewrite Rplus_0_r. now apply rounded_self.
  - cbn zeta. set (ez := Z.min e e').
    assert (E : val (S754_finite s m e) + val (S754_finite s' m' e') =
      IZR (cond_Zopp s (Zpos (fst (shl_align m e ez))) + cond_Zopp s' (Zpos (fst (shl_align m' e' ez)))) * bpow ez).
    { rewrite plus_IZR, Rmult_plus_distr_r, !align_val by lia. reflexivity. }
    rewrite E in *. now apply normalize_spec.
Qed.

Lemma fsub_spec f g :
  is_finite f = true -> is_finite g = true -> canonical f -> canonical g ->
  Rabs (val f - val g) < bpow 1000 -> rounded (val f - val g) (fsub f g).
Proof.
  intros Hf Hg Cf Cg Hx. unfold fsub, SFsub.
  destruct f as [s| | |s m e], g as [s'| | |s' m' e']; try discriminate.
  - rewrite Rminus_0_r. destruct s, s'; apply rounded_zero.
  - assert (E : val (S754_zero s) - val (S754_finite s' m' e') = val (S754_finite (negb s') m' e'))
      by (destruct s'; simpl; ring).
    rewrite E. apply rounded_self; [reflexivity|exact Cg].
  - change (val (S754_zero s')) with 0. rewrite Rminus_0_r. now apply rounded_self.
  - cbn zeta. set (ez := Z.min e e').
    assert (E : val (S754_finite s m e) - val (S754_finite s' m' e') =
      IZR (cond_Zopp s (Zpos (fst (shl_align m e ez))) - cond_Zopp s' (Zpos (fst (shl_align m' e' ez)))) * bpow ez).
    { rewrite minus_IZR, Rmult_minus_distr_r, !align_val by lia. reflexivity. }
    rewrite E in *. now apply normalize_spec.
Qed.

Lemma Zdigits2_ge m d : (0 <= d)%Z -> (2 ^ (d - 1) <= m)%Z -> (0 < m)%Z -> (d <= Zdigits2 m)%Z.
Proof.
  intros Hd H Hm. destruct (Zdigits2_bounds m Hm) as [_ Hb].
  assert (0 < Zdigits2 m)%Z by (destruct m; simpl; lia).
  assert (d - 1 < Zdigits2 m)%Z by (apply (Z.pow_lt_mono_r_iff 2); lia). lia.
Qed.

Lemma sgn_xorb s s' : sgn (xorb s s') = sgn s * sgn s'.
Proof. destruct s, s'; simpl; ring. Qed.

Lemma IZR_pos_bpow_nonneg m e : 0 < IZR (Zpos m) * bpow e.
Proof. apply Rmult_lt_0_compat; [apply IZR_lt; lia|apply bpow_pos]. Qed.

(** Two canonical mantissas multiply to enough digits for one rounding. *)
Lemma mul_exponent m e m' e' :
  fexp prec emax (Zdigits2 (Zpos m) + e) = e -> fexp prec emax (Zdigits2 (Zpos m') + e') = e' ->
  (e + e' <= fexp prec emax (Zdigits2 (Zpos (m * m')) + (e + e')))%Z.
Proof.
  rewrite !fexp_unfold. intros H H'.
  destruct (Zdigits2_bounds (Zpos m)) as [A _]; [lia|].
  destruct (Zdigits2_bounds (Zpos m')) as [A' _]; [lia|].
  assert (0 < Zdigits2 (Zpos m))%Z by reflexivity.
  assert (0 < Zdigits2 (Zpos m'))%Z by reflexivity.
  set (d := Zdigits2 (Zpos m)) in *. set (d' := Zdigits2 (Zpos m')) in *.
  assert (d + d' - 1 <= Zdigits2 (Zpos (m * m')))%Z; [|lia].
  apply Zdigits2_ge; [lia| |lia]. rewrite Pos2Z.inj_mul.
  replace (d + d' - 1 - 1)%Z with ((d - 1) + (d' - 1))%Z by lia.
  rewrite Z.pow_add_r by lia. apply Z.mul_le_mono_nonneg; lia.
Qed.

Lemma fmul_spec f g :
  is_finite f = true -> is_finite g = true -> canonical f -> canonical g ->
  Rabs (val f * val g) < bpow 1000 -> rounded (val f * val g) (fmul f g).
Proof.
  intros Hf Hg Cf Cg Hx. unfold fmul, SFmul.
  destruct f as [s| | |s m e], g as [s'| | |s' m' e']; try discriminate.
  - change (val (S754_zero s)) with 0. rewrite Rmult_0_l. apply rounded_zero.
  - change (val (S754_zero s)) with 0. rewrite Rmult_0_l. apply rounded_zero.
  - change (val (S754_zero s')) with 0. rewrite Rmult_0_r. apply rounded_zero.
  - apply canonical_inv in Cf as [Cf _]. apply canonical_inv in Cg as [Cg _].
    set (x := IZR (Zpos (m * m')) * bpow (e + e')).
    assert (E : val (S754_finite s m e) * val (S754_finite s' m' e') = sgn (xorb s s') * x).
    { unfold x. cbn [val]. rewrite sgn_xorb, Pos2Z.inj_mul, mult_IZR, bpow_add. ring. }
    rewrite E in *. rewrite sgn_abs, Rabs_pos_eq in Hx by apply Rlt_le, IZR_pos_bpow_nonneg.
    apply round_aux_spec; [lia|reflexivity|exact Hx|now apply mul_exponent].
Qed.

Lemma new_location_spec q e nb k x :
  (0 <= k < nb)%Z -> x = (IZR q + IZR k / IZR nb) * bpow e ->
  inbetween q e (new_location nb k) x.
Proof.
  intros Hk ->. pose proof (bpow_pos e) as Hb.
  assert (Hnb : 0 < IZR nb) by (apply IZR_lt; lia).
  set (t := IZR k / IZR nb).
  assert (Ht : t * IZR nb = IZR k) by (unfold t; field; lra).
  assert (Ht0 : k = 0%Z -> t = 0) by (intros ->; unfold t; field; lra).
  assert (Hpos : (k <> 0)%Z -> 0 < t) by
    (intros; apply Rdiv_lt_0_compat; [apply IZR_lt; lia|assumption]).
  assert (Hlt1 : t < 1).
  { assert (IZR k < IZR nb) by (apply IZR_lt; lia). nra. }
  assert (Hlt : (2 * k < nb)%Z -> t < / 2).
  { intros H. apply IZR_lt in H. rewrite mult_IZR in H. nra. }
  assert (Heq : (2 * k = nb)%Z -> t = / 2).
  { intros H. apply (f_equal IZR) in H. rewrite mult_IZR in H. nra. }
  assert (Hgt : (2 * k > nb)%Z -> / 2 < t).
  { intros H. apply Z.gt_lt, IZR_lt in H. rewrite mult_IZR in H. nra. }
  clearbody t. unfold new_location, new_location_even, new_location_odd.
  destruct (Z.even nb) eqn:Hev; (destruct (Z.eqb_spec k 0) as [Hk0|Hk0];
    [simpl; rewrite (Ht0 Hk0); ring|]); specialize (Hpos Hk0).
  - destruct (Z.compare_spec (2 * k) nb) as [H|H|H]; simpl.
    + rewrite (Heq H). reflexivity.
    + specialize (Hlt H). nra.
    + specialize (Hgt (Z.lt_gt _ _ H)). nra.
  - destruct (Z.compare_spec (2 * k + 1) nb) as [H|H|H]; simpl.
    + specialize (Hlt ltac:(lia)). nra.
    + specialize (Hlt ltac:(lia)). nra.
    + assert (2 * k <> nb)%Z by (intros <-; rewrite Z.even_mul in Hev; discriminate).
      specialize (Hgt ltac:(lia)). nra.
Qed.

(** The quotient computed by [SFdiv_core_binary] has enough digits. *)
Lemma div_exponent m1 m2 q r s :
  (0 < m1)%Z -> (0 < m2)%Z -> (0 <= s)%Z -> (m1 * 2 ^ s = m2 * q + r)%Z -> (0 <= r < m2)%Z ->
  (0 <= q)%Z /\ (Zdigits2 m1 + s - Zdigits2 m2 <= Zdigits2 q)%Z.
Proof.
  intros H1 H2 Hs Hq Hr. pose proof (Z.pow_pos_nonneg 2 s).
  assert (Hq0 : (0 <= q)%Z) by nia. split; [exact Hq0|].
  destruct (Z.le_gt_cases (Zdigits2 m1 + s - Zdigits2 m2) 0) as [Hle|Hgt];
    [assert (0 <= Zdigits2 q)%Z by (destruct q; simpl; lia); lia|].
  destruct (Zdigits2_bounds m1 H1) as [A _]. destruct (Zdigits2_bounds m2 H2) as [_ B].
  assert (0 < Zdigits2 m1)%Z by (destruct m1; simpl; lia).
  assert (0 < Zdigits2 m2)%Z by (destruct m2; simpl; lia).
  set (d1 := Zdigits2 m1) in *. set (d2 := Zdigits2 m2) in *.
  assert (E : (2 ^ (d1 - 1) * 2 ^ s = 2 ^ (d1 + s - d2 - 1) * 2 ^ d2)%Z).
  { rewrite <- !Z.pow_add_r by lia. f_equal. lia. }
  assert (Hbig : (2 ^ (d1 + s - d2 - 1) < q + 1)%Z).
  { apply (Z.mul_lt_mono_pos_r (2 ^ d2)); [lia|]. rewrite <- E. nia. }
  pose proof (Z.pow_pos_nonneg 2 (d1 + s - d2 - 1)).
  apply Zdigits2_ge; lia.
Qed.

Lemma fdiv_spec f g :
  is_finite f = true -> is_finite g = true -> val g <> 0 ->
  Rabs (val f / val g) < bpow 1000 -> rounded (val f / val g) (fdiv f g).
Proof.
  intros Hf Hg Hg0 Hx. unfold fdiv, SFdiv.
  destruct f as [s| | |s m e], g as [s'| | |s' m' e']; try discriminate;
    try (simpl in Hg0; lra).
  { change (val (S754_zero s)) with 0. unfold Rdiv. rewrite Rmult_0_l. apply rounded_zero. }
  unfold SFdiv_core_binary. cbn zeta.
  set (d := (Zdigits2 (Zpos m) + e - (Zdigits2 (Zpos m') + e'))%Z).
  set (e2 := Z.min (fexp prec emax d) (e - e')). set (n := (e - e' - e2)%Z).
  assert (Hn : (0 <= n)%Z) by lia.
  replace (match n with Z0 => Zpos m | Zpos _ => Z.shiftl (Zpos m) n | Zneg _ => 0%Z end)
    with (Zpos m * 2 ^ n)%Z by (destruct n eqn:En; [cbn; lia|rewrite Z.shiftl_mul_pow2 by lia; reflexivity|lia]).
  pose proof (Z_div_mod (Zpos m * 2 ^ n) (Zpos m') ltac:(lia)) as Hdm.
  destruct (Z.div_eucl (Zpos m * 2 ^ n) (Zpos m')) as [q r]. destruct Hdm as [Hq Hr].
  destruct (div_exponent (Zpos m) (Zpos m') q r n) as [Hq0 Hqd]; try lia.
  set (x := (IZR q + IZR r / IZR (Zpos m')) * bpow e2).
  assert (Hm' : 0 < IZR (Zpos m')) by (apply IZR_lt; lia).
  assert (E : val (S754_finite s m e) / val (S754_finite s' m' e') = sgn (xorb s s') * x).
  { apply (f_equal IZR) in Hq. rewrite plus_IZR, !mult_IZR in Hq.
    assert (Eb : bpow e = IZR (2 ^ n) * bpow e2 * bpow e').
    { rewrite <- bpow_IZR by lia. rewrite <- !bpow_add. f_equal. lia. }
    unfold x. cbn [val]. rewrite sgn_xorb, Eb. pose proof (bpow_pos e'). pose proof (bpow_pos e2).
    replace (sgn s * IZR (Zpos m) * (IZR (2 ^ n) * bpow e2 * bpow e'))
      with (sgn s * (IZR (Zpos m) * IZR (2 ^ n)) * bpow e2 * bpow e') by ring.
    rewrite Hq. destruct s'; simpl sgn; field; lra. }
  rewrite E in *. rewrite sgn_abs in Hx.
  apply round_aux_spec; [exact Hq0|now apply new_location_spec| |].
  - eapply Rle_lt_trans; [apply Rle_abs|exact Hx].
  - assert (e2 <= Z.max (d - 53) (-1074))%Z by (unfold e2; rewrite fexp_unfold; lia).
    rewrite fexp_unfold. unfold n, d in *. lia.
Qed.

(** ** Consequences of correct rounding *)

Lemma rounded_finite x f : rounded x f -> is_finite f = true.
Proof. now intros []. Qed.

Lemma rounded_canonical x f : rounded x f -> canonical f.
Proof. now intros (_ & H & _). Qed.

(** The relative error is at most [2^-53], the absolute one at most [2^-1075]
    below the normal range. *)
Lemma rounded_error x f :
  rounded x f -> Rabs (val f - x) <= Rabs x * bpow (-53) + bpow (-1075).
Proof.
  intros (_ & _ & m & e & _ & Herr & He).
  eapply Rle_trans; [exact Herr|]. rewrite <- bpow_half.
  pose proof (bpow_pos (-1075)). pose proof (bpow_pos (-53)). pose proof (Rabs_pos x).
  destruct He as [[-> _]|(_ & Hlo & _)].
  - change (-1074 - 1)%Z with (-1075)%Z. nra.
  - replace (e - 1)%Z with ((e + 52) + (-53))%Z by lia. rewrite bpow_add. nra.
Qed.

(** A result closer than a quarter of a unit in the last place to an integer
    is that integer. *)
Lemma rounded_int x f n :
  rounded x f -> (1 <= Z.abs n < 2 ^ 53)%Z ->
  Rabs (x - IZR n) < Rabs x * bpow (-54) -> val f = IZR n.
Proof.
  intros (_ & _ & m & e & Hval & Herr & He) Hn Hx.
  assert (Hsmall : bpow (-54) < / 2).
  { replace (/ 2) with (bpow (-1)) by (unfold bpow; simpl; lra).
    apply Rlt_le_trans with (bpow (-54 + 1)); [rewrite bpow_succ; pose proof (bpow_pos (-54)); lra|].
    apply bpow_le. lia. }
  pose proof (bpow_pos (-54)) as Hb54.
  assert (Hn1 : 1 <= Rabs (IZR n)) by (rewrite <- abs_IZR; apply IZR_le; lia).
  assert (Hn2 : Rabs (IZR n) <= bpow 53 - 1).
  { rewrite <- abs_IZR, bpow_IZR, <- minus_IZR by lia. apply IZR_le. lia. }
  assert (Htri : Rabs (IZR n) <= Rabs x + Rabs (x - IZR n)).
  { replace (IZR n) with (x - (x - IZR n)) at 1 by ring.
    eapply Rle_trans; [apply Rabs_triang|]. rewrite Rabs_Ropp. lra. }
  assert (Htri2 : Rabs x <= Rabs (IZR n) + Rabs (x - IZR n)).
  { replace x with (IZR n + (x - IZR n)) at 1 by ring. apply Rabs_triang. }
  destruct He as [[-> Hsub]|(_ & Hlo & Hhi)].
  { assert (bpow (-1074 + 53) <= bpow (-1)) by (apply bpow_le; lia).
    assert (bpow (-1) = / 2) by (unfold bpow; simpl; lra). nra. }
  assert (He0 : (e <= 0)%Z).
  { assert (e + 52 < 53)%Z; [|lia]. apply bpow_lt_inv.
    assert (bpow 53 * bpow (-54) = / 2) by (rewrite <- bpow_add; unfold bpow; simpl; lra). nra. }
  assert (E : IZR n = IZR (n * 2 ^ (- e)) * bpow e).
  { rewrite mult_IZR, <- bpow_IZR, Rmult_assoc, <- bpow_add by lia.
    replace (- e + e)%Z with 0%Z by lia. rewrite bpow_0. ring. }
  assert (Hclose : Rabs (val f - IZR n) < bpow e).
  { replace (val f - IZR n) with ((val f - x) + (x - IZR n)) by ring.
    eapply Rle_lt_trans; [apply Rabs_triang|].
    assert (Rabs x * bpow (-54) < bpow e / 2); [|lra].
    rewrite <- bpow_half. replace (e - 1)%Z with ((e + 53) + (-54))%Z by lia.
    rewrite bpow_add. apply Rmult_lt_compat_r; assumption. }
  rewrite E, Hval in *. clear E Hval. pose proof (bpow_pos e).
  rewrite <- Rmult_minus_distr_r, <- minus_IZR, Rabs_mult, (Rabs_pos_eq (bpow e)), <- abs_IZR in Hclose by lra.
  assert (Z.abs (m - n * 2 ^ (- e)) < 1)%Z by (apply lt_IZR; nra).
  replace m with (n * 2 ^ (- e))%Z by lia. reflexivity.
Qed.

(** The grid point closer than half a step is the result. *)
Lemma rounded_grid x f j k :
  rounded x f -> (-1074 <= k)%Z -> bpow (k + 52) <= Rabs x < bpow (k + 53) ->
  Rabs (x - IZR j * bpow k) < bpow k / 2 -> val f = IZR j * bpow k.
Proof.
  intros (_ & _ & m & e & Hval & Herr & He) Hk Hx Hj.
  assert (e = k) as ->.
  { destruct He as [[-> Hsub]|(He & Hlo & Hhi)].
    - assert (k + 52 < -1074 + 53)%Z by (apply bpow_lt_inv; lra). lia.
    - assert (k + 52 < e + 53)%Z by (apply bpow_lt_inv; lra).
      assert (e + 52 < k + 53)%Z by (apply bpow_lt_inv; lra). lia. }
  rewrite Hval in *. pose proof (bpow_pos k).
  assert (Hd : Rabs (IZR m * bpow k - IZR j * bpow k) < bpow k).
  { replace (IZR m * bpow k - IZR j * bpow k)
      with ((IZR m * bpow k - x) + (x - IZR j * bpow k)) by ring.
    eapply Rle_lt_trans; [apply Rabs_triang|]. lra. }
  rewrite <- Rmult_minus_distr_r, <- minus_IZR, Rabs_mult, (Rabs_pos_eq (bpow k)), <- abs_IZR in Hd by lra.
  assert (Z.abs (m - j) < 1)%Z by (apply lt_IZR; nra).
  replace m with j by lia. reflexivity.
Qed.

Lemma of_int_exact n : (Z.abs n < 2 ^ 53)%Z -> val (of_int n) = IZR n.
Proof.
  intros Hn. destruct (Z.eq_dec n 0) as [->|Hne]; [reflexivity|].
  eapply rounded_int; [apply of_int_spec; lia|lia|].
  rewrite Rminus_diag, Rabs_R0. apply Rmult_lt_0_compat; [|apply bpow_pos].
  apply Rabs_pos_lt, not_0_IZR. assumption.
Qed.

(** ** Comparisons and truncation *)

Lemma finite_pos_lt m e m' e' :
  fexp prec emax (Zdigits2 (Zpos m) + e) = e -> fexp prec emax (Zdigits2 (Zpos m') + e') = e' ->
  (e < e')%Z -> IZR (Zpos m) * bpow e < IZR (Zpos m') * bpow e'.
Proof.
  rewrite !fexp_unfold. intros H H' Hlt.
  destruct (Zdigits2_bounds (Zpos m)) as [_ A]; [lia|].
  destruct (Zdigits2_bounds (Zpos m')) as [B _]; [lia|].
  assert (0 < Zdigits2 (Zpos m))%Z by reflexivity.
  assert (0 < Zdigits2 (Zpos m'))%Z by reflexivity.
  apply IZR_lt in A. apply IZR_le in B. rewrite <- bpow_IZR in A, B by lia.
  pose proof (bpow_pos e). pose proof (bpow_pos e').
  apply Rlt_le_trans with (bpow (Zdigits2 (Zpos m) + e)); [rewrite bpow_add; nra|].
  apply Rle_trans with (bpow (Zdigits2 (Zpos m') - 1 + e')); [apply bpow_le; lia|].
  rewrite bpow_add. nra.
Qed.

Lemma finite_pos_lt_iff m e m' e' :
  fexp prec emax (Zdigits2 (Zpos m) + e) = e -> fexp prec emax (Zdigits2 (Zpos m') + e') = e' ->
  IZR (Zpos m) * bpow e < IZR (Zpos m') * bpow e' <->
  (e < e' \/ e = e' /\ Zpos m < Zpos m')%Z.
Proof.
  intros H H'. destruct (Z.lt_trichotomy e e') as [Hlt|[<-|Hgt]].
  - pose proof (finite_pos_lt _ _ _ _ H H' Hlt). split; [lia|auto].
  - pose proof (bpow_pos e). split; intros Hm.
    + right. split; [reflexivity|]. apply lt_IZR. nra.
    + apply Rmult_lt_compat_r; [assumption|]. apply IZR_lt. lia.
  - pose proof (finite_pos_lt _ _ _ _ H' H Hgt). split; [lra|lia].
Qed.

(** Splits an equivalence whose sides are decided by integer or real
    arithmetic, whatever the other side says. *)
Ltac arith_split :=
  split; intros; first [lra | lia | exfalso; lia | exfalso; lra].

(** [f < g] is the order of the values. *)
Lemma fltb_val f g :
  is_finite f = true -> is_finite g = true -> canonical f -> canonical g ->
  fltb f g = true <-> val f < val g.
Proof.
  intros Hf Hg Cf Cg. rewrite fltb_lex by now apply is_finite_not_nan.
  destruct f as [s| | |s m e], g as [s'| | |s' m' e']; try discriminate;
    try (apply canonical_inv in Cf as [Cf _]); try (apply canonical_inv in Cg as [Cg _]).
  - simpl. arith_split.
  - pose proof (IZR_pos_bpow_nonneg m' e'). destruct s'; cbn [val sgn fkey lex_lt];
      rewrite Rmult_assoc; arith_split.
  - pose proof (IZR_pos_bpow_nonneg m e). destruct s; cbn [val sgn fkey lex_lt];
      rewrite Rmult_assoc; arith_split.
  - pose proof (IZR_pos_bpow_nonneg m e). pose proof (IZR_pos_bpow_nonneg m' e').
    destruct s, s'; cbn [val sgn fkey lex_lt]; rewrite !Rmult_assoc.
    + pose proof (finite_pos_lt_iff m' e' m e Cg Cf). split; intros Hl.
      * enough (IZR (Zpos m') * bpow e' < IZR (Zpos m) * bpow e) by lra. apply H1. lia.
      * assert (Hl' : IZR (Zpos m') * bpow e' < IZR (Zpos m) * bpow e) by lra. apply H1 in Hl'. lia.
    + arith_split.
    + arith_split.
    + pose proof (finite_pos_lt_iff m e m' e' Cf Cg). split; intros Hl.
      * enough (IZR (Zpos m) * bpow e < IZR (Zpos m') * bpow e') by lra. apply H1. lia.
      * assert (Hl' : IZR (Zpos m) * bpow e < IZR (Zpos m') * bpow e') by lra. apply H1 in Hl'. lia.
Qed.

Lemma fleb_val f g :
  is_finite f = true -> is_finite g = true -> canonical f -> canonical g ->
  fleb f g = true <-> val f <= val g.
Proof.
  intros Hf Hg Cf Cg. rewrite fleb_negb by now apply is_finite_not_nan.
  rewrite negb_true_iff. pose proof (fltb_val g f Hg Hf Cg Cf) as H.
  destruct (fltb g f); split; intros; try discriminate; try reflexivity.
  - assert (val g < val f) by now apply H. lra.
  - apply Rnot_lt_le. intros Hl. apply H in Hl. discriminate.
Qed.

Lemma pos_floor m e :
  let z := if (0 <=? e)%Z then (Zpos m * 2 ^ e)%Z else (Zpos m / 2 ^ (- e))%Z in
  IZR z <= IZR (Zpos m) * bpow e < IZR z + 1.
Proof.
  destruct (Z.leb_spec 0 e) as [He|He]; cbn zeta.
  - rewrite mult_IZR, <- bpow_IZR by assumption. lra.
  - pose proof (Z.pow_pos_nonneg 2 (- e)) as Hp.
    assert (Hbe : bpow e * IZR (2 ^ (- e)) = 1) by (rewrite <- bpow_IZR by lia; apply bpow_opp).
    pose proof (Z_div_mod_eq_full (Zpos m) (2 ^ (- e))) as Hd.
    pose proof (Z.mod_pos_bound (Zpos m) (2 ^ (- e)) ltac:(lia)) as Hr.
    set (q := (Zpos m / 2 ^ (- e))%Z) in *. set (r := (Zpos m mod 2 ^ (- e))%Z) in *.
    set (P := (2 ^ (- e))%Z) in *. pose proof (bpow_pos e).
    assert (IZR 0 <= IZR r < IZR P) as [] by (split; [apply IZR_le|apply IZR_lt]; lia).
    rewrite Hd, plus_IZR, mult_IZR.
    replace ((IZR P * IZR q + IZR r) * bpow e)
      with (IZR q * (bpow e * IZR P) + IZR r * bpow e) by ring.
    rewrite Hbe. assert (0 <= IZR r * bpow e < 1) by (split; nra). lra.
Qed.

(** Truncation toward zero. *)
Lemma trunc_val f :
  is_finite f = true ->
  exists z, trunc f = Some z /\
    (0 <= val f -> IZR z <= val f < IZR z + 1) /\ (val f <= 0 -> IZR z - 1 < val f <= IZR z).
Proof.
  intros Hf. destruct f as [s| | |s m e]; try discriminate; cbn [trunc].
  - exists 0%Z. simpl. split; [reflexivity|lra].
  - pose proof (pos_floor m e) as Hz. cbn zeta in Hz. eexists. split; [reflexivity|].
    set (z := if (0 <=? e)%Z then _ else _) in *. pose proof (IZR_pos_bpow_nonneg m e).
    destruct s; cbn [val sgn]; rewrite ?(opp_IZR z); rewrite Rmult_assoc; lra.
Qed.

(** A non-negative result below [2^62] truncates to its integer part. *)
Lemma to_int_floor undef f z :
  is_finite f = true -> (0 <= z < 2 ^ 62)%Z -> IZR z <= val f < IZR z + 1 ->
  to_int undef f = z.
Proof.
  intros Hf Hz Hv. destruct (trunc_val f Hf) as (t & Ht & Hp & _).
  unfold to_int. rewrite Ht.
  assert (0 <= IZR z) by (apply IZR_le; lia). specialize (Hp ltac:(lra)).
  assert (t = z) as ->.
  { assert (t < z + 1)%Z by (apply lt_IZR; rewrite plus_IZR; lra).
    assert (z < t + 1)%Z by (apply lt_IZR; rewrite plus_IZR; lra). lia. }
  unfold int64_min, int64_max.
  destruct (Z.leb_spec (- 2 ^ 63) z); [|lia]. destruct (Z.leb_spec z (2 ^ 63 - 1)); [reflexivity|lia].
Qed.
