(* ===== verification/GoRuntime.v ===== *)
(** * GoRuntime: what the Go language leaves to an implementation

    Three behaviours the source relies on are not determined by the language:
    the order in which [range] visits a map, the order [sort.Slice] gives to
    elements its [less] does not distinguish, and the value of [int64(f)] when
    [f] is out of range.  [GoRuntime] is the interface of an implementation;
    every theorem of the development is proved for all of them.
    [reference_runtime] is one implementation, used to evaluate examples. *)
From S2P Require Import Prelude Float64.
From stdpp Require Import options.

(** ** Strict weak orders on the elements of a list *)

Record strict_weak_on {A} (less : A -> A -> bool) (l : list A) : Prop := {
  swo_asym a b : a ∈ l -> b ∈ l -> less a b = true -> less b a = false;
  swo_cotrans a b c : a ∈ l -> b ∈ l -> c ∈ l ->
    less a b = true -> less a c = true \/ less c b = true
}.

(** [a] may stand before [b] in a slice sorted by [less]. *)
Definition before {A} (less : A -> A -> bool) (a b : A) : Prop := less b a = false.

Lemma before_trans {A} (less : A -> A -> bool) l a b c :
  strict_weak_on less l -> a ∈ l -> b ∈ l -> c ∈ l ->
  before less a b -> before less b c -> before less a c.
Proof.
  unfold before. intros Hless Ha Hb Hc Hab Hbc.
  destruct (less c a) eqn:E; [|done].
  destruct (swo_cotrans _ _ Hless c a b Hc Ha Hb E); congruence.
Qed.

Lemma strict_weak_on_perm {A} (less : A -> A -> bool) l l' :
  l ≡ₚ l' -> strict_weak_on less l -> strict_weak_on less l'.
Proof.
  intros Hp [H1 H2]. split; intros *; rewrite <- !Hp; eauto.
Qed.

Lemma strict_weak_on_cons {A} (less : A -> A -> bool) x l :
  strict_weak_on less (x :: l) -> strict_weak_on less l.
Proof. intros [H1 H2]. split; intros *; rewrite ?elem_of_cons in *; eauto 6 using list_elem_of_further. Qed.

(** ** The interface *)

Class GoRuntime := {
  (** [for k, v := range m]: the entries of [m] in the order the
      implementation chooses at the program point [site]. *)
  go_range {K A} `{Countable K} : string -> gmap K A -> list (K * A);
  go_range_perm {K A} `{Countable K} site (m : gmap K A) :
    go_range site m ≡ₚ map_to_list m;
  (** [sort.Slice(s, less)] *)
  go_sort {A} : (A -> A -> bool) -> list A -> list A;
  go_sort_perm {A} (less : A -> A -> bool) l : go_sort less l ≡ₚ l;
  go_sort_sorted {A} (less : A -> A -> bool) l :
    strict_weak_on less l -> StronglySorted (before less) (go_sort less l);
  (** [int64(f)] of an out-of-range [f] *)
  go_f2i : f64 -> Z;
  go_f2i_range f : int64 (go_f2i f)
}.

Section range.
Context `{GoRuntime} {K A : Type} `{Countable K}.
Implicit Types (m : gmap K A).

Lemma elem_of_go_range site m k v : (k, v) ∈ go_range site m <-> m !! k = Some v.
Proof. rewrite go_range_perm. apply elem_of_map_to_list. Qed.

Lemma go_range_NoDup site m : NoDup (go_range site m).*1.
Proof. rewrite go_range_perm. apply NoDup_fst_map_to_list. Qed.

Lemma go_range_values site m v : v ∈ (go_range site m).*2 <-> exists k, m !! k = Some v.
Proof.
  rewrite list_elem_of_fmap. split.
  - intros ([k v'] & -> & Hin). exists k. by apply elem_of_go_range in Hin.
  - intros [k Hk]. exists (k, v). split; [done|]. by apply elem_of_go_range.
Qed.

Lemma go_range_keys site m k : k ∈ (go_range site m).*1 <-> is_Some (m !! k).
Proof.
  rewrite list_elem_of_fmap. split.
  - intros ([k' v] & -> & Hin). apply elem_of_go_range in Hin. eauto.
  - intros [v Hk]. exists (k, v). split; [done|]. by apply elem_of_go_range.
Qed.
End range.

(** A loop over a map that rewrites the entry it visits, whatever the order. *)
Section range_update.
Context {K A : Type} `{Countable K} (f : K -> A -> A).

Lemma foldl_update_lookup (l : list (K * A)) (acc : gmap K A) k :
  NoDup l.*1 -> (forall k v, (k, v) ∈ l -> acc !! k = Some v) ->
  foldl (fun m '(k, v) => <[k := f k v]> m) acc l !! k =
    (if decide (k ∈ l.*1) then f k <$> acc !! k else acc !! k).
Proof.
  revert acc. induction l as [|[k' v] l IH]; intros acc Hnd Hl; [done|].
  cbn [foldl]. rewrite fmap_cons in Hnd. apply NoDup_cons in Hnd as [Hk' Hnd].
  rewrite IH; [|done|].
  - rewrite fmap_cons. cbn [fst]. destruct (decide (k = k')) as [->|Hne].
    + rewrite decide_False by done. rewrite decide_True by left.
      rewrite lookup_insert_eq. rewrite (Hl k' v) by left. done.
    + rewrite lookup_insert_ne by done.
      assert (k ∈ l.*1 <-> k ∈ k' :: l.*1) as Hiff 
        by (split; [by right|by intros [?|?]%elem_of_cons]).
      by rewrite (decide_ext _ _ _ _ Hiff).
  - intros k'' v' Hin. rewrite lookup_insert_ne; [apply Hl; by right|].
    intros ->. apply Hk'. apply list_elem_of_fmap. by exists (k'', v').
Qed.

Lemma range_update `{GoRuntime} site (m : gmap K A) :
  foldl (fun m '(k, v) => <[k := f k v]> m) m (go_range site m) =
    map_imap (fun k v => Some (f k v)) m.
Proof.
  apply map_eq. intros k. rewrite foldl_update_lookup.
  - rewrite map_lookup_imap. case_decide as Hin.
    + rewrite go_range_keys in Hin. destruct Hin as [v ->]. done.
    + rewrite go_range_keys in Hin. apply eq_None_not_Some in Hin as ->. done.
  - apply go_range_NoDup.
  - intros k' v. apply elem_of_go_range.
Qed.
End range_update.

(** ** A reference implementation *)

Fixpoint insert_sorted {A} (less : A -> A -> bool) (x : A) (l : list A) : list A :=
  match l with
  | [] => [x]
  | y :: l' => if less y x then y :: insert_sorted less x l' else x :: l
  end.

Definition insertion_sort {A} (less : A -> A -> bool) (l : list A) : list A :=
  foldr (insert_sorted less) [] l.

Lemma insert_sorted_perm {A} (less : A -> A -> bool) x l : insert_sorted less x l ≡ₚ x :: l.
Proof.
  induction l as [|y l IH]; simpl; [done|]. case_match; [|done].
  rewrite IH. by rewrite Permutation_swap.
Qed.

Lemma insertion_sort_perm {A} (less : A -> A -> bool) l : insertion_sort less l ≡ₚ l.
Proof. induction l as [|x l IH]; simpl; [done|]. by rewrite insert_sorted_perm, IH. Qed.

Lemma insert_sorted_sorted {A} (less : A -> A -> bool) x l :
  strict_weak_on less (x :: l) -> StronglySorted (before less) l ->
  StronglySorted (before less) (insert_sorted less x l).
Proof.
  intros Hless Hs. induction Hs as [|y l Hs IH Hy]; simpl; [repeat constructor|].
  destruct (less y x) eqn:E.
  - assert (Hless' : strict_weak_on less (x :: l)).
    { apply (strict_weak_on_cons less y). eapply strict_weak_on_perm, Hless. apply Permutation_swap. }
    constructor; [by apply IH|]. rewrite insert_sorted_perm. constructor; [|done].
    eapply swo_asym; [exact Hless| | |done]; set_solver.
  - constructor; [by constructor|]. constructor; [done|].
    rewrite Forall_forall in Hy |- *. intros z Hz.
    eapply (before_trans less (x :: y :: l) x y z Hless); [..|by apply Hy]; [set_solver..|done].
Qed.

Lemma insertion_sort_sorted {A} (less : A -> A -> bool) l :
  strict_weak_on less l -> StronglySorted (before less) (insertion_sort less l).
Proof.
  induction l as [|x l IH]; intros Hless; simpl; [constructor|].
  apply insert_sorted_sorted.
  - eapply strict_weak_on_perm, Hless. by rewrite insertion_sort_perm.
  - apply IH. by eapply strict_weak_on_cons.
Qed.

(** Maps are visited in the order of [map_to_list], ties keep their order and
    out-of-range conversions give the minimal integer, as on amd64. *)
Definition reference_runtime : GoRuntime.
Proof.
  refine {| go_range := fun _ _ _ _ _ m => map_to_list m;
            go_sort := @insertion_sort;
            go_f2i := fun _ => int64_min |}.
  - done.
  - intros. apply insertion_sort_perm.
  - intros. by apply insertion_sort_sorted.
  - done.
Defined.

(** Members of a sorted list: the head stands before every element. *)
Lemma sorted_head_before {A} (less : A -> A -> bool) x l y :
  StronglySorted (before less) (x :: l) -> y ∈ l -> before less x y.
Proof.
  intros Hs Hy. apply StronglySorted_inv in Hs as [_ Hs].
  rewrite Forall_forall in Hs. by apply Hs.
Qed.
