(* ===== verification/GoString.v ===== *)
(** * GoString: the string functions of Go's standard library

    The functions of [strings], [strconv] and [fmt] the source calls, on byte
    strings: [Split] at a one-byte separator, [Contains], [Index], [LastIndex],
    [TrimSpace] (with the UTF-8 encodings of the white space of Unicode),
    [Atoi], [Sscanf] with the verb [%d] and one integer operand, and the decimal
    notation [%d] of an integer.  The second half proves their interplay: what
    is printed with [%d] is read back by [Atoi] and [Sscanf]. *)
From S2P Require Import Prelude.
From stdpp Require Import options.
From Stdlib Require Import Ascii.

Local Open Scope string_scope.
Local Open Scope Z_scope.

(** ** Searching *)

Fixpoint has_prefix (p s : string) : bool :=
  match p, s with
  | EmptyString, _ => true
  | String a p', String b s' => Ascii.eqb a b && has_prefix p' s'
  | String _ _, EmptyString => false
  end.

(** [s[n:]] *)
Fixpoint drop_bytes (n : nat) (s : string) : string :=
  match n, s with
  | S n', String _ s' => drop_bytes n' s'
  | _, _ => s
  end.

(** [strings.Index(s, p)], as [None] for -1 *)
Fixpoint str_index (p s : string) : option nat :=
  if has_prefix p s then Some 0%nat
  else match s with
       | EmptyString => None
       | String _ s' => S <$> str_index p s'
       end.

(** [strings.LastIndex(s, p)] *)
Fixpoint str_last_index (p s : string) : option nat :=
  match s with
  | EmptyString => if has_prefix p s then Some 0%nat else None
  | String _ s' =>
      match str_last_index p s' with
      | Some i => Some (S i)
      | None => if has_prefix p s then Some 0%nat else None
      end
  end.

(** [strings.Contains(s, p)] *)
Definition str_contains (s p : string) : bool :=
  match str_index p s with Some _ => true | None => false end.

(** [strings.Split(s, c)] for a separator of one byte; never empty *)
Fixpoint str_split (c : ascii) (s : string) : list string :=
  match s with
  | EmptyString => [EmptyString]
  | String a s' =>
      if Ascii.eqb a c then EmptyString :: str_split c s'
      else match str_split c s' with
           | p :: ps => String a p :: ps
           | [] => [String a EmptyString]
           end
  end.

(** ** White space *)

Definition byte (n : Z) : ascii := ascii_of_N (Z.to_N n).

Definition bytes (l : list Z) : string := foldr (fun n s => String (byte n) s) EmptyString l.

(** The UTF-8 encodings of the runes for which [unicode.IsSpace] holds. *)
Definition space_encodings : list string :=
  (map (fun n => bytes [n]) [9; 10; 11; 12; 13; 32] ++
   [bytes [194; 133]; bytes [194; 160]; bytes [225; 154; 128]] ++
   map (fun n => bytes [226; 128; n])
     [128; 129; 130; 131; 132; 133; 134; 135; 136; 137; 138; 168; 169; 175] ++
   [bytes [226; 129; 159]; bytes [227; 128; 128]])%list.

(** The length of the white-space rune [s] starts with, 0 if there is none. *)
Definition leading_space (encodings : list string) (s : string) : nat :=
  match filter (fun e => has_prefix e s = true) encodings with
  | e :: _ => String.length e
  | [] => 0
  end.

Fixpoint trim_left (fuel : nat) (encodings : list string) (s : string) : string :=
  match fuel with
  | O => s
  | S f => match leading_space encodings s with
           | O => s
           | n => trim_left f encodings (drop_bytes n s)
           end
  end.

Fixpoint str_rev_app (s acc : string) : string :=
  match s with
  | EmptyString => acc
  | String a s' => str_rev_app s' (String a acc)
  end.

Definition str_rev (s : string) : string := str_rev_app s EmptyString.

(** [strings.TrimSpace(s)]: each step removes at least one byte, so the length
    of [s] is enough fuel. *)
Definition TrimSpace (s : string) : string :=
  let l := trim_left (String.length s) space_encodings s in
  str_rev (trim_left (String.length l) (map str_rev space_encodings) (str_rev l)).

(** ** Decimal notation *)

Definition digit_char (d : Z) : ascii := ascii_of_N (Z.to_N (48 + d)).

(** The value of a decimal digit. *)
Definition digit_val (c : ascii) : option Z :=
  let n := Z.of_N (N_of_ascii c) in
  if (48 <=? n) && (n <=? 57) then Some (n - 48) else None.

(** The digits of [n >= 0] in front of [acc]. *)
Fixpoint print_digits (fuel : nat) (n : Z) (acc : string) : string :=
  match fuel with
  | O => acc
  | S f => let acc' := String (digit_char (n mod 10)) acc in
           if n <? 10 then acc' else print_digits f (n / 10) acc'
  end.

(** [fmt.Sprintf] of an integer with the verb [%d]; 64-bit integers have at
    most 19 digits, which is the fuel. *)
Definition itoa (n : Z) : string :=
  if n <? 0 then String "-" (print_digits 19 (- n) EmptyString)
  else print_digits 19 n EmptyString.

(** Reads digits from the front of the string: value and rest. *)
Fixpoint scan_digits (s : string) (acc : Z) : Z * string :=
  match s with
  | EmptyString => (acc, s)
  | String c s' => match digit_val c with
                   | Some d => scan_digits s' (acc * 10 + d)
                   | None => (acc, s)
                   end
  end.

(** An optional sign, as the factor it stands for. *)
Definition scan_sign (s : string) : Z * string :=
  match s with
  | String "+" s' => (1, s')
  | String "-" s' => (-1, s')
  | _ => (1, s)
  end.

Definition starts_with_digit (s : string) : bool :=
  match s with
  | String c _ => match digit_val c with Some _ => true | None => false end
  | EmptyString => false
  end.

(** [strconv.Atoi(s)], [None] for an error: the whole string is an optional
    sign and at least one digit, and the value fits an [int]. *)
Definition Atoi (s : string) : option Z :=
  let '(sign, s') := scan_sign s in
  if starts_with_digit s' then
    let '(n, rest) := scan_digits s' 0 in
    match rest with
    | EmptyString => if decide (int64 (sign * n)) then Some (sign * n) else None
    | _ => None
    end
  else None.

(** The integer read by [fmt.Sscanf] with the verb [%d], on an input without
    leading white space; input after the number is not an error. *)
Definition Sscanf_d (s : string) : option Z :=
  let '(sign, s') := scan_sign s in
  if starts_with_digit s' then
    let n := (scan_digits s' 0).1 in
    if decide (int64 (sign * n)) then Some (sign * n) else None
  else None.

Example Atoi_ex : (Atoi "12", Atoi "-7", Atoi "+3", Atoi "3x", Atoi "", Atoi "9223372036854775808")
  = (Some 12, Some (-7), Some 3, None, None, None).
Proof. reflexivity. Qed.

Example Sscanf_ex : (Sscanf_d "12", Sscanf_d "3x", Sscanf_d "x", Sscanf_d "") = (Some 12, Some 3, None, None).
Proof. reflexivity. Qed.

Example TrimSpace_ex : TrimSpace "  a b	 " = "a b".
Proof. vm_compute. reflexivity. Qed.

(** ** Lemmas *)

(** A string all of whose bytes are decimal digits. *)
Fixpoint all_digits (s : string) : Prop :=
  match s with
  | EmptyString => True
  | String c s' => is_Some (digit_val c) /\ all_digits s'
  end.

Lemma digit_val_char d : 0 <= d <= 9 -> digit_val (digit_char d) = Some d.
Proof.
  intros Hd. unfold digit_char, digit_val.
  rewrite N_ascii_embedding by lia.
  rewrite Z2N.id by lia.
  destruct (Z.leb_spec 48 (48 + d)); [|lia]. destruct (Z.leb_spec (48 + d) 57); [|lia].
  simpl. f_equal. lia.
Qed.

Lemma digit_char_inj_byte c d : digit_val c = Some d -> 0 <= d <= 9 /\ c = digit_char d.
Proof.
  unfold digit_val. destruct ((48 <=? Z.of_N (N_of_ascii c)) && (Z.of_N (N_of_ascii c) <=? 57)) eqn:E; [|done].
  z_bools. intros [= <-]. split; [lia|]. unfold digit_char.
  replace (Z.to_N _) with (N_of_ascii c) by lia. symmetry. apply ascii_N_embedding.
Qed.

Lemma print_digits_digits fuel n acc : 0 <= n -> all_digits acc -> all_digits (print_digits fuel n acc).
Proof.
  revert n acc. induction fuel as [|f IH]; intros n acc Hn Hacc; [done|]. cbn [print_digits].
  pose proof (Z.mod_pos_bound n 10). pose proof (Z.div_pos n 10).
  assert (Hd : all_digits (String (digit_char (n mod 10)) acc)).
  { split; [|done]. rewrite digit_val_char by lia. by eexists. }
  destruct (n <? 10); [done|]. apply IH; [lia|done].
Qed.

Lemma print_digits_first fuel n acc :
  0 <= n -> (fuel <> 0)%nat -> starts_with_digit (print_digits fuel n acc) = true.
Proof.
  revert n acc. induction fuel as [|f IH]; intros n acc Hn Hf; [done|]. cbn [print_digits].
  pose proof (Z.mod_pos_bound n 10). pose proof (Z.div_pos n 10).
  destruct (n <? 10); [cbn; by rewrite digit_val_char by lia|].
  destruct f as [|f]; [cbn; by rewrite digit_val_char by lia|]. apply IH; [lia|done].
Qed.

(** Reading back the digits printed for [n] in front of [acc]. *)
Lemma scan_print_digits fuel n acc a :
  0 <= n < 10 ^ Z.of_nat fuel ->
  exists k, scan_digits (print_digits fuel n acc) a = scan_digits acc (a * 10 ^ k + n) /\ 0 <= k.
Proof.
  revert n acc a. induction fuel as [|f IH]; intros n acc a Hn.
  - simpl in *. exists 0. split; [|lia]. f_equal. lia.
  - cbn [print_digits]. rewrite Nat2Z.inj_succ, Z.pow_succ_r in Hn by lia.
    pose proof (Z.mod_pos_bound n 10). pose proof (Z_div_mod_eq_full n 10).
    destruct (n <? 10) eqn:E; z_bools.
    + exists 1. cbn [scan_digits]. rewrite digit_val_char by lia. split; [|lia]. f_equal.
      rewrite Z.mod_small by lia. lia.
    + destruct (IH (n / 10) (String (digit_char (n mod 10)) acc) a) as (k & Hk & Hk0); [lia|].
      exists (k + 1). rewrite Hk. cbn [scan_digits]. rewrite digit_val_char by lia.
      split; [|lia]. f_equal. rewrite Z.pow_add_r by lia. lia.
Qed.

Lemma itoa_nonneg n : 0 <= n -> itoa n = print_digits 19 n EmptyString.
Proof. intros Hn. unfold itoa. destruct (n <? 0) eqn:E; z_bools; [lia|done]. Qed.

Lemma scan_itoa n : 0 <= n < 2 ^ 63 -> scan_digits (itoa n) 0 = (n, EmptyString).
Proof.
  intros Hn. rewrite itoa_nonneg by lia.
  destruct (scan_print_digits 19 n EmptyString 0) as (k & Hk & _); [simpl; lia|].
  rewrite Hk. simpl. f_equal. 
Qed.

Lemma scan_sign_digit s : starts_with_digit s = true -> scan_sign s = (1, s).
Proof.
  destruct s as [|c s]; [done|]. simpl. destruct (digit_val c) as [d|] eqn:E; [|done].
  intros _. apply digit_char_inj_byte in E as [Hd ->].
  assert (Hc : d = 0 \/ d = 1 \/ d = 2 \/ d = 3 \/ d = 4 \/ d = 5 \/ d = 6 \/ d = 7 \/ d = 8 \/ d = 9) by lia.
  destruct_or! Hc; subst; reflexivity.
Qed.

Lemma itoa_starts n : 0 <= n -> starts_with_digit (itoa n) = true.
Proof. intros Hn. rewrite itoa_nonneg by done. by apply print_digits_first. Qed.

Lemma itoa_digits n : 0 <= n -> all_digits (itoa n).
Proof. intros Hn. rewrite itoa_nonneg by done. by apply print_digits_digits. Qed.

Lemma Sscanf_itoa n : 0 <= n < 2 ^ 63 -> Sscanf_d (itoa n) = Some n.
Proof.
  intros Hn. unfold Sscanf_d. rewrite scan_sign_digit, itoa_starts, scan_itoa by (try apply itoa_starts; lia).
  simpl. rewrite decide_True; [f_equal; lia|]. unfold int64. lia.
Qed.

Lemma Atoi_itoa n : 0 <= n < 2 ^ 63 -> Atoi (itoa n) = Some n.
Proof.
  intros Hn. unfold Atoi. rewrite scan_sign_digit, itoa_starts, scan_itoa by (try apply itoa_starts; lia).
  rewrite decide_True; [f_equal; lia|]. unfold int64. lia.
Qed.

(** *** Splitting and trimming *)

(** [String.append] does not reduce by simplification; its two equations. *)
Lemma str_app_cons a (s t : string) : String a s +:+ t = String a (s +:+ t).
Proof. done. Qed.

Lemma str_nil_app (t : string) : EmptyString +:+ t = t.
Proof. done. Qed.

Fixpoint no_byte (c : ascii) (s : string) : Prop :=
  match s with
  | EmptyString => True
  | String a s' => a <> c /\ no_byte c s'
  end.

Lemma all_digits_no_byte c s : digit_val c = None -> all_digits s -> no_byte c s.
Proof.
  intros Hc. induction s as [|a s IH]; [done|]. intros [[d Ha] Hs]. split; [congruence|by apply IH].
Qed.

Lemma str_split_no_byte c s : no_byte c s -> str_split c s = [s].
Proof.
  induction s as [|a s IH]; [done|]. intros [Ha Hs]. simpl.
  destruct (Ascii.eqb_spec a c); [done|]. by rewrite IH.
Qed.

Lemma str_split_app c s t :
  no_byte c s -> str_split c (s +:+ String c t) = s :: str_split c t.
Proof.
  induction s as [|a s IH]; rewrite ?str_app_cons, ?str_nil_app; cbn [str_split].
  - intros _. by rewrite Ascii.eqb_refl.
  - intros [Ha Hs]. destruct (Ascii.eqb_spec a c); [done|]. by rewrite IH.
Qed.

Lemma str_contains_byte_none c s : no_byte c s -> str_contains s (String c EmptyString) = false.
Proof.
  intros Hs. unfold str_contains.
  assert (str_index (String c EmptyString) s = None) as ->; [|done].
  induction s as [|a s IH]; [done|]. destruct Hs as [Ha Hs]. cbn [str_index has_prefix].
  destruct (Ascii.eqb_spec c a); [congruence|]. simpl. by rewrite IH.
Qed.

Lemma str_contains_byte_some c s t : str_contains (s +:+ String c t) (String c EmptyString) = true.
Proof.
  unfold str_contains.
  assert (exists i, str_index (String c EmptyString) (s +:+ String c t) = Some i) as [i ->]; [|done].
  induction s as [|a s IH]; rewrite ?str_app_cons, ?str_nil_app; cbn [str_index has_prefix].
  - rewrite Ascii.eqb_refl. simpl. destruct t; by eexists.
  - destruct (Ascii.eqb c a && _); [by eexists|]. destruct IH as [i ->]. by eexists.
Qed.

Lemma str_app_assoc (s t u : string) : (s +:+ t) +:+ u = s +:+ (t +:+ u).
Proof. induction s as [|a s IH]; [done|]. by rewrite !str_app_cons, IH. Qed.

Lemma str_app_nil (s : string) : s +:+ EmptyString = s.
Proof. induction s as [|a s IH]; [done|]. by rewrite str_app_cons, IH. Qed.

Lemma str_rev_app_spec s acc : str_rev_app s acc = str_rev s +:+ acc.
Proof.
  unfold str_rev. revert acc. induction s as [|a s IH]; intros acc; simpl; [done|].
  rewrite (IH (String a acc)), (IH (String a EmptyString)). by rewrite str_app_assoc.
Qed.

Lemma str_rev_cons a s : str_rev (String a s) = str_rev s +:+ String a EmptyString.
Proof. unfold str_rev. simpl. by rewrite str_rev_app_spec. Qed.

Lemma str_rev_append s t : str_rev (s +:+ t) = str_rev t +:+ str_rev s.
Proof.
  induction s as [|a s IH]; [by rewrite str_nil_app, str_app_nil|].
  by rewrite str_app_cons, !str_rev_cons, IH, str_app_assoc.
Qed.

Lemma str_rev_involutive s : str_rev (str_rev s) = s.
Proof.
  induction s as [|a s IH]; [done|]. rewrite str_rev_cons, str_rev_append, IH. done.
Qed.

Lemma all_digits_app s t : all_digits (s +:+ t) <-> all_digits s /\ all_digits t.
Proof.
  induction s as [|a s IH]; rewrite ?str_app_cons, ?str_nil_app; simpl; [tauto|]. rewrite IH. tauto.
Qed.

Lemma all_digits_rev s : all_digits s -> all_digits (str_rev s).
Proof.
  induction s as [|a s IH]; [done|]. intros [Ha Hs]. rewrite str_rev_cons, all_digits_app.
  split; [by apply IH|by split].
Qed.

Lemma starts_with_digit_app s t : starts_with_digit s = true -> starts_with_digit (s +:+ t) = true.
Proof. by destruct s. Qed.

Lemma digits_start s : all_digits s -> s <> EmptyString -> starts_with_digit s = true.
Proof. destruct s; [done|]. intros [[d Hd] _] _. simpl. by rewrite Hd. Qed.

(** The first byte is no decimal digit. *)
Definition not_digit_first (e : string) : bool :=
  match e with
  | EmptyString => false
  | String c _ => match digit_val c with Some _ => false | None => true end
  end.

Lemma leading_space_digit encodings s :
  forallb not_digit_first encodings = true -> starts_with_digit s = true ->
  leading_space encodings s = 0%nat.
Proof.
  intros He Hs. destruct s as [|c s]; [done|]. simpl in Hs.
  unfold leading_space. induction encodings as [|e es IH]; [done|].
  simpl in He. apply andb_true_iff in He as [He Hes].
  rewrite filter_cons. rewrite decide_False; [by apply IH|].
  destruct e as [|c' e]; [done|]. simpl in *. destruct (Ascii.eqb_spec c' c) as [->|]; [|done].
  by destruct (digit_val c).
Qed.

Lemma trim_left_digit fuel encodings s :
  forallb not_digit_first encodings = true -> starts_with_digit s = true ->
  trim_left fuel encodings s = s.
Proof.
  intros He Hs. destruct fuel as [|f]; [done|]. cbn [trim_left]. by rewrite leading_space_digit.
Qed.

(** A string that begins and ends with a digit is not trimmed. *)
Lemma TrimSpace_digits s :
  starts_with_digit s = true -> starts_with_digit (str_rev s) = true -> TrimSpace s = s.
Proof.
  intros Hs Hr. unfold TrimSpace. rewrite (trim_left_digit _ space_encodings) by done.
  rewrite (trim_left_digit _ (map str_rev space_encodings)) by done.
  apply str_rev_involutive.
Qed.

Lemma print_digits_nonempty fuel n acc : acc <> EmptyString -> print_digits fuel n acc <> EmptyString.
Proof.
  revert n acc. induction fuel as [|f IH]; intros n acc Hacc; [done|]. cbn [print_digits].
  destruct (n <? 10); [done|]. by apply IH.
Qed.

Lemma starts_nonempty s : starts_with_digit s = true -> s <> EmptyString.
Proof. by destruct s. Qed.

Lemma itoa_rev_starts n : 0 <= n -> starts_with_digit (str_rev (itoa n)) = true.
Proof.
  intros Hn. apply digits_start; [by apply all_digits_rev, itoa_digits|].
  intros E. apply (f_equal str_rev) in E. rewrite str_rev_involutive in E.
  by apply (starts_nonempty (itoa n)); [apply itoa_starts|].
Qed.

Lemma TrimSpace_itoa n : 0 <= n -> TrimSpace (itoa n) = itoa n.
Proof. intros Hn. apply TrimSpace_digits; [by apply itoa_starts|by apply itoa_rev_starts]. Qed.

Lemma itoa_no_byte c n : 0 <= n -> digit_val c = None -> no_byte c (itoa n).
Proof. intros Hn Hc. by apply all_digits_no_byte, itoa_digits. Qed.

(** What [Atoi] and [Sscanf_d] return fits an [int]. *)
Lemma Atoi_int64 s n : Atoi s = Some n -> int64 n.
Proof.
  unfold Atoi. destruct (scan_sign s) as [sg s']. destruct (starts_with_digit s'); [|done].
  destruct (scan_digits s' 0) as [m [|]]; [|done]. case_decide; [|done]. by intros [= <-].
Qed.

Lemma Sscanf_int64 s n : Sscanf_d s = Some n -> int64 n.
Proof.
  unfold Sscanf_d. destruct (scan_sign s) as [sg s']. destruct (starts_with_digit s'); [|done].
  case_decide; [|done]. by intros [= <-].
Qed.

Lemma scan_digits_nonneg s a : 0 <= a -> 0 <= (scan_digits s a).1.
Proof.
  revert a. induction s as [|c s IH]; intros a Ha; [done|]. cbn [scan_digits].
  destruct (digit_val c) as [d|] eqn:E; [|done]. apply digit_char_inj_byte in E as [Hd _].
  apply IH. lia.
Qed.

(** Without a minus sign, what is read is not negative. *)
Lemma scan_sign_no_minus s : no_byte "-" s -> (scan_sign s).1 = 1.
Proof.
  destruct s as [|c s]; [done|]. intros [Hc _]. unfold scan_sign.
  destruct c as [[] [] [] [] [] [] [] []]; try reflexivity. by destruct Hc.
Qed.

Lemma Sscanf_nonneg s n : no_byte "-" s -> Sscanf_d s = Some n -> 0 <= n.
Proof.
  intros Hs. unfold Sscanf_d. apply scan_sign_no_minus in Hs.
  destruct (scan_sign s) as [sg s']. simpl in Hs. subst sg. destruct (starts_with_digit s'); [|done].
  case_decide; [|done]. intros [= <-]. pose proof (scan_digits_nonneg s' 0). lia.
Qed.

Lemma Atoi_nonneg s n : no_byte "-" s -> Atoi s = Some n -> 0 <= n.
Proof.
  intros Hs. unfold Atoi. apply scan_sign_no_minus in Hs.
  destruct (scan_sign s) as [sg s']. simpl in Hs. subst sg. destruct (starts_with_digit s'); [|done].
  pose proof (scan_digits_nonneg s' 0) as Hnn.
  destruct (scan_digits s' 0) as [m [|]]; [|done]. case_decide; [|done]. intros [= <-]. simpl in Hnn. lia.
Qed.

(** ** Suffixes are contained *)

Lemma has_prefix_refl s : has_prefix s s = true.
Proof. induction s as [|a s IH]; [done|]. simpl. by rewrite Ascii.eqb_refl, IH. Qed.

Lemma str_contains_cons a s p : str_contains (String a s) p = has_prefix p (String a s) || str_contains s p.
Proof. unfold str_contains. simpl. destruct (has_prefix p (String a s)); [done|]. by destruct (str_index p s). Qed.

Lemma str_contains_refl s : str_contains s s = true.
Proof.
  unfold str_contains. pose proof (has_prefix_refl s) as H. destruct s as [|a s]; [done|]. cbn [str_index]. by rewrite H.
Qed.

Lemma str_contains_drop n s : str_contains s (drop_bytes n s) = true.
Proof.
  revert s. induction n as [|n IH]; intros s; [destruct s; apply str_contains_refl|].
  destruct s as [|a s]; [done|]. simpl. rewrite str_contains_cons, IH. by rewrite orb_true_r.
Qed.

Lemma str_contains_empty s : str_contains s EmptyString = true.
Proof. unfold str_contains. by destruct s. Qed.
