(* ===== verification/GoParse.v ===== *)
(** * GoParse: strconv.ParseFloat, ParseInt and ParseBool

    The parsers the pressure handler applies to node annotations.  Of
    [ParseFloat] the source uses only whether it fails (the value is logged), so
    [ParseFloat_ok] decides that: the syntax of Go's floating-point literals
    with an optional sign, infinities and NaN, and the range error of values
    that round to infinity. *)
From S2P Require Import Prelude GoString.
From stdpp Require Import options.
From Stdlib Require Import Ascii.
From Stdlib Require Strings.String.

Local Open Scope Z_scope.

(** [lower(c)] on letters *)
Definition lower (c : ascii) : ascii :=
  let n := N_of_ascii c in
  if (N.leb 65 n && N.leb n 90)%bool then ascii_of_N (n + 32) else c.

Definition lower_string (s : string) : string :=
  String.string_of_list_ascii (map lower (String.list_ascii_of_string s)).

Definition hex_val (c : ascii) : option Z :=
  match digit_val c with
  | Some d => Some d
  | None =>
      let n := Z.of_N (N_of_ascii (lower c)) in
      if (97 <=? n) && (n <=? 102) then Some (n - 87) else None
  end.

(** The digits of a mantissa with underscores and at most one point: their
    value, the number of digits after the point, whether there was a digit, and
    the rest of the string. *)
Fixpoint scan_mantissa (base : Z) (s : list ascii) (sawdot sawdigits : bool) (m frac : Z)
  : Z * Z * bool * list ascii :=
  match s with
  | "_"%char :: s' => scan_mantissa base s' sawdot sawdigits m frac
  | "."%char :: s' => if sawdot then (m, frac, sawdigits, s) else scan_mantissa base s' true sawdigits m frac
  | c :: s' =>
      match (if base =? 16 then hex_val c else digit_val c) with
      | Some d => scan_mantissa base s' sawdot true (m * base + d) (if sawdot then frac + 1 else frac)
      | None => (m, frac, sawdigits, s)
      end
  | [] => (m, frac, sawdigits, s)
  end.

(** The digits of an exponent; its value stops growing at 10000. *)
Fixpoint scan_exponent (s : list ascii) (e : Z) : Z * list ascii :=
  match s with
  | "_"%char :: s' => scan_exponent s' e
  | c :: s' =>
      match digit_val c with
      | Some d => scan_exponent s' (if e <? 10000 then e * 10 + d else e)
      | None => (e, s)
      end
  | [] => (e, s)
  end.

Definition starts_digit (s : list ascii) : bool :=
  match s with c :: _ => bool_decide (is_Some (digit_val c)) | [] => false end.

Definition scan_sign_list (s : list ascii) : Z * list ascii :=
  match s with
  | "+"%char :: s' => (1, s')
  | "-"%char :: s' => (-1, s')
  | _ => (1, s)
  end.

(** [underscoreOK]: underscores only between digits, the base prefix counting
    as a digit. *)
Inductive seen := SeenNone | SeenDigit | SeenUnderscore | SeenOther.

Fixpoint underscores_ok (hex : bool) (saw : seen) (s : list ascii) : bool :=
  match s with
  | [] => match saw with SeenUnderscore => false | _ => true end
  | c :: s' =>
      if bool_decide (is_Some (if hex then hex_val c else digit_val c)) then underscores_ok hex SeenDigit s'
      else if Ascii.eqb c "_" then
        match saw with SeenDigit => underscores_ok hex SeenUnderscore s' | _ => false end
      else match saw with SeenUnderscore => false | _ => underscores_ok hex SeenOther s' end
  end.

(** The magnitude [m * base ^ e] rounds to infinity: it is at least half a unit
    above the largest double. *)
Definition overflows (base m e : Z) : bool :=
  let limit := 2 ^ 1024 - 2 ^ 970 in
  if 0 <=? e then limit <=? m * base ^ e else limit * base ^ (- e) <=? m.

(** A literal without its sign and base prefix. *)
Definition number_ok (base : Z) (s : list ascii) : bool :=
  let hex := base =? 16 in
  let '(m, frac, sawdigits, rest) := scan_mantissa base s false false 0 0 in
  if negb sawdigits then false
  else
    let in_range e := if hex then negb (overflows 2 m (e - 4 * frac)) else negb (overflows 10 m (e - frac)) in
    if negb (underscores_ok hex (if hex then SeenDigit else SeenNone) s) then false
    else match rest with
         | [] => negb hex && in_range 0
         | c :: rest' =>
             if Ascii.eqb (lower c) (if hex then "p"%char else "e"%char) then
               let '(esign, digits) := scan_sign_list rest' in
               if starts_digit digits then
                 let '(e, tail) := scan_exponent digits 0 in
                 match tail with [] => in_range (esign * e) | _ => false end
               else false
             else false
         end.

Definition special_ok (s : string) : bool :=
  let l := lower_string s in
  let '(_, unsigned) := scan_sign l in
  bool_decide (l = "nan") || bool_decide (unsigned = "inf") || bool_decide (unsigned = "infinity").

(** [strconv.ParseFloat(s, 64)] returns a nil error. *)
Definition ParseFloat_ok (s : string) : bool :=
  if special_ok s then true
  else
    match (scan_sign_list (String.list_ascii_of_string s)).2 with
    | "0"%char :: c :: s' =>
        if Ascii.eqb (lower c) "x" then number_ok 16 s' else number_ok 10 ("0"%char :: c :: s')
    | s' => number_ok 10 s'
    end.

(** [strconv.ParseInt(s, 10, 64)]: on a 64-bit platform the same as [Atoi]. *)
Definition ParseInt_10_64 : string -> option Z := Atoi.

(** [strconv.ParseBool(s)], [None] for an error *)
Definition ParseBool (s : string) : option bool :=
  if bool_decide (s ∈ ["1"; "t"; "T"; "TRUE"; "true"; "True"]) then Some true
  else if bool_decide (s ∈ ["0"; "f"; "F"; "FALSE"; "false"; "False"]) then Some false
  else None.

Example ParseFloat_accepts :
  forallb ParseFloat_ok ["95.5"; "-1"; ".5"; "5."; "1e3"; "+1E-2"; "0x1p-2"; "1_0.5"; "NaN"; "-Inf"; "infinity"; "1.797e308"] = true.
Proof. vm_compute. reflexivity. Qed.

Example ParseFloat_rejects :
  existsb ParseFloat_ok [""; "."; "abc"; "1e"; "1e+"; "95%"; "1 "; "0x1"; "_1"; "1_"; "+NaN"; "1e400"; "1..2"] = false.
Proof. vm_compute. reflexivity. Qed.
