(* ===== verification/CPUPool.v ===== *)
(** * CPUPool: the shared RT CPU budget accounting

    The data and operations of [internal/cpupool/cpupool.go] up to
    [FindLeastLoadedCore].  The process-wide [globalPools] is a map from node
    names to pools and is passed explicitly; a [*CPUPool] of the source always
    points to the entry of [globalPools] under its node name (pools are never
    removed), so a method on a pool is a function on its value, written back
    with [alter] by the callers.  [UsageMillis] is an [int64] with wrap-around. *)
From S2P Require Import Prelude Float64 GoRuntime.
From stdpp Require Import options.

(** ** Constants *)

(** [RTCapacityPerCore = 0.95] *)
Definition RTCapacityPerCore : f64 := literal 95 100.

Definition DefaultNumCores : Z := 16.

Definition CriticalityRank : gmap string Z :=
  {["LOW" := 0; "MIDDLE" := 1; "HIGH" := 2]}.

(** Indexing a Go map with a missing key gives the zero value. *)
Definition rank (criticality : string) : Z := default 0 (CriticalityRank !! criticality).

(** [1000.0] *)
Definition f1000 : f64 := of_int 1000.

(** [float64(millis) / 1000.0] *)
Definition millis_to_cores (millis : Z) : f64 := fdiv (of_int millis) f1000.

(** ** Data *)

Record PodInfo := mkPodInfo {
  pi_Name : string;
  pi_Namespace : string;
  pi_Criticality : string;
  pi_CPUMillis : Z;
  pi_CoreSet : list Z
}.

Record CPUCoreInfo := mkCore {
  CoreID : Z;
  UsageMillis : Z;
  Pods : gmap string PodInfo
}.

Record CPUPool := mkPool {
  NodeName : string;
  Cores : gmap Z CPUCoreInfo
}.

#[export] Instance PodInfo_eq_dec : EqDecision PodInfo.
Proof. solve_decision. Defined.

(** [globalPools] *)
Abbreviation Pools := (gmap string CPUPool).

(** ** Creating and reading pools *)

Definition newCore (i : Z) : CPUCoreInfo :=
  {| CoreID := i; UsageMillis := 0; Pods := ∅ |}.

Definition newPool (nodeName : string) (numCores : Z) : CPUPool :=
  {| NodeName := nodeName;
     Cores := foldl (fun cores i => <[i := newCore i]> cores) ∅ (seqZ 0 numCores) |}.

Definition GetOrCreateCPUPool (globalPools : Pools) (nodeName : string) (numCores : Z)
  : Pools * CPUPool :=
  match globalPools !! nodeName with
  | Some pool => (globalPools, pool)
  | None =>
      let pool := newPool nodeName numCores in
      (<[nodeName := pool]> globalPools, pool)
  end.

Definition GetPoolForNode (globalPools : Pools) (nodeName : string) : option CPUPool :=
  globalPools !! nodeName.

(** ** Booking and releasing *)

(** [core.UsageMillis -= pi.CPUMillis; delete(core.Pods, podName)] when the pod
    is on the core; the boolean says whether it was. *)
Definition releasePod (podName : string) (core : CPUCoreInfo) : CPUCoreInfo * bool :=
  match Pods core !! podName with
  | Some pi =>
      ({| CoreID := CoreID core;
          UsageMillis := wrap64 (UsageMillis core - pi_CPUMillis pi);
          Pods := delete podName (Pods core) |}, true)
  | None => (core, false)
  end.

(** The two nested loops of [RemovePodFromPool]. *)
Definition RemovePodFromCores (podName : string) (cores : list (Z * CPUCoreInfo))
  (st : gmap Z CPUCoreInfo * bool) : gmap Z CPUCoreInfo * bool :=
  foldl (fun '(acc, removed) '(cid, core) =>
    let '(core', hit) := releasePod podName core in
    (<[cid := core']> acc, removed || hit)) st cores.

Definition RemovePodFromPool `{GoRuntime} (globalPools : Pools) (podName : string) : Pools * bool :=
  foldl (fun '(pools, removed) '(node, pool) =>
    let '(cores', removed') :=
      RemovePodFromCores podName (go_range "RemovePodFromPool.Cores" (Cores pool))
        (Cores pool, removed) in
    (<[node := {| NodeName := NodeName pool; Cores := cores' |}]> pools, removed'))
    (globalPools, false) (go_range "RemovePodFromPool.globalPools" globalPools).

(** The innermost loop of [RemovePodsNotIn]: pods are deleted while the map is
    visited, which Go defines (a deleted entry is not visited again). *)
Definition purgeCore `{GoRuntime} (existingPods : string -> bool) (core : CPUCoreInfo) : CPUCoreInfo :=
  foldl (fun core '(podName, pi) =>
    if existingPods podName then core
    else {| CoreID := CoreID core;
            UsageMillis := wrap64 (UsageMillis core - pi_CPUMillis pi);
            Pods := delete podName (Pods core) |})
    core (go_range "RemovePodsNotIn.Pods" (Pods core)).

Definition RemovePodsNotIn `{GoRuntime} (globalPools : Pools) (existingPods : string -> bool) : Pools :=
  foldl (fun pools '(node, pool) =>
    <[node := {| NodeName := NodeName pool;
                 Cores := foldl (fun cores '(cid, core) => <[cid := purgeCore existingPods core]> cores)
                            (Cores pool) (go_range "RemovePodsNotIn.Cores" (Cores pool)) |}]> pools)
    globalPools (go_range "RemovePodsNotIn.globalPools" globalPools).

Definition GetCoreUtilization (p : CPUPool) (coreID : Z) : f64 :=
  match Cores p !! coreID with
  | None => fzero
  | Some core => millis_to_cores (UsageMillis core)
  end.

Definition bookPod (pod : PodInfo) (core : CPUCoreInfo) : CPUCoreInfo :=
  {| CoreID := CoreID core;
     UsageMillis := wrap64 (UsageMillis core + pi_CPUMillis pod);
     Pods := <[pi_Name pod := pod]> (Pods core) |}.

Definition AddPodToCore (p : CPUPool) (coreID : Z) (pod : PodInfo) : CPUPool :=
  match Cores p !! coreID with
  | Some core => {| NodeName := NodeName p; Cores := <[coreID := bookPod pod core]> (Cores p) |}
  | None => p
  end.

Definition RemovePodFromCore (p : CPUPool) (coreID : Z) (podName : string) : CPUPool :=
  match Cores p !! coreID with
  | Some core =>
      {| NodeName := NodeName p; Cores := <[coreID := (releasePod podName core).1]> (Cores p) |}
  | None => p
  end.

Definition GetPodsOnCore `{GoRuntime} (p : CPUPool) (coreID : Z) : list PodInfo :=
  match Cores p !! coreID with
  | None => []
  | Some core => (go_range "GetPodsOnCore" (Pods core)).*2
  end.

(** One iteration of its loop. *)
Definition leastLoadedStep (best : Z * Z) (entry : Z * CPUCoreInfo) : Z * Z :=
  let '(minCore, minUsage) := best in
  let '(coreID, core) := entry in
  if UsageMillis core <? minUsage then (coreID, UsageMillis core) else (minCore, minUsage).

Definition FindLeastLoadedCore `{GoRuntime} (p : CPUPool) : Z :=
  (foldl leastLoadedStep (-1, 2 ^ 63 - 1) (go_range "FindLeastLoadedCore" (Cores p))).1.

(** ** The accounting invariant *)

(** The budget booked on a core by its entries. *)
Definition booked (pods : gmap string PodInfo) : Z := map_sumZ pi_CPUMillis pods.

(** [UsageMillis] exceeds the budgets booked by [excess], modulo the width of
    [int64]; entries are filed under their own names. *)
Record core_counts (excess id : Z) (core : CPUCoreInfo) : Prop := {
  core_range : 0 <= id < 2 ^ 63;
  core_id : CoreID core = id;
  core_usage : UsageMillis core = wrap64 (booked (Pods core) + excess);
  core_names : map_Forall (fun name pi => pi_Name pi = name) (Pods core)
}.

Record pool_counts (excess : Z -> Z) (node : string) (p : CPUPool) : Prop := {
  pool_node : NodeName p = node;
  pool_cores : map_Forall (fun id => core_counts (excess id) id) (Cores p)
}.

(** Every core's [UsageMillis] is the sum of the budgets of its pods and the
    given excess, every entry is filed under its own name, every core under its
    identifier and every pool under its node. *)
Definition pools_count (excess : string -> Z -> Z) (globalPools : Pools) : Prop :=
  map_Forall (fun node => pool_counts (excess node) node) globalPools.

(** The accounting is exact. *)
Definition no_excess : string -> Z -> Z := fun _ _ => 0.

Abbreviation pool_wf := (pool_counts (fun _ => 0)).

Definition pools_wf (globalPools : Pools) : Prop := pools_count no_excess globalPools.

(** The invariant is decidable, so that it can be evaluated on a state. *)
Lemma core_counts_alt e id core :
  core_counts e id core <-> 0 <= id < 2 ^ 63 /\ CoreID core = id /\ UsageMillis core = wrap64 (booked (Pods core) + e) /\
    map_Forall (fun name pi => pi_Name pi = name) (Pods core).
Proof. split; [by intros [? ? ? ?]|intros (? & ? & ? & ?); by split]. Qed.

#[export] Instance core_counts_dec e id core : Decision (core_counts e id core).
Proof. exact (dec_iff (core_counts_alt e id core)). Defined.

Lemma pool_counts_alt e node p :
  pool_counts e node p <-> NodeName p = node /\ map_Forall (fun id => core_counts (e id) id) (Cores p).
Proof. split; [by intros [? ?]|intros (? & ?); by split]. Qed.

#[export] Instance pool_counts_dec e node p : Decision (pool_counts e node p).
Proof. exact (dec_iff (pool_counts_alt e node p)). Defined.

#[export] Instance pools_wf_dec g : Decision (pools_wf g).
Proof. unfold pools_wf, pools_count. apply _. Defined.

(** ** Abstract view: who is booked where *)

(** The entry of [podName] on [coreID] of [node]. *)
Definition booking (globalPools : Pools) (node : string) (coreID : Z) (podName : string) : option PodInfo :=
  pool ← globalPools !! node; core ← Cores pool !! coreID; Pods core !! podName.

(** The same, inside one pool. *)
Definition pool_booking (p : CPUPool) (coreID : Z) (podName : string) : option PodInfo :=
  core ← Cores p !! coreID; Pods core !! podName.

(** ** Lemmas on single cores *)

Lemma releasePod_absent name core :
  Pods core !! name = None -> releasePod name core = (core, false).
Proof. intros H. unfold releasePod. by rewrite H. Qed.

Lemma releasePod_hit name core : (releasePod name core).2 = bool_decide (is_Some (Pods core !! name)).
Proof. unfold releasePod. by destruct (Pods core !! name). Qed.

Lemma releasePod_Pods name core : Pods (releasePod name core).1 = delete name (Pods core).
Proof.
  unfold releasePod. destruct (Pods core !! name) eqn:E; simpl; [done|].
  by rewrite delete_id.
Qed.

Lemma releasePod_id name core : CoreID (releasePod name core).1 = CoreID core.
Proof. unfold releasePod. by destruct (Pods core !! name). Qed.

Lemma releasePod_counts e id name core : core_counts e id core -> core_counts e id (releasePod name core).1.
Proof.
  intros [Hr Hid Hu Hn]. unfold releasePod.
  destruct (Pods core !! name) as [pi|] eqn:E; [|by split].
  split; simpl; [done|done| |by apply map_Forall_delete].
  rewrite Hu, wrap64_sub_l. unfold booked. rewrite (map_sumZ_delete _ _ _ _ E). f_equal. lia.
Qed.

(** The budget of the entry that adding the pod overwrites. *)
Definition overwritten (pods : gmap string PodInfo) (pod : PodInfo) : Z :=
  default 0 (pi_CPUMillis <$> pods !! pi_Name pod).

(** Adding a pod keeps the budget of the entry it overwrites in the usage. *)
Lemma bookPod_counts e id pod core :
  core_counts e id core -> core_counts (e + overwritten (Pods core) pod) id (bookPod pod core).
Proof.
  intros [Hr Hid Hu Hn]. split; simpl; [done|done| |by apply map_Forall_insert_2].
  rewrite Hu, wrap64_add_l. unfold booked, overwritten. destruct (Pods core !! pi_Name pod) as [old|] eqn:E; cbn.
  - rewrite (map_sumZ_replace _ _ _ _ _ E). f_equal. lia.
  - rewrite map_sumZ_insert by done. f_equal. lia.
Qed.

Lemma newCore_counts i : 0 <= i < 2 ^ 63 -> core_counts 0 i (newCore i).
Proof. intros Hi. split; simpl; [done|done| |apply map_Forall_empty]. unfold booked. by rewrite map_sumZ_empty. Qed.

(** [purgeCore] is a sequence of releases. *)
Lemma purge_steps existingPods (l : list (string * PodInfo)) core :
  NoDup l.*1 -> (forall k v, (k, v) ∈ l -> Pods core !! k = Some v) ->
  foldl (fun core '(podName, pi) =>
    if existingPods podName : bool then core
    else {| CoreID := CoreID core;
            UsageMillis := wrap64 (UsageMillis core - pi_CPUMillis pi);
            Pods := delete podName (Pods core) |}) core l =
  foldl (fun core podName => if existingPods podName then core else (releasePod podName core).1)
    core l.*1.
Proof.
  revert core. induction l as [|[k v] l IH]; intros core Hnd Hl; [done|].
  rewrite fmap_cons in Hnd |- *. apply NoDup_cons in Hnd as [Hk Hnd]. cbn [foldl fst].
  assert (E : (releasePod k core).1 =
    {| CoreID := CoreID core; UsageMillis := wrap64 (UsageMillis core - pi_CPUMillis v);
       Pods := delete k (Pods core) |}).
  { unfold releasePod. by rewrite (Hl k v) by left. }
  destruct (existingPods k); [apply IH; [done|intros; apply Hl; by right]|].
  rewrite E. apply IH; [done|]. intros k' v' Hin. simpl.
  rewrite lookup_delete_ne; [apply Hl; by right|].
  intros ->. apply Hk, list_elem_of_fmap. by exists (k', v').
Qed.

Lemma purgeCore_releases `{GoRuntime} existingPods core :
  purgeCore existingPods core =
  foldl (fun core podName => if existingPods podName then core else (releasePod podName core).1)
    core (go_range "RemovePodsNotIn.Pods" (Pods core)).*1.
Proof. apply purge_steps; [apply go_range_NoDup|intros k v; apply elem_of_go_range]. Qed.

Lemma releases_Pods existingPods l core name :
  Pods (foldl (fun core podName => if existingPods podName : bool then core else (releasePod podName core).1)
          core l) !! name =
  (if bool_decide (name ∈ l) && negb (existingPods name) then None else Pods core !! name).
Proof.
  revert core. induction l as [|k l IH]; intros core; [done|]. cbn [foldl]. rewrite IH.
  destruct (decide (name = k)) as [->|Hne].
  - rewrite (bool_decide_eq_true_2 (k ∈ k :: l)) by left.
    destruct (existingPods k) eqn:E; simpl; [by rewrite !andb_false_r|].
    rewrite releasePod_Pods, lookup_delete_eq. by destruct (_ && _)%bool.
  - assert (Hiff : name ∈ k :: l <-> name ∈ l).
    { rewrite elem_of_cons. split; [intros [?|?]; done|by right]. }
    rewrite (bool_decide_ext _ _ Hiff).
    destruct (existingPods k); [done|]. rewrite releasePod_Pods, lookup_delete_ne; done.
Qed.

Lemma purgeCore_Pods `{GoRuntime} existingPods core name :
  Pods (purgeCore existingPods core) !! name =
  (if existingPods name then Pods core !! name else None).
Proof.
  rewrite purgeCore_releases, releases_Pods.
  destruct (existingPods name); simpl; [by rewrite andb_false_r|]. rewrite andb_true_r.
  case_bool_decide as Hin; [done|]. rewrite go_range_keys in Hin.
  by apply eq_None_not_Some.
Qed.

Lemma purgeCore_counts `{GoRuntime} e existingPods id core :
  core_counts e id core -> core_counts e id (purgeCore existingPods core).
Proof.
  rewrite purgeCore_releases. generalize (go_range "RemovePodsNotIn.Pods" (Pods core)).*1.
  intros l. revert core. induction l as [|k l IH]; intros core Hwf; [done|].
  simpl. apply IH. destruct (existingPods k); [done|by apply releasePod_counts].
Qed.

#[export] Hint Resolve releasePod_counts bookPod_counts newCore_counts purgeCore_counts : mckube.

(** ** The loops over all pools *)

(** A loop that rewrites every entry is a map over the entries. *)
Lemma range_fmap `{GoRuntime} {K A} `{Countable K} site (f : A -> A) (m : gmap K A) :
  foldl (fun m '(k, v) => <[k := f v]> m) m (go_range site m) = f <$> m.
Proof.
  rewrite (range_update (fun _ => f)). apply map_eq. intros k.
  rewrite map_lookup_imap, lookup_fmap. by destruct (m !! k).
Qed.

Lemma RemovePodFromCores_split name l cores removed :
  RemovePodFromCores name l (cores, removed) =
  (foldl (fun acc '(cid, core) => <[cid := (releasePod name core).1]> acc) cores l,
   removed || existsb (fun '(_, core) => (releasePod name core).2) l)%bool.
Proof.
  unfold RemovePodFromCores. revert cores removed.
  induction l as [|[cid core] l IH]; intros cores removed; cbn [foldl existsb].
  - by rewrite orb_false_r.
  - destruct (releasePod name core) as [core' hit]. cbn [fst snd].
    by rewrite IH, orb_assoc.
Qed.

(** The effect of [RemovePodFromPool] on one pool. *)
Definition releaseEverywhere (name : string) (p : CPUPool) : CPUPool :=
  {| NodeName := NodeName p; Cores := (fun core => (releasePod name core).1) <$> Cores p |}.

Definition bookedOn (name : string) (core : CPUCoreInfo) : bool :=
  bool_decide (is_Some (Pods core !! name)).

Definition bookedIn `{GoRuntime} (name : string) (pool : CPUPool) : bool :=
  existsb (fun '(_, core) => bookedOn name core) (go_range "RemovePodFromPool.Cores" (Cores pool)).

Lemma RemovePodFromCores_range `{GoRuntime} name pool removed :
  RemovePodFromCores name (go_range "RemovePodFromPool.Cores" (Cores pool)) (Cores pool, removed) =
  (Cores (releaseEverywhere name pool), removed || bookedIn name pool)%bool.
Proof.
  rewrite RemovePodFromCores_split, range_fmap. f_equal. f_equal. unfold bookedIn.
  induction (go_range "RemovePodFromPool.Cores" (Cores pool)) as [|[cid core] l' IH']; [done|].
  cbn [existsb]. by rewrite releasePod_hit, IH'.
Qed.

Lemma RemovePodFromPool_loop `{GoRuntime} name l (pools : Pools) removed :
  foldl (fun '(pools, removed) '(node, pool) =>
    let '(cores', removed') :=
      RemovePodFromCores name (go_range "RemovePodFromPool.Cores" (Cores pool)) (Cores pool, removed) in
    (<[node := {| NodeName := NodeName pool; Cores := cores' |}]> pools, removed')) (pools, removed) l =
  (foldl (fun pools '(node, pool) => <[node := releaseEverywhere name pool]> pools) pools l,
   removed || existsb (fun '(_, pool) => bookedIn name pool) l)%bool.
Proof.
  revert pools removed. induction l as [|[node pool] l IH]; intros pools removed; cbn [foldl existsb].
  - by rewrite orb_false_r.
  - by rewrite RemovePodFromCores_range, IH, orb_assoc.
Qed.

Lemma RemovePodFromPool_split `{GoRuntime} globalPools name :
  RemovePodFromPool globalPools name =
  (releaseEverywhere name <$> globalPools,
   existsb (fun '(_, pool) => bookedIn name pool) (go_range "RemovePodFromPool.globalPools" globalPools)).
Proof. unfold RemovePodFromPool. by rewrite RemovePodFromPool_loop, range_fmap. Qed.

Lemma RemovePodsNotIn_fmap `{GoRuntime} globalPools existingPods :
  RemovePodsNotIn globalPools existingPods =
  (fun pool => {| NodeName := NodeName pool; Cores := purgeCore existingPods <$> Cores pool |})
    <$> globalPools.
Proof.
  unfold RemovePodsNotIn. rewrite <- (range_fmap "RemovePodsNotIn.globalPools").
  generalize (go_range "RemovePodsNotIn.globalPools" globalPools) as l. intros l.
  generalize globalPools as pools. induction l as [|[node pool] l IH]; intros pools; [done|].
  cbn [foldl]. by rewrite range_fmap, IH.
Qed.

(** ** Preservation of the invariant *)

Lemma pool_counts_set_core e node p c core :
  pool_counts e node p -> core_counts (e c) c core ->
  pool_counts e node {| NodeName := NodeName p; Cores := <[c := core]> (Cores p) |}.
Proof. intros [Hn Hc] Hcore. split; [done|]. by apply map_Forall_insert_2. Qed.

Lemma RemovePodFromCore_wf e node p c name :
  pool_counts e node p -> pool_counts e node (RemovePodFromCore p c name).
Proof.
  intros Hp. unfold RemovePodFromCore. destruct (Cores p !! c) as [core|] eqn:E; [|done].
  apply pool_counts_set_core; [done|]. apply releasePod_counts. by apply Hp.
Qed.

(** Only the excesses of the cores the pool has count. *)
Lemma pool_counts_ext (e e' : Z -> Z) node p :
  (forall c, is_Some (Cores p !! c) -> e' c = e c) -> pool_counts e node p -> pool_counts e' node p.
Proof. intros He [Hn Hc]. split; [done|]. intros c core E. rewrite He by by eexists. by apply Hc. Qed.

Lemma AddPodToCore_counts e node p c pod :
  pool_counts e node p ->
  pool_counts (fun c' => e c' + if decide (c' = c) then default 0 (pi_CPUMillis <$> pool_booking p c (pi_Name pod)) else 0)
    node (AddPodToCore p c pod).
Proof.
  intros Hp. unfold AddPodToCore, pool_booking. destruct (Cores p !! c) as [core|] eqn:E; cbn.
  2: { eapply pool_counts_ext; [|exact Hp]. intros c' _. case_decide; lia. }
  split; simpl; [apply Hp|]. intros c' core'. rewrite lookup_insert. destruct (decide (c = c')) as [<-|Hne].
  - intros [= <-]. rewrite decide_True by done. apply bookPod_counts. by apply Hp.
  - intros Hc'. rewrite decide_False, Z.add_0_r by done. by apply Hp.
Qed.

Lemma AddPodToCore_wf e node p c pod :
  pool_booking p c (pi_Name pod) = None -> pool_counts e node p -> pool_counts e node (AddPodToCore p c pod).
Proof.
  intros Hnew Hp. eapply pool_counts_ext; [|by apply AddPodToCore_counts]. intros c' _. rewrite Hnew. cbn. case_decide; lia.
Qed.

Lemma newPool_cores nodeName n i :
  Cores (newPool nodeName n) !! i = if decide (0 <= i < n) then Some (newCore i) else None.
Proof.
  simpl. assert (Hgen : forall l (m : gmap Z CPUCoreInfo),
    foldl (fun cores i => <[i := newCore i]> cores) m l !! i =
    if decide (i ∈ l) then Some (newCore i) else m !! i).
  { induction l as [|j l IH]; intros m; [done|]. cbn [foldl]. rewrite IH.
    destruct (decide (i = j)) as [->|Hne].
    - rewrite lookup_insert_eq, (decide_True (P := j ∈ j :: l)) by left. by case_decide.
    - rewrite lookup_insert_ne by done.
      assert (Hiff : i ∈ j :: l <-> i ∈ l) by (rewrite elem_of_cons; tauto).
      by rewrite (decide_ext _ _ _ _ Hiff). }
  rewrite Hgen, lookup_empty. apply decide_ext. rewrite elem_of_seqZ. lia.
Qed.

Lemma newPool_wf node n : int64 n -> pool_wf node (newPool node n).
Proof.
  intros Hn. split; [done|]. intros i core. rewrite newPool_cores. case_decide; [|done].
  intros [= <-]. apply newCore_counts. unfold int64 in Hn. lia.
Qed.

Lemma GetOrCreateCPUPool_wf g node n : int64 n -> pools_wf g -> pools_wf (GetOrCreateCPUPool g node n).1.
Proof.
  intros Hn Hg. unfold GetOrCreateCPUPool. destruct (g !! node); [done|].
  apply map_Forall_insert_2; [by apply newPool_wf|done].
Qed.

Lemma pool_counts_fmap e node p f :
  (forall e id core, core_counts e id core -> core_counts e id (f core)) ->
  pool_counts e node p -> pool_counts e node {| NodeName := NodeName p; Cores := f <$> Cores p |}.
Proof.
  intros Hf [Hn Hc]. split; [done|]. intros i core. simpl. rewrite lookup_fmap.
  destruct (Cores p !! i) as [core0|] eqn:E; [|done]. intros [= <-]. by apply Hf, Hc.
Qed.

Lemma pools_count_fmap e (f : CPUPool -> CPUPool) g :
  (forall e node p, pool_counts e node p -> pool_counts e node (f p)) -> pools_count e g -> pools_count e (f <$> g).
Proof.
  intros Hf Hg node p. rewrite lookup_fmap. destruct (g !! node) as [p0|] eqn:E; [|done].
  intros [= <-]. by apply Hf, Hg.
Qed.

(** A method on the pool of one node, which may change the excesses there. *)
Lemma pools_count_alter (e e' : string -> Z -> Z) f node g :
  (forall p, g !! node = Some p -> pool_counts (e node) node p -> pool_counts (e' node) node (f p)) ->
  (forall n c, n <> node -> e' n c = e n c) -> pools_count e g -> pools_count e' (alter f node g).
Proof.
  intros Hf He Hg node' p. rewrite lookup_alter. case_decide as Hn.
  - subst node'. destruct (g !! node) as [p0|] eqn:E; [|done]. intros [= <-]. apply Hf; [done|by apply Hg].
  - intros Hp. eapply pool_counts_ext; [|by apply Hg]. intros c _. apply He. congruence.
Qed.

Lemma pools_wf_alter f node g :
  (forall p, g !! node = Some p -> pool_wf node p -> pool_wf node (f p)) -> pools_wf g -> pools_wf (alter f node g).
Proof. intros Hf. by apply pools_count_alter. Qed.

Lemma RemovePodFromPool_counts `{GoRuntime} e g name : pools_count e g -> pools_count e (RemovePodFromPool g name).1.
Proof.
  rewrite RemovePodFromPool_split. apply pools_count_fmap. intros e' node p.
  apply pool_counts_fmap. intros. by apply releasePod_counts.
Qed.

Lemma RemovePodFromPool_wf `{GoRuntime} g name : pools_wf g -> pools_wf (RemovePodFromPool g name).1.
Proof. apply RemovePodFromPool_counts. Qed.

Lemma RemovePodsNotIn_counts `{GoRuntime} e g ex : pools_count e g -> pools_count e (RemovePodsNotIn g ex).
Proof.
  rewrite RemovePodsNotIn_fmap. apply pools_count_fmap. intros e' node p.
  apply pool_counts_fmap. intros. by apply purgeCore_counts.
Qed.

(** One call into the package, next to the budgets that calls of [AddPodToCore]
    have overwritten on each core so far.  Each call may meet another iteration
    order, hence the runtime in the rules. *)
Definition overwrites (g : Pools) (node : string) (c : Z) (pod : PodInfo) (e : string -> Z -> Z) : string -> Z -> Z :=
  fun n c' => e n c' + if decide (n = node /\ c' = c) then default 0 (pi_CPUMillis <$> booking g node c (pi_Name pod)) else 0.

Inductive pool_step : Pools * (string -> Z -> Z) -> Pools * (string -> Z -> Z) -> Prop :=
| step_create g e node n : int64 n -> pool_step (g, e) ((GetOrCreateCPUPool g node n).1, e)
| step_remove_pod (R : GoRuntime) g e name : pool_step (g, e) ((RemovePodFromPool g name).1, e)
| step_purge (R : GoRuntime) g e existing : pool_step (g, e) (RemovePodsNotIn g existing, e)
| step_release g e node c name :
    pool_step (g, e) (alter (fun p => RemovePodFromCore p c name) node g, e)
| step_book g e node c pod :
    pool_step (g, e) (alter (fun p => AddPodToCore p c pod) node g, overwrites g node c pod e).

Lemma booking_pool g node p c name :
  g !! node = Some p -> booking g node c name = pool_booking p c name.
Proof. intros H. unfold booking. by rewrite H. Qed.

(** Nothing has been overwritten on a node without a pool. *)
Definition pools_track (s : Pools * (string -> Z -> Z)) : Prop :=
  pools_count s.2 s.1 /\ forall node c, s.1 !! node = None -> s.2 node c = 0.

Lemma pool_step_track s s' : pool_step s s' -> pools_track s -> pools_track s'.
Proof.
  unfold pools_track.
  destruct 1 as [g e node n Hn|R g e name|R g e ex|g e node c name|g e node c pod]; cbn [fst snd]; intros [Hg H0].
  - unfold GetOrCreateCPUPool. destruct (g !! node) as [p|] eqn:E; [done|]. split.
    + apply map_Forall_insert_2; [|done]. eapply pool_counts_ext; [|by apply newPool_wf]. intros c _. by apply H0.
    + cbn [fst snd]. intros n' c Hn'. apply lookup_insert_None in Hn' as [Hn' _]. by apply H0.
  - split; [by apply RemovePodFromPool_counts|]. intros n c. rewrite RemovePodFromPool_split. cbn [fst].
    rewrite lookup_fmap. intros Hn%fmap_None. by apply H0.
  - split; [by apply RemovePodsNotIn_counts|]. intros n c. rewrite RemovePodsNotIn_fmap, lookup_fmap.
    intros Hn%fmap_None. by apply H0.
  - split; [eapply pools_count_alter; [|done|exact Hg]; intros; by apply RemovePodFromCore_wf|].
    intros n c' Hn%lookup_alter_None. by apply H0.
  - split.
    + eapply pools_count_alter; [| |exact Hg].
      * intros p Hp Hc. eapply pool_counts_ext; [|by apply AddPodToCore_counts]. intros c' _. unfold overwrites.
        rewrite (booking_pool _ _ _ _ _ Hp). f_equal. apply decide_ext. tauto.
      * intros n c' Hn. unfold overwrites. rewrite decide_False by naive_solver. lia.
    + intros n c' Hn%lookup_alter_None. unfold overwrites. rewrite H0 by done. case_decide as Hd; [|done].
      destruct Hd as [-> ->]. unfold booking. by rewrite Hn.
Qed.

#[export] Hint Resolve GetOrCreateCPUPool_wf RemovePodFromPool_wf RemovePodsNotIn_counts
  RemovePodFromCore_wf AddPodToCore_wf : mckube.

Lemma booking_releaseEverywhere g name node c name' :
  booking (releaseEverywhere name <$> g) node c name' =
  if decide (name' = name) then None else booking g node c name'.
Proof.
  unfold booking. rewrite lookup_fmap. destruct (g !! node) as [p|]; simpl; [|by case_decide].
  rewrite lookup_fmap. destruct (Cores p !! c) as [core|]; simpl; [|by case_decide].
  rewrite releasePod_Pods, lookup_delete. by repeat case_decide; subst.
Qed.

Lemma bookedIn_spec `{GoRuntime} name p :
  bookedIn name p = true <-> exists c, is_Some (pool_booking p c name).
Proof.
  unfold bookedIn, bookedOn, pool_booking. rewrite existsb_exists. split.
  - intros ([c core] & Hin & Hb). apply list_elem_of_In, elem_of_go_range in Hin.
    apply bool_decide_eq_true in Hb. exists c. by rewrite Hin.
  - intros [c Hc]. destruct (Cores p !! c) as [core|] eqn:E; [|by destruct Hc].
    exists (c, core). split; [by apply list_elem_of_In, elem_of_go_range|].
    by apply bool_decide_eq_true.
Qed.

(** The core exists in the pool of the node. *)
Definition has_core (g : Pools) (node : string) (c : Z) : Prop :=
  exists p, g !! node = Some p /\ is_Some (Cores p !! c).

Lemma has_core_alt g node c : has_core g node c <-> is_Some (g !! node ≫= fun p => Cores p !! c).
Proof.
  unfold has_core. destruct (g !! node) as [p|]; simpl.
  - split; [intros (p' & [= <-] & Hc); done|intros Hc; by exists p].
  - split; [by intros (p' & ? & _)|by intros [? ?]].
Qed.

#[export] Instance has_core_dec g node c : Decision (has_core g node c).
Proof. exact (dec_iff (has_core_alt g node c)). Defined.

(** A booking after a method on the pool of a node. *)
Lemma booking_alter f node g n c name :
  booking (alter f node g) n c name =
  if decide (n = node) then (p ← g !! node; pool_booking (f p) c name) else booking g n c name.
Proof.
  unfold booking. rewrite lookup_alter. destruct (decide (node = n)) as [<-|Hn].
  - rewrite decide_True by done. by destruct (g !! node).
  - by rewrite decide_False by done.
Qed.

Lemma pool_booking_remove p c nm c' nm' :
  pool_booking (RemovePodFromCore p c nm) c' nm' =
  if decide (c' = c /\ nm' = nm) then None else pool_booking p c' nm'.
Proof.
  unfold pool_booking, RemovePodFromCore. destruct (Cores p !! c) as [core|] eqn:E; simpl.
  - rewrite lookup_insert. case_decide as Hc; [subst c'|by rewrite decide_False by naive_solver].
    simpl. rewrite releasePod_Pods, E. simpl. destruct (decide (nm' = nm)) as [->|Hn].
    + by rewrite decide_True, lookup_delete_eq.
    + by rewrite decide_False, lookup_delete_ne by naive_solver.
  - case_decide as Hc; [|done]. destruct Hc as [-> ->]. by rewrite E.
Qed.

Lemma pool_booking_add p c pod c' nm' :
  pool_booking (AddPodToCore p c pod) c' nm' =
  if decide (c' = c /\ nm' = pi_Name pod /\ is_Some (Cores p !! c)) then Some pod else pool_booking p c' nm'.
Proof.
  unfold pool_booking, AddPodToCore. destruct (Cores p !! c) as [core|] eqn:E; simpl.
  - rewrite lookup_insert. case_decide as Hc; [subst c'|by rewrite decide_False by naive_solver].
    simpl. rewrite E. simpl. destruct (decide (nm' = pi_Name pod)) as [->|Hn].
    + by rewrite decide_True, lookup_insert_eq by eauto.
    + by rewrite decide_False, lookup_insert_ne by naive_solver.
  - rewrite decide_False; [done|]. intros (_ & _ & H). by apply is_Some_None in H.
Qed.

(** Neither method creates or removes cores. *)
Lemma RemovePodFromCore_cores p c nm c' : is_Some (Cores (RemovePodFromCore p c nm) !! c') <-> is_Some (Cores p !! c').
Proof.
  unfold RemovePodFromCore. destruct (Cores p !! c) eqn:E; [|done]. simpl. rewrite lookup_insert.
  case_decide; [subst; rewrite E; split; eauto|done].
Qed.

Lemma AddPodToCore_cores p c pod c' : is_Some (Cores (AddPodToCore p c pod) !! c') <-> is_Some (Cores p !! c').
Proof.
  unfold AddPodToCore. destruct (Cores p !! c) eqn:E; [|done]. simpl. rewrite lookup_insert.
  case_decide; [subst; rewrite E; split; eauto|done].
Qed.

(** The loop of [FindLeastLoadedCore]: the pair it carries is a lower bound of
    the usages seen, and one of them or the initial pair. *)
Lemma leastLoaded_fold l best :
  let '(c, u) := foldl leastLoadedStep best l in
  u <= best.2 /\ Forall (fun kv => u <= UsageMillis kv.2) l /\
  ((c, u) = best \/ exists core, (c, core) ∈ l /\ u = UsageMillis core).
Proof.
  revert best. induction l as [|[i core] l IH]; intros [c0 u0]; cbn [foldl]; [simpl; split; [lia|by auto]|].
  specialize (IH (leastLoadedStep (c0, u0) (i, core))).
  destruct (foldl leastLoadedStep _ l) as [c u]. destruct IH as (IH1 & IH2 & IH3).
  unfold leastLoadedStep in *. destruct (UsageMillis core <? u0) eqn:E; z_bools; simpl in IH1 |- *.
  - split; [lia|]. split; [by constructor|]. right.
    destruct IH3 as [[= -> ->]|(core' & Hin & ->)]; [exists core|exists core']; set_solver.
  - split; [lia|]. split; [constructor; [simpl; lia|done]|].
    destruct IH3 as [?|(core' & Hin & ->)]; [by left|right; exists core'; set_solver].
Qed.

(** ** Properties *)

(** C4: the accounting of the package, for every sequence of its calls from the
    empty [globalPools], with no condition on them: each core's [UsageMillis] is
    the sum of the budgets filed on it plus the budgets of the entries that
    calls of [AddPodToCore] have overwritten there (modulo the width of
    [int64]), and pods, cores and pools are filed under their own names,
    identifiers and nodes.  The sum is exact as long as nothing is overwritten;
    no later call makes up for an overwritten budget. *)
Theorem reachable_pools_wf g e :
  rtc pool_step (∅, no_excess) (g, e) ->
  pools_count e g /\ ((forall node c, e node c = 0) -> pools_wf g).
Proof.
  intros Hrun. assert (H0 : pools_track (∅, no_excess)) by (split; [apply map_Forall_empty|done]).
  assert (H : pools_track (g, e)).
  { revert H0. induction Hrun; eauto using pool_step_track. }
  destruct H as [H _]. split; [done|]. intros He node p Hp. eapply pool_counts_ext; [|by apply H].
  intros c _. symmetry. apply He.
Qed.

Definition pod_a : PodInfo := mkPodInfo "a" "default" "LOW" 300 [0].

(** Booked twice in a row: 600 milli-CPUs are in use, 300 are booked. *)
Example reachable_pools_wf_witness :
  exists g e, rtc pool_step (∅, no_excess) (g, e) /\ pools_count e g /\ e "n1" 0 = 300 /\
    (UsageMillis <$> (p ← g !! "n1"; Cores p !! 0)) = Some 600 /\ booking g "n1" 0 "a" = Some pod_a.
Proof.
  set (g1 := (GetOrCreateCPUPool ∅ "n1" 2).1). set (g2 := alter (fun p => AddPodToCore p 0 pod_a) "n1" g1).
  assert (Hrun : rtc pool_step (∅, no_excess) (alter (fun p => AddPodToCore p 0 pod_a) "n1" g2,
    overwrites g2 "n1" 0 pod_a (overwrites g1 "n1" 0 pod_a no_excess))).
  { eapply rtc_l; [by apply (step_create ∅ no_excess "n1" 2)|]. eapply rtc_l; [apply step_book|]. apply rtc_once, step_book. }
  eexists _, _. split; [exact Hrun|]. split; [exact (proj1 (reachable_pools_wf _ _ Hrun))|].
  split_and!; vm_compute; reflexivity.
Defined.

(** [AddPodToCore] on a core where a pod of that name is already booked
    overwrites the entry but keeps the old budget in [UsageMillis]: the
    accounting is then off by exactly the old budget, and the invariant is
    broken as soon as that budget is positive. *)
Theorem AddPodToCore_overwrite_drift node p c pod old core :
  Cores p !! c = Some core -> pool_wf node p -> Pods core !! pi_Name pod = Some old ->
  0 < pi_CPUMillis old < 2 ^ 63 ->
  exists core', Cores (AddPodToCore p c pod) !! c = Some core' /\
    UsageMillis core' = wrap64 (booked (Pods core') + pi_CPUMillis old) /\
    ~ pool_wf node (AddPodToCore p c pod).
Proof.
  intros Hc [Hn Hcores] Hold Hpos. unfold AddPodToCore. rewrite Hc.
  exists (bookPod pod core). simpl. rewrite lookup_insert_eq. split; [done|].
  assert (Hu : UsageMillis (bookPod pod core) = wrap64 (booked (Pods (bookPod pod core)) + pi_CPUMillis old)).
  { destruct (Hcores c core Hc) as [_ _ Hu _]. simpl. rewrite Hu, wrap64_add_l. unfold booked.
    rewrite (map_sumZ_replace _ _ _ _ _ Hold). f_equal. lia. }
  split; [done|]. intros [_ Hwf]. specialize (Hwf c (bookPod pod core)). simpl in Hwf.
  rewrite lookup_insert_eq in Hwf. destruct (Hwf eq_refl) as [_ _ Hu' _].
  rewrite Hu, Z.add_0_r in Hu'. unfold wrap64 in Hu'.
  set (B := booked (Pods (bookPod pod core))) in *.
  pose proof (Z_div_mod_eq_full (B + pi_CPUMillis old + 2 ^ 63) (2 ^ 64)).
  pose proof (Z_div_mod_eq_full (B + 2 ^ 63) (2 ^ 64)). lia.
Qed.

Example AddPodToCore_overwrite_drift_witness :
  let p := AddPodToCore (newPool "n1" 2) 0 pod_a in
  exists core', Cores (AddPodToCore p 0 pod_a) !! 0 = Some core' /\
    UsageMillis core' = wrap64 (booked (Pods core') + 300) /\
    ~ pool_wf "n1" (AddPodToCore p 0 pod_a).
Proof.
  refine (AddPodToCore_overwrite_drift "n1" (AddPodToCore (newPool "n1" 2) 0 pod_a) 0 pod_a pod_a
    (bookPod pod_a (newCore 0)) _ _ _ _).
  - vm_compute. reflexivity.
  - apply AddPodToCore_wf; [vm_compute; reflexivity|by apply newPool_wf].
  - vm_compute. reflexivity.
  - simpl. lia.
Defined.

(** [RemovePodFromPool] deletes the pod from every core of every node, leaves
    all other bookings as they were, and its result says whether the pod was
    booked anywhere; this does not depend on the iteration order. *)
Theorem RemovePodFromPool_spec `{GoRuntime} g name g' removed :
  RemovePodFromPool g name = (g', removed) ->
  (forall node c name', booking g' node c name' =
     if decide (name' = name) then None else booking g node c name') /\
  (removed = true <-> exists node c, is_Some (booking g node c name)).
Proof.
  rewrite RemovePodFromPool_split. intros [= <- <-]. split; [intros; apply booking_releaseEverywhere|].
  rewrite existsb_exists. split.
  - intros ([node p] & Hin & Hb). apply list_elem_of_In, elem_of_go_range in Hin.
    apply bookedIn_spec in Hb as [c Hc]. exists node, c. by rewrite (booking_pool _ _ _ _ _ Hin).
  - intros (node & c & Hc). destruct (g !! node) as [p|] eqn:E;
      [|by unfold booking in Hc; rewrite E in Hc; destruct Hc].
    exists (node, p). split; [by apply list_elem_of_In, elem_of_go_range|].
    apply bookedIn_spec. exists c. by rewrite <- (booking_pool _ _ _ _ _ E).
Qed.

Example RemovePodFromPool_spec_witness :
  let g := {["n1" := AddPodToCore (newPool "n1" 2) 0 pod_a]} in
  booking (@RemovePodFromPool reference_runtime g "a").1 "n1" 0 "a" = None /\
  (@RemovePodFromPool reference_runtime g "a").2 = true.
Proof.
  intros g. destruct (@RemovePodFromPool reference_runtime g "a") as [g' r] eqn:E.
  destruct (@RemovePodFromPool_spec reference_runtime g "a" g' r E) as [H1 H2]. split.
  - apply (H1 "n1" 0 "a").
  - apply H2. exists "n1", 0, pod_a. vm_compute. reflexivity.
Defined.

(** [RemovePodsNotIn] keeps exactly the bookings of the pods that still
    exist, for every iteration order of its three nested loops, although it
    deletes from the innermost map while visiting it. *)
Theorem RemovePodsNotIn_spec `{GoRuntime} g existing node c name :
  booking (RemovePodsNotIn g existing) node c name =
  if existing name then booking g node c name else None.
Proof.
  rewrite RemovePodsNotIn_fmap. unfold booking. rewrite lookup_fmap.
  destruct (g !! node) as [p|]; simpl; [|by destruct (existing name)].
  rewrite lookup_fmap. destruct (Cores p !! c) as [core|]; simpl; [|by destruct (existing name)].
  apply purgeCore_Pods.
Qed.

(** Releasing a pod that has just been booked on a core gives back the pool
    as it was: [RemovePodFromCore] undoes [AddPodToCore]. *)
Theorem book_release_roundtrip p c pod :
  pool_booking p c (pi_Name pod) = None ->
  map_Forall (fun _ core => int64 (UsageMillis core)) (Cores p) ->
  RemovePodFromCore (AddPodToCore p c pod) c (pi_Name pod) = p.
Proof.
  unfold pool_booking, AddPodToCore, RemovePodFromCore. intros Hnew Hu.
  destruct (Cores p !! c) as [core|] eqn:E; simpl in *; [|by rewrite E].
  rewrite lookup_insert_eq, insert_insert_eq. destruct p as [node cores]. f_equal. simpl in *.
  apply insert_id. rewrite E. f_equal. unfold releasePod, bookPod. simpl.
  rewrite lookup_insert_eq. destruct core as [i u pods]. simpl in *. f_equal.
  - rewrite wrap64_sub_l, wrap64_id; [lia|]. specialize (Hu _ _ E). simpl in Hu.
    replace (u + pi_CPUMillis pod - pi_CPUMillis pod) with u by lia. done.
  - symmetry. by apply delete_insert_id.
Qed.

Example book_release_roundtrip_witness :
  RemovePodFromCore (AddPodToCore (newPool "n1" 2) 0 pod_a) 0 "a" = newPool "n1" 2.
Proof.
  apply (book_release_roundtrip (newPool "n1" 2) 0 pod_a); [vm_compute; reflexivity|].
  intros i core. rewrite newPool_cores. case_decide; [|done]. intros [= <-]. split; simpl; lia.
Defined.

(** [FindLeastLoadedCore] returns a core of the pool whose [UsageMillis] is
    minimal, whatever the iteration order; it returns -1 only if the pool has
    no core below the largest [int64]. *)
Theorem FindLeastLoadedCore_minimal `{GoRuntime} p :
  let c := FindLeastLoadedCore p in
  (c = -1 /\ map_Forall (fun _ core => 2 ^ 63 - 1 <= UsageMillis core) (Cores p)) \/
  (exists core, Cores p !! c = Some core /\
     map_Forall (fun _ core' => UsageMillis core <= UsageMillis core') (Cores p)).
Proof.
  unfold FindLeastLoadedCore.
  pose proof (leastLoaded_fold (go_range "FindLeastLoadedCore" (Cores p)) (-1, 2 ^ 63 - 1)) as Hinv.
  destruct (foldl leastLoadedStep _ _) as [c u]. destruct Hinv as (_ & Hall & Hc). simpl.
  assert (Hmin : forall i core, Cores p !! i = Some core -> u <= UsageMillis core).
  { intros i core Hi. rewrite Forall_forall in Hall. apply (Hall (i, core)), elem_of_go_range, Hi. }
  destruct Hc as [[= -> ->]|(core & Hin & ->)]; [left; by split|right].
  apply elem_of_go_range in Hin. by exists core.
Qed.

(** [GetOrCreateCPUPool] returns the existing pool of a node and creates
    nothing, or else creates a pool with the cores 0 to [numCores - 1], all
    idle; calling it again returns the same pool and state. *)
Theorem GetOrCreateCPUPool_spec g node n :
  let '(g', p) := GetOrCreateCPUPool g node n in
  g' !! node = Some p /\
  GetOrCreateCPUPool g' node n = (g', p) /\
  match g !! node with
  | Some p0 => p = p0 /\ g' = g
  | None => g' = <[node := p]> g /\ NodeName p = node /\
            forall i, Cores p !! i = if decide (0 <= i < n) then Some (newCore i) else None
  end.
Proof.
  unfold GetOrCreateCPUPool. destruct (g !! node) as [p0|] eqn:E.
  - by rewrite E.
  - rewrite lookup_insert_eq. split; [done|]. split; [done|]. split; [done|]. split; [done|].
    intros i. apply newPool_cores.
Qed.
