(* ===== verification/CoreSet.v ===== *)
(** * CoreSet: parsing a core specification

    [ParseCoreSet] and [filterValidCores] of [internal/cpupool/cpupool.go].
    The strings come from the custom resource (written by a user or by the
    mutating webhook), so all inputs matter.  The [for i := start; i <= end]
    loop increments an [int] that wraps: for [end] the largest [int] it never
    ends.  [ParseCoreSet] returns [None] exactly when the Go function does not
    return. *)
From S2P Require Import Prelude GoString.
From stdpp Require Import options.
From Stdlib Require Import Ascii.

Local Open Scope string_scope.
Local Open Scope Z_scope.

(** [for i := start; i <= end; i++ { cores = append(cores, i) }]; [None] when
    [fuel] iterations are not enough. *)
Fixpoint range_loop (fuel : nat) (i end_ : Z) (cores : list Z) : option (list Z) :=
  if i <=? end_ then
    match fuel with
    | O => None
    | S f => range_loop f (wrap64 (i + 1)) end_ (cores ++ [i])%list
    end
  else Some cores.

(** The number of iterations of a loop that ends. *)
Definition range_fuel (start end_ : Z) : nat := Z.to_nat (end_ - start + 1).

(** The body of the loop over the comma-separated parts. *)
Definition parse_part (part : string) (cores : list Z) : option (list Z) :=
  let part := TrimSpace part in
  if str_contains part "-" then
    match str_split "-" part with
    | [lo; hi] =>
        match Atoi (TrimSpace lo), Atoi (TrimSpace hi) with
        | Some start, Some end_ => range_loop (range_fuel start end_) start end_ cores
        | _, _ => Some cores
        end
    | _ => Some cores
    end
  else
    match Sscanf_d part with
    | Some coreID => Some (cores ++ [coreID])%list
    | None => Some cores
    end.

Fixpoint parse_parts (parts : list string) (cores : list Z) : option (list Z) :=
  match parts with
  | [] => Some cores
  | part :: parts' =>
      match parse_part part cores with
      | Some cores' => parse_parts parts' cores'
      | None => None
      end
  end.

Definition ParseCoreSet (coreStr : string) : option (list Z) :=
  if String.eqb coreStr "" then Some []
  else parse_parts (str_split "," coreStr) [].

Definition filterValidCores (preferred : list Z) (numCores : Z) : list Z :=
  foldl (fun valid c => if (0 <=? c) && (c <? numCores) then (valid ++ [c])%list else valid) [] preferred.

Example ParseCoreSet_docs :
  (ParseCoreSet "2-3", ParseCoreSet "1", ParseCoreSet "0,2,4", ParseCoreSet "", ParseCoreSet " 1 , 4 - 6,x,-2,3-,5y")
  = (Some [2; 3], Some [1], Some [0; 2; 4], Some [], Some [1; 4; 5; 6; 5]).
Proof. vm_compute. reflexivity. Qed.

(** ** The range loop *)

Lemma range_loop_empty fuel i end_ cores : end_ < i -> range_loop fuel i end_ cores = Some cores.
Proof. intros H. destruct fuel; simpl; destruct (i <=? end_) eqn:E; z_bools; done || lia. Qed.

(** Enough fuel below the largest integer. *)
Lemma range_loop_seqZ fuel i end_ cores :
  int64 i -> int64 end_ -> end_ < 2 ^ 63 - 1 -> end_ - i + 1 <= Z.of_nat fuel ->
  range_loop fuel i end_ cores = Some (cores ++ seqZ i (end_ - i + 1))%list.
Proof.
  unfold int64. revert i cores. induction fuel as [|f IH]; intros i cores Hi He Hmax Hf.
  - rewrite range_loop_empty by lia. rewrite seqZ_nil, app_nil_r by lia. done.
  - cbn [range_loop]. destruct (i <=? end_) eqn:E; z_bools.
    + rewrite wrap64_id by (unfold int64; lia). rewrite IH by lia.
      rewrite <- app_assoc. do 2 f_equal.
      rewrite (seqZ_cons i) by lia. cbn [app]. f_equal. f_equal; lia.
    + rewrite seqZ_nil, app_nil_r by lia. done.
Qed.

(** At the largest integer the loop never ends: the counter wraps around. *)
Lemma range_loop_diverges fuel i cores :
  int64 i -> range_loop fuel i (2 ^ 63 - 1) cores = None.
Proof.
  revert i cores. induction fuel as [|f IH]; intros i cores Hi; cbn [range_loop];
    (destruct (i <=? 2 ^ 63 - 1) eqn:E; z_bools; [|unfold int64 in Hi; lia]); [done|].
  apply IH, wrap64_range.
Qed.

Lemma range_loop_fuel start end_ cores :
  int64 start -> int64 end_ ->
  range_loop (range_fuel start end_) start end_ cores =
  if (start <=? end_) && (end_ =? 2 ^ 63 - 1) then None
  else Some (cores ++ seqZ start (end_ - start + 1))%list.
Proof.
  intros Hs He. destruct (start <=? end_) eqn:E; simpl; z_bools.
  - destruct (Z.eqb_spec end_ (2 ^ 63 - 1)) as [->|Hne]; [by apply range_loop_diverges|].
    apply range_loop_seqZ; try done; unfold int64, range_fuel in *; lia.
  - rewrite range_loop_empty by lia. rewrite seqZ_nil, app_nil_r by lia. done.
Qed.

(** ** What a part contributes *)

Lemma parse_part_app part cores :
  parse_part part cores = app cores <$> parse_part part [].
Proof.
  unfold parse_part. destruct (str_contains _ _).
  - destruct (str_split _ _) as [|lo [|hi []]]; simpl; rewrite ?app_nil_r; try done.
    destruct (Atoi (TrimSpace lo)) as [s|] eqn:Es, (Atoi (TrimSpace hi)) as [e|] eqn:Ee;
      simpl; rewrite ?app_nil_r; try done.
    rewrite !range_loop_fuel by (by eapply Atoi_int64). by destruct (_ && _).
  - destruct (Sscanf_d _); simpl; by rewrite ?app_nil_r.
Qed.

Lemma parse_parts_app parts cores :
  parse_parts parts cores = app cores <$> parse_parts parts [].
Proof.
  revert cores. induction parts as [|p parts IH]; intros cores; simpl; [by rewrite app_nil_r|].
  rewrite parse_part_app. destruct (parse_part p []) as [l|]; simpl; [|done].
  rewrite (IH (cores ++ l)%list), (IH l). destruct (parse_parts parts []); simpl; [|done].
  by rewrite app_assoc.
Qed.

Lemma parse_parts_cons p parts cores l :
  parse_part p [] = Some l -> parse_parts (p :: parts) cores = parse_parts parts (cores ++ l)%list.
Proof. intros H. simpl. by rewrite parse_part_app, H. Qed.

Lemma parse_part_itoa n : 0 <= n < 2 ^ 63 -> parse_part (itoa n) [] = Some [n].
Proof.
  intros Hn. unfold parse_part. rewrite TrimSpace_itoa by lia.
  rewrite str_contains_byte_none by (apply itoa_no_byte; [lia|done]).
  by rewrite Sscanf_itoa.
Qed.

(** The notation of a range of cores. *)
Definition core_range (lo hi : Z) : string := itoa lo +:+ String "-" (itoa hi).

Lemma core_range_no_comma lo hi : 0 <= lo -> 0 <= hi -> no_byte "," (core_range lo hi).
Proof.
  intros Hlo Hhi. unfold core_range.
  assert (Hl : no_byte "," (itoa lo)) by by apply itoa_no_byte.
  assert (Hh : no_byte "," (itoa hi)) by by apply itoa_no_byte.
  induction (itoa lo) as [|a s IH]; [by split|]. rewrite str_app_cons. destruct Hl as [Ha Hl].
  split; [done|by apply IH].
Qed.

Lemma TrimSpace_core_range lo hi : 0 <= lo -> 0 <= hi -> TrimSpace (core_range lo hi) = core_range lo hi.
Proof.
  intros Hlo Hhi. apply TrimSpace_digits; unfold core_range.
  - by apply starts_with_digit_app, itoa_starts.
  - rewrite str_rev_append, str_rev_cons, str_app_assoc.
    by apply starts_with_digit_app, itoa_rev_starts.
Qed.

Lemma parse_part_core_range lo hi :
  0 <= lo < 2 ^ 63 -> 0 <= hi < 2 ^ 63 - 1 ->
  parse_part (core_range lo hi) [] = Some (seqZ lo (hi - lo + 1)).
Proof.
  intros Hlo Hhi. unfold parse_part. rewrite TrimSpace_core_range by lia.
  unfold core_range. rewrite str_contains_byte_some.
  rewrite str_split_app by (apply itoa_no_byte; [lia|done]).
  rewrite str_split_no_byte by (apply itoa_no_byte; [lia|done]).
  rewrite !TrimSpace_itoa, !Atoi_itoa by lia.
  rewrite range_loop_fuel by (unfold int64; lia).
  replace (hi =? 2 ^ 63 - 1) with false by (symmetry; apply Z.eqb_neq; lia).
  by rewrite andb_false_r.
Qed.

(** *** Bounds of what is parsed *)

Lemma split_no_byte c s : Forall (no_byte c) (str_split c s).
Proof.
  induction s as [|a s IH]; simpl; [by repeat constructor|].
  destruct (Ascii.eqb_spec a c); [by constructor|].
  destruct (str_split c s) as [|p ps]; [by repeat constructor|].
  apply Forall_cons in IH as [Hp Hps]. constructor; [by split|done].
Qed.

Lemma no_byte_contains c s : str_contains s (String c EmptyString) = false -> no_byte c s.
Proof.
  unfold str_contains. induction s as [|a s IH]; [done|]. cbn [str_index has_prefix].
  destruct (Ascii.eqb_spec c a) as [->|Hne]; simpl; [by destruct s|].
  destruct (str_index (String c EmptyString) s); [done|]. intros _. split; [congruence|by apply IH].
Qed.

Lemma drop_bytes_no_byte c n s : no_byte c s -> no_byte c (drop_bytes n s).
Proof. revert s. induction n as [|n IH]; intros [|a s] Hs; try done. apply IH, Hs. Qed.

Lemma trim_left_no_byte c fuel es s : no_byte c s -> no_byte c (trim_left fuel es s).
Proof.
  revert s. induction fuel as [|f IH]; intros s Hs; [done|]. cbn [trim_left].
  destruct (leading_space es s); [done|]. apply IH. by apply drop_bytes_no_byte.
Qed.

Lemma no_byte_app c s t : no_byte c s -> no_byte c t -> no_byte c (s +:+ t).
Proof.
  induction s as [|a s IH]; [done|]. rewrite str_app_cons. intros [Ha Hs] Ht. split; [done|by apply IH].
Qed.

Lemma str_rev_no_byte c s : no_byte c s -> no_byte c (str_rev s).
Proof.
  induction s as [|a s IH]; [done|]. intros [Ha Hs]. rewrite str_rev_cons.
  apply no_byte_app; [by apply IH|done].
Qed.

Lemma TrimSpace_no_byte c s : no_byte c s -> no_byte c (TrimSpace s).
Proof. intros Hs. by apply str_rev_no_byte, trim_left_no_byte, str_rev_no_byte, trim_left_no_byte. Qed.

(** Every core identifier a part contributes is a non-negative [int]. *)
Lemma parse_part_bounds p l : parse_part p [] = Some l -> Forall (fun c => 0 <= c < 2 ^ 63) l.
Proof.
  unfold parse_part. destruct (str_contains _ _) eqn:Ec.
  - pose proof (split_no_byte "-" (TrimSpace p)) as Hsplit.
    destruct (str_split _ _) as [|lo [|hi []]]; try (by intros [= <-]).
    rewrite !Forall_cons in Hsplit. destruct Hsplit as (Hlo & Hhi & _).
    destruct (Atoi (TrimSpace lo)) as [s|] eqn:Es, (Atoi (TrimSpace hi)) as [e|] eqn:Ee;
      try (by intros [= <-]).
    pose proof (Atoi_int64 _ _ Es) as Is. pose proof (Atoi_int64 _ _ Ee) as Ie.
    apply Atoi_nonneg in Es; [|by apply TrimSpace_no_byte].
    rewrite range_loop_fuel by done. destruct (_ && _); [done|]. intros [= <-].
    apply Forall_forall. intros c. rewrite elem_of_seqZ. unfold int64 in *. lia.
  - destruct (Sscanf_d _) as [n|] eqn:En; intros [= <-]; [|done].
    pose proof (Sscanf_int64 _ _ En) as In_. apply no_byte_contains in Ec.
    apply Sscanf_nonneg in En; [|done]. repeat constructor; unfold int64 in *; lia.
Qed.

Lemma parse_parts_bounds parts l : parse_parts parts [] = Some l -> Forall (fun c => 0 <= c < 2 ^ 63) l.
Proof.
  revert l. induction parts as [|p parts IH]; intros l; simpl; [by intros [= <-]|].
  destruct (parse_part p []) as [l1|] eqn:E1; [|done].
  rewrite parse_parts_app. destruct (parse_parts parts []) as [l2|]; [|done].
  intros [= <-]. apply Forall_app. split; [by eapply parse_part_bounds|by apply IH].
Qed.

(** [filterValidCores] is a filter. *)
Lemma filterValidCores_filter preferred n :
  filterValidCores preferred n = filter (fun c => 0 <= c < n) preferred.
Proof.
  unfold filterValidCores.
  assert (Hgen : forall l acc,
    foldl (fun valid c => if (0 <=? c) && (c <? n) then (valid ++ [c])%list else valid) acc l =
    (acc ++ filter (fun c => (0 <= c < n)%Z) l)%list); [|by rewrite Hgen].
  induction l as [|c l IH]; intros acc; simpl; [by rewrite app_nil_r|].
  rewrite filter_cons. destruct ((0 <=? c) && (c <? n)) eqn:E; z_bools; rewrite IH.
  - rewrite decide_True by lia. by rewrite <- app_assoc.
  - rewrite decide_False; [done|]. destruct E; z_bools; lia.
Qed.

(** ** Round trips *)

(** The notation of a list of cores, separated by commas. *)
Fixpoint core_list (l : list Z) : string :=
  match l with
  | [] => EmptyString
  | [n] => itoa n
  | n :: l' => itoa n +:+ String "," (core_list l')
  end.

Definition core_id (n : Z) : Prop := 0 <= n < 2 ^ 63.

Lemma split_core_list l :
  Forall core_id l -> l <> [] -> str_split "," (core_list l) = map itoa l.
Proof.
  unfold core_id. induction l as [|n l IH]; [done|]. intros [Hn Hl]%Forall_cons _. destruct l as [|m l].
  - simpl. apply str_split_no_byte, itoa_no_byte; [lia|done].
  - change (core_list (n :: m :: l)) with (itoa n +:+ String "," (core_list (m :: l))).
    rewrite str_split_app by (apply itoa_no_byte; [lia|done]). rewrite (IH Hl) by done. done.
Qed.

Lemma core_list_nonempty l : Forall core_id l -> l <> [] -> String.eqb (core_list l) "" = false.
Proof.
  intros Hl Hne. apply String.eqb_neq. intros E.
  pose proof (split_core_list l Hl Hne) as Hs. rewrite E in Hs.
  destruct l as [|n [|m l]]; [done| |done]. simpl in E.
  apply Forall_cons in Hl as [Hn _]. unfold core_id in Hn.
  assert (starts_with_digit (itoa n) = true) by (apply itoa_starts; lia). by rewrite E in *.
Qed.

Lemma parse_itoas l cores :
  Forall core_id l -> parse_parts (map itoa l) cores = Some (cores ++ l)%list.
Proof.
  revert cores. induction l as [|n l IH]; intros cores; [by rewrite app_nil_r|].
  intros [Hn Hl]%Forall_cons. cbn [map]. rewrite (parse_parts_cons _ _ _ [n]) by by apply parse_part_itoa.
  rewrite IH by done. by rewrite <- app_assoc.
Qed.

Lemma ParseCoreSet_core_list l : Forall core_id l -> ParseCoreSet (core_list l) = Some l.
Proof.
  intros Hl. destruct (decide (l = [])) as [->|Hne]; [done|]. unfold ParseCoreSet.
  rewrite core_list_nonempty, split_core_list, parse_itoas by done. done.
Qed.

(** ** Properties *)

(** C35: a list of core identifiers printed with [%d] and joined by commas is
    parsed back to the same list; in particular the single core the mutating
    webhook and the migration print is the core the validator and the
    reconciler read. *)
Theorem ParseCoreSet_roundtrip l :
  Forall core_id l -> ParseCoreSet (core_list l) = Some l.
Proof. apply ParseCoreSet_core_list. Qed.

Example ParseCoreSet_roundtrip_witness : ParseCoreSet "7,0,12" = Some [7; 0; 12].
Proof.
  change "7,0,12" with (core_list [7; 0; 12]).
  apply (ParseCoreSet_roundtrip [7; 0; 12]). repeat (constructor; [unfold core_id; lia|]). constructor.
Defined.

(** A range of cores is parsed to all the cores from its lower to its upper
    end, both included, and to none if the ends are swapped. *)
Theorem ParseCoreSet_range lo hi :
  0 <= lo < 2 ^ 63 -> 0 <= hi < 2 ^ 63 - 1 ->
  ParseCoreSet (itoa lo +:+ String "-" (itoa hi)) = Some (seqZ lo (hi - lo + 1)).
Proof.
  intros Hlo Hhi. fold (core_range lo hi). unfold ParseCoreSet.
  rewrite str_split_no_byte by (apply core_range_no_comma; lia).
  replace (String.eqb (core_range lo hi) "") with false.
  - rewrite (parse_parts_cons _ _ _ (seqZ lo (hi - lo + 1))); [done|by apply parse_part_core_range].
  - symmetry. apply String.eqb_neq. unfold core_range. intros E.
    assert (starts_with_digit (itoa lo) = true) by (apply itoa_starts; lia). by destruct (itoa lo).
Qed.

Example ParseCoreSet_range_witness : ParseCoreSet "2-5" = Some [2; 3; 4; 5].
Proof. apply (ParseCoreSet_range 2 5); lia. Defined.

(** Every core identifier in a result of [ParseCoreSet] is a non-negative
    [int], for every input: no negative core is ever looked up. *)
Theorem ParseCoreSet_nonneg s l : ParseCoreSet s = Some l -> Forall (fun c => 0 <= c < 2 ^ 63) l.
Proof.
  unfold ParseCoreSet. destruct (String.eqb s ""); [by intros [= <-]|]. apply parse_parts_bounds.
Qed.

Example ParseCoreSet_nonneg_witness : Forall (fun c => 0 <= c < 2 ^ 63) [1; 4; 5].
Proof. apply (ParseCoreSet_nonneg "1,-3,4-5,x"). vm_compute. reflexivity. Defined.

(** A part [lo-hi] whose upper end is the largest [int]. *)
Definition endless_part (part : string) : Prop :=
  exists lo hi start, str_split "-" (TrimSpace part) = [lo; hi] /\
    Atoi (TrimSpace lo) = Some start /\ Atoi (TrimSpace hi) = Some (2 ^ 63 - 1).

Lemma split_two_contains c s lo hi :
  str_split c s = [lo; hi] -> str_contains s (String c EmptyString) = true.
Proof.
  intros Hs. destruct (str_contains s (String c EmptyString)) eqn:E; [done|].
  apply no_byte_contains in E. by rewrite str_split_no_byte in Hs.
Qed.

Lemma parse_part_endless p : parse_part p [] = None <-> endless_part p.
Proof.
  unfold parse_part, endless_part. split.
  - destruct (str_contains _ _); [|by destruct (Sscanf_d _)].
    destruct (str_split _ _) as [|lo [|hi []]]; try done.
    destruct (Atoi (TrimSpace lo)) as [s|] eqn:Es, (Atoi (TrimSpace hi)) as [e|] eqn:Ee; try done.
    rewrite range_loop_fuel by (by eapply Atoi_int64).
    destruct (_ && _) eqn:E; [|done]. z_bools. subst e. by exists lo, hi, s.
  - intros (lo & hi & s & Hs & Es & Ee). rewrite (split_two_contains _ _ _ _ Hs), Hs, Es, Ee.
    apply range_loop_diverges. by eapply Atoi_int64.
Qed.

(** A core string with such a part. *)
Definition endless (s : string) : Prop := s <> "" /\ Exists endless_part (str_split "," s).

Lemma ParseCoreSet_None s : ParseCoreSet s = None <-> endless s.
Proof.
  unfold endless.
  unfold ParseCoreSet.
  destruct (String.eqb_spec s "") as [->|Hne]; [by split; [|intros []]|].
  assert (Hparts : forall parts, parse_parts parts [] = None <-> Exists endless_part parts).
  { induction parts as [|p parts IH]; [by rewrite Exists_nil|]. simpl.
    rewrite Exists_cons, <- IH, <- parse_part_endless.
    destruct (parse_part p []) as [l|]; [|by split; [left|]]. rewrite parse_parts_app.
    destruct (parse_parts parts []); simpl; split; try done; [by intros [|]|by right]. }
  rewrite Hparts. tauto.
Qed.

(** C36: [ParseCoreSet] returns on every input but those with a part [lo-hi]
    whose upper end is the largest [int]; on these its loop counter wraps
    around and no number of iterations ends the loop. *)
Theorem ParseCoreSet_terminates s :
  (ParseCoreSet s = None <-> endless s) /\
  (forall fuel i cores, int64 i -> range_loop fuel i (2 ^ 63 - 1) cores = None).
Proof. split; [apply ParseCoreSet_None|apply range_loop_diverges]. Qed.
