(* ===== verification/ApiTypes.v ===== *)
(** * ApiTypes: the custom resource and the Kubernetes objects

    [MCKube] and its parts follow [api/v1/mckube_types.go].  Of the Kubernetes
    types ([Pod], [Node], [Quantity]) the records hold the fields and the
    method results the source reads.  A nil map of labels or annotations reads
    like an empty one, and the source allocates it before it writes, so both
    are the empty map here. *)
From S2P Require Import Prelude.
From stdpp Require Import options.

(** ** The custom resource *)

Record RTSettings := mkRT {
  Period : Z;
  RuntimeLow : Z;
  RuntimeHi : Z;
  Core : option string
}.

Record MCKubeSpec := mkSpec {
  spec_Node : string;
  spec_PodName : string;
  spec_Criticality : string;
  spec_PressuredDeadlinesTotal : Z;
  spec_PressuredDeadlinesPeriod : Z;
  spec_RTSettings : option RTSettings
}.

Record MCKubeStatus := mkStatus {
  status_CurrentRuntime : string;
  status_LastOverrunTime : option Z;
  status_AllocatedCore : string
}.

Record MCKube := mkMCKube {
  mc_Name : string;
  mc_Namespace : string;
  mc_Finalizers : list string;
  mc_DeletionTimestamp : option Z;
  mc_Spec : MCKubeSpec;
  mc_Status : MCKubeStatus
}.

#[export] Instance RTSettings_eq_dec : EqDecision RTSettings.
Proof. solve_decision. Defined.
#[export] Instance MCKubeSpec_eq_dec : EqDecision MCKubeSpec.
Proof. solve_decision. Defined.
#[export] Instance MCKubeStatus_eq_dec : EqDecision MCKubeStatus.
Proof. solve_decision. Defined.
#[export] Instance MCKube_eq_dec : EqDecision MCKube.
Proof. solve_decision. Defined.

(** Assignments to nested fields. *)
Definition set_Core (c : option string) (rt : RTSettings) : RTSettings :=
  {| Period := Period rt; RuntimeLow := RuntimeLow rt; RuntimeHi := RuntimeHi rt; Core := c |}.

Definition set_spec (f : MCKubeSpec -> MCKubeSpec) (mc : MCKube) : MCKube :=
  {| mc_Name := mc_Name mc; mc_Namespace := mc_Namespace mc; mc_Finalizers := mc_Finalizers mc;
     mc_DeletionTimestamp := mc_DeletionTimestamp mc; mc_Spec := f (mc_Spec mc); mc_Status := mc_Status mc |}.

Definition set_status (f : MCKubeStatus -> MCKubeStatus) (mc : MCKube) : MCKube :=
  {| mc_Name := mc_Name mc; mc_Namespace := mc_Namespace mc; mc_Finalizers := mc_Finalizers mc;
     mc_DeletionTimestamp := mc_DeletionTimestamp mc; mc_Spec := mc_Spec mc; mc_Status := f (mc_Status mc) |}.

Definition set_finalizers (l : list string) (mc : MCKube) : MCKube :=
  {| mc_Name := mc_Name mc; mc_Namespace := mc_Namespace mc; mc_Finalizers := l;
     mc_DeletionTimestamp := mc_DeletionTimestamp mc; mc_Spec := mc_Spec mc; mc_Status := mc_Status mc |}.

Definition set_Node (n : string) (s : MCKubeSpec) : MCKubeSpec :=
  {| spec_Node := n; spec_PodName := spec_PodName s; spec_Criticality := spec_Criticality s;
     spec_PressuredDeadlinesTotal := spec_PressuredDeadlinesTotal s;
     spec_PressuredDeadlinesPeriod := spec_PressuredDeadlinesPeriod s;
     spec_RTSettings := spec_RTSettings s |}.

Definition set_RTSettings (rt : option RTSettings) (s : MCKubeSpec) : MCKubeSpec :=
  {| spec_Node := spec_Node s; spec_PodName := spec_PodName s; spec_Criticality := spec_Criticality s;
     spec_PressuredDeadlinesTotal := spec_PressuredDeadlinesTotal s;
     spec_PressuredDeadlinesPeriod := spec_PressuredDeadlinesPeriod s;
     spec_RTSettings := rt |}.

Definition set_CurrentRuntime (r : string) (s : MCKubeStatus) : MCKubeStatus :=
  {| status_CurrentRuntime := r; status_LastOverrunTime := status_LastOverrunTime s;
     status_AllocatedCore := status_AllocatedCore s |}.

Definition set_LastOverrunTime (t : option Z) (s : MCKubeStatus) : MCKubeStatus :=
  {| status_CurrentRuntime := status_CurrentRuntime s; status_LastOverrunTime := t;
     status_AllocatedCore := status_AllocatedCore s |}.

Definition set_AllocatedCore (c : string) (s : MCKubeStatus) : MCKubeStatus :=
  {| status_CurrentRuntime := status_CurrentRuntime s; status_LastOverrunTime := status_LastOverrunTime s;
     status_AllocatedCore := c |}.

(** ** Kubernetes objects *)

(** What the source asks of a [resource.Quantity]. *)
Record Quantity := mkQuantity {
  q_Value : Z;
  q_MilliValue : Z;
  q_IsZero : bool;
  q_String : string
}.

(** A container of a pod spec; [c_RequestCPU] is [None] when the container has
    no map of requests, and the zero quantity when the map has no CPU entry
    (which is what [Requests.Cpu()] returns then). *)
Record Container := mkContainer {
  c_Name : string;
  c_RequestCPU : option Quantity;
  c_Limits : list (string * Quantity)
}.

Record ContainerStatus := mkContainerStatus {
  cs_Name : string;
  cs_ContainerID : string
}.

Record Pod := mkPod {
  pod_Name : string;
  pod_Namespace : string;
  pod_UID : string;
  pod_Labels : gmap string string;
  pod_Annotations : gmap string string;
  pod_DeletionTimestamp : option Z;
  pod_NodeName : string;
  pod_Containers : list Container;
  pod_Phase : string;
  pod_HostIP : string;
  pod_ContainerStatuses : list ContainerStatus;
  pod_InitContainerStatuses : list ContainerStatus
}.

Record Taint := mkTaint { taint_Key : string; taint_Value : string; taint_Effect : string }.

Record NodeAddress := mkAddress { addr_Type : string; addr_Address : string }.

(** [node_CapacityCPU] is the CPU entry of [Status.Capacity], if present. *)
Record Node := mkNode {
  node_Name : string;
  node_Annotations : gmap string string;
  node_CapacityCPU : option Quantity;
  node_Addresses : list NodeAddress;
  node_Taints : list Taint
}.

Definition set_pod_labels (l : gmap string string) (p : Pod) : Pod :=
  {| pod_Name := pod_Name p; pod_Namespace := pod_Namespace p; pod_UID := pod_UID p;
     pod_Labels := l; pod_Annotations := pod_Annotations p;
     pod_DeletionTimestamp := pod_DeletionTimestamp p; pod_NodeName := pod_NodeName p;
     pod_Containers := pod_Containers p; pod_Phase := pod_Phase p; pod_HostIP := pod_HostIP p;
     pod_ContainerStatuses := pod_ContainerStatuses p;
     pod_InitContainerStatuses := pod_InitContainerStatuses p |}.

Definition set_pod_annotations (a : gmap string string) (p : Pod) : Pod :=
  {| pod_Name := pod_Name p; pod_Namespace := pod_Namespace p; pod_UID := pod_UID p;
     pod_Labels := pod_Labels p; pod_Annotations := a;
     pod_DeletionTimestamp := pod_DeletionTimestamp p; pod_NodeName := pod_NodeName p;
     pod_Containers := pod_Containers p; pod_Phase := pod_Phase p; pod_HostIP := pod_HostIP p;
     pod_ContainerStatuses := pod_ContainerStatuses p;
     pod_InitContainerStatuses := pod_InitContainerStatuses p |}.

Definition set_pod_containers (c : list Container) (p : Pod) : Pod :=
  {| pod_Name := pod_Name p; pod_Namespace := pod_Namespace p; pod_UID := pod_UID p;
     pod_Labels := pod_Labels p; pod_Annotations := pod_Annotations p;
     pod_DeletionTimestamp := pod_DeletionTimestamp p; pod_NodeName := pod_NodeName p;
     pod_Containers := c; pod_Phase := pod_Phase p; pod_HostIP := pod_HostIP p;
     pod_ContainerStatuses := pod_ContainerStatuses p;
     pod_InitContainerStatuses := pod_InitContainerStatuses p |}.

Definition set_pod_node (n : string) (p : Pod) : Pod :=
  {| pod_Name := pod_Name p; pod_Namespace := pod_Namespace p; pod_UID := pod_UID p;
     pod_Labels := pod_Labels p; pod_Annotations := pod_Annotations p;
     pod_DeletionTimestamp := pod_DeletionTimestamp p; pod_NodeName := n;
     pod_Containers := pod_Containers p; pod_Phase := pod_Phase p; pod_HostIP := pod_HostIP p;
     pod_ContainerStatuses := pod_ContainerStatuses p;
     pod_InitContainerStatuses := pod_InitContainerStatuses p |}.

Definition set_node_taints (l : list Taint) (n : Node) : Node :=
  mkNode (node_Name n) (node_Annotations n) (node_CapacityCPU n) (node_Addresses n) l.

(** [m[key]] on a map of strings: the zero value is the empty string. *)
Definition str_get (m : gmap string string) (key : string) : string := default EmptyString (m !! key).
