(* ===== verification/Kube.v ===== *)
(** * Kube: results, admission responses and the calls to other processes

    The Kubernetes API server and the node-actuator daemon are not part of the
    source: their clients are interfaces over an abstract state [W] of the
    world, and every component's definitions take an instance.  A call that may
    fail returns a [result]; the error is the message the source may inspect. *)
From S2P Require Import Prelude GoString ApiTypes.
From stdpp Require Import options.

Abbreviation error := string (only parsing).

Inductive result (A : Type) :=
| Ok (a : A)
| Err (e : error).
Arguments Ok {A} a.
Arguments Err {A} e.

#[export] Instance result_eq_dec {A} `{EqDecision A} : EqDecision (result A).
Proof. solve_decision. Defined.

(** ** The node-actuator daemon *)

(** [CgroupRequest], and the body the mutating webhook sends (which has no
    [only_runtime] field, the same as the omitted [false]). *)
Record CgroupRequest := mkCgroupRequest {
  ContainerID : string;
  req_Period : Z;
  req_Runtime : Z;
  req_Core : option string;
  OnlyRuntime : bool
}.

#[export] Instance CgroupRequest_eq_dec : EqDecision CgroupRequest.
Proof. solve_decision. Defined.

(** The process environment and the HTTP client: [PostCgroup w url auth body]
    is the status code and the body of the answer to a POST request with that
    [Authorization] header, or the error of the transport. *)
Class NodeActuator (W : Type) := {
  Getenv : W -> string -> string;
  ReadFile : W -> string -> result string;
  PostCgroup : W -> string -> option string -> CgroupRequest -> W * result (Z * string)
}.

(** [http.StatusOK] *)
Definition StatusOK : Z := 200.

Definition getSharedToken `{NodeActuator W} (w : W) : string :=
  let token := Getenv w "MCKUBE_SHARED_TOKEN" in
  if decide (token <> EmptyString) then token
  else match ReadFile w "/etc/mckube/token" with
       | Ok tokenBytes => TrimSpace tokenBytes
       | Err _ => EmptyString
       end.

(** The URL and the header of both senders. *)
Definition daemonURL (nodeIP : string) : string := "http://" +:+ nodeIP +:+ ":8080/cgroup".

Definition authorization `{NodeActuator W} (w : W) : option string :=
  let token := getSharedToken w in
  if decide (token <> EmptyString) then Some ("Bearer " +:+ token) else None.

Definition SendRTRequest `{NodeActuator W} (w : W) (nodeIP : string) (req : CgroupRequest) : W * option error :=
  let url := daemonURL nodeIP in
  match PostCgroup w url (authorization w) req with
  | (w, Err e) => (w, Some ("failed to send request to " +:+ url +:+ ": " +:+ e))
  | (w, Ok (status, body)) =>
      if decide (status <> StatusOK)
      then (w, Some ("node-actuator request failed with status: " +:+ itoa status +:+ ", body: " +:+ body))
      else (w, None)
  end.

(** [strings.LastIndex(id, "://")] and the slice after it: the runtime prefix
    of a container identifier is dropped. *)
Definition stripScheme (containerID : string) : string :=
  match str_last_index "://" containerID with
  | Some idx => drop_bytes (idx + 3) containerID
  | None => containerID
  end.

(** ** Admission *)

(** The codec of pods in admission requests; [Raw] stands for JSON documents. *)
Class PodCodec (Raw : Type) := {
  unmarshalPod : Raw -> result Pod;
  marshalPod : Pod -> result Raw
}.

(** What is marshalled is read back. *)
Class PodCodecLaws Raw `{PodCodec Raw} := {
  unmarshal_marshal p raw : marshalPod p = Ok raw -> unmarshalPod raw = Ok p
}.

Record Request (Raw : Type) := mkRequest {
  req_Raw : Raw;
  req_DryRun : option bool
}.
Arguments mkRequest {Raw} req_Raw req_DryRun.
Arguments req_Raw {Raw} r.
Arguments req_DryRun {Raw} r.

Definition StatusBadRequest : Z := 400.
Definition StatusInternalServerError : Z := 500.

(** The patch of one container's resources, [containerPatch] of
    [DegradePodRequests]: the CPU request and the limits as quantities. *)
Record containerPatch := mkContainerPatch {
  cp_Name : string;
  cp_RequestCPU : string;
  cp_Limits : list (string * string)
}.

#[export] Instance containerPatch_eq_dec : EqDecision containerPatch.
Proof. solve_decision. Defined.

(** ** The client of the API server

    [client.Client] of the source, one method per call the source makes.  A
    write takes the object as the source passes it; a patch takes the object
    before and after the modification it is computed from.  [ResizePod] patches
    the [resize] subresource and stores the server's answer in the pod;
    [CreateEviction] creates an eviction.  [IsNotFound] is the predicate behind
    [client.IgnoreNotFound]. *)
Class KubeClient (W : Type) := {
  GetMCKube : W -> string -> string -> result MCKube;
  ListMCKubes : W -> string -> result (list MCKube);
  GetPod : W -> string -> string -> result Pod;
  ListPods : W -> option string -> result (list Pod);
  GetNode : W -> string -> result Node;
  ListNodes : W -> result (list Node);
  UpdateMCKube : W -> MCKube -> W * option error;
  UpdateMCKubeStatus : W -> MCKube -> W * option error;
  PatchMCKube : W -> MCKube -> MCKube -> W * option error;
  UpdatePod : W -> Pod -> W * result Pod;
  PatchPod : W -> Pod -> Pod -> W * option error;
  UpdateNode : W -> Node -> W * option error;
  ResizePod : W -> Pod -> list containerPatch -> W * result Pod;
  CreateEviction : W -> Pod -> W * option error;
  IsNotFound : error -> bool
}.

(** The specs of the resources of a namespace. *)
Definition listSpecs `{KubeClient W} (w : W) (ns : string) : result (list MCKubeSpec) :=
  match ListMCKubes w ns with
  | Ok items => Ok (mc_Spec <$> items)
  | Err e => Err e
  end.

(** What a client promises while no other client writes.  After a patch that
    succeeded the list of the namespace's resources holds the patched object in
    place of the old one, with its old status, and the nodes are the same: the
    status is a subresource, and only an update of the status writes it, which
    in turn leaves the specs as they are.  A resized pod keeps its name. *)
Class KubeClientLaws W `{KubeClient W} := {
  patch_mckube w base new w' items :
    PatchMCKube w base new = (w', None) -> ListMCKubes w (mc_Namespace base) = Ok items ->
    ListMCKubes w' (mc_Namespace base) =
      Ok ((fun mc => if decide (mc_Name mc = mc_Name base) then set_status (fun _ => mc_Status mc) new else mc) <$> items);
  patch_nodes w base new w' :
    PatchMCKube w base new = (w', None) -> ListNodes w' = ListNodes w;
  status_specs w mc ns : listSpecs (UpdateMCKubeStatus w mc).1 ns = listSpecs w ns;
  resize_name w p patch w' p' :
    ResizePod w p patch = (w', Ok p') -> pod_Name p' = pod_Name p
}.

(** A request to the daemon does not change what the API server holds. *)
Class NodeActuatorLaws W `{KubeClient W, NodeActuator W} := {
  post_list w url auth req ns : ListMCKubes (PostCgroup w url auth req).1 ns = ListMCKubes w ns
}.
