(* ===== verification/ApiServer.v ===== *)
(** * ApiServer: a reference API server and node-actuator

    A concrete instance of the interfaces of [Kube], used to evaluate the
    definitions on examples and to show that the laws of the interfaces can be
    met.  The server keeps its objects in lists; a write replaces the object of
    the same name and namespace and fails when the object does not exist or the
    server is read-only; POST requests to the daemon are recorded and answered
    with a fixed status.  Pods stand for their own JSON documents. *)
From S2P Require Import Prelude GoString ApiTypes Kube.
From stdpp Require Import options.

Record Server := mkServer {
  srv_mckubes : list MCKube;
  srv_pods : list Pod;
  srv_nodes : list Node;
  srv_readonly : bool;
  srv_status : Z;
  srv_posts : list (string * option string * CgroupRequest)
}.

Definition notFound : error := "not found".

(** Replaces the elements that satisfy [same]. *)
Definition replace {A} (same : A -> bool) (new : A) (l : list A) : list A :=
  (fun x => if same x then new else x) <$> l.

Definition find_result {A} (p : A -> bool) (l : list A) : result A :=
  match List.find p l with Some x => Ok x | None => Err notFound end.

Definition same_mckube (ns name : string) (mc : MCKube) : bool :=
  bool_decide (mc_Namespace mc = ns /\ mc_Name mc = name).
Definition same_pod (ns name : string) (p : Pod) : bool :=
  bool_decide (pod_Namespace p = ns /\ pod_Name p = name).

Definition in_namespace (ns : string) (s : Server) : list MCKube :=
  filter (fun mc => mc_Namespace mc = ns) (srv_mckubes s).

(** A write: the new state when the server accepts it. *)
Definition write_if (ok : bool) (s s' : Server) : Server * option error :=
  if srv_readonly s then (s, Some "read-only")
  else if ok then (s', None) else (s, Some notFound).

Definition with_mckubes (l : list MCKube) (s : Server) : Server :=
  mkServer l (srv_pods s) (srv_nodes s) (srv_readonly s) (srv_status s) (srv_posts s).
Definition with_pods (l : list Pod) (s : Server) : Server :=
  mkServer (srv_mckubes s) l (srv_nodes s) (srv_readonly s) (srv_status s) (srv_posts s).
Definition with_nodes (l : list Node) (s : Server) : Server :=
  mkServer (srv_mckubes s) (srv_pods s) l (srv_readonly s) (srv_status s) (srv_posts s).

(** Rewrites the custom resource [base] names. *)
Definition write_mckube (s : Server) (base : MCKube) (f : MCKube -> MCKube) : Server * option error :=
  let same := same_mckube (mc_Namespace base) (mc_Name base) in
  write_if (existsb same (srv_mckubes s)) s
    (with_mckubes ((fun mc => if same mc then f mc else mc) <$> srv_mckubes s) s).

(** The status is a subresource: a write of the resource keeps the status, a
    write of the status keeps the rest. *)
Definition store_mckube (new old : MCKube) : MCKube := set_status (fun _ => mc_Status old) new.
Definition store_status (new old : MCKube) : MCKube := set_status (fun _ => mc_Status new) old.

Definition write_pod (s : Server) (p : Pod) : Server * option error :=
  let same := same_pod (pod_Namespace p) (pod_Name p) in
  write_if (existsb same (srv_pods s)) s (with_pods (replace same p (srv_pods s)) s).

(** Resizing: the request of each patched container is read from the notation
    [<n>m] of the patch. *)
Definition millis_of (request : string) : Z := default 0 (Sscanf_d request).

Definition resize_container (patch : list containerPatch) (c : Container) : Container :=
  match List.find (fun cp => String.eqb (cp_Name cp) (c_Name c)) patch with
  | Some cp =>
      let m := millis_of (cp_RequestCPU cp) in
      mkContainer (c_Name c) (Some (mkQuantity ((m + 999) / 1000) m (m =? 0) (cp_RequestCPU cp))) (c_Limits c)
  | None => c
  end.

Definition resized (patch : list containerPatch) (p : Pod) : Pod :=
  set_pod_containers (resize_container patch <$> pod_Containers p) p.

#[export] Instance server_client : KubeClient Server := {
  GetMCKube s ns name := find_result (same_mckube ns name) (srv_mckubes s);
  ListMCKubes s ns := Ok (in_namespace ns s);
  GetPod s ns name := find_result (same_pod ns name) (srv_pods s);
  ListPods s ns := Ok (match ns with
                       | Some ns => filter (fun p => pod_Namespace p = ns) (srv_pods s)
                       | None => srv_pods s
                       end);
  GetNode s name := find_result (fun n => bool_decide (node_Name n = name)) (srv_nodes s);
  ListNodes s := Ok (srv_nodes s);
  UpdateMCKube s mc := write_mckube s mc (store_mckube mc);
  UpdateMCKubeStatus s mc := write_mckube s mc (store_status mc);
  PatchMCKube s base new :=
    if decide (mc_Namespace new = mc_Namespace base) then write_mckube s base (store_mckube new)
    else (s, Some notFound);
  UpdatePod s p :=
    match write_pod s p with
    | (s', None) => (s', Ok p)
    | (s', Some e) => (s', Err e)
    end;
  PatchPod s base p := write_pod s p;
  UpdateNode s n :=
    let same := fun n' => bool_decide (node_Name n' = node_Name n) in
    write_if (existsb same (srv_nodes s)) s (with_nodes (replace same n (srv_nodes s)) s);
  ResizePod s p patch :=
    let p' := resized patch p in
    match write_pod s p' with
    | (s', None) => (s', Ok p')
    | (s', Some e) => (s', Err e)
    end;
  CreateEviction s p :=
    let same := same_pod (pod_Namespace p) (pod_Name p) in
    write_if (existsb same (srv_pods s)) s (with_pods (List.filter (fun p' => negb (same p')) (srv_pods s)) s);
  IsNotFound e := bool_decide (e = notFound)
}.

(** The namespace's resources after a rewrite that keeps namespaces. *)
Lemma in_namespace_fmap ns (f : MCKube -> MCKube) l s :
  (forall mc, mc_Namespace (f mc) = mc_Namespace mc) -> srv_mckubes s = f <$> l ->
  in_namespace ns s = f <$> filter (fun mc => mc_Namespace mc = ns) l.
Proof.
  intros Hf E. unfold in_namespace. rewrite E. apply filter_fmap_stable. intros mc. by rewrite Hf.
Qed.

#[export] Instance server_laws : KubeClientLaws Server.
Proof.
  split.
  - intros s base new s' items. cbn. case_decide as Hns; [|done]. unfold write_mckube, write_if.
    destruct (srv_readonly s); [done|]. destruct (existsb _ _); [|done]. intros [= <-] [= <-]. f_equal.
    set (f := fun mc => if same_mckube (mc_Namespace base) (mc_Name base) mc then store_mckube new mc else mc).
    assert (Hf : forall mc, mc_Namespace (f mc) = mc_Namespace mc).
    { intros mc. unfold f, same_mckube. case_bool_decide as Hs; [|done]. destruct Hs as [-> _]. done. }
    rewrite (in_namespace_fmap _ f (srv_mckubes s)) by done.
    apply list_fmap_ext. intros i mc Hmc%list_elem_of_lookup_2. apply list_elem_of_filter in Hmc as [Hmc _].
    unfold f, same_mckube. by destruct (decide (mc_Name mc = mc_Name base)) as [Hn|Hn];
      [rewrite bool_decide_eq_true_2|rewrite bool_decide_eq_false_2 by tauto].
  - intros s base new s'. cbn. case_decide; [|done]. unfold write_mckube, write_if.
    destruct (srv_readonly s); [done|]. by destruct (existsb _ _); [intros [= <-]|].
  - intros s mc ns. unfold listSpecs. cbn. unfold write_mckube, write_if.
    destruct (srv_readonly s); [done|]. destruct (existsb _ _); [|done]. simpl. f_equal.
    set (f := fun x => if same_mckube (mc_Namespace mc) (mc_Name mc) x then store_status mc x else x).
    rewrite (in_namespace_fmap _ f (srv_mckubes s)) by (done || by intros x; unfold f; destruct (same_mckube _ _ _)).
    rewrite <- list_fmap_compose. apply list_fmap_ext. intros i x _. unfold f, compose. by destruct (same_mckube _ _ _).
  - intros s p patch s' p'. cbn. destruct (write_pod s (resized patch p)) as [s1 [e|]]; [done|]. by intros [= _ <-].
Qed.

#[export] Instance server_actuator : NodeActuator Server := {
  Getenv s name := if decide (name = "MCKUBE_SHARED_TOKEN") then "secret" else EmptyString;
  ReadFile s name := Err "no such file";
  PostCgroup s url auth req :=
    (mkServer (srv_mckubes s) (srv_pods s) (srv_nodes s) (srv_readonly s) (srv_status s)
       (srv_posts s ++ [(url, auth, req)]), Ok (srv_status s, EmptyString))
}.

#[export] Instance server_actuator_laws : NodeActuatorLaws Server.
Proof. by split. Qed.

#[export] Instance server_codec : PodCodec Pod := {
  unmarshalPod p := Ok p;
  marshalPod p := Ok p
}.

#[export] Instance server_codec_laws : PodCodecLaws Pod.
Proof. split. by intros p raw [= ->]. Qed.

(** ** Sample objects *)

Definition sample_pod (name node : string) : Pod :=
  {| pod_Name := name; pod_Namespace := "default"; pod_UID := name; pod_Labels := ∅; pod_Annotations := ∅;
     pod_DeletionTimestamp := None; pod_NodeName := node; pod_Containers := []; pod_Phase := "Pending";
     pod_HostIP := ""; pod_ContainerStatuses := []; pod_InitContainerStatuses := [] |}.

Definition sample_node (name : string) (cores : Z) : Node :=
  mkNode name ∅ (Some (mkQuantity cores (1000 * cores) false (itoa cores))) [mkAddress "InternalIP" "10.0.0.1"] [].

Definition sample_mckube (podName node criticality : string) (rt : RTSettings) : MCKube :=
  mkMCKube ("mc-" +:+ podName) "default" [] None (mkSpec node podName criticality 0 0 (Some rt)) (mkStatus "" None "").
