(* ===== verification/Budget.v ===== *)
(** * Budget: the exact meaning of the floating-point budget arithmetic

    The source compares and adds CPU budgets as [float64] fractions of a core
    obtained from integers: [float64(millis)/1000.0], [float64(runtime)/
    float64(period)] and the literal [0.95].  This file turns the comparisons
    into exact integer inequalities, with the rounding errors bounded by
    [FloatFacts]: over-admission through rounding is impossible in the stated
    ranges, and rejection through rounding happens only when the budget is used
    up exactly. *)
From S2P Require Import Prelude Float64 FloatFacts CPUPool.
From stdpp Require Import options.
From Stdlib Require Import Reals Lra.

Local Open Scope R_scope.
Local Open Scope Z_scope.

(** [float64(runtime) / float64(period)] *)
Definition budgetOf (runtime period : Z) : f64 := fdiv (of_int runtime) (of_int period).

(** Finite and canonical: a value the operations of the source produce. *)
Definition regular (f : f64) : Prop := is_finite f = true /\ canonical f.

Lemma rounded_regular x f : rounded x f -> regular f.
Proof. intros H. split; [by eapply rounded_finite|by eapply rounded_canonical]. Qed.

Lemma regular_not_nan f : regular f -> is_nan f = false.
Proof. intros [H _]. by apply is_finite_not_nan. Qed.

Lemma fgeb_val f g : regular f -> regular g -> fgeb f g = true <-> (val g <= val f)%R.
Proof. intros [Hf Cf] [Hg Cg]. by apply fleb_val. Qed.

Lemma fgtb_val f g : regular f -> regular g -> fgtb f g = true <-> (val g < val f)%R.
Proof. intros [Hf Cf] [Hg Cg]. by apply fltb_val. Qed.

(** ** Error bounds for the operands in use

    [err] is the unit roundoff and [tiny] the bound below the normal range; the
    only facts used about them are their sizes. *)
Definition err : R := bpow (-53).
Definition tiny : R := bpow (-1075).

Lemma err_size : (0 < err /\ err * 9007199254740992 = 1)%R.
Proof.
  split; [apply bpow_pos|]. unfold err.
  replace 9007199254740992%R with (bpow 53) by (rewrite bpow_IZR by lia; reflexivity).
  rewrite Rmult_comm. apply bpow_opp.
Qed.

Lemma tiny_size : (0 < tiny /\ tiny <= err * err)%R.
Proof.
  split; [apply bpow_pos|]. unfold tiny, err. rewrite <- bpow_add. apply bpow_le. lia.
Qed.

Lemma rounded_near x f b :
  rounded x f -> (Rabs x <= b)%R -> (val f - (b * err + tiny) <= x <= val f + (b * err + tiny))%R.
Proof.
  intros Hr Hb. pose proof (rounded_error _ _ Hr) as He. fold err tiny in He.
  pose proof err_size as [Herr _]. apply Rabs_le_inv in He.
  assert (Rabs x * err <= b * err)%R by (apply Rmult_le_compat_r; lra). lra.
Qed.

Lemma small_bpow x b : (Rabs x <= b)%R -> (b < bpow 100)%R -> (Rabs x < bpow 1000)%R.
Proof. intros H1 H2. assert (bpow 100 <= bpow 1000)%R by (apply bpow_le; lia). lra. Qed.

Lemma bpow_100_big z : (z <= 2 ^ 99)%Z -> (IZR z < bpow 100)%R.
Proof. intros H. rewrite bpow_IZR by lia. apply IZR_lt. lia. Qed.

Lemma int_regular n : (Z.abs n < 2 ^ 1000)%Z -> regular (of_int n).
Proof. intros H. eapply rounded_regular, of_int_spec, H. Qed.

Lemma f1000_val : val f1000 = 1000%R.
Proof. apply of_int_exact. lia. Qed.

Lemma IZR_abs_le n b : (Z.abs n <= b)%Z -> (Rabs (IZR n) <= IZR b)%R.
Proof. intros H. rewrite <- abs_IZR. by apply IZR_le. Qed.

(** [float64(n)/1000.0] of an exactly representable [n]. *)
Lemma millis_rounded n : (Z.abs n < 2 ^ 53)%Z -> rounded (IZR n / 1000) (millis_to_cores n).
Proof.
  intros Hn. unfold millis_to_cores. rewrite <- f1000_val, <- (of_int_exact n) by lia.
  apply fdiv_spec.
  - by apply int_regular; lia.
  - reflexivity.
  - rewrite f1000_val. lra.
  - rewrite f1000_val, of_int_exact by lia.
    apply small_bpow with (b := IZR (2 ^ 53)); [|apply bpow_100_big; lia].
    assert (H := IZR_abs_le n (2 ^ 53) ltac:(lia)).
    unfold Rdiv. rewrite Rabs_mult, (Rabs_pos_eq (/ 1000)) by lra. pose proof (Rabs_pos (IZR n)). lra.
Qed.

(** ... and of any 64-bit integer: finite, so never NaN. *)
Lemma millis_regular n : int64 n -> regular (millis_to_cores n) /\ (Rabs (val (millis_to_cores n)) <= IZR (2 ^ 64))%R.
Proof.
  unfold int64. intros Hn.
  assert (Hr : rounded (IZR n) (of_int n)) by (apply of_int_spec; lia).
  assert (Hn' := IZR_abs_le n (2 ^ 63) ltac:(lia)).
  pose proof (rounded_near _ _ _ Hr Hn') as Hnear. pose proof err_size as [Hp Herr]. pose proof tiny_size as [Ht Htiny].
  assert (Hv : (Rabs (val (of_int n)) <= IZR (2 ^ 63) + 2048)%R).
  { apply Rabs_le. apply Rabs_le_inv in Hn'.
    assert (IZR (2 ^ 63) * err = 1024)%R.
    { replace (IZR (2 ^ 63)) with (1024 * 9007199254740992)%R by (rewrite <- mult_IZR; f_equal; lia).
      rewrite Rmult_assoc, (Rmult_comm _ err), Herr. lra. }
    nra. }
  assert (Hd : rounded (val (of_int n) / val f1000) (millis_to_cores n)).
  { apply fdiv_spec; [by eapply rounded_finite|done|rewrite f1000_val; lra|].
    rewrite f1000_val. apply small_bpow with (b := IZR (2 ^ 64)); [|apply bpow_100_big; lia].
    unfold Rdiv. rewrite Rabs_mult, (Rabs_pos_eq (/ 1000)) by lra.
    assert (IZR (2 ^ 63) + 2048 <= IZR (2 ^ 64))%R by (rewrite <- plus_IZR; apply IZR_le; lia).
    pose proof (Rabs_pos (val (of_int n))). lra. }
  split; [by eapply rounded_regular|]. rewrite f1000_val in Hd.
  pose proof (rounded_error _ _ Hd) as He. fold err tiny in He.
  assert (Hq : (Rabs (val (of_int n) / 1000) <= IZR (2 ^ 63))%R).
  { unfold Rdiv. rewrite Rabs_mult, (Rabs_pos_eq (/ 1000)) by lra.
    assert (2048 <= IZR (2 ^ 63))%R by (apply IZR_le; lia). pose proof (Rabs_pos (val (of_int n))). lra. }
  assert (IZR (2 ^ 64) = 2 * IZR (2 ^ 63))%R by (rewrite <- mult_IZR; f_equal; lia).
  assert (1 <= IZR (2 ^ 63))%R by (apply IZR_le; lia).
  apply Rabs_le. apply Rabs_le_inv in He. apply Rabs_le_inv in Hq.
  pose proof (Rabs_pos (val (of_int n) / 1000)).
  assert (Rabs (val (of_int n) / 1000) <= IZR (2 ^ 63))%R by by apply Rabs_le. nra.
Qed.

(** A quotient of two exactly representable integers is rounded once. *)
Lemma quotient_rounded a b :
  (Z.abs a < 2 ^ 53)%Z -> (0 < b < 2 ^ 53)%Z ->
  rounded (IZR a / IZR b) (fdiv (of_int a) (of_int b)).
Proof.
  intros Ha Hb. assert (Hb1 : (1 <= IZR b)%R) by (apply IZR_le; lia).
  rewrite <- (of_int_exact a), <- (of_int_exact b) by lia.
  apply fdiv_spec.
  - by apply int_regular; lia.
  - by apply int_regular; lia.
  - rewrite of_int_exact by lia. lra.
  - rewrite !of_int_exact by lia. apply small_bpow with (b := IZR (2 ^ 53)); [|apply bpow_100_big; lia].
    assert (H := IZR_abs_le a (2 ^ 53) ltac:(lia)). pose proof (Rabs_pos (IZR a)).
    unfold Rdiv. rewrite Rabs_mult, (Rabs_pos_eq (/ IZR b)) by (apply Rlt_le, Rinv_0_lt_compat; lra).
    assert (/ IZR b <= 1)%R by (rewrite <- Rinv_1; apply Rinv_le_contravar; lra).
    assert (0 < / IZR b)%R by (apply Rinv_0_lt_compat; lra). nra.
Qed.

Lemma capacity_rounded : rounded (95 / 100) RTCapacityPerCore.
Proof. apply (quotient_rounded 95 100); lia. Qed.

Lemma capacity_regular : regular RTCapacityPerCore.
Proof. eapply rounded_regular, capacity_rounded. Qed.

(** The free budget of a core as the source computes it. *)
Definition freeBudget (usageMillis : Z) : f64 := fsub RTCapacityPerCore (millis_to_cores usageMillis).

Lemma fsub_regular f g b :
  regular f -> regular g -> (Rabs (val f - val g) <= b)%R -> (b < bpow 100)%R ->
  rounded (val f - val g) (fsub f g).
Proof. intros [Hf Cf] [Hg Cg] Hb Hs. apply fsub_spec; try done. by eapply small_bpow. Qed.

Lemma fadd_regular f g b :
  regular f -> regular g -> (Rabs (val f + val g) <= b)%R -> (b < bpow 100)%R ->
  rounded (val f + val g) (fadd f g).
Proof. intros [Hf Cf] [Hg Cg] Hb Hs. apply fadd_spec; try done. by eapply small_bpow. Qed.

Lemma capacity_val : (Rabs (val RTCapacityPerCore) <= 1)%R.
Proof.
  pose proof (rounded_near _ _ 1 capacity_rounded) as H. pose proof err_size. pose proof tiny_size.
  rewrite Rabs_pos_eq in H by lra. apply Rabs_le. assert (tiny <= err)%R by nra. lra.
Qed.

Lemma freeBudget_regular u : int64 u -> regular (freeBudget u).
Proof.
  intros Hu. destruct (millis_regular u Hu) as [Hr Hv]. eapply rounded_regular.
  apply (fsub_regular _ _ (IZR (2 ^ 64) + 1)); [apply capacity_regular|done| |].
  - pose proof capacity_val as Hc. apply Rabs_le_inv in Hc. apply Rabs_le_inv in Hv. apply Rabs_le. lra.
  - rewrite <- plus_IZR. apply bpow_100_big. lia.
Qed.

(** The free budget of a core with at most a million millicores in use: within
    [2002] roundoffs of the exact value. *)
Lemma freeBudget_near u :
  (Z.abs u <= 1000000)%Z ->
  (val (freeBudget u) - 2003 * err <= 95 / 100 - IZR u / 1000 <= val (freeBudget u) + 2003 * err)%R.
Proof.
  intros Hu. pose proof err_size as [Hp Herr]. pose proof tiny_size as [Ht Htiny].
  assert (Ht2 : (tiny <= err / 10)%R) by nra.
  pose proof (rounded_near _ _ 1 capacity_rounded ltac:(rewrite Rabs_pos_eq; lra)) as Hc.
  assert (Hq : (Rabs (IZR u / 1000) <= 1000)%R).
  { pose proof (IZR_abs_le u 1000000 Hu). unfold Rdiv. rewrite Rabs_mult, (Rabs_pos_eq (/ 1000)) by lra. lra. }
  pose proof (millis_rounded u ltac:(lia)) as Hmr. pose proof (rounded_near _ _ _ Hmr Hq) as Hm.
  apply Rabs_le_inv in Hq.
  assert (Hd : (Rabs (val RTCapacityPerCore - val (millis_to_cores u)) <= 1001)%R) by (apply Rabs_le; nra).
  pose proof (fsub_regular _ _ 1001 capacity_regular (rounded_regular _ _ Hmr) Hd ltac:(apply bpow_100_big; lia)) as Hf.
  fold (freeBudget u) in Hf. pose proof (rounded_near _ _ _ Hf Hd). lra.
Qed.

Lemma budgetOf_near hi period :
  (0 < hi <= period)%Z -> (period < 2 ^ 53)%Z ->
  regular (budgetOf hi period) /\
  (val (budgetOf hi period) - 2 * err <= IZR hi / IZR period <= val (budgetOf hi period) + 2 * err)%R.
Proof.
  intros Hhi Hp. pose proof err_size. pose proof tiny_size.
  assert (Hr : rounded (IZR hi / IZR period) (budgetOf hi period)) by (apply quotient_rounded; lia).
  split; [by eapply rounded_regular|].
  assert (Hb : (0 <= IZR hi / IZR period <= 1)%R).
  { assert (1 <= IZR hi <= IZR period)%R as [H1 H2] by (split; apply IZR_le; lia).
    assert (0 < / IZR period)%R by (apply Rinv_0_lt_compat; lra).
    assert (IZR period * / IZR period = 1)%R by (field; lra). unfold Rdiv. nra. }
  pose proof (rounded_near _ _ 1 Hr ltac:(rewrite Rabs_pos_eq; lra)). assert (tiny <= err)%R by nra. lra.
Qed.

(** Clearing the denominators of a comparison of budgets. *)
Lemma clear_denominators s hi period :
  (0 < period)%Z ->
  (IZR (s * period - 1000 * hi) = 1000 * IZR period * (IZR s / 1000 - IZR hi / IZR period))%R.
Proof.
  intros Hp. assert (0 < IZR period)%R by (apply IZR_lt; lia).
  rewrite minus_IZR, !mult_IZR. field. lra.
Qed.

(** If [F] is within [k] roundoffs of the fraction [s/1000], comparing it
    with a budget decides the exact inequality, except at equality. *)
Lemma compare_exact F k s hi period :
  regular F -> (val F - IZR k * err <= IZR s / 1000 <= val F + IZR k * err)%R ->
  (0 < hi <= period)%Z -> (1 <= k)%Z -> ((k + 2) * 1000 * period < 2 ^ 53)%Z ->
  (fgeb F (budgetOf hi period) = true -> 1000 * hi <= s * period)%Z /\
  (1000 * hi < s * period -> fgeb F (budgetOf hi period) = true)%Z.
Proof.
  intros HF Hnear Hhi Hk Hp. destruct (budgetOf_near hi period Hhi ltac:(lia)) as [Hreg Hb].
  pose proof err_size as [Hpos Herr].
  rewrite (fgeb_val _ _ HF Hreg).
  pose proof (clear_denominators s hi period ltac:(lia)) as Hd.
  assert (Hp1 : (1 <= IZR period)%R) by (apply IZR_le; lia).
  set (D := (IZR s / 1000 - IZR hi / IZR period)%R) in *.
  assert (Hsmall : (1000 * IZR period * ((IZR k + 2) * err) < 1)%R).
  { apply IZR_lt in Hp. rewrite !mult_IZR, plus_IZR in Hp.
    change (IZR (2 ^ 53)) with 9007199254740992%R in Hp.
    replace (1000 * IZR period * ((IZR k + 2) * err))%R with ((IZR k + 2) * 1000 * IZR period * err)%R by ring.
    rewrite <- Herr, (Rmult_comm err). by apply Rmult_lt_compat_r. }
  split.
  - intros Hle. assert (- ((IZR k + 2) * err) <= D)%R by (unfold D; lra).
    assert (-1 < IZR (s * period - 1000 * hi))%R by (rewrite Hd; nra).
    assert (-1 < s * period - 1000 * hi)%Z by by apply lt_IZR. lia.
  - intros Hlt. assert (1 <= IZR (s * period - 1000 * hi))%R by (apply IZR_le; lia).
    assert ((IZR k + 2) * err < D)%R by (rewrite Hd in *; nra). unfold D in *. lra.
Qed.

(** A direct placement: [free >= required] is the exact inequality
    [usage/1000 + hi/period <= 0.95], up to rejections at equality. *)
Lemma direct_fit_exact u hi period :
  (Z.abs u <= 1000000)%Z -> (0 < hi <= period)%Z -> (period <= 1000000000)%Z ->
  (fgeb (freeBudget u) (budgetOf hi period) = true -> 1000 * hi + u * period <= 950 * period)%Z /\
  (1000 * hi + u * period < 950 * period -> fgeb (freeBudget u) (budgetOf hi period) = true)%Z.
Proof.
  intros Hu Hhi Hp.
  destruct (compare_exact (freeBudget u) 2003 (950 - u) hi period) as [H1 H2]; try done; try lia.
  - apply freeBudget_regular. unfold int64. lia.
  - rewrite minus_IZR. pose proof (freeBudget_near u Hu). lra.
  - split; intros H; [specialize (H1 H)|apply H2]; lia.
Qed.

(** The order of free budgets is the reverse order of the usages. *)
Lemma freeBudget_order u v :
  (Z.abs u <= 1000000)%Z -> (Z.abs v <= 1000000)%Z ->
  fgtb (freeBudget u) (freeBudget v) = true <-> (u < v)%Z.
Proof.
  intros Hu Hv. rewrite fgtb_val by (apply freeBudget_regular; unfold int64; lia).
  pose proof (freeBudget_near u Hu). pose proof (freeBudget_near v Hv). pose proof err_size as [Hpos Herr].
  split; intros Hlt.
  - destruct (Z.lt_trichotomy u v) as [|[->|Hgt]]; [done|lra|].
    assert (IZR v + 1 <= IZR u)%R by (rewrite <- plus_IZR; apply IZR_le; lia). nra.
  - assert (IZR u + 1 <= IZR v)%R by (rewrite <- plus_IZR; apply IZR_le; lia). nra.
Qed.

(** ** Sums of budgets *)

(** [total += float64(millis)/1000.0] over a list, in its order. *)
Definition budgetSum (l : list Z) : f64 := foldl (fun total m => fadd total (millis_to_cores m)) fzero l.

(** The budgets of pods on one core: at most a core each. *)
Definition pod_millis (m : Z) : Prop := (0 <= m <= 1000)%Z.

Abbreviation sumOf := (sumZ (fun m : Z => m)).

Lemma budgetSum_app l m : budgetSum (l ++ [m]) = fadd (budgetSum l) (millis_to_cores m).
Proof. unfold budgetSum. by rewrite foldl_app. Qed.

Lemma sumZ_pod_millis l : Forall pod_millis l -> (0 <= sumOf l <= 1000 * Z.of_nat (length l))%Z.
Proof.
  induction 1 as [|m l Hm _ IH]; [cbn; lia|].
  cbn [sumZ foldr length]. fold (sumOf l). unfold pod_millis in *. rewrite Nat2Z.inj_succ. lia.
Qed.

(** One step of the sum. *)
Lemma budgetSum_step S m n s :
  regular S -> pod_millis m -> (0 <= n < 100)%Z -> (0 <= s <= 1000 * n)%Z ->
  (val S - IZR n * (105 * err) <= IZR s / 1000 <= val S + IZR n * (105 * err))%R ->
  regular (fadd S (millis_to_cores m)) /\
  (val (fadd S (millis_to_cores m)) - (IZR n + 1) * (105 * err) <= IZR (s + m) / 1000 <=
   val (fadd S (millis_to_cores m)) + (IZR n + 1) * (105 * err))%R.
Proof.
  unfold pod_millis. intros HS Hm Hn Hs Hnear.
  pose proof err_size as [Hp Herr]. pose proof tiny_size as [Ht Htiny].
  assert (Ht2 : (tiny <= err / 10)%R) by nra.
  assert (Hm1 : (0 <= IZR m <= 1000)%R) by (split; apply IZR_le; lia).
  assert (Hn1 : (0 <= IZR n <= 99)%R) by (split; apply IZR_le; lia).
  assert (Hs1 : (0 <= IZR s <= 1000 * IZR n)%R) by (split; [|rewrite <- mult_IZR]; apply IZR_le; lia).
  pose proof (millis_rounded m ltac:(lia)) as Hmr.
  pose proof (rounded_near _ _ 1 Hmr ltac:(rewrite Rabs_pos_eq; lra)) as Hmn.
  assert (Hd : (Rabs (val S + val (millis_to_cores m)) <= 101)%R) by (apply Rabs_le; nra).
  pose proof (fadd_regular _ _ 101 HS (rounded_regular _ _ Hmr) Hd ltac:(apply bpow_100_big; lia)) as Hf.
  split; [by eapply rounded_regular|]. pose proof (rounded_near _ _ _ Hf Hd) as Hfn.
  rewrite plus_IZR. split; nra.
Qed.

Lemma budgetSum_near l :
  Forall pod_millis l -> (length l <= 100)%nat ->
  regular (budgetSum l) /\
  (val (budgetSum l) - IZR (Z.of_nat (length l)) * (105 * err) <= IZR (sumOf l) / 1000 <=
   val (budgetSum l) + IZR (Z.of_nat (length l)) * (105 * err))%R.
Proof.
  induction l as [|m l IH] using rev_ind; intros Hl Hlen.
  - split; [done|]. unfold budgetSum. simpl. change (Z.of_nat 0) with 0%Z. lra.
  - apply Forall_app in Hl as [Hl Hm]. apply Forall_cons in Hm as [Hm _].
    rewrite length_app in *. simpl in Hlen. destruct IH as [HS Hn]; [done|lia|].
    rewrite budgetSum_app, sumZ_app. replace (sumOf [m]) with m by (cbn; lia).
    replace (IZR (Z.of_nat (length l + length [m]))) with (IZR (Z.of_nat (length l)) + 1)%R
      by (rewrite <- plus_IZR; f_equal; simpl; lia).
    apply budgetSum_step; try done; [lia|by apply sumZ_pod_millis].
Qed.

(** With eviction: [free + total >= required] is the exact inequality, up to
    rejections at equality, in whatever order the total was summed. *)
Lemma evict_fit_exact u l hi period :
  (Z.abs u <= 1000000)%Z -> Forall pod_millis l -> (length l <= 100)%nat ->
  (0 < hi <= period)%Z -> (period <= 100000000)%Z ->
  let F := fadd (freeBudget u) (budgetSum l) in
  (fgeb F (budgetOf hi period) = true -> 1000 * hi + u * period <= (950 + sumOf l) * period)%Z /\
  (1000 * hi + u * period < (950 + sumOf l) * period -> fgeb F (budgetOf hi period) = true)%Z.
Proof.
  intros Hu Hl Hlen Hhi Hp F.
  pose proof err_size as [Hpos Herr]. pose proof tiny_size as [Ht Htiny].
  assert (Ht2 : (tiny <= err / 10)%R) by nra.
  assert (Hfr : regular (freeBudget u)) by (apply freeBudget_regular; unfold int64; lia).
  pose proof (freeBudget_near u Hu) as Hfn. destruct (budgetSum_near l Hl Hlen) as [HS Hn].
  pose proof (sumZ_pod_millis l Hl) as Hs.
  assert (Hu1 : (-1000000 <= IZR u <= 1000000)%R) by (split; apply IZR_le; lia).
  assert (Hs1 : (0 <= IZR (sumOf l) <= 100000)%R) by (split; apply IZR_le; lia).
  assert (Hl1 : (0 <= IZR (Z.of_nat (length l)) <= 100)%R) by (split; apply IZR_le; lia).
  assert (Hd : (Rabs (val (freeBudget u) + val (budgetSum l)) <= 1102)%R) by (apply Rabs_le; nra).
  pose proof (fadd_regular _ _ 1102 Hfr HS Hd ltac:(apply bpow_100_big; lia)) as Hr. fold F in Hr.
  pose proof (rounded_near _ _ _ Hr Hd) as HF.
  destruct (compare_exact F 13700 (950 - u + sumOf l) hi period) as [H1 H2]; try lia.
  - by eapply rounded_regular.
  - rewrite plus_IZR, minus_IZR. split; nra.
  - split; intros H; [specialize (H1 H)|apply H2]; lia.
Qed.

(** The stopping test of the victim loops: when the selected budgets cover
    [required - free], the request fits once they are released. *)
Lemma cover_exact u l hi period :
  (Z.abs u <= 1000000)%Z -> Forall pod_millis l -> (length l <= 100)%nat ->
  (0 < hi <= period)%Z -> (period <= 100000000)%Z ->
  fgeb (budgetSum l) (fsub (budgetOf hi period) (freeBudget u)) = true ->
  (1000 * hi + u * period <= (950 + sumOf l) * period)%Z.
Proof.
  intros Hu Hl Hlen Hhi Hp Hge.
  pose proof err_size as [Hpos Herr]. pose proof tiny_size as [Ht Htiny].
  assert (Ht2 : (tiny <= err / 10)%R) by nra.
  assert (Hfr : regular (freeBudget u)) by (apply freeBudget_regular; unfold int64; lia).
  pose proof (freeBudget_near u Hu) as Hfn. destruct (budgetSum_near l Hl Hlen) as [HS Hn].
  destruct (budgetOf_near hi period Hhi ltac:(lia)) as [Hreg Hb].
  pose proof (clear_denominators (950 - u + sumOf l) hi period ltac:(lia)) as Hcd.
  assert (Hu1 : (-1000000 <= IZR u <= 1000000)%R) by (split; apply IZR_le; lia).
  assert (Hl1 : (0 <= IZR (Z.of_nat (length l)) <= 100)%R) by (split; apply IZR_le; lia).
  assert (Hp1 : (1 <= IZR period)%R) by (apply IZR_le; lia).
  assert (Hp2 : (IZR period <= 100000000)%R) by (apply IZR_le; lia).
  assert (Hq : (0 <= IZR hi / IZR period <= 1)%R).
  { assert (0 < IZR hi)%R by (apply IZR_lt; lia). assert (IZR hi <= IZR period)%R by (apply IZR_le; lia).
    split; [apply Rlt_le, Rdiv_lt_0_compat; lra|]. apply (Rmult_le_reg_r (IZR period)); [lra|].
    unfold Rdiv. rewrite Rmult_assoc, Rinv_l by lra. lra. }
  assert (Hd : (Rabs (val (budgetOf hi period) - val (freeBudget u)) <= 1002)%R) by (apply Rabs_le; nra).
  pose proof (fsub_regular _ _ 1002 Hreg Hfr Hd ltac:(apply bpow_100_big; lia)) as Hr.
  pose proof (rounded_near _ _ _ Hr Hd) as HF.
  apply fgeb_val in Hge; [|done|by eapply rounded_regular].
  assert (E : IZR (950 - u + sumOf l) = (950 - IZR u + IZR (sumOf l))%R) by by rewrite plus_IZR, minus_IZR.
  rewrite E in Hcd.
  set (D := ((950 - IZR u + IZR (sumOf l)) / 1000 - IZR hi / IZR period)%R) in *.
  assert (HD : (- (14000 * err) <= D)%R) by (unfold D; nra).
  assert (-1 < IZR ((950 - u + sumOf l) * period - 1000 * hi))%R by (rewrite Hcd; nra).
  assert (-1 < (950 - u + sumOf l) * period - 1000 * hi)%Z by by apply lt_IZR. lia.
Qed.
