(* ===== verification/Threshold.v ===== *)
(** * Threshold: the exact meaning of the 90% test

    [checkAndPreemptForPod] and [findMigrationTargetCore] of
    [internal/controller/mckube_controller.go] add two usages given in
    milli-CPUs as [float64] fractions of a core and compare the sum with
    [coreUtilizationThreshold].  The comparison is exact except when the sum is
    exactly 900 milli-CPUs: there rounding decides, against the pod for twelve
    pairs. *)
From S2P Require Import Prelude Float64 FloatFacts CPUPool Budget.
From stdpp Require Import options.
From Stdlib Require Import Reals Lra.

Local Open Scope R_scope.
Local Open Scope Z_scope.

(** [coreUtilizationThreshold = 0.9] *)
Definition coreUtilizationThreshold : f64 := literal 9 10.

#[global] Arguments coreUtilizationThreshold : simpl never.
#[global] Arguments fadd _ _ : simpl never.
#[global] Arguments fsub _ _ : simpl never.
#[global] Arguments fgtb _ _ : simpl never.
#[global] Arguments fleb _ _ : simpl never.
#[global] Arguments millis_to_cores _ : simpl never.

(** [float64(u)/1000.0 + float64(v)/1000.0] *)
Definition usageSum (u v : Z) : f64 := fadd (millis_to_cores u) (millis_to_cores v).

(** The usages for which a sum of exactly 900 is rounded above the threshold. *)
Definition rounded_up (u : Z) : bool := ((338 <=? u) && (u <=? 343)) || ((557 <=? u) && (u <=? 562)).

(** The test in integers. *)
Definition within (u v : Z) : bool := (u + v <? 900) || ((u + v =? 900) && negb (rounded_up u)).

(** Usages in range: up to a thousand cores. *)
Definition millis_range (u : Z) : Prop := 0 <= u <= 1000000.

Lemma millis_near u :
  millis_range u -> regular (millis_to_cores u) /\
  (val (millis_to_cores u) - 1001 * err <= IZR u / 1000 <= val (millis_to_cores u) + 1001 * err)%R.
Proof.
  unfold millis_range. intros Hu. pose proof err_size as [Hp Herr]. pose proof tiny_size as [Ht Htiny].
  assert (Ht2 : (tiny <= err)%R) by nra.
  pose proof (millis_rounded u ltac:(lia)) as Hr. split; [by eapply rounded_regular|].
  assert (Hq : (0 <= IZR u / 1000 <= 1000)%R).
  { assert (0 <= IZR u <= 1000000)%R by (split; apply IZR_le; lia). lra. }
  pose proof (rounded_near _ _ 1000 Hr ltac:(rewrite Rabs_pos_eq; lra)). lra.
Qed.

Lemma usageSum_near u v :
  millis_range u -> millis_range v -> regular (usageSum u v) /\
  (val (usageSum u v) - 5000 * err <= IZR (u + v) / 1000 <= val (usageSum u v) + 5000 * err)%R.
Proof.
  intros Hu Hv. pose proof err_size as [Hp Herr]. pose proof tiny_size as [Ht Htiny].
  assert (Ht2 : (tiny <= err)%R) by nra.
  destruct (millis_near u Hu) as [Ru Nu]. destruct (millis_near v Hv) as [Rv Nv].
  unfold millis_range in *.
  assert (0 <= IZR u <= 1000000)%R by (split; apply IZR_le; lia).
  assert (0 <= IZR v <= 1000000)%R by (split; apply IZR_le; lia).
  assert (Hd : (Rabs (val (millis_to_cores u) + val (millis_to_cores v)) <= 2001)%R) by (apply Rabs_le; nra).
  pose proof (fadd_regular _ _ 2001 Ru Rv Hd ltac:(apply bpow_100_big; lia)) as Hf.
  fold (usageSum u v) in Hf. split; [by eapply rounded_regular|].
  pose proof (rounded_near _ _ _ Hf Hd). rewrite plus_IZR. lra.
Qed.

Lemma threshold_rounded : rounded (9 / 10) coreUtilizationThreshold.
Proof. apply (quotient_rounded 9 10); lia. Qed.

Lemma threshold_near :
  regular coreUtilizationThreshold /\
  (val coreUtilizationThreshold - 2 * err <= 9 / 10 <= val coreUtilizationThreshold + 2 * err)%R.
Proof.
  pose proof err_size as [Hp Herr]. pose proof tiny_size as [Ht Htiny]. assert (tiny <= err)%R by nra.
  split; [eapply rounded_regular, threshold_rounded|].
  pose proof (rounded_near _ _ 1 threshold_rounded ltac:(rewrite Rabs_pos_eq; lra)). lra.
Qed.

(** The pairs with a sum of exactly 900. *)
Lemma boundary_pairs :
  forallb (fun u => Bool.eqb (fleb (usageSum u (900 - u)) coreUtilizationThreshold) (negb (rounded_up u)))
    (seqZ 0 901) = true.
Proof. vm_compute. reflexivity. Qed.

Lemma within_exact u v :
  millis_range u -> millis_range v -> fleb (usageSum u v) coreUtilizationThreshold = within u v.
Proof.
  intros Hu Hv. destruct (usageSum_near u v Hu Hv) as [Rs Ns]. destruct threshold_near as [Rt Nt].
  pose proof err_size as [Hp Herr]. apply eq_true_iff_eq.
  destruct (Z.eq_dec (u + v) 900) as [E|E].
  - pose proof boundary_pairs as Hb. rewrite forallb_forall in Hb. specialize (Hb u).
    unfold millis_range in *. replace (900 - u) with v in Hb by lia. unfold within. rewrite E. simpl.
    assert (Hin : u ∈ seqZ 0 901) by (apply elem_of_seqZ; lia).
    apply list_elem_of_In in Hin. apply Hb, eqb_prop in Hin. by rewrite Hin.
  - transitivity (u + v < 900).
    + change (fleb (usageSum u v) coreUtilizationThreshold) with (fgeb coreUtilizationThreshold (usageSum u v)).
      rewrite fgeb_val by done. split.
      * intros Hle. destruct (Z.lt_ge_cases (u + v) 900) as [|Hge]; [done|].
        assert (901 <= IZR (u + v))%R by (apply IZR_le; lia). lra.
      * intros Hlt. assert (IZR (u + v) <= 899)%R by (apply IZR_le; lia). lra.
    + unfold within. destruct (Z.ltb_spec (u + v) 900), (Z.eqb_spec (u + v) 900); simpl; split; done || lia.
Qed.

(** The overload test is the negation. *)
Lemma beyond_exact u v :
  millis_range u -> millis_range v -> fgtb (usageSum u v) coreUtilizationThreshold = negb (within u v).
Proof.
  intros Hu Hv. rewrite <- (within_exact u v) by done.
  destruct (usageSum_near u v Hu Hv) as [Rs _]. destruct threshold_near as [Rt _].
  apply eq_true_iff_eq. rewrite negb_true_iff, fgtb_val by done. split; intros H.
  - apply not_true_is_false. change (fgeb coreUtilizationThreshold (usageSum u v) <> true).
    rewrite fgeb_val by done. lra.
  - apply not_true_iff_false in H. change (fgeb coreUtilizationThreshold (usageSum u v) <> true) in H.
    rewrite fgeb_val in H by done. lra.
Qed.

(** Usages are compared exactly. *)
Lemma usage_order u v :
  millis_range u -> millis_range v -> fltb (millis_to_cores u) (millis_to_cores v) = true <-> u < v.
Proof.
  intros Hu Hv. destruct (millis_near u Hu) as [Ru Nu]. destruct (millis_near v Hv) as [Rv Nv].
  pose proof err_size as [Hp Herr].
  change (fltb (millis_to_cores u) (millis_to_cores v)) with (fgtb (millis_to_cores v) (millis_to_cores u)).
  rewrite fgtb_val by done. split; intros Hlt.
  - destruct (Z.lt_trichotomy u v) as [|[->|Hgt]]; [done|lra|].
    assert (IZR v + 1 <= IZR u)%R by (rewrite <- plus_IZR; apply IZR_le; lia). nra.
  - assert (IZR u + 1 <= IZR v)%R by (rewrite <- plus_IZR; apply IZR_le; lia). nra.
Qed.

(** [2.0] is above every usage below two cores. *)
Lemma usage_below_two u : millis_range u -> u < 2000 -> fltb (millis_to_cores u) (of_int 2) = true.
Proof.
  intros Hu Hlt. assert (E : of_int 2 = millis_to_cores 2000) by (vm_compute; reflexivity).
  rewrite E. apply usage_order; [done|unfold millis_range; lia|done].
Qed.
