(* ===== verification/Conversions.v ===== *)
(** * Conversions: [int64(...)] of the floating-point expressions of the source

    Three expressions convert a product of floats back to an integer:
    [int(float64(period) * 0.95)] in the validating webhook,
    [int64(float64(oldMilli) * (1.0 - ratio))] with [ratio = 0.2] in the
    degradation of pod requests, and [int64(float64(runtime)/float64(period)*
    1000.0)] in the controller.  Truncation makes them sensitive to the last
    bit; this file shows that in the ranges of use each is the exact integer
    division. *)
From S2P Require Import Prelude Float64 FloatFacts GoRuntime CPUPool Budget.
From stdpp Require Import options.
From Stdlib Require Import Reals Lra.

Local Open Scope R_scope.
Local Open Scope Z_scope.

(** ** A product by a constant near [a/b] *)

(** The constant [m * 2^-53] is close enough to [a/b] for a product that is an
    integer to round to it. *)
Definition near_fraction (m a b : Z) : bool :=
  (Z.abs (m * b - a * 2 ^ 53) * 2 ^ 54 <? m * b) && (Z.abs (m * b - a * 2 ^ 53) <=? 40).

Lemma quotient_floor v a b p :
  0 < b -> (Rabs (v - IZR (a * p) / IZR b) * IZR b < 1)%R -> (a * p) mod b <> 0 ->
  (IZR (a * p / b) <= v < IZR (a * p / b) + 1)%R.
Proof.
  intros Hb Hv Hr. pose proof (Z_div_mod_eq_full (a * p) b) as Hd.
  pose proof (Z.mod_pos_bound (a * p) b Hb) as Hm.
  set (n := a * p / b) in *. set (r := (a * p) mod b) in *.
  assert (HbR : (0 < IZR b)%R) by (apply IZR_lt; lia).
  assert (E : (IZR (a * p) / IZR b = IZR n + IZR r / IZR b)%R).
  { rewrite Hd, plus_IZR, mult_IZR. field. lra. }
  assert (Hr1 : (1 <= IZR r <= IZR b - 1)%R) by (split; [|rewrite <- minus_IZR]; apply IZR_le; lia).
  assert (Hv2 : (Rabs (v - IZR (a * p) / IZR b) < / IZR b)%R).
  { apply (Rmult_lt_reg_r (IZR b)); [done|]. rewrite Rinv_l by lra. done. }
  apply Rabs_def2 in Hv2 as [Hv1 Hv2].
  assert (Hq : (/ IZR b <= IZR r / IZR b <= 1 - / IZR b)%R).
  { unfold Rdiv. assert (0 < / IZR b)%R by (apply Rinv_0_lt_compat; lra).
    assert (IZR b * / IZR b = 1)%R by (field; lra). split; nra. }
  lra.
Qed.

Lemma scaled_floor undef c m a b p :
  regular c -> val c = (IZR m * bpow (-53))%R -> near_fraction m a b = true ->
  0 < a <= b -> b <= 100 -> 0 < m <= 2 ^ 53 -> 1 <= p <= 2 ^ 45 ->
  to_int undef (fmul (of_int p) c) = a * p / b.
Proof.
  intros [Hcf Hcc] Hc Hnear Ha Hb Hm Hp. unfold near_fraction in Hnear. z_bools.
  set (d := m * b - a * 2 ^ 53) in *.
  pose proof err_size as [Hpos Herr]. pose proof tiny_size as [Ht Htiny].
  assert (HP : (1 <= IZR p <= 35184372088832)%R) by (split; apply IZR_le; lia).
  assert (HB : (1 <= IZR b <= 100)%R) by (split; apply IZR_le; lia).
  fold err in Hc.
  assert (Hc1 : (0 < val c <= 1)%R).
  { rewrite Hc. assert (1 <= IZR m <= 9007199254740992)%R by (split; apply IZR_le; lia). nra. }
  set (x := (IZR p * val c)%R).
  assert (Hx : (0 < x <= IZR p)%R) by (unfold x; nra).
  assert (Hr : rounded x (fmul (of_int p) c)).
  { unfold x. rewrite <- (of_int_exact p) by lia. apply fmul_spec; try done; try (by apply int_regular; lia).
    rewrite of_int_exact by lia. fold x. apply small_bpow with (b := 35184372088832%R); [|apply bpow_100_big; lia].
    rewrite Rabs_pos_eq; lra. }
  (* the error of the constant, scaled *)
  assert (Exact : ((x - IZR (a * p) / IZR b) * IZR b = IZR p * IZR d * err)%R).
  { unfold x, d. rewrite Hc, minus_IZR, !mult_IZR. change (IZR (2 ^ 53)) with 9007199254740992%R.
    replace ((IZR p * (IZR m * err) - IZR a * IZR p / IZR b) * IZR b)%R
      with (IZR p * (IZR m * IZR b * err - IZR a))%R by (field; lra).
    transitivity (IZR p * (IZR m * IZR b * err - IZR a * (err * 9007199254740992)))%R; [|ring].
    rewrite Herr. ring. }
  pose proof (Z.div_pos (a * p) b ltac:(lia) ltac:(lia)) as Hn0.
  assert (Hn1 : a * p / b <= p) by (apply Z.div_le_upper_bound; nia).
  apply to_int_floor; [by eapply rounded_finite|lia|].
  destruct (Z.eq_dec ((a * p) mod b) 0) as [Hr0|Hr0].
  - pose proof (Z_div_mod_eq_full (a * p) b) as Hdiv. set (n := a * p / b) in *.
    assert (Hn : 1 <= n) by nia.
    rewrite (rounded_int x _ n Hr); [lra|lia|].
    assert (Eq : (IZR (a * p) / IZR b = IZR n)%R).
    { rewrite Hdiv, Hr0, Z.add_0_r, mult_IZR. field. lra. }
    rewrite Eq in Exact.
    rewrite (Rabs_pos_eq x) by lra.
    apply (Rmult_lt_reg_r (IZR b)); [lra|].
    rewrite <- (Rabs_pos_eq (IZR b)) at 1 by lra. rewrite <- Rabs_mult, Exact.
    rewrite !Rabs_mult, (Rabs_pos_eq err), (Rabs_pos_eq (IZR p)), <- abs_IZR by lra.
    unfold x. rewrite Hc.
    assert (H54 : (err = 2 * bpow (-54))%R) by (unfold err; rewrite <- bpow_succ; done).
    assert (Hlt : (IZR (Z.abs d) * 18014398509481984 < IZR m * IZR b)%R).
    { rewrite <- !mult_IZR. apply IZR_lt. lia. }
    assert (Hone : (18014398509481984 * bpow (-54) = 1)%R) by lra.
    pose proof (bpow_pos (-54)) as Hb54.
    replace (IZR p * IZR (Z.abs d) * err)%R
      with (IZR p * err * (IZR (Z.abs d) * 18014398509481984 * bpow (-54)))%R
      by (rewrite (Rmult_assoc (IZR (Z.abs d))), Hone; ring).
    replace (IZR p * (IZR m * err) * bpow (-54) * IZR b)%R
      with (IZR p * err * (IZR m * IZR b * bpow (-54)))%R by ring.
    apply Rmult_lt_compat_l; [nra|]. by apply Rmult_lt_compat_r.
  - apply quotient_floor; [lia| |done].
    pose proof (rounded_error _ _ Hr) as He. fold err tiny in He. rewrite (Rabs_pos_eq x) in He by lra.
    replace (val (fmul (of_int p) c) - IZR (a * p) / IZR b)%R
      with ((val (fmul (of_int p) c) - x) + (x - IZR (a * p) / IZR b))%R by ring.
    eapply Rle_lt_trans; [apply Rmult_le_compat_r; [lra|apply Rabs_triang]|].
    rewrite Rmult_plus_distr_r.
    rewrite <- (Rabs_pos_eq (IZR b)) at 3 by lra. rewrite <- Rabs_mult, Exact.
    rewrite !Rabs_mult, (Rabs_pos_eq err), (Rabs_pos_eq (IZR p)), <- abs_IZR by lra.
    assert (HD : (0 <= IZR (Z.abs d) <= 40)%R) by (split; apply IZR_le; lia).
    assert (IZR p * IZR (Z.abs d) * err <= 35184372088832 * 40 * err)%R by (apply Rmult_le_compat_r; nra).
    assert (Rabs (val (fmul (of_int p) c) - x) * IZR b <= (35184372088832 * err + err) * 100)%R.
    { apply Rmult_le_compat; try lra; [apply Rabs_pos|]. assert (tiny <= err)%R by nra. nra. }
    nra.
Qed.

(** [int(float64(period) * cpupool.RTCapacityPerCore)] *)
Lemma capacity_scaled undef p :
  1 <= p <= 2 ^ 45 -> to_int undef (fmul (of_int p) RTCapacityPerCore) = 95 * p / 100.
Proof.
  intros Hp. apply (scaled_floor undef RTCapacityPerCore 8556839292003942); try lia; try done.
  assert (E : RTCapacityPerCore = S754_finite false 8556839292003942 (-53)) by (vm_compute; reflexivity).
  rewrite E. cbn [val sgn]. ring.
Qed.

(** [1.0 - ratio] with [ratio = 0.2] *)
Definition degradeFactor : f64 := fsub (of_int 1) (literal 2 10).

Lemma degrade_scaled undef p :
  1 <= p <= 2 ^ 45 -> to_int undef (fmul (of_int p) degradeFactor) = 4 * p / 5.
Proof.
  assert (E : degradeFactor = S754_finite false 7205759403792794 (-53)) by (vm_compute; reflexivity).
  intros Hp. apply (scaled_floor undef degradeFactor 7205759403792794); try lia; try done.
  rewrite E. cbn [val sgn]. ring.
Qed.

(** ** From a runtime and a period to millicores *)

(** [int64(float64(runtime) / float64(period) * 1000.0)] *)
Definition runtimeMillis (undef : f64 -> Z) (runtime period : Z) : Z :=
  to_int undef (fmul (budgetOf runtime period) f1000).

(** [n/1000] is rounded to a double whose product by 1000 rounds to [n]; checked
    on the integers of the representation. *)
Definition millis_exact (n : Z) : bool :=
  match fdiv (of_int n) (of_int 1000) with
  | S754_finite false m e =>
      let k := Zdigits2 (1000 * Zpos m) + e - 53 in
      (e <=? -1) && (-1000 <=? e) && (e <=? k) && (k <=? 0) &&
      (1000 * 2 ^ 52 <=? n * 2 ^ (- e)) && (n * 2 ^ (- e) <? 1000 * 2 ^ 53) &&
      (2 * Z.abs (n * 2 ^ (- e) - 1000 * Zpos m) <? 1000) &&
      (2 * Z.abs (1000 * Zpos m - n * 2 ^ (- e)) <? 2 ^ (k - e))
  | _ => false
  end.

Lemma millis_exact_all : forallb millis_exact (seqZ 1 1000) = true.
Proof. vm_compute. reflexivity. Qed.

Lemma millis_exact_holds n : 1 <= n <= 1000 -> millis_exact n = true.
Proof.
  intros Hn. pose proof millis_exact_all as H. rewrite forallb_forall in H.
  apply H, list_elem_of_In, elem_of_seqZ. lia.
Qed.

Lemma scale_Z z e : e <= 0 -> (IZR z = IZR (z * 2 ^ (- e)) * bpow e)%R.
Proof.
  intros He. rewrite mult_IZR, <- bpow_IZR, Rmult_assoc, (Rmult_comm (bpow (- e))), bpow_opp by lia. ring.
Qed.

Lemma runtimeMillis_integer n runtime period :
  1 <= n <= 1000 -> 0 < runtime <= period -> period <= 1000000000 -> 1000 * runtime = n * period ->
  val (fmul (budgetOf runtime period) f1000) = IZR n.
Proof.
  intros Hn Hrt Hp Heq. pose proof (millis_exact_holds n Hn) as Hc. unfold millis_exact in Hc.
  destruct (fdiv (of_int n) (of_int 1000)) as [| | |[] m e]; try done. z_bools.
  set (k := Zdigits2 (1000 * Zpos m) + e - 53) in *.
  pose proof (bpow_pos e) as Hbe.
  assert (HP : (1 <= IZR period)%R) by (apply IZR_le; lia).
  assert (Hq : (IZR runtime / IZR period = IZR n / 1000)%R).
  { apply (f_equal IZR) in Heq. rewrite !mult_IZR in Heq.
    apply (Rmult_eq_reg_r (1000 * IZR period)); [|nra]. field_simplify; lra. }
  assert (Hqe : (IZR n / 1000 = IZR (n * 2 ^ (- e)) / 1000 * bpow e)%R).
  { rewrite (scale_Z n e) at 1 by lia. field. }
  assert (Hr : rounded (IZR n / 1000) (budgetOf runtime period)).
  { rewrite <- Hq. apply quotient_rounded; lia. }
  set (N := n * 2 ^ (- e)) in *.
  assert (HN : (1000 * 4503599627370496 <= IZR N < 1000 * 9007199254740992)%R).
  { split; [|rewrite <- mult_IZR; apply IZR_lt; lia]. rewrite <- mult_IZR. apply IZR_le. lia. }
  assert (Hb52 : (bpow (e + 52) = 4503599627370496 * bpow e)%R)
    by (rewrite Z.add_comm, bpow_add, (bpow_IZR 52) by lia; done).
  assert (Hb53 : (bpow (e + 53) = 9007199254740992 * bpow e)%R)
    by (rewrite Z.add_comm, bpow_add, (bpow_IZR 53) by lia; done).
  assert (Hv1 : val (budgetOf runtime period) = (IZR (Zpos m) * bpow e)%R).
  { apply (rounded_grid _ _ _ _ Hr); [lia| |].
    - rewrite Hqe, Rabs_pos_eq by nra. rewrite Hb52, Hb53. split; nra.
    - rewrite Hqe. replace (IZR N / 1000 * bpow e - IZR (Zpos m) * bpow e)%R
        with ((IZR N - 1000 * IZR (Zpos m)) / 1000 * bpow e)%R by field.
      rewrite Rabs_mult, (Rabs_pos_eq (bpow e)) by lra.
      assert (Habs : (2 * Rabs (IZR N - 1000 * IZR (Zpos m)) < 1000)%R).
      { rewrite <- mult_IZR, <- minus_IZR, <- abs_IZR, <- mult_IZR. apply IZR_lt. lia. }
      unfold Rdiv. rewrite Rabs_mult, (Rabs_pos_eq (/ 1000)) by lra. nra. }
  set (X := 1000 * Zpos m) in *.
  assert (HX : (val (budgetOf runtime period) * val f1000 = IZR X * bpow e)%R).
  { rewrite Hv1, f1000_val. unfold X. rewrite mult_IZR. ring. }
  assert (HXpos : (0 < IZR X)%R) by (apply IZR_lt; lia).
  destruct (Zdigits2_bounds X) as [Hx1 Hx2]; [lia|].
  assert (Hd : 0 < Zdigits2 X) by done.
  apply IZR_le in Hx1. apply IZR_lt in Hx2. rewrite <- bpow_IZR in Hx1, Hx2 by lia.
  assert (Hr2 : rounded (IZR X * bpow e) (fmul (budgetOf runtime period) f1000)).
  { rewrite <- HX. pose proof (rounded_regular _ _ Hr) as [Hf Hcan]. apply fmul_spec; try done.
    rewrite Hv1, f1000_val. apply small_bpow with (b := 1000000%R); [|apply bpow_100_big; lia].
    rewrite <- Hv1, Rabs_pos_eq by (rewrite Hv1; apply Rmult_le_pos; [|lra]; apply Rmult_le_pos; [apply IZR_le; lia|lra]).
    pose proof (rounded_near _ _ 1 Hr) as Hnear. pose proof err_size. pose proof tiny_size.
    assert (0 <= IZR n / 1000 <= 1)%R.
    { assert (1 <= IZR n <= 1000)%R by (split; apply IZR_le; lia). lra. }
    rewrite Rabs_pos_eq in Hnear by lra. assert (tiny <= err)%R by nra. lra. }
  rewrite (scale_Z n k) by lia. apply (rounded_grid _ _ _ _ Hr2); [lia| |].
  - rewrite Rabs_pos_eq by nra.
    replace (k + 52) with ((Zdigits2 X - 1) + e) by (unfold k; lia).
    replace (k + 53) with (Zdigits2 X + e) by (unfold k; lia).
    rewrite !bpow_add. split; nra.
  - rewrite <- scale_Z by lia. rewrite (scale_Z n e) by lia. fold N.
    rewrite <- Rmult_minus_distr_r, <- minus_IZR, Rabs_mult, (Rabs_pos_eq (bpow e)), <- abs_IZR by lra.
    assert (Hk : (bpow k = IZR (2 ^ (k - e)) * bpow e)%R) by (apply bpow_scale; lia).
    rewrite Hk. assert (2 * IZR (Z.abs (X - N)) < IZR (2 ^ (k - e)))%R by (rewrite <- mult_IZR; apply IZR_lt; lia).
    nra.
Qed.

(** The conversion is the exact integer division. *)
Lemma runtimeMillis_floor undef runtime period :
  0 < runtime <= period -> period <= 1000000000 ->
  runtimeMillis undef runtime period = 1000 * runtime / period.
Proof.
  intros Hrt Hp. unfold runtimeMillis.
  pose proof err_size as [Hpos Herr]. pose proof tiny_size as [Ht Htiny].
  assert (Htiny2 : (tiny <= err)%R) by nra.
  assert (HP : (1 <= IZR period <= 1000000000)%R) by (split; apply IZR_le; lia).
  assert (HR : (1 <= IZR runtime <= IZR period)%R) by (split; apply IZR_le; lia).
  assert (Hr : rounded (IZR runtime / IZR period) (budgetOf runtime period)) by (apply quotient_rounded; lia).
  assert (Hq : (0 <= IZR runtime / IZR period <= 1)%R).
  { assert (0 < / IZR period)%R by (apply Rinv_0_lt_compat; lra).
    assert (IZR period * / IZR period = 1)%R by (field; lra). unfold Rdiv. nra. }
  pose proof (rounded_near _ _ 1 Hr ltac:(rewrite Rabs_pos_eq; lra)) as Hn1.
  assert (Hv : (Rabs (val (budgetOf runtime period) * 1000) <= 1001)%R) by (apply Rabs_le; nra).
  assert (Hr2 : rounded (val (budgetOf runtime period) * 1000) (fmul (budgetOf runtime period) f1000)).
  { rewrite <- f1000_val. pose proof (rounded_regular _ _ Hr) as [Hf Hc]. apply fmul_spec; try done.
    rewrite f1000_val. apply small_bpow with (b := 1001%R); [done|apply bpow_100_big; lia]. }
  pose proof (rounded_near _ _ _ Hr2 Hv) as Hn2.
  pose proof (Z.div_pos (1000 * runtime) period ltac:(lia) ltac:(lia)).
  assert (1000 * runtime / period <= 1000) by (apply Z.div_le_upper_bound; lia).
  apply to_int_floor; [by eapply rounded_finite|lia|].
  destruct (Z.eq_dec ((1000 * runtime) mod period) 0) as [Hr0|Hr0].
  - pose proof (Z_div_mod_eq_full (1000 * runtime) period) as Hd.
    rewrite (runtimeMillis_integer (1000 * runtime / period)); [lra|nia|lia|lia|lia].
  - apply quotient_floor; [lia| |done].
    assert (E : (IZR (1000 * runtime) / IZR period = 1000 * (IZR runtime / IZR period))%R).
    { rewrite mult_IZR. field. lra. }
    rewrite E. set (q := (IZR runtime / IZR period)%R) in *.
    assert (Rabs (val (fmul (budgetOf runtime period) f1000) - 1000 * q) <= 4000 * err)%R by (apply Rabs_le; nra).
    assert (4000 * err * IZR period < 1)%R by nra.
    eapply Rle_lt_trans; [apply Rmult_le_compat_r; [lra|eassumption]|]. done.
Qed.
