(* ===== verification/Scheduling.v ===== *)
(** * Scheduling: choosing a node, a core and the victims of a preemption

    The scheduling API of [internal/cpupool/cpupool.go], from
    [SelectBestNodeAndCore] to [greedyMinVictims].  Budgets are [float64]
    fractions of a core.  The order in which maps are visited and the order
    [sort.Slice] gives to ties are those of the [GoRuntime]; the theorems hold
    for all of them.

    The two loops over nodes and cores are summarised by [placements], the
    list of (node, core) pairs the search evaluates, and by the candidate each
    pair yields ([directCandidate], [evictCandidate]). *)
From S2P Require Import Prelude Float64 GoRuntime CPUPool CoreSet ApiTypes Budget.
From stdpp Require Import options.

(** ** Victims *)

(** [poolEvictionLookahead]: the evictable pods and their combined budget. *)
Definition poolEvictionLookahead (pods : list PodInfo) (incomingCriticality : string) : list PodInfo * f64 :=
  let r := rank incomingCriticality in
  foldl (fun '(victims, total) pod =>
    if rank (pi_Criticality pod) <? r
    then (victims ++ [pod], fadd total (millis_to_cores (pi_CPUMillis pod)))
    else (victims, total)) ([], fzero) pods.

(** The order of both victim selections: lowest criticality first, then the
    largest budget. *)
Definition victimLess (a b : PodInfo) : bool :=
  let ri := rank (pi_Criticality a) in
  let rj := rank (pi_Criticality b) in
  if negb (ri =? rj) then ri <? rj else pi_CPUMillis b <? pi_CPUMillis a.

(** The loop of [SelectMinimumVictims]: stop once the budget is covered. *)
Fixpoint takeVictims (needed acc : f64) (sorted : list PodInfo) : list PodInfo :=
  match sorted with
  | [] => []
  | c :: rest =>
      let acc' := fadd acc (millis_to_cores (pi_CPUMillis c)) in
      if fgeb acc' needed then [c] else c :: takeVictims needed acc' rest
  end.

Definition SelectMinimumVictims `{GoRuntime} (candidates : list PodInfo) (needed : f64) : list PodInfo :=
  takeVictims needed fzero (go_sort victimLess candidates).

(** The loop of [greedyMinVictims], which collects names. *)
Fixpoint takeVictimNames (needed acc : f64) (sorted : list PodInfo) : list string :=
  match sorted with
  | [] => []
  | c :: rest =>
      let acc' := fadd acc (millis_to_cores (pi_CPUMillis c)) in
      if fgeb acc' needed then [pi_Name c] else pi_Name c :: takeVictimNames needed acc' rest
  end.

Definition greedyMinVictims `{GoRuntime} (candidates : list PodInfo) (needed : f64) : list string :=
  takeVictimNames needed fzero (go_sort victimLess candidates).

(** ** The search *)

Record FeasibilityResult := mkResult {
  Feasible : bool;
  SelectedNodeName : string;
  SelectedCoreID : Z;
  VictimPodNames : list string
}.

Record candidate := mkCandidate {
  cand_nodeName : string;
  cand_coreID : Z;
  cand_free : f64;
  cand_victims : list string
}.

(** The number of cores of a node, from its capacity. *)
Definition nodeNumCores (node : Node) : Z :=
  match node_CapacityCPU node with
  | Some cpuQty => if 0 <? q_Value cpuQty then q_Value cpuQty else DefaultNumCores
  | None => DefaultNumCores
  end.

(** The core identifiers to evaluate on a node. *)
Definition coresToCheck `{GoRuntime} (pool : option CPUPool) (preferredCores : list Z) (numCores : Z) : list Z :=
  if decide (preferredCores <> []) then filterValidCores preferredCores numCores
  else match pool with
       | Some p => (go_range "SelectBestNodeAndCore.Cores" (Cores p)).*1
       | None => seqZ 0 numCores
       end.

(** The used budget of a core and the pods on it, in the order of iteration at
    the program point [site]. *)
Definition coreSnapshot `{GoRuntime} (site : string) (pool : option CPUPool) (coreID : Z) : f64 * list PodInfo :=
  match pool with
  | Some p =>
      match Cores p !! coreID with
      | Some core => (millis_to_cores (UsageMillis core), (go_range site (Pods core)).*2)
      | None => (fzero, [])
      end
  | None => (fzero, [])
  end.

(** The body of the loop over the cores of a node. *)
Definition evaluateCore `{GoRuntime} (pool : option CPUPool) (nodeName : string)
  (requiredBudget : f64) (incomingCriticality : string)
  (acc : list candidate * list candidate) (coreID : Z) : list candidate * list candidate :=
  let '(direct, withEvict) := acc in
  let '(usedBudget, corePods) := coreSnapshot "SelectBestNodeAndCore.Pods" pool coreID in
  let free := fsub RTCapacityPerCore usedBudget in
  if fgeb free requiredBudget then
    (direct ++ [mkCandidate nodeName coreID free []], withEvict)
  else
    let '(evictCands, evictBudget) := poolEvictionLookahead corePods incomingCriticality in
    if fgeb (fadd free evictBudget) requiredBudget then
      let min := greedyMinVictims evictCands (fsub requiredBudget free) in
      (direct, withEvict ++ [mkCandidate nodeName coreID free min])
    else (direct, withEvict).

(** The body of the loop over the nodes. *)
Definition evaluateNode `{GoRuntime} (globalPools : Pools) (requiredBudget : f64)
  (incomingCriticality : string) (preferredCores : list Z)
  (acc : list candidate * list candidate) (node : Node) : list candidate * list candidate :=
  let pool := globalPools !! node_Name node in
  foldl (evaluateCore pool (node_Name node) requiredBudget incomingCriticality) acc
    (coresToCheck pool preferredCores (nodeNumCores node)).

(** Worst fit: most free budget first. *)
Definition directLess (a b : candidate) : bool := fgtb (cand_free a) (cand_free b).

(** Fewest victims first, ties broken by free budget. *)
Definition evictLess (a b : candidate) : bool :=
  let li := Z.of_nat (length (cand_victims a)) in
  let lj := Z.of_nat (length (cand_victims b)) in
  if negb (li =? lj) then li <? lj else fgtb (cand_free a) (cand_free b).

Definition infeasible : FeasibilityResult := mkResult false "" 0 [].

Definition SelectBestNodeAndCore `{GoRuntime} (globalPools : Pools) (nodeList : list Node)
  (requiredBudget : f64) (incomingCriticality : string) (preferredCores : list Z) : FeasibilityResult :=
  let '(direct, withEvict) :=
    foldl (evaluateNode globalPools requiredBudget incomingCriticality preferredCores) ([], []) nodeList in
  match go_sort directLess direct with
  | b :: _ => mkResult true (cand_nodeName b) (cand_coreID b) []
  | [] =>
      match go_sort evictLess withEvict with
      | b :: _ => mkResult true (cand_nodeName b) (cand_coreID b) (cand_victims b)
      | [] => infeasible
      end
  end.

Definition CheckNodeCoreFeasibility `{GoRuntime} (globalPools : Pools) (nodeName : string) (coreID : Z)
  (requiredBudget : f64) (incomingCriticality : string) : bool * list string :=
  match globalPools !! nodeName with
  | None => (true, [])
  | Some pool =>
      let '(usedBudget, corePods) := coreSnapshot "CheckNodeCoreFeasibility.Pods" (Some pool) coreID in
      let free := fsub RTCapacityPerCore usedBudget in
      if fgeb free requiredBudget then (true, [])
      else
        let '(evictCands, total) := poolEvictionLookahead corePods incomingCriticality in
        if fgeb (fadd free total) requiredBudget
        then (true, greedyMinVictims evictCands (fsub requiredBudget free))
        else (false, [])
  end.

(** ** Victims: lemmas *)

Definition evictable (incomingCriticality : string) (pod : PodInfo) : Prop :=
  rank (pi_Criticality pod) < rank incomingCriticality.

#[export] Instance evictable_dec c pod : Decision (evictable c pod).
Proof. unfold evictable. apply _. Defined.

Definition podBudgets (pods : list PodInfo) : f64 := budgetSum (pi_CPUMillis <$> pods).

Lemma podBudgets_fold pods acc :
  foldl (fun total pod => fadd total (millis_to_cores (pi_CPUMillis pod))) acc pods =
  foldl (fun total m => fadd total (millis_to_cores m)) acc (pi_CPUMillis <$> pods).
Proof. revert acc. induction pods as [|p l IH]; intros acc; [done|]. simpl. apply IH. Qed.

(** The lookahead filters the evictable pods and adds up their budgets. *)
Lemma lookahead_spec pods crit :
  poolEvictionLookahead pods crit =
  (filter (evictable crit) pods, podBudgets (filter (evictable crit) pods)).
Proof.
  unfold poolEvictionLookahead, podBudgets, budgetSum. rewrite <- podBudgets_fold.
  assert (Hgen : forall l vs total,
    foldl (fun '(victims, total) pod =>
      if rank (pi_Criticality pod) <? rank crit
      then (victims ++ [pod], fadd total (millis_to_cores (pi_CPUMillis pod)))
      else (victims, total)) (vs, total) l =
    (vs ++ filter (evictable crit) l,
     foldl (fun total pod => fadd total (millis_to_cores (pi_CPUMillis pod))) total (filter (evictable crit) l)));
    [|by rewrite Hgen].
  induction l as [|pod l IH]; intros vs total; cbn [foldl]; [by rewrite app_nil_r|].
  rewrite filter_cons.
  destruct (rank (pi_Criticality pod) <? rank crit) eqn:E; z_bools; rewrite IH.
  - rewrite (decide_True (P := evictable crit pod)) by done. by rewrite <- app_assoc.
  - rewrite (decide_False (P := evictable crit pod)); [done|]. unfold evictable. lia.
Qed.

Lemma victimLess_strict_weak l : strict_weak_on victimLess l.
Proof.
  unfold victimLess. split.
  - intros a b _ _.
    destruct (Z.eqb_spec (rank (pi_Criticality a)) (rank (pi_Criticality b))) as [->|];
      [rewrite Z.eqb_refl|destruct (Z.eqb_spec (rank (pi_Criticality b)) (rank (pi_Criticality a)))];
      simpl; rewrite ?Z.ltb_lt, ?Z.ltb_ge; lia.
  - intros a b c _ _ _.
    repeat match goal with |- context [?x =? ?y] => destruct (Z.eqb_spec x y) end; simpl;
      rewrite ?Z.ltb_lt; lia.
Qed.

Lemma victims_sorted `{GoRuntime} l : StronglySorted (before victimLess) (go_sort victimLess l).
Proof. apply go_sort_sorted, victimLess_strict_weak. Qed.

(** [a] is preferred to [b] as a victim, or equivalent to it. *)
Lemma before_victimLess a b :
  before victimLess a b ->
  rank (pi_Criticality a) <= rank (pi_Criticality b) /\
  (rank (pi_Criticality a) = rank (pi_Criticality b) -> pi_CPUMillis b <= pi_CPUMillis a).
Proof.
  unfold before, victimLess.
  destruct (Z.eqb_spec (rank (pi_Criticality b)) (rank (pi_Criticality a))); simpl; intros; z_bools; lia.
Qed.

(** The greedy loop returns the shortest covering prefix, or everything. *)
Lemma takeVictims_prefix needed acc l :
  exists k, takeVictims needed acc l = take k l /\ (k <= length l)%nat /\ (l <> [] -> 0 < k)%nat /\
    (forall j, (0 < j < k)%nat ->
       fgeb (foldl (fun t p => fadd t (millis_to_cores (pi_CPUMillis p))) acc (take j l)) needed = false) /\
    (k = length l \/
     fgeb (foldl (fun t p => fadd t (millis_to_cores (pi_CPUMillis p))) acc (take k l)) needed = true).
Proof.
  revert acc. induction l as [|c l IH]; intros acc; [exists 0%nat; simpl; split_and!; try done; [lia|by left]|].
  cbn [takeVictims]. destruct (fgeb _ needed) eqn:E.
  - exists 1%nat. simpl. rewrite take_0. split_and!; try done; try lia. by right.
  - destruct (IH (fadd acc (millis_to_cores (pi_CPUMillis c)))) as (k & Hk & Hlen & Hpos & Hlt & Hend).
    exists (S k). cbn [take length foldl]. rewrite Hk. split_and!; [done|lia|lia| |].
    + intros [|j] Hj; [lia|]. cbn [take foldl]. destruct j as [|j]; [done|]. apply Hlt. lia.
    + destruct Hend as [->|Hend]; [by left|by right].
Qed.

Lemma takeVictims_elem needed acc l p : p ∈ takeVictims needed acc l -> p ∈ l.
Proof.
  destruct (takeVictims_prefix needed acc l) as (k & -> & _).
  intros (i & Hi & _)%elem_of_take. by eapply list_elem_of_lookup_2.
Qed.

Lemma takeVictimNames_map needed acc l :
  takeVictimNames needed acc l = pi_Name <$> takeVictims needed acc l.
Proof.
  revert acc. induction l as [|c l IH]; intros acc; [done|]. simpl.
  destruct (fgeb _ needed); [done|]. by rewrite IH.
Qed.

Lemma greedyMinVictims_map `{GoRuntime} cands needed :
  greedyMinVictims cands needed = pi_Name <$> SelectMinimumVictims cands needed.
Proof. apply takeVictimNames_map. Qed.

Lemma SelectMinimumVictims_elem `{GoRuntime} cands needed p :
  p ∈ SelectMinimumVictims cands needed -> p ∈ cands.
Proof. intros Hp. apply takeVictims_elem in Hp. by rewrite go_sort_perm in Hp. Qed.

(** Every selected victim stands before every candidate that is left. *)
Lemma SelectMinimumVictims_before `{GoRuntime} cands needed v c :
  v ∈ SelectMinimumVictims cands needed -> c ∈ cands -> c ∉ SelectMinimumVictims cands needed ->
  before victimLess v c.
Proof.
  unfold SelectMinimumVictims. intros Hv Hc Hnot.
  pose proof (victims_sorted cands) as Hs. rewrite <- (go_sort_perm victimLess cands) in Hc.
  destruct (takeVictims_prefix needed fzero (go_sort victimLess cands)) as (k & Ek & _).
  rewrite Ek in *. set (l := go_sort victimLess cands) in *.
  rewrite <- (take_drop k l) in Hc, Hs. apply elem_of_app in Hc as [Hc|Hc]; [done|].
  by eapply (StronglySorted_app_1_elem_of (before victimLess)).
Qed.

(** ** The search: lemmas *)

(** The usage of a core, 0 when the node has no pool or the pool no such core. *)
Definition coreUsage (pool : option CPUPool) (coreID : Z) : Z :=
  match pool with
  | Some p => match Cores p !! coreID with Some core => UsageMillis core | None => 0 end
  | None => 0
  end.

(** The pods on a core, in the order of iteration at [site]. *)
Definition podsOn `{GoRuntime} (site : string) (pool : option CPUPool) (coreID : Z) : list PodInfo :=
  (coreSnapshot site pool coreID).2.

Lemma millis_zero : millis_to_cores 0 = fzero.
Proof. vm_compute. reflexivity. Qed.

Lemma coreSnapshot_eq `{GoRuntime} site pool c :
  coreSnapshot site pool c = (millis_to_cores (coreUsage pool c), podsOn site pool c).
Proof.
  unfold podsOn, coreSnapshot, coreUsage.
  destruct pool as [p|]; [destruct (Cores p !! c)|]; by rewrite ?millis_zero.
Qed.

Lemma elem_of_podsOn `{GoRuntime} site pool c pod :
  pod ∈ podsOn site pool c <->
  exists p core name, pool = Some p /\ Cores p !! c = Some core /\ Pods core !! name = Some pod.
Proof.
  unfold podsOn, coreSnapshot. destruct pool as [p|]; simpl.
  - destruct (Cores p !! c) as [core|] eqn:E; simpl; [|by split; [intros ?%not_elem_of_nil|intros (? & ? & ? & [= <-] & ? & _); congruence]].
    rewrite go_range_values. split; [intros [k Hk]; by exists p, core, k|].
    intros (p' & core' & k & [= <-] & Hc & Hk). exists k. congruence.
  - split; [by intros ?%not_elem_of_nil|]. by intros (p & ? & ? & ? & _).
Qed.

(** The pods on a core are the same at every program point and in every
    implementation, up to order. *)
Lemma podsOn_perm_runtime (R R' : GoRuntime) site site' pool c :
  @podsOn R site pool c ≡ₚ @podsOn R' site' pool c.
Proof.
  unfold podsOn, coreSnapshot. destruct pool as [p|]; [|done]. destruct (Cores p !! c); [|done]. simpl.
  by rewrite (@go_range_perm R), (@go_range_perm R').
Qed.

(** [free >= requiredBudget] *)
Definition fitsDirectly (pool : option CPUPool) (coreID : Z) (req : f64) : bool :=
  fgeb (freeBudget (coreUsage pool coreID)) req.

(** [free + evictBudget >= requiredBudget] *)
Definition fitsEvicting `{GoRuntime} (site : string) (pool : option CPUPool) (coreID : Z)
  (req : f64) (crit : string) : bool :=
  fgeb (fadd (freeBudget (coreUsage pool coreID))
             (podBudgets (filter (evictable crit) (podsOn site pool coreID)))) req.

(** The victims chosen on a core. *)
Definition victimsOn `{GoRuntime} (site : string) (pool : option CPUPool) (coreID : Z)
  (req : f64) (crit : string) : list PodInfo :=
  SelectMinimumVictims (filter (evictable crit) (podsOn site pool coreID))
    (fsub req (freeBudget (coreUsage pool coreID))).

Definition selectSite : string := "SelectBestNodeAndCore.Pods".
Definition checkSite : string := "CheckNodeCoreFeasibility.Pods".

Definition directCandidate (pool : option CPUPool) (req : f64) (p : string * Z) : option candidate :=
  if fitsDirectly pool p.2 req
  then Some (mkCandidate p.1 p.2 (freeBudget (coreUsage pool p.2)) []) else None.

Definition evictCandidate `{GoRuntime} (pool : option CPUPool) (req : f64) (crit : string) (p : string * Z)
  : option candidate :=
  if fitsDirectly pool p.2 req then None
  else if fitsEvicting selectSite pool p.2 req crit
  then Some (mkCandidate p.1 p.2 (freeBudget (coreUsage pool p.2))
               (pi_Name <$> victimsOn selectSite pool p.2 req crit))
  else None.

Lemma evaluateCore_eq `{GoRuntime} pool n req crit d e c :
  evaluateCore pool n req crit (d, e) c =
  (d ++ option_list (directCandidate pool req (n, c)),
   e ++ option_list (evictCandidate pool req crit (n, c))).
Proof.
  unfold evaluateCore, directCandidate, evictCandidate, fitsDirectly, fitsEvicting, victimsOn.
  rewrite coreSnapshot_eq. fold selectSite. cbn [fst snd]. fold (freeBudget (coreUsage pool c)).
  destruct (fgeb (freeBudget _) req); simpl; [by rewrite app_nil_r|].
  rewrite lookahead_spec, greedyMinVictims_map.
  destruct (fgeb (fadd _ _) req); simpl; by rewrite !app_nil_r.
Qed.

(** The (node, core) pairs the search evaluates, in its order. *)
Definition nodePlacements `{GoRuntime} (globalPools : Pools) (preferredCores : list Z) (node : Node) : list (string * Z) :=
  (fun c => (node_Name node, c)) <$>
    coresToCheck (globalPools !! node_Name node) preferredCores (nodeNumCores node).

Definition placements `{GoRuntime} (globalPools : Pools) (nodeList : list Node) (preferredCores : list Z) : list (string * Z) :=
  nodeList ≫= nodePlacements globalPools preferredCores.

Lemma omap_cons_app {A B} (f : A -> option B) x l : omap f (x :: l) = option_list (f x) ++ omap f l.
Proof. simpl. by destruct (f x). Qed.

Lemma evaluateNode_eq `{GoRuntime} g req crit pref d e node :
  evaluateNode g req crit pref (d, e) node =
  (d ++ omap (fun p => directCandidate (g !! p.1) req p) (nodePlacements g pref node),
   e ++ omap (fun p => evictCandidate (g !! p.1) req crit p) (nodePlacements g pref node)).
Proof.
  unfold evaluateNode, nodePlacements. generalize (coresToCheck (g !! node_Name node) pref (nodeNumCores node)).
  intros l. revert d e. induction l as [|c l IH]; intros d e; [by rewrite !app_nil_r|].
  cbn [foldl]. rewrite fmap_cons, !omap_cons_app, evaluateCore_eq, IH. by rewrite <- !app_assoc.
Qed.

Lemma search_eq `{GoRuntime} g nodes req crit pref :
  foldl (evaluateNode g req crit pref) ([], []) nodes =
  (omap (fun p => directCandidate (g !! p.1) req p) (placements g nodes pref),
   omap (fun p => evictCandidate (g !! p.1) req crit p) (placements g nodes pref)).
Proof.
  assert (Hgen : forall d e, foldl (evaluateNode g req crit pref) (d, e) nodes =
    (d ++ omap (fun p => directCandidate (g !! p.1) req p) (placements g nodes pref),
     e ++ omap (fun p => evictCandidate (g !! p.1) req crit p) (placements g nodes pref))); [|apply Hgen].
  unfold placements. induction nodes as [|node nodes IH]; intros d e; [by rewrite !app_nil_r|].
  cbn [foldl]. rewrite evaluateNode_eq, IH, bind_cons, !omap_app. by rewrite <- !app_assoc.
Qed.

Lemma elem_of_directs `{GoRuntime} g nodes req pref b :
  b ∈ omap (fun p => directCandidate (g !! p.1) req p) (placements g nodes pref) <->
  exists n c, (n, c) ∈ placements g nodes pref /\ fitsDirectly (g !! n) c req = true /\
    b = mkCandidate n c (freeBudget (coreUsage (g !! n) c)) [].
Proof.
  rewrite list_elem_of_omap. unfold directCandidate. split.
  - intros ([n c] & Hin & Hb). exists n, c. simpl in Hb. destruct (fitsDirectly _ _ _); [|done].
    injection Hb as <-. done.
  - intros (n & c & Hin & Hfit & ->). exists (n, c). simpl. by rewrite Hfit.
Qed.

Lemma elem_of_evicts `{GoRuntime} g nodes req crit pref b :
  b ∈ omap (fun p => evictCandidate (g !! p.1) req crit p) (placements g nodes pref) <->
  exists n c, (n, c) ∈ placements g nodes pref /\ fitsDirectly (g !! n) c req = false /\
    fitsEvicting selectSite (g !! n) c req crit = true /\
    b = mkCandidate n c (freeBudget (coreUsage (g !! n) c)) (pi_Name <$> victimsOn selectSite (g !! n) c req crit).
Proof.
  rewrite list_elem_of_omap. unfold evictCandidate. split.
  - intros ([n c] & Hin & Hb). exists n, c. simpl in Hb. destruct (fitsDirectly _ _ _); [done|].
    destruct (fitsEvicting _ _ _ _ _); [|done]. injection Hb as <-. done.
  - intros (n & c & Hin & Hfit & Hev & ->). exists (n, c). simpl. by rewrite Hfit, Hev.
Qed.

(** *** The orders of the candidates *)

Lemma coreUsage_int64 g n c : pools_wf g -> int64 (coreUsage (g !! n) c).
Proof.
  intros Hg. unfold coreUsage. destruct (g !! n) as [p|] eqn:En; [|by vm_compute].
  destruct (Cores p !! c) as [core|] eqn:Ec; [|by vm_compute].
  destruct (Hg n p En) as [_ Hcores]. destruct (Hcores c core Ec) as [_ _ -> _]. apply wrap64_range.
Qed.

Lemma candidate_regular `{GoRuntime} g n c : pools_wf g -> is_nan (freeBudget (coreUsage (g !! n) c)) = false.
Proof. intros Hg. by apply regular_not_nan, freeBudget_regular, coreUsage_int64. Qed.

Lemma directLess_strict_weak l :
  Forall (fun b => is_nan (cand_free b) = false) l -> strict_weak_on directLess l.
Proof.
  rewrite Forall_forall. unfold directLess, fgtb. intros Hl. split.
  - intros a b Ha Hb Hab. rewrite fltb_lex in Hab by by apply Hl.
    rewrite fltb_false_lex by by apply Hl. by apply lex_lt_asym.
  - intros a b c Ha Hb Hc Hab. rewrite fltb_lex in Hab |- * by by apply Hl.
    rewrite (fltb_lex (cand_free b)) by by apply Hl.
    destruct (lex_lt_cotrans _ _ (fkey (cand_free c)) Hab); auto.
Qed.

Lemma evictLess_strict_weak l :
  Forall (fun b => is_nan (cand_free b) = false) l -> strict_weak_on evictLess l.
Proof.
  intros Hl. pose proof (directLess_strict_weak l Hl) as [Has Hco]. unfold evictLess. split.
  - intros a b Ha Hb.
    destruct (Z.eqb_spec (Z.of_nat (length (cand_victims a))) (Z.of_nat (length (cand_victims b)))) as [->|];
      [rewrite Z.eqb_refl; by apply Has|].
    destruct (Z.eqb_spec (Z.of_nat (length (cand_victims b))) (Z.of_nat (length (cand_victims a)))); simpl;
      rewrite ?Z.ltb_lt, ?Z.ltb_ge; lia.
  - intros a b c Ha Hb Hc. specialize (Hco a b c Ha Hb Hc). unfold directLess in Hco.
    repeat match goal with |- context [?x =? ?y] => destruct (Z.eqb_spec x y) end; simpl;
      rewrite ?Z.ltb_lt; try lia; auto.
Qed.

Lemma candidates_regular `{GoRuntime} g nodes req crit pref :
  pools_wf g ->
  Forall (fun b => is_nan (cand_free b) = false)
    (omap (fun p => directCandidate (g !! p.1) req p) (placements g nodes pref)) /\
  Forall (fun b => is_nan (cand_free b) = false)
    (omap (fun p => evictCandidate (g !! p.1) req crit p) (placements g nodes pref)).
Proof.
  intros Hg. split; apply Forall_forall; intros b.
  - intros (n & c & _ & _ & ->)%elem_of_directs. by apply candidate_regular.
  - intros (n & c & _ & _ & _ & ->)%elem_of_evicts. by apply candidate_regular.
Qed.

(** *** What the search returns *)

Inductive search_outcome `{GoRuntime} (g : Pools) (nodes : list Node) (req : f64) (crit : string)
  (pref : list Z) : FeasibilityResult -> Prop :=
| outcome_direct n c :
    (n, c) ∈ placements g nodes pref -> fitsDirectly (g !! n) c req = true ->
    (forall n' c', (n', c') ∈ placements g nodes pref -> fitsDirectly (g !! n') c' req = true ->
       fgtb (freeBudget (coreUsage (g !! n') c')) (freeBudget (coreUsage (g !! n) c)) = false) ->
    search_outcome g nodes req crit pref (mkResult true n c [])
| outcome_evict n c :
    (n, c) ∈ placements g nodes pref ->
    (forall n' c', (n', c') ∈ placements g nodes pref -> fitsDirectly (g !! n') c' req = false) ->
    fitsEvicting selectSite (g !! n) c req crit = true ->
    (forall n' c', (n', c') ∈ placements g nodes pref ->
       fitsEvicting selectSite (g !! n') c' req crit = true ->
       (length (victimsOn selectSite (g !! n) c req crit) <= length (victimsOn selectSite (g !! n') c' req crit))%nat) ->
    search_outcome g nodes req crit pref
      (mkResult true n c (pi_Name <$> victimsOn selectSite (g !! n) c req crit))
| outcome_none :
    (forall n' c', (n', c') ∈ placements g nodes pref ->
       fitsDirectly (g !! n') c' req = false /\ fitsEvicting selectSite (g !! n') c' req crit = false) ->
    search_outcome g nodes req crit pref infeasible.

Lemma sorted_first `{GoRuntime} {A} (less : A -> A -> bool) l b rest :
  strict_weak_on less l -> go_sort less l = b :: rest ->
  b ∈ l /\ forall x, x ∈ l -> x = b \/ less x b = false.
Proof.
  intros Hless E. pose proof (go_sort_sorted less l Hless) as Hs. rewrite E in Hs.
  assert (Hl : forall x, x ∈ l <-> x ∈ b :: rest) by (intros x; by rewrite <- E, go_sort_perm).
  split; [apply Hl; by left|]. intros x [->|Hx]%Hl%elem_of_cons; [by left|right].
  by apply (sorted_head_before less b rest).
Qed.

Lemma sorted_empty `{GoRuntime} {A} (less : A -> A -> bool) (l : list A) : go_sort less l = [] -> l = [].
Proof. intros E. apply Permutation_nil. rewrite <- E. apply go_sort_perm. Qed.

Lemma evictLess_length a b : evictLess a b = false -> (length (cand_victims b) <= length (cand_victims a))%nat.
Proof.
  unfold evictLess.
  destruct (Z.eqb_spec (Z.of_nat (length (cand_victims a))) (Z.of_nat (length (cand_victims b)))); simpl;
    intros; z_bools; lia.
Qed.

Lemma SelectBest_outcome `{GoRuntime} g nodes req crit pref :
  pools_wf g -> search_outcome g nodes req crit pref (SelectBestNodeAndCore g nodes req crit pref).
Proof.
  intros Hg. unfold SelectBestNodeAndCore. rewrite search_eq.
  destruct (candidates_regular g nodes req crit pref Hg) as [Hd He].
  apply directLess_strict_weak in Hd. apply evictLess_strict_weak in He.
  destruct (go_sort directLess _) as [|b rest] eqn:Ed.
  - apply sorted_empty in Ed.
    assert (Hnone : forall n c, (n, c) ∈ placements g nodes pref -> fitsDirectly (g !! n) c req = false).
    { intros n c Hin. destruct (fitsDirectly (g !! n) c req) eqn:E; [|done].
      exfalso. eapply not_elem_of_nil. rewrite <- Ed. apply elem_of_directs. by exists n, c. }
    destruct (go_sort evictLess _) as [|b rest] eqn:Ee.
    + apply sorted_empty in Ee. apply outcome_none. intros n c Hin. split; [by apply Hnone|].
      destruct (fitsEvicting selectSite (g !! n) c req crit) eqn:E; [|done].
      exfalso. eapply not_elem_of_nil. rewrite <- Ee. apply elem_of_evicts.
      exists n, c. split_and!; try done. by apply Hnone.
    + destruct (sorted_first _ _ _ _ He Ee) as [Hb Hmin].
      apply elem_of_evicts in Hb as (n & c & Hin & Hfd & Hfe & ->). simpl.
      apply outcome_evict; try done. intros n' c' Hin' Hfe'.
      edestruct (Hmin (mkCandidate n' c' (freeBudget (coreUsage (g !! n') c'))
        (pi_Name <$> victimsOn selectSite (g !! n') c' req crit))) as [[= -> -> _ Hv]|Hless].
      * apply elem_of_evicts. exists n', c'. split_and!; try done. by apply Hnone.
      * done.
      * apply evictLess_length in Hless. simpl in Hless. by rewrite !length_fmap in Hless.
  - destruct (sorted_first _ _ _ _ Hd Ed) as [Hb Hmin].
    apply elem_of_directs in Hb as (n & c & Hin & Hfit & ->). simpl.
    apply outcome_direct; try done. intros n' c' Hin' Hfit'.
    destruct (Hmin (mkCandidate n' c' (freeBudget (coreUsage (g !! n') c')) [])) as [[= -> ->]|Hless].
    + apply elem_of_directs. by exists n', c'.
    + apply fltb_false_lex; [by apply candidate_regular..|]. intros Hlt. by apply (lex_lt_asym _ _ Hlt).
    + exact Hless.
Qed.

Lemma Check_eq `{GoRuntime} g n c req crit :
  CheckNodeCoreFeasibility g n c req crit =
  match g !! n with
  | None => (true, [])
  | Some p =>
      if fitsDirectly (Some p) c req then (true, [])
      else if fitsEvicting checkSite (Some p) c req crit
      then (true, pi_Name <$> victimsOn checkSite (Some p) c req crit)
      else (false, [])
  end.
Proof.
  unfold CheckNodeCoreFeasibility, fitsDirectly, fitsEvicting, victimsOn.
  destruct (g !! n) as [p|]; [|done]. rewrite coreSnapshot_eq. fold checkSite.
  fold (freeBudget (coreUsage (Some p) c)). rewrite lookahead_spec, greedyMinVictims_map. done.
Qed.

(** ** Properties of the victims *)

Section victims.
Context `{R : GoRuntime}.
Implicit Types (crit : string).

(** C21: [SelectMinimumVictims]: the victims are a sub-multiset of the
    candidates; either they are all of them or their combined budget covers
    what is needed; leaving out the last one would not cover it; and a
    candidate is spared only if every victim has a lower criticality or the
    same criticality and at least its budget. *)
Theorem SelectMinimumVictims_spec cands needed vs :
  SelectMinimumVictims cands needed = vs ->
  vs ⊆+ cands /\
  (vs ≡ₚ cands \/ fgeb (podBudgets vs) needed = true) /\
  (forall init last, vs = init ++ [last] -> init <> [] -> fgeb (podBudgets init) needed = false) /\
  (forall v c, v ∈ vs -> c ∈ cands -> c ∉ vs ->
     rank (pi_Criticality v) < rank (pi_Criticality c) \/
     (rank (pi_Criticality v) = rank (pi_Criticality c) /\ pi_CPUMillis c <= pi_CPUMillis v)).
Proof.
  intros <-. split_and!.
  4: { intros v c Hv Hc Hnot.
       pose proof (SelectMinimumVictims_before cands needed v c Hv Hc Hnot) as [H1 H2]%before_victimLess. lia. }
  all: unfold SelectMinimumVictims;
    destruct (takeVictims_prefix needed fzero (go_sort victimLess cands)) as (k & -> & Hk & Hpos & Hlt & Hend).
  - rewrite <- (go_sort_perm victimLess cands) at 2. apply sublist_submseteq, sublist_take.
  - destruct Hend as [->|Hend]; [left; rewrite firstn_all; apply go_sort_perm|right].
    by rewrite podBudgets_fold in Hend.
  - intros init last E Hne. set (l := go_sort victimLess cands) in *.
    assert (Hlen : length (take k l) = S (length init)) by (rewrite E, length_app; simpl; lia).
    rewrite length_take in Hlen. destruct init as [|x init]; [done|].
    specialize (Hlt (length (x :: init))). rewrite podBudgets_fold in Hlt.
    replace (take (length (x :: init)) l) with (x :: init) in Hlt; [apply Hlt; split; [simpl|]; lia|].
    apply (f_equal (take (length (x :: init)))) in E.
    rewrite take_take, take_app_length, Nat.min_l in E by lia. done.
Qed.

(** The two victim selections of the package agree: [greedyMinVictims],
    used to predict evictions, returns the names of the pods that
    [SelectMinimumVictims], used by the controller, evicts. *)
Theorem greedy_predicts_eviction cands needed :
  greedyMinVictims cands needed = pi_Name <$> SelectMinimumVictims cands needed.
Proof. apply greedyMinVictims_map. Qed.

Lemma go_sort_two (less : PodInfo -> PodInfo -> bool) a b :
  strict_weak_on less [a; b] -> less a b = true -> go_sort less [a; b] = [a; b].
Proof using R.
  intros Hless Hab. pose proof (go_sort_sorted less [a; b] Hless) as Hs.
  destruct (Permutation_length_2_inv (Permutation_sym (go_sort_perm less [a; b]))) as [E|E]; [done|].
  rewrite E in Hs. apply StronglySorted_inv in Hs as [_ Hs]. apply Forall_cons in Hs as [Hs _].
  unfold before in Hs. congruence.
Qed.

(** [SelectMinimumVictims] does not always select a minimum set: with a
    LOW pod of 100 milli-CPUs, a MIDDLE pod of 500 and 0.5 cores needed, both
    are selected, although the MIDDLE pod alone covers the need. *)
Theorem victims_not_minimum :
  let a := mkPodInfo "a" "ns" "LOW" 100 [0] in
  let b := mkPodInfo "b" "ns" "MIDDLE" 500 [0] in
  SelectMinimumVictims [a; b] (literal 5 10) = [a; b] /\
  fgeb (podBudgets [b]) (literal 5 10) = true.
Proof.
  intros a b. split; [|by vm_compute]. unfold SelectMinimumVictims.
  rewrite go_sort_two; [by vm_compute|apply victimLess_strict_weak|by vm_compute].
Qed.
End victims.

Example SelectMinimumVictims_spec_witness :
  let low := mkPodInfo "low" "ns" "LOW" 600 [0] in
  let mid := mkPodInfo "mid" "ns" "MIDDLE" 800 [0] in
  [low] ⊆+ [mid; low].
Proof.
  intros low mid.
  apply (@SelectMinimumVictims_spec reference_runtime [mid; low] (literal 15 100) [low]).
  vm_compute. reflexivity.
Defined.
