(* ===== verification/SchedulingSpec.v ===== *)
(** * SchedulingSpec: what the scheduling API promises, in exact integers

    The contract of [SelectBestNodeAndCore] and [CheckNodeCoreFeasibility]
    stated without floating point: a request of [hi] microseconds per [period]
    fits on a core whose booked usage is [u] milli-CPUs when
    [1000*hi + u*period <= 950*period], the 95% cap multiplied out.  The
    theorems show that the definitions of [Scheduling] implement it; the
    floating-point tests are never wrong in the admitting direction, and in the
    rejecting direction only at equality.

    The bounds ([workload], [request]) are those for which the rounding errors
    stay below one unit of the exact inequality: at most 100 pods of at most one
    core each on a core, and a period of at most 100 seconds. *)
From S2P Require Import Prelude Float64 GoRuntime CPUPool CoreSet ApiTypes Budget Scheduling.
From stdpp Require Import options.
From Stdlib Require Import Lra.

Local Open Scope Z_scope.

(** ** Exact specification *)

Record request (hi period : Z) : Prop := {
  request_hi : 0 < hi <= period;
  request_period : period <= 100000000
}.

(** The request fits on a core of usage [u] once [freed] milli-CPUs are released. *)
Definition fits (hi period u freed : Z) : Prop :=
  1000 * hi + u * period <= (950 + freed) * period.

(** It fits with something left over. *)
Definition fits_with_slack (hi period u freed : Z) : Prop :=
  1000 * hi + u * period < (950 + freed) * period.

Definition core_workload (core : CPUCoreInfo) : Prop :=
  (size (Pods core) <= 100)%nat /\ map_Forall (fun _ pi => pod_millis (pi_CPUMillis pi)) (Pods core).

Record workload (g : Pools) : Prop := {
  workload_wf : pools_wf g;
  workload_cores : forall node p c core,
    g !! node = Some p -> Cores p !! c = Some core -> core_workload core
}.

Lemma workload_alt g :
  workload g <-> pools_wf g /\ map_Forall (fun _ p => map_Forall (fun _ core => core_workload core) (Cores p)) g.
Proof.
  split; [intros [Hwf Hc]; split; [done|]; intros n p Hp c core Hcore; by eapply Hc|].
  intros [Hwf Hc]. split; [done|]. intros n p c core Hp Hcore. by apply (Hc n p Hp c core).
Qed.

#[export] Instance core_workload_dec core : Decision (core_workload core).
Proof. unfold core_workload, pod_millis. apply _. Defined.

#[export] Instance workload_dec g : Decision (workload g).
Proof. exact (dec_iff (workload_alt g)). Defined.

(** The budget of the pods of lower criticality on a core. *)
Definition evictableMillis (crit : string) (pool : option CPUPool) (c : Z) : Z :=
  match pool with
  | Some p =>
      match Cores p !! c with
      | Some core => sumOf (pi_CPUMillis <$> filter (evictable crit) (map_to_list (Pods core)).*2)
      | None => 0
      end
  | None => 0
  end.

Section spec.
Context `{R : GoRuntime}.
Implicit Types (g : Pools) (n crit : string) (c hi period : Z).

Lemma podsOn_workload g site n c :
  workload g ->
  Forall (fun pi => pod_millis (pi_CPUMillis pi)) (podsOn site (g !! n) c) /\
  (length (podsOn site (g !! n) c) <= 100)%nat.
Proof.
  intros [_ Hw]. split.
  - apply Forall_forall. intros pi Hpi. apply elem_of_podsOn in Hpi as (p & core & name & Hp & Hc & Hn).
    destruct (Hw n p c core Hp Hc) as [_ Hall]. by apply (Hall name).
  - unfold podsOn, coreSnapshot. destruct (g !! n) as [p|] eqn:En; [|simpl; lia].
    destruct (Cores p !! c) as [core|] eqn:Ec; [|simpl; lia]. simpl.
    destruct (Hw n p c core En Ec) as [Hsize _].
    rewrite length_fmap, (Permutation_length (go_range_perm site (Pods core))).
    by rewrite length_map_to_list.
Qed.

(** Sublists of the pods on a core stay within the bounds. *)
Lemma selected_workload g site n c crit (l : list PodInfo) :
  workload g -> l ⊆+ filter (evictable crit) (podsOn site (g !! n) c) ->
  Forall pod_millis (pi_CPUMillis <$> l) /\ (length (pi_CPUMillis <$> l) <= 100)%nat.
Proof.
  intros Hw Hl. destruct (podsOn_workload g site n c Hw) as [Hall Hlen]. split.
  - apply Forall_fmap, Forall_forall. intros pi Hpi. rewrite Forall_forall in Hall. apply Hall.
    apply (elem_of_submseteq _ _ pi Hpi) in Hl. by apply list_elem_of_filter in Hl as [_ Hl].
  - rewrite length_fmap. apply submseteq_length in Hl.
    pose proof (length_filter (evictable crit) (podsOn site (g !! n) c)). lia.
Qed.

Lemma evictable_sum g site n c crit :
  sumOf (pi_CPUMillis <$> filter (evictable crit) (podsOn site (g !! n) c)) = evictableMillis crit (g !! n) c.
Proof.
  unfold evictableMillis, podsOn, coreSnapshot. destruct (g !! n) as [p|]; [|done].
  destruct (Cores p !! c) as [core|]; [|done]. simpl. by rewrite (go_range_perm site (Pods core)).
Qed.

Lemma usage_bound g n c : workload g -> Z.abs (coreUsage (g !! n) c) <= 1000000.
Proof.
  intros Hw. unfold coreUsage. destruct (g !! n) as [p|] eqn:En; [|simpl; lia].
  destruct (Cores p !! c) as [core|] eqn:Ec; [|simpl; lia].
  destruct (workload_wf g Hw n p En) as [_ Hcores]. destruct (Hcores c core Ec) as [_ _ -> _].
  destruct (workload_cores g Hw n p c core En Ec) as [Hsize Hall].
  assert (Hb : 0 <= booked (Pods core) <= 100000).
  { unfold booked, map_sumZ. rewrite <- length_map_to_list in Hsize.
    assert (Hf : Forall pod_millis ((fun kv : string * PodInfo => pi_CPUMillis kv.2) <$> map_to_list (Pods core))).
    { apply Forall_fmap, Forall_forall. intros [k pi] Hin. apply elem_of_map_to_list in Hin. by apply (Hall k). }
    pose proof (sumZ_pod_millis _ Hf) as Hs. rewrite length_fmap in Hs.
    rewrite sumZ_fmap in Hs. lia. }
  rewrite Z.add_0_r, wrap64_id; unfold int64; lia.
Qed.

(** The two tests of the search decide the exact inequality. *)
Lemma fitsDirectly_exact g n c hi period :
  workload g -> request hi period ->
  (fitsDirectly (g !! n) c (budgetOf hi period) = true -> fits hi period (coreUsage (g !! n) c) 0) /\
  (fits_with_slack hi period (coreUsage (g !! n) c) 0 -> fitsDirectly (g !! n) c (budgetOf hi period) = true).
Proof.
  intros Hw [Hhi Hp]. unfold fits, fits_with_slack, fitsDirectly.
  destruct (direct_fit_exact (coreUsage (g !! n) c) hi period) as [H1 H2];
    [by apply usage_bound|done|lia|]. split; intros Hf; [specialize (H1 Hf); lia|apply H2; lia].
Qed.

Lemma fitsEvicting_exact g site n c crit hi period :
  workload g -> request hi period ->
  (fitsEvicting site (g !! n) c (budgetOf hi period) crit = true ->
   fits hi period (coreUsage (g !! n) c) (evictableMillis crit (g !! n) c)) /\
  (fits_with_slack hi period (coreUsage (g !! n) c) (evictableMillis crit (g !! n) c) ->
   fitsEvicting site (g !! n) c (budgetOf hi period) crit = true).
Proof.
  intros Hw [Hhi Hp]. unfold fits, fits_with_slack, fitsEvicting, podBudgets.
  rewrite <- (evictable_sum g site n c crit).
  destruct (selected_workload g site n c crit (filter (evictable crit) (podsOn site (g !! n) c)) Hw) as [Ha Hl]; [done|].
  apply evict_fit_exact; try done. by apply usage_bound.
Qed.

(** The victims are some of the pods of lower criticality on the core. *)
Lemma victimsOn_submseteq site pool c req crit :
  victimsOn site pool c req crit ⊆+ filter (evictable crit) (podsOn site pool c).
Proof.
  unfold victimsOn, SelectMinimumVictims. destruct (takeVictims_prefix
    (fsub req (freeBudget (coreUsage pool c))) fzero
    (go_sort victimLess (filter (evictable crit) (podsOn site pool c)))) as (k & -> & _).
  rewrite <- (go_sort_perm victimLess (filter (evictable crit) (podsOn site pool c))) at 2.
  apply sublist_submseteq, sublist_take.
Qed.

Lemma victimsOn_evictable site pool c req crit v :
  v ∈ victimsOn site pool c req crit ->
  evictable crit v /\ exists p core name, pool = Some p /\ Cores p !! c = Some core /\ Pods core !! name = Some v.
Proof.
  intros Hv. pose proof (elem_of_submseteq _ _ v Hv (victimsOn_submseteq site pool c req crit)) as Hin.
  apply list_elem_of_filter in Hin as [He Hin]. split; [done|]. by apply elem_of_podsOn in Hin.
Qed.

(** Once the victims are released the request fits. *)
Lemma victims_room g site n c crit hi period :
  workload g -> request hi period ->
  fitsEvicting site (g !! n) c (budgetOf hi period) crit = true ->
  fits hi period (coreUsage (g !! n) c)
    (sumOf (pi_CPUMillis <$> victimsOn site (g !! n) c (budgetOf hi period) crit)).
Proof.
  intros Hw Hr Hfit. pose proof (victimsOn_submseteq site (g !! n) c (budgetOf hi period) crit) as Hsub.
  destruct (selected_workload _ _ _ _ _ _ Hw Hsub) as [Ha Hl]. unfold victimsOn, SelectMinimumVictims in *.
  set (cands := filter (evictable crit) (podsOn site (g !! n) c)) in *.
  set (needed := fsub _ _) in *.
  destruct (takeVictims_prefix needed fzero (go_sort victimLess cands)) as (k & E & _ & _ & _ & Hend).
  rewrite E in *. destruct Hend as [->|Hge].
  - rewrite firstn_all, (go_sort_perm victimLess cands). unfold cands. rewrite evictable_sum.
    by apply (fitsEvicting_exact g site n c crit hi period).
  - unfold fits. destruct Hr as [Hhi Hp]. rewrite podBudgets_fold in Hge.
    apply cover_exact; try done. by apply usage_bound.
Qed.
End spec.

(** ** Properties *)

Section properties.
Context `{R : GoRuntime}.
Implicit Types (g : Pools) (n crit : string) (c hi period : Z).

Lemma evictableMillis_nonneg g n c crit : workload g -> 0 <= evictableMillis crit (g !! n) c.
Proof using R.
  intros Hw. rewrite <- (evictable_sum g selectSite n c crit).
  destruct (selected_workload g selectSite n c crit _ Hw (reflexivity _)) as [Ha _].
  apply sumZ_nonneg. eapply Forall_impl; [exact Ha|]. unfold pod_millis. simpl. lia.
Qed.

Lemma fits_more hi period u f f' : 0 < period -> f <= f' -> fits hi period u f -> fits hi period u f'.
Proof. unfold fits. nia. Qed.

(** A core with less usage than one that fits, fits too. *)
Lemma fitsDirectly_less g n n' c c' req :
  workload g -> regular req ->
  coreUsage (g !! n') c' < coreUsage (g !! n) c ->
  fitsDirectly (g !! n) c req = true -> fitsDirectly (g !! n') c' req = true.
Proof.
  intros Hw Hreq Hlt. unfold fitsDirectly.
  pose proof (usage_bound g n c Hw) as Hu. pose proof (usage_bound g n' c' Hw) as Hu'.
  apply freeBudget_order in Hlt; [|done..].
  assert (Hr : regular (freeBudget (coreUsage (g !! n) c))) by (apply freeBudget_regular; unfold int64; lia).
  assert (Hr' : regular (freeBudget (coreUsage (g !! n') c'))) by (apply freeBudget_regular; unfold int64; lia).
  rewrite !fgeb_val by done. rewrite fgtb_val in Hlt by done. intros. lra.
Qed.

(** A victim is booked on its core under its name, with a lower criticality. *)
Lemma victimsOn_booked g site n c req crit pod :
  pools_wf g -> pod ∈ victimsOn site (g !! n) c req crit ->
  rank (pi_Criticality pod) < rank crit /\ booking g n c (pi_Name pod) = Some pod.
Proof.
  intros Hg Hpod. apply victimsOn_evictable in Hpod as [Hlow (p & core & name & Hp & Hc & Hname)].
  split; [exact Hlow|]. unfold booking. rewrite Hp. simpl. rewrite Hc. simpl.
  destruct (Hg n p Hp) as [_ Hcores]. destruct (Hcores c core Hc) as [_ _ _ Hnames].
  by rewrite (Hnames name pod Hname).
Qed.

Lemma request_regular hi period : request hi period -> regular (budgetOf hi period).
Proof. intros [Hhi Hp]. apply budgetOf_near; lia. Qed.

(** C1: [SelectBestNodeAndCore] implements the exact contract: a feasible
    result names an evaluated core on which the request fits, counting the
    budget of the pods of lower criticality as available, and whenever some
    evaluated core can hold the request with something left over, the result
    is feasible; rounding never admits what does not fit. *)
Theorem SelectBest_refines g nodes crit pref hi period :
  workload g -> request hi period ->
  let r := SelectBestNodeAndCore g nodes (budgetOf hi period) crit pref in
  (Feasible r = true ->
     (SelectedNodeName r, SelectedCoreID r) ∈ placements g nodes pref /\
     fits hi period (coreUsage (g !! SelectedNodeName r) (SelectedCoreID r))
       (evictableMillis crit (g !! SelectedNodeName r) (SelectedCoreID r))) /\
  ((exists n c, (n, c) ∈ placements g nodes pref /\
      fits_with_slack hi period (coreUsage (g !! n) c) (evictableMillis crit (g !! n) c)) ->
   Feasible r = true).
Proof.
  intros Hw Hr r. destruct (SelectBest_outcome g nodes (budgetOf hi period) crit pref (workload_wf g Hw))
    as [n c Hin Hfit _|n c Hin _ Hfit _|Hnone]; subst r; simpl.
  - split; [intros _; split; [done|]|done].
    eapply fits_more; [destruct Hr; lia|apply evictableMillis_nonneg, Hw|].
    by apply (fitsDirectly_exact g n c hi period).
  - split; [intros _; split; [done|]|done]. by apply (fitsEvicting_exact g selectSite n c crit hi period).
  - split; [done|]. intros (n & c & Hin & Hslack). destruct (Hnone n c Hin) as [_ Hf].
    apply (fitsEvicting_exact g selectSite n c crit hi period Hw Hr) in Hslack. congruence.
Qed.

(** C25: worst fit: when some evaluated core can hold the request without
    evictions and with something left over, the result has no victims and the
    selected core has the least usage of all the cores evaluated. *)
Theorem SelectBest_worst_fit g nodes crit pref hi period :
  workload g -> request hi period ->
  (exists n c, (n, c) ∈ placements g nodes pref /\ fits_with_slack hi period (coreUsage (g !! n) c) 0) ->
  exists n c, SelectBestNodeAndCore g nodes (budgetOf hi period) crit pref = mkResult true n c [] /\
    fits hi period (coreUsage (g !! n) c) 0 /\
    forall n' c', (n', c') ∈ placements g nodes pref -> coreUsage (g !! n) c <= coreUsage (g !! n') c'.
Proof.
  intros Hw Hr (n0 & c0 & Hin0 & Hslack). apply (fitsDirectly_exact g n0 c0 hi period Hw Hr) in Hslack.
  destruct (SelectBest_outcome g nodes (budgetOf hi period) crit pref (workload_wf g Hw))
    as [n c Hin Hfit Hmax|n c Hin Hnone _ _|Hnone].
  - exists n, c. split; [done|]. split; [by apply (fitsDirectly_exact g n c hi period)|].
    intros n' c' Hin'. apply Z.nlt_ge. intros Hlt.
    pose proof (fitsDirectly_less g n n' c c' _ Hw (request_regular _ _ Hr) Hlt Hfit) as Hfit'.
    specialize (Hmax n' c' Hin' Hfit'). apply freeBudget_order in Hlt; [congruence|by apply usage_bound..].
  - by rewrite Hnone in Hslack.
  - apply Hnone in Hin0 as [Hin0 _]. congruence.
Qed.

(** C9: a selection with victims is made only when no evaluated core can hold
    the request with something left over; the victims are pods booked on the
    selected core, all of strictly lower criticality than the incoming pod;
    once they are released the request fits there; and no other core that
    could be used by eviction has a shorter victim list. *)
Theorem SelectBest_eviction g nodes crit pref hi period n c v vs :
  workload g -> request hi period ->
  SelectBestNodeAndCore g nodes (budgetOf hi period) crit pref = mkResult true n c (v :: vs) ->
  (forall n' c', (n', c') ∈ placements g nodes pref -> ~ fits_with_slack hi period (coreUsage (g !! n') c') 0) /\
  (exists pods, v :: vs = pi_Name <$> pods /\
     (forall pod, pod ∈ pods -> rank (pi_Criticality pod) < rank crit /\ booking g n c (pi_Name pod) = Some pod) /\
     fits hi period (coreUsage (g !! n) c) (sumOf (pi_CPUMillis <$> pods))) /\
  (forall n' c', (n', c') ∈ placements g nodes pref ->
     fits_with_slack hi period (coreUsage (g !! n') c') (evictableMillis crit (g !! n') c') ->
     (length (v :: vs) <= length (victimsOn selectSite (g !! n') c' (budgetOf hi period) crit))%nat).
Proof.
  intros Hw Hr E. pose proof (SelectBest_outcome g nodes (budgetOf hi period) crit pref (workload_wf g Hw)) as Ho.
  rewrite E in Ho. inversion Ho as [|n1 c1 Hin Hnone Hfit Hmin En|]. subst n1 c1. split_and!.
  - intros n' c' Hin' Hs. apply (fitsDirectly_exact g n' c' hi period Hw Hr) in Hs.
    by rewrite Hnone in Hs.
  - eexists. split; [done|]. split; [|by apply victims_room].
    intros pod Hpod. by eapply victimsOn_booked, Hpod; apply workload_wf.
  - intros n' c' Hin' Hs. apply (fitsEvicting_exact g selectSite n' c' crit hi period Hw Hr) in Hs.
    rewrite length_fmap. by apply Hmin.
Qed.
End properties.

Section check.
Context `{R : GoRuntime}.
Implicit Types (g : Pools) (n crit : string) (c hi period : Z).

(** C22: [CheckNodeCoreFeasibility] on a node with a pool: what it admits fits
    exactly once the pods it lists are evicted, the list is empty if and only
    if nothing needs to be evicted or nothing was admitted, and it rejects
    only what does not fit with something left over, even after evicting
    every pod of lower criticality. *)
Theorem Check_refines g n p c crit hi period ok victims :
  workload g -> request hi period -> g !! n = Some p ->
  CheckNodeCoreFeasibility g n c (budgetOf hi period) crit = (ok, victims) ->
  (ok = true -> exists pods, victims = pi_Name <$> pods /\
     (forall pod, pod ∈ pods -> rank (pi_Criticality pod) < rank crit /\ booking g n c (pi_Name pod) = Some pod) /\
     fits hi period (coreUsage (g !! n) c) (sumOf (pi_CPUMillis <$> pods))) /\
  (fits_with_slack hi period (coreUsage (g !! n) c) 0 -> ok = true /\ victims = []) /\
  (fits_with_slack hi period (coreUsage (g !! n) c) (evictableMillis crit (g !! n) c) -> ok = true) /\
  (ok = false -> victims = []).
Proof.
  intros Hw Hr Hp E. rewrite Check_eq, Hp, <- Hp in E.
  destruct (fitsDirectly_exact g n c hi period Hw Hr) as [Hd1 Hd2].
  destruct (fitsEvicting_exact g checkSite n c crit hi period Hw Hr) as [He1 He2].
  destruct (fitsDirectly (g !! n) c _) eqn:Ed; [|destruct (fitsEvicting checkSite _ _ _ _) eqn:Ee];
    injection E as <- <-; (split_and!; [|intros Hs| |]); try done; try (by specialize (Hd2 Hs)).
  - intros _. exists []. split; [done|]. split; [by intros pod ?%not_elem_of_nil|]. by apply Hd1.
  - intros _. eexists. split; [done|]. split; [|by apply victims_room].
    intros pod Hpod. by eapply victimsOn_booked, Hpod; apply workload_wf.
Qed.

Lemma Check_admits g n c req crit :
  fitsDirectly (g !! n) c req = true \/ fitsEvicting checkSite (g !! n) c req crit = true ->
  (CheckNodeCoreFeasibility g n c req crit).1 = true.
Proof.
  rewrite Check_eq. destruct (g !! n); [|done].
  intros [->| ->]; [done|]. by destruct (fitsDirectly _ _ _).
Qed.

(** On a node that has no pool yet [CheckNodeCoreFeasibility] admits any
    request without looking at the budget, even one above the 95% cap that
    [SelectBestNodeAndCore] never places on such a node. *)
Theorem Check_without_pool g node crit hi period :
  workload g -> request hi period -> 950 * period < 1000 * hi -> g !! node_Name node = None ->
  (forall c, CheckNodeCoreFeasibility g (node_Name node) c (budgetOf hi period) crit = (true, [])) /\
  Feasible (SelectBestNodeAndCore g [node] (budgetOf hi period) crit []) = false.
Proof.
  intros Hw Hr Hbig Hn. split; [intros c; by rewrite Check_eq, Hn|].
  destruct (SelectBest_outcome g [node] (budgetOf hi period) crit [] (workload_wf g Hw))
    as [n c Hin Hfit _|n c Hin _ Hfit _|]; simpl; [| |done]; exfalso;
    unfold placements, nodePlacements in Hin; simpl in Hin; rewrite app_nil_r in Hin;
    apply list_elem_of_fmap in Hin as (c' & [= -> ->] & _).
  - apply (fitsDirectly_exact g (node_Name node) c' hi period Hw Hr) in Hfit. rewrite Hn in Hfit.
    unfold fits in Hfit. simpl in Hfit. lia.
  - apply (fitsEvicting_exact g selectSite (node_Name node) c' crit hi period Hw Hr) in Hfit. rewrite Hn in Hfit.
    unfold fits in Hfit. simpl in Hfit. lia.
Qed.
End check.

(** An eviction candidate without victims has nothing evictable on its core,
    in whatever order its pods are visited. *)
Lemma fitsEvicting_no_victims (R R' : GoRuntime) pool c req crit :
  pi_Name <$> @victimsOn R selectSite pool c req crit = [] ->
  @fitsEvicting R selectSite pool c req crit = true -> @fitsEvicting R' checkSite pool c req crit = true.
Proof.
  intros Hnil%fmap_nil_inv Hfit. unfold victimsOn, SelectMinimumVictims in Hnil.
  assert (Hempty : filter (evictable crit) (@podsOn R selectSite pool c) = []).
  { destruct (takeVictims_prefix (fsub req (freeBudget (coreUsage pool c))) fzero
      (@go_sort R _ victimLess (filter (evictable crit) (@podsOn R selectSite pool c)))) as (k & Ek & Hk & Hpos & _).
    rewrite Hnil in Ek. apply (@sorted_empty R _ victimLess).
    destruct (go_sort _ _); [done|]. destruct k; [|done]. specialize (Hpos ltac:(done)). lia. }
  unfold fitsEvicting in *. rewrite Hempty in Hfit.
  assert (Hempty' : filter (evictable crit) (@podsOn R' checkSite pool c) = []).
  { apply Permutation_nil. rewrite <- Hempty. by rewrite (podsOn_perm_runtime R' R checkSite selectSite pool c). }
  by rewrite Hempty', Hfit.
Qed.

Lemma select_check_agree (R R' : GoRuntime) g nodes crit pref hi period n c vs :
  workload g -> request hi period ->
  @SelectBestNodeAndCore R g nodes (budgetOf hi period) crit pref = mkResult true n c vs ->
  (vs = [] \/ fits_with_slack hi period (coreUsage (g !! n) c) (evictableMillis crit (g !! n) c)) ->
  (@CheckNodeCoreFeasibility R' g n c (budgetOf hi period) crit).1 = true.
Proof.
  intros Hw Hr E Hslack.
  pose proof (@SelectBest_outcome R g nodes (budgetOf hi period) crit pref (workload_wf g Hw)) as Ho.
  rewrite E in Ho. inversion Ho as [n1 c1 _ Hfit _|n1 c1 _ _ Hfit _|]; subst.
  - by apply (@Check_admits R'); left.
  - apply (@Check_admits R'). right. destruct Hslack as [Hnil|Hslack].
    + by apply (fitsEvicting_no_victims R R').
    + by apply (@fitsEvicting_exact R' g checkSite n c crit hi period Hw Hr) in Hslack.
Qed.

(** The two webhooks agree: the core that [SelectBestNodeAndCore] chooses
    (mutating webhook) is accepted by [CheckNodeCoreFeasibility] (validating
    webhook) on the same state, even though the two visit the maps and sum the
    evictable budgets in different orders; the only exception is a request that
    uses up the available budget to the last unit. *)
Theorem Select_accepted_by_Check (R R' : GoRuntime) g nodes crit pref hi period n c vs :
  workload g -> request hi period ->
  @SelectBestNodeAndCore R g nodes (budgetOf hi period) crit pref = mkResult true n c vs ->
  (vs = [] \/ fits_with_slack hi period (coreUsage (g !! n) c) (evictableMillis crit (g !! n) c)) ->
  (@CheckNodeCoreFeasibility R' g n c (budgetOf hi period) crit).1 = true.
Proof. apply select_check_agree. Qed.

Section domain.
Context `{R : GoRuntime}.

Lemma selected_domain g nodes req crit pref r :
  pools_wf g -> SelectBestNodeAndCore g nodes req crit pref = r -> Feasible r = true ->
  exists node, node ∈ nodes /\ SelectedNodeName r = node_Name node /\
    (if decide (pref <> []) then SelectedCoreID r ∈ pref /\ 0 <= SelectedCoreID r < nodeNumCores node
     else match g !! node_Name node with
          | Some p => is_Some (Cores p !! SelectedCoreID r)
          | None => 0 <= SelectedCoreID r < nodeNumCores node
          end).
Proof.
  intros Hg Er Hf.
  assert (Hin : (SelectedNodeName r, SelectedCoreID r) ∈ placements g nodes pref).
  { pose proof (SelectBest_outcome g nodes req crit pref Hg) as Ho. rewrite Er in Ho.
    destruct Ho; [done..|discriminate Hf]. }
  apply list_elem_of_bind in Hin as (node & Hin & Hnode). exists node. split; [done|].
  apply list_elem_of_fmap in Hin as (c & [= -> Ec] & Hc). split; [done|]. rewrite Ec. clear Ec.
  unfold coresToCheck in Hc. case_decide.
  - rewrite filterValidCores_filter in Hc. by apply list_elem_of_filter in Hc as [? ?].
  - destruct (g !! node_Name node) as [p|]; [by apply go_range_keys in Hc|].
    apply elem_of_seqZ in Hc. lia.
Qed.

(** Where a selected core can lie: it belongs to a node of the list; with
    preferred cores it is one of them and exists on the node; without, it is a
    core of the node's pool, or one of the node's cores when there is no pool. *)
Theorem selected_core_domain g nodes req crit pref r :
  pools_wf g -> SelectBestNodeAndCore g nodes req crit pref = r -> Feasible r = true ->
  exists node, node ∈ nodes /\ SelectedNodeName r = node_Name node /\
    (if decide (pref <> []) then SelectedCoreID r ∈ pref /\ 0 <= SelectedCoreID r < nodeNumCores node
     else match g !! node_Name node with
          | Some p => is_Some (Cores p !! SelectedCoreID r)
          | None => 0 <= SelectedCoreID r < nodeNumCores node
          end).
Proof. apply selected_domain. Qed.
End domain.

(** ** Witnesses

    A node with two cores: a LOW pod of 600 milli-CPUs on core 0 and a MIDDLE
    pod of 800 on core 1. *)
Module Cluster.
Definition low : PodInfo := mkPodInfo "low" "default" "LOW" 600 [0].
Definition mid : PodInfo := mkPodInfo "mid" "default" "MIDDLE" 800 [1].
Definition pools : Pools :=
  {["n1" := AddPodToCore (AddPodToCore (newPool "n1" 2) 0 low) 1 mid]}.
Definition node : Node := mkNode "n1" ∅ (Some (mkQuantity 2 2000 false "2")) [] [].

Lemma pools_workload : workload pools.
Proof. apply (bool_decide_eq_true_1 _). vm_compute. reflexivity. Qed.

(** The selection for a HIGH request of [hi] microseconds per second. *)
Definition select (hi : Z) : FeasibilityResult :=
  @SelectBestNodeAndCore reference_runtime pools [node] (budgetOf hi 1000000) "HIGH" [].
End Cluster.

Example SelectBest_refines_witness :
  Cluster.select 500000 = mkResult true "n1" 0 ["low"] /\
  fits 500000 1000000 600 600.
Proof.
  pose proof (@SelectBest_refines reference_runtime Cluster.pools [Cluster.node] "HIGH" [] 500000 1000000
    Cluster.pools_workload ltac:(split; lia)) as [H _].
  split; [vm_compute; reflexivity|]. apply H. vm_compute. reflexivity.
Defined.

Example SelectBest_worst_fit_witness :
  exists n c, Cluster.select 100000 = mkResult true n c [] /\ fits 100000 1000000 (coreUsage (Cluster.pools !! n) c) 0.
Proof.
  destruct (@SelectBest_worst_fit reference_runtime Cluster.pools [Cluster.node] "HIGH" [] 100000 1000000
    Cluster.pools_workload ltac:(split; lia)) as (n & c & E & Hfit & _); [|by exists n, c].
  exists "n1", 0. split; [|vm_compute; reflexivity].
  change (("n1", 0) ∈ @placements reference_runtime Cluster.pools [Cluster.node] []).
  apply (bool_decide_eq_true_1 _). vm_compute. reflexivity.
Defined.

Example SelectBest_eviction_witness :
  exists pods, ["low"] = pi_Name <$> pods /\
    fits 500000 1000000 600 (sumOf (pi_CPUMillis <$> pods)).
Proof.
  destruct (@SelectBest_eviction reference_runtime Cluster.pools [Cluster.node] "HIGH" [] 500000 1000000
    "n1" 0 "low" [] Cluster.pools_workload ltac:(split; lia))
    as (_ & (pods & E & _ & Hfit) & _); [vm_compute; reflexivity|]. by exists pods.
Defined.

Example Check_refines_witness :
  exists pods, ["low"] = pi_Name <$> pods /\
    fits 500000 1000000 600 (sumOf (pi_CPUMillis <$> pods)).
Proof.
  destruct (@Check_refines reference_runtime Cluster.pools "n1" (default (newPool "n1" 0) (Cluster.pools !! "n1"))
    0 "HIGH" 500000 1000000 true ["low"] Cluster.pools_workload ltac:(split; lia)) as (H & _).
  - vm_compute. reflexivity.
  - vm_compute. reflexivity.
  - destruct (H eq_refl) as (pods & E & _ & Hfit). by exists pods.
Defined.

Example Select_accepted_by_Check_witness :
  (@CheckNodeCoreFeasibility reference_runtime Cluster.pools "n1" 0 (budgetOf 500000 1000000) "HIGH").1 = true.
Proof.
  apply (@Select_accepted_by_Check reference_runtime reference_runtime Cluster.pools [Cluster.node] "HIGH" [] 500000 1000000 "n1" 0 ["low"]
    Cluster.pools_workload ltac:(split; lia)); [vm_compute; reflexivity|].
  right. vm_compute. reflexivity.
Defined.

Example Check_without_pool_witness :
  @CheckNodeCoreFeasibility reference_runtime ∅ "n1" 0 (budgetOf 1000000 1000000) "LOW" = (true, []).
Proof.
  apply (@Check_without_pool reference_runtime ∅ Cluster.node "LOW" 1000000 1000000).
  - apply (bool_decide_eq_true_1 _). vm_compute. reflexivity.
  - split; lia.
  - lia.
  - done.
Defined.

Example selected_core_domain_witness :
  exists node, node ∈ [Cluster.node] /\ "n1" = node_Name node.
Proof.
  destruct (@selected_core_domain reference_runtime Cluster.pools [Cluster.node] (budgetOf 500000 1000000) "HIGH" []
    (Cluster.select 500000)) as (node & Hin & Hn & _).
  - apply Cluster.pools_workload.
  - done.
  - vm_compute. reflexivity.
  - exists node. split; [done|]. rewrite <- Hn. vm_compute. reflexivity.
Defined.
