(* ===== verification/Validator.v ===== *)
(** * Validator: the validating webhook

    [RTValidator.Handle], [findMcKubeForPod] and [validateRTSettings] of
    [internal/webhook/rt_validator.go].  The handler only reads: the custom
    resources and the nodes through its client, the budgets from the shared
    pools.  A denial carries the values its message is formatted from.  The
    handler returns [None] when it does not return, which happens exactly when
    [ParseCoreSet] does not. *)
From S2P Require Import Prelude Float64 GoRuntime GoString CPUPool CoreSet ApiTypes Kube ApiServer Budget Conversions Scheduling SchedulingSpec.
From stdpp Require Import options.

Local Open Scope Z_scope.

(** ** The settings *)

(** The errors of [validateRTSettings], in the order of its checks. *)
Inductive RTError :=
| PeriodNotPositive (period : Z)
| LowNotPositive (low : Z)
| LowAbovePeriod (low period : Z)
| HiNotPositive (hi : Z)
| HiAbovePeriod (hi period : Z)
| LowAboveHi (low hi : Z)
| HiAboveCapacity (hi period maxRuntime : Z)
| CoreEmpty.

(** [int(float64(rtSettings.Period) * cpupool.RTCapacityPerCore)] *)
Definition maxRuntime `{GoRuntime} (rtSettings : RTSettings) : Z :=
  to_int go_f2i (fmul (of_int (Period rtSettings)) RTCapacityPerCore).

Definition validateRTSettings `{GoRuntime} (rtSettings : RTSettings) : option RTError :=
  let '(mkRT period low hi core) := rtSettings in
  if period <=? 0 then Some (PeriodNotPositive period)
  else if low <=? 0 then Some (LowNotPositive low)
  else if period <? low then Some (LowAbovePeriod low period)
  else if hi <=? 0 then Some (HiNotPositive hi)
  else if period <? hi then Some (HiAbovePeriod hi period)
  else if hi <? low then Some (LowAboveHi low hi)
  else if maxRuntime rtSettings <? hi then Some (HiAboveCapacity hi period (maxRuntime rtSettings))
  else if decide (core = Some EmptyString) then Some CoreEmpty
  else None.

(** ** The handler *)

Inductive DenyReason :=
| InvalidRTSettings (e : RTError)
| InvalidCoreSpecification (core : string)
| InsufficientOnCore (node : string) (core : Z) (podName criticality : string)
| InsufficientInCluster (podName criticality : string).

Inductive Response :=
| Allowed (message : string)
| Denied (reason : DenyReason)
| Errored (code : Z) (e : error).

Section handler.
Context `{R : GoRuntime} {Raw W : Type} `{C : !PodCodec Raw, K : !KubeClient W}.

(** The loop over the listed resources. *)
Definition matchesPod (pod : Pod) (mc : MCKube) : bool :=
  bool_decide (spec_PodName (mc_Spec mc) = pod_Name pod) && bool_decide (is_Some (spec_RTSettings (mc_Spec mc))).

Definition findMcKubeForPod (w : W) (pod : Pod) : result (option MCKube) :=
  match ListMCKubes w (pod_Namespace pod) with
  | Err e => Err e
  | Ok items => Ok (List.find (matchesPod pod) items)
  end.

(** The core the mutating webhook selected, if any; allocated core first. *)
Definition selectedCoreStr (mc : MCKube) (rtSettings : RTSettings) : string :=
  if decide (status_AllocatedCore (mc_Status mc) <> EmptyString) then status_AllocatedCore (mc_Status mc)
  else default EmptyString (Core rtSettings).

(** The budget check, phase 2 of the handler. *)
Definition checkBudget (globalPools : Pools) (nodes : list Node) (mc : MCKube) (rtSettings : RTSettings)
  (pod : Pod) : option Response :=
  let requiredBudget := budgetOf (RuntimeHi rtSettings) (Period rtSettings) in
  let criticality := spec_Criticality (mc_Spec mc) in
  let coreStr := selectedCoreStr mc rtSettings in
  let selectedNode := spec_Node (mc_Spec mc) in
  if decide (coreStr <> EmptyString /\ selectedNode <> EmptyString) then
    match ParseCoreSet coreStr with
    | None => None
    | Some [] => Some (Denied (InvalidCoreSpecification coreStr))
    | Some (coreID :: _) =>
        let '(feasible, victims) :=
          CheckNodeCoreFeasibility globalPools selectedNode coreID requiredBudget criticality in
        if negb feasible
        then Some (Denied (InsufficientOnCore selectedNode coreID (pod_Name pod) criticality))
        else Some (Allowed "RT settings valid and node/core feasibility confirmed")
    end
  else
    let result := SelectBestNodeAndCore globalPools nodes requiredBudget criticality [] in
    if negb (Feasible result)
    then Some (Denied (InsufficientInCluster (pod_Name pod) criticality))
    else Some (Allowed "RT settings valid and cluster-wide feasibility confirmed").

Definition RTValidator_Handle (w : W) (globalPools : Pools) (req : Request Raw) : option Response :=
  match unmarshalPod (req_Raw req) with
  | Err e => Some (Errored StatusBadRequest e)
  | Ok pod =>
      match findMcKubeForPod w pod with
      | Err _ => Some (Allowed "No McKube CR found, allowing pod creation")
      | Ok None => Some (Allowed "No RT settings configured, allowing pod creation")
      | Ok (Some mc) =>
          match spec_RTSettings (mc_Spec mc) with
          | None => Some (Allowed "No RT settings configured, allowing pod creation")
          | Some rtSettings =>
              match validateRTSettings rtSettings with
              | Some e => Some (Denied (InvalidRTSettings e))
              | None =>
                  match ListNodes w with
                  | Err _ => Some (Allowed "RT settings are valid (feasibility check skipped due to error)")
                  | Ok nodes => checkBudget globalPools nodes mc rtSettings pod
                  end
              end
          end
      end
  end.
End handler.

(** ** Lemmas *)

(** What [validateRTSettings] accepts, in integers. *)
Definition valid_settings (rt : RTSettings) : Prop :=
  0 < RuntimeLow rt <= RuntimeHi rt /\ 100 * RuntimeHi rt <= 95 * Period rt /\ Core rt <> Some EmptyString.

#[export] Instance valid_settings_dec rt : Decision (valid_settings rt).
Proof. unfold valid_settings. apply _. Defined.

Lemma maxRuntime_exact `{GoRuntime} rt : 1 <= Period rt <= 2 ^ 45 -> maxRuntime rt = 95 * Period rt / 100.
Proof. apply capacity_scaled. Qed.

Lemma validateRTSettings_valid `{GoRuntime} rt :
  Period rt <= 2 ^ 45 -> validateRTSettings rt = None <-> valid_settings rt.
Proof.
  intros Hp. pose proof (maxRuntime_exact rt) as Hm. unfold valid_settings, validateRTSettings.
  destruct rt as [period low hi core]. cbn [Period RuntimeLow RuntimeHi Core] in *.
  destruct (Z.leb_spec period 0); [split; [done|lia]|]. rewrite Hm by lia.
  pose proof (Z_div_mod_eq_full (95 * period) 100). pose proof (Z.mod_pos_bound (95 * period) 100).
  repeat match goal with |- (if ?b then Some _ else _) = None <-> _ =>
    match type of b with bool => destruct b eqn:?; z_bools; [split; [done|lia]|] end end.
  case_decide as Hc; (split; [intros E|intros (H3 & H4 & H5)]); try done; try congruence.
  split_and!; try done; lia.
Qed.

Lemma valid_request rt : valid_settings rt -> Period rt <= 100000000 -> request (RuntimeHi rt) (Period rt).
Proof. unfold valid_settings. intros (H1 & H2 & _) Hp. split; lia. Qed.

(** The check of a core is sound and complete for any node, with or without a
    pool, for settings that passed the arithmetic checks: the 95% test of
    [validateRTSettings] is what makes the answer for a missing pool right. *)
Lemma Check_sound `{GoRuntime} g n c crit rt victims :
  workload g -> valid_settings rt -> Period rt <= 100000000 ->
  CheckNodeCoreFeasibility g n c (budgetOf (RuntimeHi rt) (Period rt)) crit = (true, victims) ->
  fits (RuntimeHi rt) (Period rt) (coreUsage (g !! n) c) (evictableMillis crit (g !! n) c).
Proof.
  intros Hw Hv Hp E. pose proof (valid_request rt Hv Hp) as Hr. rewrite Check_eq in E.
  destruct (g !! n) as [p|] eqn:Hn.
  - rewrite <- Hn in *. destruct (fitsDirectly (g !! n) c _) eqn:Ed.
    + eapply fits_more; [destruct Hr; lia|apply evictableMillis_nonneg, Hw|].
      by apply (fitsDirectly_exact g n c _ _ Hw Hr).
    + destruct (fitsEvicting checkSite (g !! n) c _ crit) eqn:Ee; [|done].
      by apply (fitsEvicting_exact g checkSite n c crit _ _ Hw Hr).
  - destruct Hv as (H1 & H2 & _). unfold fits. simpl. lia.
Qed.

Lemma Check_complete `{GoRuntime} g n c crit rt :
  workload g -> valid_settings rt -> Period rt <= 100000000 ->
  fits_with_slack (RuntimeHi rt) (Period rt) (coreUsage (g !! n) c) (evictableMillis crit (g !! n) c) ->
  (CheckNodeCoreFeasibility g n c (budgetOf (RuntimeHi rt) (Period rt)) crit).1 = true.
Proof.
  intros Hw Hv Hp Hs. apply Check_admits. right.
  by apply (fitsEvicting_exact g checkSite n c crit _ _ Hw (valid_request rt Hv Hp)) in Hs.
Qed.

Section properties.
Context `{R : GoRuntime} {Raw W : Type} `{C : !PodCodec Raw, K : !KubeClient W}.
Implicit Types (w : W) (g : Pools) (rt : RTSettings) (mc : MCKube).

(** The handler reaches the budget check of the pod's resource. *)
Record reaches_budget w (req : Request Raw) (pod : Pod) mc rt (nodes : list Node) : Prop := {
  reaches_pod : unmarshalPod (req_Raw req) = Ok pod;
  reaches_mc : findMcKubeForPod w pod = Ok (Some mc);
  reaches_rt : spec_RTSettings (mc_Spec mc) = Some rt;
  reaches_nodes : ListNodes w = Ok nodes
}.

Lemma Handle_budget w g req pod mc rt nodes :
  reaches_budget w req pod mc rt nodes ->
  RTValidator_Handle w g req =
  match validateRTSettings rt with
  | Some e => Some (Denied (InvalidRTSettings e))
  | None => checkBudget g nodes mc rt pod
  end.
Proof. intros [H1 H2 H3 H4]. unfold RTValidator_Handle. by rewrite H1, H2, H3, H4. Qed.

(** The mutating webhook has fixed the node and the core of the pod. *)
Definition core_fixed mc rt : Prop := selectedCoreStr mc rt <> "" /\ spec_Node (mc_Spec mc) <> "".

#[export] Instance core_fixed_dec mc rt : Decision (core_fixed mc rt).
Proof. unfold core_fixed. apply _. Defined.

(** The high runtime of the settings fits on the core next to the bookings there
    that a pod of the criticality cannot evict; exactly, and with something left
    over. *)
Definition rt_fits g rt (crit : string) (nc : string * Z) : Prop :=
  fits (RuntimeHi rt) (Period rt) (coreUsage (g !! nc.1) nc.2) (evictableMillis crit (g !! nc.1) nc.2).
Definition rt_fits_with_slack g rt (crit : string) (nc : string * Z) : Prop :=
  fits_with_slack (RuntimeHi rt) (Period rt) (coreUsage (g !! nc.1) nc.2) (evictableMillis crit (g !! nc.1) nc.2).

(** C33: [validateRTSettings] accepts exactly the settings with
    [0 < budget_lo <= budget_hi <= 0.95 * period] and a core string that is not
    empty; the bound it reports is the exact floor of 95% of the period, so the
    floating-point product never misplaces it.  In particular it accepts
    [budget_lo = budget_hi], which [docs/RUNTIME_ESCALATION.md] rules out: there
    the low runtime is to stay strictly below the high one. *)
Theorem validateRTSettings_spec rt :
  Period rt <= 2 ^ 45 ->
  (validateRTSettings rt = None <-> valid_settings rt) /\
  (forall hi p m, validateRTSettings rt = Some (HiAboveCapacity hi p m) ->
     m = 95 * Period rt / 100 /\ hi = RuntimeHi rt /\ m < hi <= Period rt).
Proof.
  intros Hp. split; [by apply validateRTSettings_valid|].
  intros hi p m. pose proof (maxRuntime_exact rt) as Hm. unfold validateRTSettings.
  destruct rt as [period low rhi core]. cbn [Period RuntimeHi] in *.
  repeat match goal with |- (if ?b then Some _ else _) = _ -> _ =>
    match type of b with bool => destruct b eqn:?; z_bools; [try done|] end end; [|by case_decide].
  rewrite Hm in * by lia. intros [= <- <- <-]. split_and!; done || lia.
Qed.

(** C14: what the validating webhook admits fits: when it finds the resource of
    the pod and the list of nodes, an admission means that the settings are
    valid and that the pod fits once the pods of lower criticality are evicted:
    on the first core of the core string of its node where the mutating webhook
    has fixed them, and otherwise on some core of some node of the list. *)
Theorem Handle_admits_fits w g req pod mc rt nodes msg :
  workload g -> reaches_budget w req pod mc rt nodes -> Period rt <= 100000000 ->
  RTValidator_Handle w g req = Some (Allowed msg) ->
  valid_settings rt /\
  (core_fixed mc rt -> exists c rest, ParseCoreSet (selectedCoreStr mc rt) = Some (c :: rest) /\
     rt_fits g rt (spec_Criticality (mc_Spec mc)) (spec_Node (mc_Spec mc), c)) /\
  (~ core_fixed mc rt -> Exists (rt_fits g rt (spec_Criticality (mc_Spec mc))) (placements g nodes [])).
Proof.
  intros Hw Hreach Hp. rewrite (Handle_budget _ _ _ _ _ _ _ Hreach).
  destruct (validateRTSettings rt) eqn:Ev; [done|]. apply validateRTSettings_valid in Ev; [|lia].
  unfold checkBudget. intros E. split; [done|]. case_decide as Hc; (split; intros Hf; try done).
  - destruct (ParseCoreSet (selectedCoreStr mc rt)) as [[|c rest]|]; try done.
    destruct (CheckNodeCoreFeasibility _ _ _ _ _) as [[] victims] eqn:Ec; [|done].
    exists c, rest. split; [done|by eapply Check_sound].
  - apply Exists_exists.
    destruct (SelectBest_outcome g nodes (budgetOf (RuntimeHi rt) (Period rt)) (spec_Criticality (mc_Spec mc)) []
      (workload_wf g Hw)) as [n c Hin Hfit _|n c Hin _ Hfit _|]; [| |done]; exists (n, c); (split; [done|]).
    + eapply fits_more; [destruct (valid_request rt Ev Hp); lia|apply evictableMillis_nonneg, Hw|].
      by apply (fitsDirectly_exact g n c _ _ Hw (valid_request rt Ev Hp)).
    + by apply (fitsEvicting_exact g selectSite n c _ _ _ Hw (valid_request rt Ev Hp)).
Qed.

(** C30: the reason of a denial is a true account.  Invalid settings are invalid,
    with the error of the first failing check.  Where the mutating webhook has
    fixed the core, the denial names the node of the resource, the first core of
    the core string, the pod and its criticality, and the pod does not fit there
    with anything left over, even if every pod of lower criticality is evicted;
    otherwise it fits in this sense on no core of any node of the list. *)
Theorem Handle_denies_unfit w g req pod mc rt nodes reason :
  workload g -> reaches_budget w req pod mc rt nodes -> Period rt <= 100000000 ->
  RTValidator_Handle w g req = Some (Denied reason) ->
  let crit := spec_Criticality (mc_Spec mc) in
  match reason with
  | InvalidRTSettings e => validateRTSettings rt = Some e /\ ~ valid_settings rt
  | InvalidCoreSpecification s =>
      valid_settings rt /\ core_fixed mc rt /\ s = selectedCoreStr mc rt /\ ParseCoreSet s = Some []
  | InsufficientOnCore n c name cr =>
      valid_settings rt /\ core_fixed mc rt /\
      (n, name, cr) = (spec_Node (mc_Spec mc), pod_Name pod, crit) /\
      (exists rest, ParseCoreSet (selectedCoreStr mc rt) = Some (c :: rest)) /\
      ~ rt_fits_with_slack g rt crit (n, c)
  | InsufficientInCluster name cr =>
      valid_settings rt /\ ~ core_fixed mc rt /\ (name, cr) = (pod_Name pod, crit) /\
      Forall (fun nc => ~ rt_fits_with_slack g rt crit nc) (placements g nodes [])
  end.
Proof.
  intros Hw Hreach Hp. rewrite (Handle_budget _ _ _ _ _ _ _ Hreach).
  destruct (validateRTSettings rt) as [e|] eqn:Ev.
  { intros [= <-]. split; [done|]. rewrite <- validateRTSettings_valid by lia. congruence. }
  apply validateRTSettings_valid in Ev; [|lia]. unfold checkBudget. case_decide as Hc.
  - destruct (ParseCoreSet (selectedCoreStr mc rt)) as [[|c rest]|] eqn:Ec; [by intros [= <-]| |done].
    destruct (CheckNodeCoreFeasibility _ _ _ _ _) as [[] victims] eqn:Echk; [done|]. intros [= <-].
    split_and!; [done..|by exists rest|]. intros Hs. eapply Check_complete in Hs; [|done..].
    simpl in Hs. by rewrite Echk in Hs.
  - destruct (SelectBest_outcome g nodes (budgetOf (RuntimeHi rt) (Period rt)) (spec_Criticality (mc_Spec mc)) []
      (workload_wf g Hw)) as [| |Hnone]; [done..|]. intros [= <-]. split_and!; [done..|].
    apply Forall_forall. intros [n c] Hin Hs.
    apply (fitsEvicting_exact g selectSite n c _ _ _ Hw (valid_request rt Ev Hp)) in Hs.
    destruct (Hnone n c Hin). congruence.
Qed.

(** The validating webhook returns on every request, except when it parses
    the core string of valid settings and a part [lo-hi] of it ends at the
    largest [int]: then it never answers. *)
Theorem Handle_returns w g req :
  RTValidator_Handle w g req = None <->
  exists pod mc rt nodes, reaches_budget w req pod mc rt nodes /\ validateRTSettings rt = None /\
    spec_Node (mc_Spec mc) <> "" /\ endless (selectedCoreStr mc rt).
Proof.
  split.
  - unfold RTValidator_Handle. destruct (unmarshalPod (req_Raw req)) as [pod|] eqn:E1; [|done].
    destruct (findMcKubeForPod w pod) as [[mc|]|] eqn:E2; try done.
    destruct (spec_RTSettings (mc_Spec mc)) as [rt|] eqn:E3; [|done].
    destruct (validateRTSettings rt) eqn:E4; [done|]. destruct (ListNodes w) as [nodes|] eqn:E5; [|done].
    unfold checkBudget. case_decide as Hc.
    + destruct (ParseCoreSet _) as [[|c rest]|] eqn:E6; [done| |].
      * by destruct (CheckNodeCoreFeasibility _ _ _ _ _) as [[] ?].
      * intros _. apply ParseCoreSet_None in E6. exists pod, mc, rt, nodes. by split_and!; try done; apply Hc.
    + by destruct (negb _).
  - intros (pod & mc & rt & nodes & Hreach & Hv & Hn & He).
    rewrite (Handle_budget _ _ _ _ _ _ _ Hreach), Hv. unfold checkBudget.
    rewrite decide_True by (split; [apply He|done]). assert (E : ParseCoreSet (selectedCoreStr mc rt) = None) by by apply ParseCoreSet_None.
    by rewrite E.
Qed.

(** The validating webhook denies only on evidence: a denial means that it
    read the pod's own custom resource (the first of its namespace that names
    the pod and has settings), and a denial for lack of budget that it also
    read the nodes; every failure to read admits the pod. *)
Theorem Handle_fails_open w g req reason :
  RTValidator_Handle w g req = Some (Denied reason) ->
  exists pod mc rt items, unmarshalPod (req_Raw req) = Ok pod /\
    ListMCKubes w (pod_Namespace pod) = Ok items /\ mc ∈ items /\
    spec_PodName (mc_Spec mc) = pod_Name pod /\ spec_RTSettings (mc_Spec mc) = Some rt /\
    ((exists e, reason = InvalidRTSettings e /\ validateRTSettings rt = Some e) \/
     (validateRTSettings rt = None /\ exists nodes, ListNodes w = Ok nodes)).
Proof.
  unfold RTValidator_Handle, findMcKubeForPod. destruct (unmarshalPod (req_Raw req)) as [pod|] eqn:E1; [|done].
  destruct (ListMCKubes w (pod_Namespace pod)) as [items|] eqn:E2; [|done].
  destruct (List.find (matchesPod pod) items) as [mc|] eqn:E3; [|done].
  apply List.find_some in E3 as [Hin Hm]. unfold matchesPod in Hm. z_bools.
  apply bool_decide_eq_true in H, H0.
  destruct (spec_RTSettings (mc_Spec mc)) as [rt|] eqn:E4; [|done].
  destruct (validateRTSettings rt) as [e|] eqn:E5.
  - intros [= <-]. exists pod, mc, rt, items. split_and!; try done; [by apply list_elem_of_In|]. left. by exists e.
  - destruct (ListNodes w) as [nodes|] eqn:E6; [|done]. intros _.
    exists pod, mc, rt, items. split_and!; try done; [by apply list_elem_of_In|]. right. eauto.
Qed.
End properties.

(** ** Witnesses *)
Module Sample.
Definition settings : RTSettings := mkRT 1000000 300000 500000 (Some "0").
Definition mckube : MCKube := sample_mckube "new" "n1" "HIGH" settings.
Definition server : Server := mkServer [mckube] [] [Cluster.node] false 200 [].
Definition pod_request : Request Pod := mkRequest (sample_pod "new" "") None.

Lemma reaches : reaches_budget server pod_request (sample_pod "new" "") mckube settings [Cluster.node].
Proof. split; vm_compute; reflexivity. Qed.

(** Settings that exceed the cap. *)
Definition greedy : RTSettings := mkRT 1000000 300000 960000 None.
Definition greedy_server : Server :=
  mkServer [sample_mckube "new" "n1" "HIGH" greedy] [] [Cluster.node] false 200 [].

(** A node whose two cores are nearly full of pods that nobody may evict, and a
    pod without a node of its own. *)
Definition full : Pools :=
  {["n1" := AddPodToCore (AddPodToCore (newPool "n1" 2) 0 (mkPodInfo "a" "default" "HIGH" 900 [0])) 1
              (mkPodInfo "b" "default" "HIGH" 900 [1])]}.
Definition unbound : MCKube := sample_mckube "new" "" "HIGH" settings.
Definition unbound_server : Server := mkServer [unbound] [] [Cluster.node] false 200 [].

Lemma full_workload : workload full.
Proof. apply (bool_decide_eq_true_1 _). vm_compute. reflexivity. Qed.
Lemma unbound_reaches :
  reaches_budget unbound_server pod_request (sample_pod "new" "") unbound settings [Cluster.node].
Proof. split; vm_compute; reflexivity. Qed.
End Sample.

Example validateRTSettings_spec_witness :
  @validateRTSettings reference_runtime Sample.settings = None /\ ~ valid_settings Sample.greedy.
Proof.
  split; [vm_compute; reflexivity|].
  destruct (@validateRTSettings_spec reference_runtime Sample.greedy) as [H _]; [vm_compute; done|].
  rewrite <- H. vm_compute. done.
Defined.

(** One pod for a fixed core, and one for the whole cluster. *)
Example Handle_admits_fits_witness :
  rt_fits Cluster.pools Sample.settings "HIGH" ("n1", 0) /\
  Exists (rt_fits Cluster.pools Sample.settings "HIGH") (@placements reference_runtime Cluster.pools [Cluster.node] []).
Proof.
  split.
  - destruct (@Handle_admits_fits reference_runtime _ _ _ _ Sample.server Cluster.pools Sample.pod_request
      (sample_pod "new" "") Sample.mckube Sample.settings [Cluster.node]
      "RT settings valid and node/core feasibility confirmed" Cluster.pools_workload Sample.reaches)
      as (_ & Hfixed & _); [simpl; lia|vm_compute; reflexivity|].
    destruct Hfixed as (c & rest & E & Hfit); [by split|].
    assert (E0 : ParseCoreSet (selectedCoreStr Sample.mckube Sample.settings) = Some [0]) by (by vm_compute).
    rewrite E0 in E. by injection E as <- <-.
  - destruct (@Handle_admits_fits reference_runtime _ _ _ _ Sample.unbound_server Cluster.pools Sample.pod_request
      (sample_pod "new" "") Sample.unbound Sample.settings [Cluster.node]
      "RT settings valid and cluster-wide feasibility confirmed" Cluster.pools_workload Sample.unbound_reaches)
      as (_ & _ & Hany); [simpl; lia|vm_compute; reflexivity|].
    apply Hany. by intros [_ []].
Defined.

(** The budgets of both cores are exhausted: the fixed core is refused by name,
    and the cluster as a whole. *)
Example Handle_denies_unfit_witness :
  ~ rt_fits_with_slack Sample.full Sample.settings "HIGH" ("n1", 0) /\
  Forall (fun nc => ~ rt_fits_with_slack Sample.full Sample.settings "HIGH" nc)
    (@placements reference_runtime Sample.full [Cluster.node] []).
Proof.
  split.
  - apply (@Handle_denies_unfit reference_runtime _ _ _ _ Sample.server Sample.full Sample.pod_request
      (sample_pod "new" "") Sample.mckube Sample.settings [Cluster.node]
      (InsufficientOnCore "n1" 0 "new" "HIGH") Sample.full_workload Sample.reaches).
    + simpl. lia.
    + vm_compute. reflexivity.
  - apply (@Handle_denies_unfit reference_runtime _ _ _ _ Sample.unbound_server Sample.full Sample.pod_request
      (sample_pod "new" "") Sample.unbound Sample.settings [Cluster.node]
      (InsufficientInCluster "new" "HIGH") Sample.full_workload Sample.unbound_reaches).
    + simpl. lia.
    + vm_compute. reflexivity.
Defined.

Example Handle_fails_open_witness : exists mc, mc ∈ srv_mckubes Sample.greedy_server.
Proof.
  destruct (@Handle_fails_open reference_runtime _ _ _ _ Sample.greedy_server Cluster.pools Sample.pod_request
    (InvalidRTSettings (HiAboveCapacity 960000 1000000 950000))) as (pod & mc & rt & items & _ & E & Hin & _).
  - vm_compute. reflexivity.
  - exists mc. injection E as <-. unfold in_namespace in Hin. by apply list_elem_of_filter in Hin as [_ ?].
Defined.
