(* ===== verification/Mutator.v ===== *)
(** * Mutator: the mutating webhook

    [PodMutator] of [internal/webhook/pod_mutator.go]: the handler, the
    selection of a core with its write-back to the custom resource, and the
    background task that applies the settings through the node's daemon.

    [mckubeCR.Spec.RTSettings] is a pointer: [patchMcKubeCore] writes the core
    through it before it calls the API server, so the handler sees the core even
    when the patch fails.  [patchMcKubeCore] returns the modified resource and
    the handler reads the settings from it again.  The task started with [go]
    is the [task] of the outcome; it shares the pod and the settings with the
    handler, which does not modify them afterwards. *)
From S2P Require Import Prelude Float64 GoRuntime GoString CPUPool CoreSet ApiTypes Kube ApiServer Budget Scheduling SchedulingSpec Validator.
From stdpp Require Import options.

Local Open Scope Z_scope.

(** [*PodMutator]: nil, or a value whose client is nil or not. *)
Record PodMutator := mkPodMutator { has_client : bool }.

Definition NewPodMutator (client : bool) : PodMutator := mkPodMutator client.

Inductive MutateResponse (Raw : Type) :=
| MAllowed (message : string)
| MErrored (code : Z) (e : error)
| PatchResponseFromRaw (original current : Raw).
Arguments MAllowed {Raw} message.
Arguments MErrored {Raw} code e.
Arguments PatchResponseFromRaw {Raw} original current.

(** The arguments of the task started with [go m.scheduleRTConfiguration]. *)
Record task := mkTask { task_pod : Pod; task_rt : RTSettings }.

(** The keys of the annotations. *)
Definition rt_applied : string := "mckube.io/rt-applied".
Definition rt_pending : string := "mckube.io/rt-pending".
Definition rt_configured : string := "mckube.io/rt-configured".
Definition rt_period : string := "mckube.io/rt-period".
Definition rt_runtime_low : string := "mckube.io/rt-runtime-low".
Definition rt_runtime_hi : string := "mckube.io/rt-runtime-hi".
Definition rt_current : string := "mckube.io/rt-current".
Definition rt_core : string := "mckube.io/rt-core".

(** [pod.Annotations[key] = value] *)
Definition annotate (key value : string) (pod : Pod) : Pod :=
  set_pod_annotations (<[key := value]> (pod_Annotations pod)) pod.

Section mutator.
Context `{R : GoRuntime} {Raw W : Type} `{C : !PodCodec Raw, K : !KubeClient W, D : !NodeActuator W}.

(** [m.findMcKubeForPod] past its nil checks, which the handler and [Handle]'s
    own allocation rule out; the loop is the validator's. *)
Definition mutator_findMcKubeForPod (m : PodMutator) (w : W) (pod : Pod) : result (option MCKube) :=
  if has_client m then
    match ListMCKubes w (pod_Namespace pod) with
    | Err e => Err e
    | Ok items => Ok (List.find (matchesPod pod) items)
    end
  else Err "client is nil".

(** The resource with the core and, if it named no node, the node set. *)
Definition withCore (core nodeName : string) (mc : MCKube) : MCKube :=
  let mc := set_spec (fun s => set_RTSettings (set_Core (Some core) <$> spec_RTSettings s) s) mc in
  if decide (spec_Node (mc_Spec mc) = EmptyString) then set_spec (set_Node nodeName) mc else mc.

Definition patchMcKubeCore (w : W) (mc : MCKube) (core nodeName : string) : W * MCKube * option error :=
  let base := mc in
  let mc := withCore core nodeName mc in
  let '(w, err) := PatchMCKube w base mc in
  (w, mc, err).

(** The core selection of [Handle]. *)
Definition selectCore (w : W) (globalPools : Pools) (dryRun : bool) (pod : Pod) (mc : MCKube) (rt : RTSettings)
  : W * Pod * RTSettings :=
  match Core rt with
  | Some _ => (w, pod, rt)
  | None =>
      match ListNodes w with
      | Err _ => (w, pod, rt)
      | Ok nodes =>
          let budget := budgetOf (RuntimeHi rt) (Period rt) in
          let result := SelectBestNodeAndCore globalPools nodes budget (spec_Criticality (mc_Spec mc)) [] in
          if negb (Feasible result) then (w, pod, rt)
          else
            let selectedCore := itoa (SelectedCoreID result) in
            let pod := set_pod_node (SelectedNodeName result) pod in
            if dryRun then (w, pod, rt)
            else
              let '(w, mc, err) := patchMcKubeCore w mc selectedCore (SelectedNodeName result) in
              let rt := default rt (spec_RTSettings (mc_Spec mc)) in
              match err with
              | Some _ => (w, pod, rt)
              | None => (w, pod, set_Core (Some selectedCore) rt)
              end
      end
  end.

(** The annotations that request the settings. *)
Definition requestSettings (rt : RTSettings) (pod : Pod) : Pod :=
  let pod := annotate rt_pending "true" pod in
  let pod := annotate rt_period (itoa (Period rt)) pod in
  let pod := annotate rt_runtime_low (itoa (RuntimeLow rt)) pod in
  let pod := annotate rt_runtime_hi (itoa (RuntimeHi rt)) pod in
  let pod := annotate rt_current "low" pod in
  match Core rt with
  | Some core => annotate rt_core core pod
  | None => pod
  end.

Definition PodMutator_Handle (m : option PodMutator) (w : W) (globalPools : Pools) (req : Request Raw)
  : W * MutateResponse Raw * option task :=
  match m with
  | None => (w, MErrored StatusInternalServerError "internal error: PodMutator receiver is nil", None)
  | Some m =>
  if negb (has_client m) then (w, MErrored StatusInternalServerError "internal error: client is nil", None) else
  match unmarshalPod (req_Raw req) with
  | Err e => (w, MErrored StatusBadRequest e, None)
  | Ok pod =>
  if decide (pod_Annotations pod !! rt_applied = Some "true")
  then (w, MAllowed "RT annotations already applied", None)
  else if decide (pod_Annotations pod !! rt_pending = Some "true")
  then (w, MAllowed "RT configuration already in progress", None)
  else
  match mutator_findMcKubeForPod m w pod with
  | Err _ => (w, MAllowed "No McKube CR found, skipping RT mutation", None)
  | Ok None => (w, MAllowed "No RT settings configured", None)
  | Ok (Some mc) =>
  match spec_RTSettings (mc_Spec mc) with
  | None => (w, MAllowed "No RT settings configured", None)
  | Some rt =>
  if decide (str_get (pod_Annotations pod) rt_pending = "true" \/ str_get (pod_Annotations pod) rt_configured = "true")
  then (w, MAllowed "RT configuration already handled", None)
  else
  let dryRun := bool_decide (req_DryRun req = Some true) in
  let '(w, pod, rt) := selectCore w globalPools dryRun pod mc rt in
  let pod := requestSettings rt pod in
  match marshalPod pod with
  | Err e => (w, MErrored StatusInternalServerError e, Some (mkTask pod rt))
  | Ok marshaled => (w, PatchResponseFromRaw (req_Raw req) marshaled, Some (mkTask pod rt))
  end
  end
  end
  end
  end.

(** ** The background task *)

(** The address of a node. *)
Definition internalIP (node : Node) : string :=
  match List.find (fun addr => String.eqb (addr_Type addr) "InternalIP") (node_Addresses node) with
  | Some addr => addr_Address addr
  | None => EmptyString
  end.

Definition applyRTSettingsViaDaemon (w : W) (pod : Pod) (rtSettings : RTSettings) : W * bool :=
  match GetNode w (pod_NodeName pod) with
  | Err _ => (w, false)
  | Ok node =>
      let nodeIP := internalIP node in
      if decide (nodeIP = EmptyString) then (w, false)
      else
        match pod_ContainerStatuses pod with
        | [] => (w, false)
        | status :: _ =>
            if decide (cs_ContainerID status = EmptyString) then (w, false)
            else
              let body := {| ContainerID := stripScheme (cs_ContainerID status);
                             req_Period := Period rtSettings;
                             req_Runtime := RuntimeLow rtSettings;
                             req_Core := Core rtSettings;
                             OnlyRuntime := false |} in
              match PostCgroup w (daemonURL nodeIP) (authorization w) body with
              | (w, Err _) => (w, false)
              | (w, Ok (status, _)) => (w, bool_decide (status = StatusOK))
              end
        end
  end.

(** The modified pod is the one the next call sees: the object is shared. *)
Definition updatePodRTAnnotation (w : W) (pod : Pod) (key value : string) : W * Pod :=
  let pod' := annotate key value pod in
  let '(w, _) := PatchPod w pod pod' in (w, pod').

(** One tick of the polling loop; the boolean says whether the task returns. *)
Definition pollTick (w : W) (pod : Pod) (rtSettings : RTSettings) : W * bool :=
  match GetPod w (pod_Namespace pod) (pod_Name pod) with
  | Err e => (w, str_contains e "not found")
  | Ok updatedPod =>
      if decide (pod_NodeName updatedPod = EmptyString) then (w, false)
      else if decide (pod_Phase updatedPod <> "Running") then (w, false)
      else if decide (pod_Annotations updatedPod !! rt_configured = Some "true") then (w, true)
      else
        let '(w, applied) := applyRTSettingsViaDaemon w updatedPod rtSettings in
        if applied : bool then
          let '(w, updatedPod) := updatePodRTAnnotation w updatedPod rt_configured "true" in
          let '(w, updatedPod) := updatePodRTAnnotation w updatedPod rt_pending "false" in
          (w, true)
        else (w, false)
  end.

(** What the [select] of the loop receives: the timeout, or a tick, before
    which the rest of the system may have changed the world. *)
Inductive event := Timeout | Tick (env : W -> W).

Fixpoint pollLoop (w : W) (pod : Pod) (rtSettings : RTSettings) (events : list event) : W * bool :=
  match events with
  | [] => (w, false)
  | Timeout :: _ => (w, true)
  | Tick env :: events =>
      let '(w, done) := pollTick (env w) pod rtSettings in
      if done : bool then (w, true) else pollLoop w pod rtSettings events
  end.

Definition scheduleRTConfiguration (w : W) (t : task) (events : list event) : W * bool :=
  if decide (pod_Annotations (task_pod t) !! rt_configured = Some "true") then (w, true)
  else pollLoop w (task_pod t) (task_rt t) events.
End mutator.

(** ** Lemmas *)

Lemma annotate_lookup key value pod k :
  pod_Annotations (annotate key value pod) !! k = if decide (k = key) then Some value else pod_Annotations pod !! k.
Proof.
  unfold annotate. simpl. destruct (decide (k = key)) as [->|Hne]; [by rewrite lookup_insert_eq|].
  by rewrite lookup_insert_ne.
Qed.

(** The annotations of a request, key by key. *)
Lemma requestSettings_lookup rt pod k :
  pod_Annotations (requestSettings rt pod) !! k =
  if decide (k = rt_core /\ is_Some (Core rt)) then Core rt
  else if decide (k = rt_current) then Some "low"
  else if decide (k = rt_runtime_hi) then Some (itoa (RuntimeHi rt))
  else if decide (k = rt_runtime_low) then Some (itoa (RuntimeLow rt))
  else if decide (k = rt_period) then Some (itoa (Period rt))
  else if decide (k = rt_pending) then Some "true"
  else pod_Annotations pod !! k.
Proof.
  unfold requestSettings. destruct (Core rt) as [core|] eqn:E.
  - rewrite !annotate_lookup. destruct (decide (k = rt_core)) as [->|Hne].
    + by rewrite (decide_True (P := rt_core = rt_core /\ is_Some (Some core))) by by split.
    + rewrite (decide_False (P := k = rt_core /\ _)) by tauto. done.
  - rewrite (decide_False (P := k = rt_core /\ _)) by (by intros [_ []]). by rewrite !annotate_lookup.
Qed.

Lemma requestSettings_node rt pod : pod_NodeName (requestSettings rt pod) = pod_NodeName pod.
Proof. unfold requestSettings. by destruct (Core rt). Qed.

Lemma requestSettings_name rt pod :
  pod_Name (requestSettings rt pod) = pod_Name pod /\ pod_Namespace (requestSettings rt pod) = pod_Namespace pod.
Proof. unfold requestSettings. by destruct (Core rt). Qed.

(** Decides one comparison of constant keys. *)
Ltac annotation_key :=
  first [ rewrite decide_False by (first [discriminate | intros [? _]; discriminate])
        | rewrite decide_True by reflexivity ].

(** An early return leaves the world unchanged. *)
Ltac unchanged keep H := apply keep in H as ->; auto.

Section properties.
Context `{R : GoRuntime} {Raw W : Type} `{C : !PodCodec Raw, K : !KubeClient W}.
Implicit Types (w : W) (g : Pools) (rt : RTSettings) (mc : MCKube) (pod : Pod).

(** What the core selection does to the pod, the settings and the world. *)
Inductive selection w g (dryRun : bool) pod mc rt : W * Pod * RTSettings -> Prop :=
| selection_none :
    (forall nodes, Core rt = None -> ListNodes w = Ok nodes ->
       Feasible (SelectBestNodeAndCore g nodes (budgetOf (RuntimeHi rt) (Period rt)) (spec_Criticality (mc_Spec mc)) []) = false) ->
    selection w g dryRun pod mc rt (w, pod, rt)
| selection_dry nodes r :
    dryRun = true -> Core rt = None -> ListNodes w = Ok nodes ->
    r = SelectBestNodeAndCore g nodes (budgetOf (RuntimeHi rt) (Period rt)) (spec_Criticality (mc_Spec mc)) [] ->
    Feasible r = true ->
    selection w g dryRun pod mc rt (w, set_pod_node (SelectedNodeName r) pod, rt)
| selection_patch nodes r :
    dryRun = false -> Core rt = None -> ListNodes w = Ok nodes ->
    r = SelectBestNodeAndCore g nodes (budgetOf (RuntimeHi rt) (Period rt)) (spec_Criticality (mc_Spec mc)) [] ->
    Feasible r = true ->
    selection w g dryRun pod mc rt
      ((PatchMCKube w mc (withCore (itoa (SelectedCoreID r)) (SelectedNodeName r) mc)).1,
       set_pod_node (SelectedNodeName r) pod, set_Core (Some (itoa (SelectedCoreID r))) rt).

(** Because the settings are shared, a failed patch makes no difference to them. *)
Lemma selectCore_selection w g dryRun pod mc rt :
  spec_RTSettings (mc_Spec mc) = Some rt ->
  selection w g dryRun pod mc rt (selectCore w g dryRun pod mc rt).
Proof.
  intros Hrt. unfold selectCore. destruct (Core rt) as [c|] eqn:Ec; [apply selection_none; congruence|].
  destruct (ListNodes w) as [nodes|] eqn:En; [|apply selection_none; congruence].
  destruct (Feasible (SelectBestNodeAndCore g nodes _ _ _)) eqn:Ef; simpl;
    [|apply selection_none; congruence].
  destruct dryRun; [by eapply selection_dry|].
  pose proof (selection_patch w g false pod mc rt nodes _ eq_refl Ec En eq_refl Ef) as Hsel.
  unfold patchMcKubeCore. destruct (PatchMCKube _ _ _) as [w' err]. simpl in Hsel.
  assert (E : forall c n, default rt (spec_RTSettings (mc_Spec (withCore c n mc))) = set_Core (Some c) rt).
  { intros c n. unfold withCore. case_decide; simpl; by rewrite Hrt. }
  rewrite E. destruct err; exact Hsel.
Qed.

(** The handler passes its early returns and marshals the pod. *)
Record mutates w (req : Request Raw) pod mc rt : Prop := {
  mutates_pod : unmarshalPod (req_Raw req) = Ok pod;
  mutates_new : pod_Annotations pod !! rt_applied <> Some "true" /\ pod_Annotations pod !! rt_pending <> Some "true" /\
    pod_Annotations pod !! rt_configured <> Some "true";
  mutates_mc : findMcKubeForPod w pod = Ok (Some mc);
  mutates_rt : spec_RTSettings (mc_Spec mc) = Some rt
}.

(** A response with a patch comes from there. *)
Lemma Handle_patch m w g req w' orig cur t :
  PodMutator_Handle m w g req = (w', PatchResponseFromRaw orig cur, t) ->
  exists pod mc rt pod' rt', mutates w req pod mc rt /\
    selection w g (bool_decide (req_DryRun req = Some true)) pod mc rt (w', pod', rt') /\
    orig = req_Raw req /\ marshalPod (requestSettings rt' pod') = Ok cur /\
    t = Some (mkTask (requestSettings rt' pod') rt').
Proof.
  unfold PodMutator_Handle. destruct m as [m|]; [|done]. destruct (has_client m) eqn:Em; [|done]. cbn [negb].
  destruct (unmarshalPod (req_Raw req)) as [pod|] eqn:E1; [|done].
  case_decide as H1; [done|]. case_decide as H2; [done|].
  destruct (mutator_findMcKubeForPod m w pod) as [[mc|]|] eqn:E2; try done.
  destruct (spec_RTSettings (mc_Spec mc)) as [rt|] eqn:E3; [|done]. case_decide as H3; [done|].
  pose proof (selectCore_selection w g (bool_decide (req_DryRun req = Some true)) pod mc rt E3) as Hsel.
  destruct (selectCore _ _ _ _ _ _) as [[w1 pod1] rt1].
  destruct (marshalPod (requestSettings rt1 pod1)) as [raw|] eqn:E4; [|done].
  intros [= <- <- <- <-]. exists pod, mc, rt, pod1, rt1. split_and!; try done. split; try done.
  - split_and!; try done. intros E. apply H3. right. unfold str_get. by rewrite E.
  - unfold mutator_findMcKubeForPod in E2. by rewrite Em in E2.
Qed.

(** The mutation is idempotent: a pod that the webhook has mutated is
    admitted as it is when it comes back, whatever the state of the cluster and
    of the pools, with no write and no second task. *)
Theorem Handle_idempotent `{!PodCodecLaws Raw} m w g req w' orig cur t :
  PodMutator_Handle m w g req = (w', PatchResponseFromRaw orig cur, t) ->
  forall w2 g2 dry, PodMutator_Handle m w2 g2 (mkRequest cur dry) =
    (w2, MAllowed "RT configuration already in progress", None).
Proof.
  intros H w2 g2 dry. pose proof H as (pod & mc & rt & pod' & rt' & Hm & Hsel & _ & Hmar & _)%Handle_patch.
  apply unmarshal_marshal in Hmar. unfold PodMutator_Handle in *. destruct m as [m|]; [|done].
  destruct (has_client m); [|done]. cbn [negb req_Raw]. rewrite Hmar.
  destruct Hm as [_ (Happ & _ & _) _ _]. rewrite decide_False.
  - rewrite decide_True; [done|]. rewrite requestSettings_lookup.
    by repeat annotation_key.
  - rewrite requestSettings_lookup. repeat annotation_key. by inversion Hsel; subst.
Qed.

(** What the mutated pod carries: the node stays or is the selected one, the
    three numbers of the settings are readable back from the annotations, the
    core annotation is the core the background task will apply, and every other
    annotation is untouched. *)
Theorem Handle_annotations m w g req w' orig cur t :
  PodMutator_Handle m w g req = (w', PatchResponseFromRaw orig cur, t) ->
  exists pod mc rt pod' rt', mutates w req pod mc rt /\ marshalPod pod' = Ok cur /\ t = Some (mkTask pod' rt') /\
    (Core rt' = Core rt \/ Core rt = None) /\ set_Core None rt' = set_Core None rt /\
    (valid_settings rt -> Period rt < 2 ^ 63 ->
       Atoi (str_get (pod_Annotations pod') rt_period) = Some (Period rt) /\
       Atoi (str_get (pod_Annotations pod') rt_runtime_low) = Some (RuntimeLow rt) /\
       Atoi (str_get (pod_Annotations pod') rt_runtime_hi) = Some (RuntimeHi rt)) /\
    (is_Some (Core rt') -> pod_Annotations pod' !! rt_core = Core rt') /\
    (forall k, k ∉ [rt_pending; rt_period; rt_runtime_low; rt_runtime_hi; rt_current; rt_core] ->
       pod_Annotations pod' !! k = pod_Annotations pod !! k).
Proof.
  intros (pod & mc & rt & pod1 & rt' & Hm & Hsel & _ & Hmar & ->)%Handle_patch.
  exists pod, mc, rt, (requestSettings rt' pod1), rt'.
  assert (Hrt : (Core rt' = Core rt \/ Core rt = None) /\ set_Core None rt' = set_Core None rt /\
    pod_Annotations pod1 = pod_Annotations pod) by (inversion Hsel; subst; auto).
  destruct Hrt as (Hcore & Hsame & Hann). split_and!; try done.
  - unfold valid_settings. intros (Hlow & Hhi & _) Hp. injection Hsame as Hper Hlo Hhi'. unfold str_get.
    rewrite !requestSettings_lookup. repeat annotation_key. simpl. rewrite Hper, Hlo, Hhi'.
    split_and!; apply Atoi_itoa; lia.
  - intros Hc. rewrite requestSettings_lookup. by rewrite decide_True by by split.
  - intros k Hk. rewrite !not_elem_of_cons in Hk. rewrite requestSettings_lookup.
    rewrite decide_False by tauto. repeat (rewrite decide_False by tauto). by rewrite Hann.
Qed.

(** The only write of the handler is the patch of the pod's own custom
    resource, with the core the search selected, for settings without a core;
    a dry run writes nothing. *)
Theorem Handle_writes m w g req w' resp t :
  PodMutator_Handle m w g req = (w', resp, t) ->
  (req_DryRun req = Some true -> w' = w) /\
  (w' = w \/ exists pod mc rt nodes r, mutates w req pod mc rt /\ Core rt = None /\ ListNodes w = Ok nodes /\
     r = SelectBestNodeAndCore g nodes (budgetOf (RuntimeHi rt) (Period rt)) (spec_Criticality (mc_Spec mc)) [] /\
     Feasible r = true /\
     w' = (PatchMCKube w mc (withCore (itoa (SelectedCoreID r)) (SelectedNodeName r) mc)).1).
Proof.
  unfold PodMutator_Handle. intros H.
  assert (Hkeep : forall (resp' : MutateResponse Raw) (t' : option task), (w, resp', t') = (w', resp, t) -> w' = w).
  { by intros resp' t' [= ->]. }
  destruct m as [m|]; [|unchanged Hkeep H]. destruct (has_client m) eqn:Em; [|unchanged Hkeep H]. cbn [negb] in H.
  destruct (unmarshalPod (req_Raw req)) as [pod|] eqn:E1; [|unchanged Hkeep H].
  case_decide as H1; [unchanged Hkeep H|]. case_decide as H2; [unchanged Hkeep H|].
  destruct (mutator_findMcKubeForPod m w pod) as [[mc|]|] eqn:E2; [|unchanged Hkeep H..].
  destruct (spec_RTSettings (mc_Spec mc)) as [rt|] eqn:E3; [|unchanged Hkeep H]. case_decide as H3; [unchanged Hkeep H|].
  pose proof (selectCore_selection w g (bool_decide (req_DryRun req = Some true)) pod mc rt E3) as Hsel.
  destruct (selectCore _ _ _ _ _ _) as [[w1 pod1] rt1].
  assert (w1 = w') as -> by (by destruct (marshalPod (requestSettings rt1 pod1)); injection H).
  inversion Hsel as [Hnone Hw|nodes r Hd Hc Hn Hr Hf Hw|nodes r Hd Hc Hn Hr Hf Hw]; subst; [auto..|].
  apply bool_decide_eq_false in Hd. split; [done|]. right.
  exists pod, mc, rt, nodes. eexists. split_and!; try done. split; try done.
  - split_and!; try done. intros E. apply H3. right. unfold str_get. by rewrite E.
  - unfold mutator_findMcKubeForPod in E2. by rewrite Em in E2.
Qed.
End properties.

(** ** The two webhooks together *)

Section admission.
Context {Raw W : Type} `{C : !PodCodec Raw, K : !KubeClient W, CL : !PodCodecLaws Raw, KL : !KubeClientLaws W}.
Implicit Types (w : W) (g : Pools) (rt : RTSettings) (mc : MCKube) (pod : Pod).

(** After a successful patch the same resource, now with the core, is found. *)
Lemma find_patched w w' pod mc new items :
  PatchMCKube w mc new = (w', None) -> mc_Namespace mc = pod_Namespace pod ->
  ListMCKubes w (pod_Namespace pod) = Ok items -> NoDup (mc_Name <$> items) ->
  List.find (matchesPod pod) items = Some mc -> matchesPod pod new = true -> mc_Status new = mc_Status mc ->
  findMcKubeForPod w' pod = Ok (Some new).
Proof using KL.
  intros Hp Hns Hl Hnd Hfind Hnew Hst. unfold findMcKubeForPod.
  pose proof (patch_mckube w mc new w' items Hp) as HL. rewrite Hns in HL. rewrite HL by done. do 2 f_equal.
  clear HL Hl Hp. induction items as [|x items IH]; [done|].
  rewrite fmap_cons in Hnd. apply NoDup_cons in Hnd as [Hx Hnd]. cbn in Hfind |- *.
  destruct (matchesPod pod x) eqn:Ex.
  - injection Hfind as ->. rewrite decide_True by done.
    assert (E : set_status (fun _ => mc_Status mc) new = new) by (rewrite <- Hst; by destruct new).
    by rewrite E, Hnew.
  - rewrite decide_False; [by rewrite Ex, IH|]. intros E. apply Hx. rewrite E.
    apply list_elem_of_fmap. exists mc. split; [done|]. apply List.find_some in Hfind as [Hin _].
    by apply list_elem_of_In.
Qed.

Lemma matchesPod_name pod pod' : pod_Name pod = pod_Name pod' -> matchesPod pod = matchesPod pod'.
Proof. intros E. unfold matchesPod. by rewrite E. Qed.

Lemma withCore_fields core n mc rt :
  spec_RTSettings (mc_Spec mc) = Some rt -> spec_Node (mc_Spec mc) = "" ->
  spec_RTSettings (mc_Spec (withCore core n mc)) = Some (set_Core (Some core) rt) /\
  spec_Node (mc_Spec (withCore core n mc)) = n /\
  spec_PodName (mc_Spec (withCore core n mc)) = spec_PodName (mc_Spec mc) /\
  mc_Status (withCore core n mc) = mc_Status mc /\
  spec_Criticality (mc_Spec (withCore core n mc)) = spec_Criticality (mc_Spec mc).
Proof.
  intros Hrt Hn. unfold withCore. cbn [mc_Spec set_spec spec_Node set_RTSettings]. rewrite decide_True by done.
  cbn. by rewrite Hrt.
Qed.

Lemma itoa_nonempty c : 0 <= c -> itoa c <> "".
Proof. intros Hc E. pose proof (itoa_starts c Hc) as H. by rewrite E in H. Qed.

Lemma core_list_single c : core_list [c] = itoa c.
Proof. done. Qed.

(** The core a well-formed search selects can be printed and read back. *)
Lemma selected_core_id (R : GoRuntime) g nodes req crit r :
  pools_wf g -> Forall (fun node => int64 (nodeNumCores node)) nodes ->
  SelectBestNodeAndCore g nodes req crit [] = r -> Feasible r = true -> core_id (SelectedCoreID r).
Proof.
  intros Hg Hnodes E Hf. destruct (selected_domain g nodes req crit [] r Hg E Hf) as (node & Hin & _ & Hc).
  rewrite decide_False in Hc by (intros Hne; by apply Hne). destruct (g !! node_Name node) as [p|] eqn:Hn.
  - destruct Hc as [core Hc]. destruct (Hg _ _ Hn) as [_ Hcores]. by destruct (Hcores _ _ Hc).
  - rewrite Forall_forall in Hnodes. specialize (Hnodes node Hin). unfold int64 in Hnodes. unfold core_id. lia.
Qed.

(** C3: the admission pipeline: when the mutating webhook selects a core for a
    resource that names no node and its patch succeeds, the validating webhook,
    reading the patched resource and the same pools, admits the mutated pod,
    whatever orders the two visit the maps in; the only exception is an
    eviction that would use up the available budget to the last unit. *)
Theorem mutate_then_validate (R R' : GoRuntime) m w w' g req pod mc rt nodes items orig cur t dry :
  let r := @SelectBestNodeAndCore R g nodes (budgetOf (RuntimeHi rt) (Period rt)) (spec_Criticality (mc_Spec mc)) [] in
  let n := SelectedNodeName r in
  let c := SelectedCoreID r in
  workload g -> Forall (fun node => int64 (nodeNumCores node) /\ node_Name node <> "") nodes ->
  reaches_budget w req pod mc rt nodes -> valid_settings rt -> Period rt <= 100000000 ->
  ListMCKubes w (pod_Namespace pod) = Ok items -> NoDup (mc_Name <$> items) ->
  mc_Namespace mc = pod_Namespace pod -> Core rt = None ->
  spec_Node (mc_Spec mc) = "" -> status_AllocatedCore (mc_Status mc) = "" -> req_DryRun req <> Some true ->
  Feasible r = true ->
  (VictimPodNames r = [] \/ fits_with_slack (RuntimeHi rt) (Period rt) (coreUsage (g !! n) c)
                              (evictableMillis (spec_Criticality (mc_Spec mc)) (g !! n) c)) ->
  (PatchMCKube w mc (withCore (itoa c) n mc)).2 = None ->
  @PodMutator_Handle R Raw W C K m w g req = (w', PatchResponseFromRaw orig cur, t) ->
  @RTValidator_Handle R' Raw W C K w' g (mkRequest cur dry) =
    Some (Allowed "RT settings valid and node/core feasibility confirmed").
Proof using CL KL.
  intros r n c Hw Hnodes [Hpod Hfind Hrt Hln] Hv Hp Hl Hnd Hns Hcore Hnode Halloc Hdry Hf Hslack Hpatch Hm.
  apply Handle_patch in Hm as (pod0 & mc0 & rt0 & pod1 & rt1 & [Hpod0 _ Hfind0 Hrt0] & Hsel & _ & Hmar & _).
  assert (pod0 = pod) as -> by congruence. assert (mc0 = mc) as -> by congruence.
  assert (rt0 = rt) as -> by congruence. rewrite bool_decide_eq_false_2 in Hsel by done.
  inversion Hsel as [Hnone|nodes' r' Hd|nodes' r' _ _ Hln' Hr' _]; [|discriminate Hd|]; clear Hsel.
  { exfalso. subst w' pod1 rt1. specialize (Hnone nodes Hcore Hln). unfold r in Hf. congruence. }
  assert (nodes' = nodes) as -> by congruence. subst r' w' pod1 rt1.
  fold r n c in Hmar |- *. set (new := withCore (itoa c) n mc) in *.
  destruct (PatchMCKube w mc new) as [w1 err] eqn:Epatch. simpl in Hpatch |- *. subst err.
  set (pod2 := requestSettings _ _) in Hmar. apply unmarshal_marshal in Hmar.
  destruct (requestSettings_name (set_Core (Some (itoa c)) rt) (set_pod_node n pod)) as [Hname Hpns].
  fold pod2 in Hname, Hpns. simpl in Hname, Hpns.
  assert (Hc : core_id c).
  { eapply (selected_core_id R g nodes); [apply Hw| |done|done]. eapply Forall_impl; [exact Hnodes|]. by intros ? []. }
  assert (Hn : n <> "").
  { destruct (@selected_domain R g nodes _ _ [] r (workload_wf g Hw) eq_refl Hf) as (node & Hin & Hnn & _).
    rewrite Forall_forall in Hnodes. unfold n. rewrite Hnn. by apply Hnodes. }
  destruct (withCore_fields (itoa c) n mc rt Hrt Hnode) as (Hnew_rt & Hnew_node & Hnew_pod & Hnew_alloc & Hnew_crit).
  fold new in Hnew_rt, Hnew_node, Hnew_pod, Hnew_alloc, Hnew_crit.
  unfold findMcKubeForPod in Hfind. rewrite Hl in Hfind. injection Hfind as Hfind.
  pose proof (List.find_some _ _ Hfind) as [_ Hmatch].
  assert (Hreach : reaches_budget w1 (mkRequest cur dry) pod2 new (set_Core (Some (itoa c)) rt) nodes).
  { split; [done| |done|by rewrite (patch_nodes w mc new w1 Epatch)].
    apply (find_patched w w1 pod2 mc new items); rewrite ?Hpns; try done.
    rewrite (matchesPod_name pod2 pod) by done. unfold matchesPod in *. z_bools.
    rewrite Hnew_pod, Hnew_rt. apply andb_true_iff. split; [done|by apply bool_decide_eq_true_2]. }
  rewrite (Handle_budget _ _ _ _ _ _ _ Hreach).
  rewrite (proj2 (validateRTSettings_valid (set_Core (Some (itoa c)) rt) ltac:(simpl; lia))).
  2: { destruct Hv as (H1 & H2 & _). split; [exact H1|]. split; [exact H2|]. simpl. intros [= E]. by apply (itoa_nonempty c); [apply Hc|]. }
  unfold checkBudget, selectedCoreStr. rewrite Hnew_alloc, Halloc, Hnew_node, Hnew_crit. simpl.
  rewrite decide_True by (split; [apply itoa_nonempty, Hc|done]).
  rewrite <- core_list_single, ParseCoreSet_core_list by (by repeat constructor; apply Hc).
  pose proof (select_check_agree R R' g nodes (spec_Criticality (mc_Spec mc)) [] _ _ n c (VictimPodNames r) Hw
    (valid_request rt Hv Hp)) as Hagree.
  destruct (CheckNodeCoreFeasibility g n c _ _) as [ok victims] eqn:Echk. simpl in Hagree.
  rewrite Hagree; [done| |done]. unfold n, c. fold r. rewrite <- Hf. by destruct r.
Qed.
End admission.

(** ** The background task *)

Section task.
Context {W : Type} `{K : !KubeClient W, D : !NodeActuator W}.
Implicit Types (w : W) (t : task).

(** The reasons for which a tick ends the task. *)
Inductive tick_ends (t : task) (w : W) : Prop :=
| ends_gone e :
    GetPod w (pod_Namespace (task_pod t)) (pod_Name (task_pod t)) = Err e -> str_contains e "not found" = true ->
    tick_ends t w
| ends_configured p :
    GetPod w (pod_Namespace (task_pod t)) (pod_Name (task_pod t)) = Ok p ->
    pod_Annotations p !! rt_configured = Some "true" -> tick_ends t w
| ends_applied p w' :
    GetPod w (pod_Namespace (task_pod t)) (pod_Name (task_pod t)) = Ok p ->
    pod_NodeName p <> "" -> pod_Phase p = "Running" ->
    applyRTSettingsViaDaemon w p (task_rt t) = (w', true) -> tick_ends t w.

Lemma pollTick_ends w t w' : pollTick w (task_pod t) (task_rt t) = (w', true) -> tick_ends t w.
Proof.
  unfold pollTick. destruct (GetPod _ _ _) as [p|e] eqn:Eg; [|intros [= _ He]; by eapply ends_gone].
  case_decide as Hn; [done|]. case_decide as Hp; [done|].
  case_decide as Hc; [intros _; by eapply ends_configured|].
  destruct (applyRTSettingsViaDaemon w p (task_rt t)) as [w1 [|]] eqn:Ea; [|done].
  intros _. eapply ends_applied; done || by apply dec_stable.
Qed.

(** C37: the background task ends: after the timeout at the latest; before it,
    only because the pod is gone, is already configured, or runs on a node whose
    daemon has just accepted the settings. *)
Theorem schedule_ends w t events :
  (Timeout ∈ events -> (scheduleRTConfiguration w t events).2 = true) /\
  ((scheduleRTConfiguration w t events).2 = true ->
   Timeout ∈ events \/ pod_Annotations (task_pod t) !! rt_configured = Some "true" \/ exists w', tick_ends t w').
Proof.
  unfold scheduleRTConfiguration. case_decide as Hc; [by split; [|auto]|].
  revert w. induction events as [|[|env] events IH]; intros w.
  - split; [by intros ?%not_elem_of_nil|done].
  - split; [done|]. intros _. left. by left.
  - cbn [pollLoop]. destruct (pollTick (env w) _ _) as [w1 [|]] eqn:Et.
    + split; [by intros _|]. intros _. right. right. exists (env w). by eapply pollTick_ends.
    + destruct (IH w1) as [IH1 IH2]. split.
      * intros [?|Hin]%elem_of_cons; [done|auto].
      * intros Hf. destruct (IH2 Hf) as [|[|]]; [left; by right|auto..].
Qed.
End task.

(** ** Divergences *)

(** A cluster of two nodes: [n1] is full, [n2] has no pool. *)
Module TwoNodes.
Definition full : PodInfo := mkPodInfo "full" "default" "HIGH" 900 [0].
Definition pools : Pools := {["n1" := AddPodToCore (newPool "n1" 1) 0 full]}.
Definition nodes : list Node := [sample_node "n1" 1; sample_node "n2" 1].
Definition settings : RTSettings := mkRT 1000000 300000 500000 None.
Definition mckube (node : string) : MCKube := sample_mckube "new" node "LOW" settings.
Definition server (node : string) (readonly : bool) (pods : list Pod) : Server :=
  mkServer [mckube node] pods nodes readonly 200 [].
Definition pod_request (dryRun : option bool) : Request Pod := mkRequest (sample_pod "new" "") dryRun.

Definition mutate (node : string) (readonly : bool) (pods : list Pod) (dryRun : option bool) :=
  @PodMutator_Handle reference_runtime _ _ _ _ (Some (NewPodMutator true)) (server node readonly pods) pools
    (pod_request dryRun).
Definition validate (s : Server) (pod : Pod) :=
  @RTValidator_Handle reference_runtime _ _ _ _ s pools (mkRequest pod None).
Definition mutated (node : string) (readonly : bool) (pods : list Pod) (dryRun : option bool) : Pod :=
  match (mutate node readonly pods dryRun).1.2 with
  | PatchResponseFromRaw _ cur => cur
  | _ => sample_pod "" ""
  end.
End TwoNodes.

(** The two webhooks disagree when the custom resource already names a node:
    the mutating webhook searches all nodes and binds the pod to [n2], while the
    resource keeps [n1], with the core selected on [n2]; the validating webhook
    then checks that core on [n1] and denies the pod, which fits where it is
    bound. *)
Theorem mutator_ignores_spec_node :
  let w' := (TwoNodes.mutate "n1" false [] None).1.1 in
  let pod := TwoNodes.mutated "n1" false [] None in
  pod_NodeName pod = "n2" /\ pod_Annotations pod !! rt_core = Some "0" /\
  TwoNodes.validate w' pod = Some (Denied (InsufficientOnCore "n1" 0 "new" "LOW")) /\
  @CheckNodeCoreFeasibility reference_runtime TwoNodes.pools "n2" 0 (budgetOf 500000 1000000) "LOW" = (true, []).
Proof. vm_compute. done. Qed.

(** When the patch of the custom resource fails, the pod is nevertheless
    bound and annotated with the selected core, and the background task will
    apply that core, although no resource records it. *)
Theorem failed_patch_keeps_core :
  let w' := (TwoNodes.mutate "" true [] None).1.1 in
  let pod := TwoNodes.mutated "" true [] None in
  pod_NodeName pod = "n2" /\ pod_Annotations pod !! rt_core = Some "0" /\
  (Core ∘ task_rt) <$> (TwoNodes.mutate "" true [] None).2 = Some (Some "0") /\
  srv_mckubes w' = [TwoNodes.mckube ""].
Proof. vm_compute. done. Qed.

(** A running pod with the name of the pod of the request. *)
Definition running_pod : Pod :=
  {| pod_Name := "new"; pod_Namespace := "default"; pod_UID := "u"; pod_Labels := ∅; pod_Annotations := ∅;
     pod_DeletionTimestamp := None; pod_NodeName := "n2"; pod_Containers := []; pod_Phase := "Running";
     pod_HostIP := ""; pod_ContainerStatuses := [mkContainerStatus "c" "containerd://abc"];
     pod_InitContainerStatuses := [] |}.

(** A dry-run request starts the background task like any other, which then
    configures a running pod of the same name through its node's daemon and
    annotates it, although the webhook declares no side effects on dry runs. *)
Theorem dry_run_configures_running_pod :
  let '(w', resp, t) := TwoNodes.mutate "" false [running_pod] (Some true) in
  w' = TwoNodes.server "" false [running_pod] /\
  match t with
  | None => False
  | Some t =>
      let w'' := (scheduleRTConfiguration w' t [Tick id]).1 in
      srv_posts w'' = [(daemonURL "10.0.0.1", Some "Bearer secret", mkCgroupRequest "abc" 1000000 300000 None false)] /\
      (fun p => pod_Annotations p !! rt_configured) <$> srv_pods w'' = [Some "true"]
  end.
Proof. vm_compute. done. Qed.

(** ** Witnesses *)

Example Handle_idempotent_witness :
  (TwoNodes.mutate "" false [] None).2 <> None /\
  @PodMutator_Handle reference_runtime _ _ _ _ (Some (NewPodMutator true)) (TwoNodes.server "" false []) ∅
    (mkRequest (TwoNodes.mutated "" false [] None) None) =
  (TwoNodes.server "" false [], MAllowed "RT configuration already in progress", None).
Proof.
  split; [vm_compute; done|].
  refine (@Handle_idempotent reference_runtime _ _ _ _ _ (Some (NewPodMutator true)) (TwoNodes.server "" false []) TwoNodes.pools
    (TwoNodes.pod_request None) (TwoNodes.mutate "" false [] None).1.1 (sample_pod "new" "")
    (TwoNodes.mutated "" false [] None) (TwoNodes.mutate "" false [] None).2 _ _ _ _).
  vm_compute. reflexivity.
Defined.

Example Handle_annotations_witness :
  exists pod', marshalPod pod' = Ok (TwoNodes.mutated "" false [] None).
Proof.
  destruct (@Handle_annotations reference_runtime _ _ _ _ (Some (NewPodMutator true)) (TwoNodes.server "" false []) TwoNodes.pools
    (TwoNodes.pod_request None) (TwoNodes.mutate "" false [] None).1.1 (sample_pod "new" "")
    (TwoNodes.mutated "" false [] None) (TwoNodes.mutate "" false [] None).2) as (pod & mc & rt & pod' & rt' & _ & Hm & _).
  - vm_compute. reflexivity.
  - by exists pod'.
Defined.

Example Handle_writes_witness :
  (TwoNodes.mutate "" false [] (Some true)).1.1 = TwoNodes.server "" false [].
Proof.
  apply (@Handle_writes reference_runtime _ _ _ _ (Some (NewPodMutator true)) (TwoNodes.server "" false []) TwoNodes.pools
    (TwoNodes.pod_request (Some true)) (TwoNodes.mutate "" false [] (Some true)).1.1
    (TwoNodes.mutate "" false [] (Some true)).1.2 (TwoNodes.mutate "" false [] (Some true)).2).
  - vm_compute. reflexivity.
  - reflexivity.
Defined.

Example mutate_then_validate_witness :
  TwoNodes.validate (TwoNodes.mutate "" false [] None).1.1 (TwoNodes.mutated "" false [] None) =
    Some (Allowed "RT settings valid and node/core feasibility confirmed").
Proof.
  apply (@mutate_then_validate _ _ _ _ _ _ reference_runtime reference_runtime (Some (NewPodMutator true))
    (TwoNodes.server "" false []) (TwoNodes.mutate "" false [] None).1.1 TwoNodes.pools (TwoNodes.pod_request None)
    (sample_pod "new" "") (TwoNodes.mckube "") TwoNodes.settings TwoNodes.nodes [TwoNodes.mckube ""]
    (sample_pod "new" "") (TwoNodes.mutated "" false [] None) (TwoNodes.mutate "" false [] None).2).
  - apply (bool_decide_eq_true_1 _). vm_compute. reflexivity.
  - apply (bool_decide_eq_true_1 _). vm_compute. reflexivity.
  - split; vm_compute; reflexivity.
  - apply (bool_decide_eq_true_1 _). vm_compute. reflexivity.
  - simpl. lia.
  - vm_compute. reflexivity.
  - apply (bool_decide_eq_true_1 _). vm_compute. reflexivity.
  - reflexivity.
  - reflexivity.
  - reflexivity.
  - reflexivity.
  - done.
  - vm_compute. reflexivity.
  - left. vm_compute. reflexivity.
  - vm_compute. reflexivity.
  - vm_compute. reflexivity.
Defined.
