(* ===== verification/DeepCopy.v ===== *)
(** * DeepCopy: pointers of the custom resource

    The rest of the development treats an [MCKube] as a value.  In the source it
    has pointers: [Spec.RTSettings], its [Core], and [Status.LastOverrunTime].
    This file models a store of the cells they point to, the copy functions of
    [api/v1/zz_generated.deepcopy.go], and [patchMcKubeCore] of
    [internal/webhook/pod_mutator.go] on that store, where it relies on the copy
    being independent and on the handler's pointer being shared.

    A struct inside another one has no address here, so [DeepCopyInto] returns
    the value it leaves in [*out].  The copy functions of [ObjectMeta],
    [ListMeta] and [Time] belong to the Kubernetes library: an interface, whose
    laws say that a copy is equal and shares nothing. *)
From S2P Require Import Prelude GoRuntime GoString ApiTypes Kube ApiServer Validator Mutator.
From stdpp Require Import options.

(** ** The store *)

Abbreviation loc := positive.

Record hRTSettings := mkHRT { h_Period : Z; h_RuntimeLow : Z; h_RuntimeHi : Z; h_Core : option loc }.

Record hMCKubeSpec := mkHSpec {
  h_Node : string;
  h_PodName : string;
  h_Criticality : string;
  h_PressuredDeadlinesTotal : Z;
  h_PressuredDeadlinesPeriod : Z;
  h_RTSettings : option loc
}.

Record hMCKubeStatus := mkHStatus {
  h_CurrentRuntime : string;
  h_LastOverrunTime : option loc;
  h_AllocatedCore : string
}.

(** What the source reads of [metav1.ObjectMeta]. *)
Record ObjectMeta := mkMeta {
  om_Name : string;
  om_Namespace : string;
  om_Finalizers : list string;
  om_DeletionTimestamp : option Z
}.

Record hMCKube := mkHMCKube { h_ObjectMeta : ObjectMeta; h_Spec : hMCKubeSpec; h_Status : hMCKubeStatus }.

(** [Items] is nil or points to its array. *)
Record hMCKubeList := mkHList { h_ResourceVersion : string; h_Items : option loc }.

Inductive cell :=
| cell_string (s : string)
| cell_time (t : Z)
| cell_rt (v : hRTSettings)
| cell_spec (v : hMCKubeSpec)
| cell_status (v : hMCKubeStatus)
| cell_mckube (v : hMCKube)
| cell_items (v : list hMCKube)
| cell_list (v : hMCKubeList).

Abbreviation heap := (gmap loc cell).

(** ** Computations on the store

    [None] is a nil or ill-typed dereference. *)
Definition heapM (A : Type) : Type := heap -> option (heap * A).

#[export] Instance heapM_ret : MRet heapM := fun A a h => Some (h, a).
#[export] Instance heapM_bind : MBind heapM := fun A B f m h =>
  match m h with Some (h, a) => f a h | None => None end.

Definition load (l : loc) : heapM cell := fun h => (h,.) <$> h !! l.
Definition store (l : loc) (c : cell) : heapM unit := fun h =>
  match h !! l with Some _ => Some (<[l := c]> h, tt) | None => None end.
Definition alloc (c : cell) : heapM loc := fun h => let l := fresh (dom h) in Some (<[l := c]> h, l).
Definition fault {A} : heapM A := fun _ => None.

Definition load_string (l : loc) : heapM string := c ← load l; match c with cell_string s => mret s | _ => fault end.
Definition load_time (l : loc) : heapM Z := c ← load l; match c with cell_time t => mret t | _ => fault end.
Definition load_rt (l : loc) : heapM hRTSettings := c ← load l; match c with cell_rt v => mret v | _ => fault end.
Definition load_spec (l : loc) : heapM hMCKubeSpec := c ← load l; match c with cell_spec v => mret v | _ => fault end.
Definition load_status (l : loc) : heapM hMCKubeStatus := c ← load l; match c with cell_status v => mret v | _ => fault end.
Definition load_mckube (l : loc) : heapM hMCKube := c ← load l; match c with cell_mckube v => mret v | _ => fault end.
Definition load_items (l : loc) : heapM (list hMCKube) := c ← load l; match c with cell_items v => mret v | _ => fault end.
Definition load_list (l : loc) : heapM hMCKubeList := c ← load l; match c with cell_list v => mret v | _ => fault end.

(** Assignments to the pointer fields. *)
Definition set_h_Core (c : option loc) (v : hRTSettings) : hRTSettings :=
  mkHRT (h_Period v) (h_RuntimeLow v) (h_RuntimeHi v) c.
Definition set_h_RTSettings (p : option loc) (v : hMCKubeSpec) : hMCKubeSpec :=
  mkHSpec (h_Node v) (h_PodName v) (h_Criticality v) (h_PressuredDeadlinesTotal v) (h_PressuredDeadlinesPeriod v) p.
Definition set_h_Node (n : string) (v : hMCKubeSpec) : hMCKubeSpec :=
  mkHSpec n (h_PodName v) (h_Criticality v) (h_PressuredDeadlinesTotal v) (h_PressuredDeadlinesPeriod v) (h_RTSettings v).
Definition set_h_LastOverrunTime (p : option loc) (v : hMCKubeStatus) : hMCKubeStatus :=
  mkHStatus (h_CurrentRuntime v) p (h_AllocatedCore v).
Definition set_h_Spec (s : hMCKubeSpec) (v : hMCKube) : hMCKube := mkHMCKube (h_ObjectMeta v) s (h_Status v).
Definition set_h_Status (s : hMCKubeStatus) (v : hMCKube) : hMCKube := mkHMCKube (h_ObjectMeta v) (h_Spec v) s.
Definition set_h_ObjectMeta (m : ObjectMeta) (v : hMCKube) : hMCKube := mkHMCKube m (h_Spec v) (h_Status v).
Definition set_h_ListMeta (m : string) (v : hMCKubeList) : hMCKubeList := mkHList m (h_Items v).
Definition set_h_Items (p : option loc) (v : hMCKubeList) : hMCKubeList := mkHList (h_ResourceVersion v) p.

(** The values [new] allocates. *)
Definition zero_rt : hRTSettings := mkHRT 0 0 0 None.
Definition zero_spec : hMCKubeSpec := mkHSpec "" "" "" 0 0 None.
Definition zero_status : hMCKubeStatus := mkHStatus "" None "".
Definition zero_mckube : hMCKube := mkHMCKube (mkMeta "" "" [] None) zero_spec zero_status.
Definition zero_list : hMCKubeList := mkHList "" None.

(** ** The library's copy functions *)

Class ApiMachinery := {
  Time_DeepCopy : loc -> heapM loc;
  ObjectMeta_DeepCopyInto : ObjectMeta -> ObjectMeta;
  ListMeta_DeepCopyInto : string -> string
}.

(** A copied time is a new cell with the same time, the other copies are equal. *)
Class ApiMachineryLaws `{ApiMachinery} := {
  time_copied h p t :
    h !! p = Some (cell_time t) ->
    exists q h', Time_DeepCopy p h = Some (h', q) /\ h !! q = None /\ h' = <[q := cell_time t]> h;
  meta_copied v : ObjectMeta_DeepCopyInto v = v;
  listmeta_copied v : ListMeta_DeepCopyInto v = v
}.

(** An implementation, for examples. *)
#[export] Instance reference_machinery : ApiMachinery := {
  Time_DeepCopy p := t ← load_time p; alloc (cell_time t);
  ObjectMeta_DeepCopyInto v := v;
  ListMeta_DeepCopyInto v := v
}.

Lemma fresh_unused (h : heap) : h !! fresh (dom h) = None.
Proof. apply not_elem_of_dom, is_fresh. Qed.

#[export] Instance reference_machinery_laws : ApiMachineryLaws.
Proof.
  split; try done. intros h p t E. exists (fresh (dom h)), (<[fresh (dom h) := cell_time t]> h).
  split; [|split; [apply fresh_unused|done]].
  cbn. unfold load_time, load, mbind, heapM_bind. by rewrite E.
Qed.

(** ** The copy functions *)

Section copy.
Context `{M : ApiMachinery}.

Definition RTSettings_DeepCopyInto (in_ : hRTSettings) : heapM hRTSettings :=
  let out := in_ in
  match h_Core in_ with
  | None => mret out
  | Some p =>
      q ← alloc (cell_string "");
      s ← load_string p;
      store q (cell_string s);;
      mret (set_h_Core (Some q) out)
  end.

Definition RTSettings_DeepCopy (in_ : option loc) : heapM (option loc) :=
  match in_ with
  | None => mret None
  | Some p =>
      out ← alloc (cell_rt zero_rt);
      v ← load_rt p;
      v ← RTSettings_DeepCopyInto v;
      store out (cell_rt v);;
      mret (Some out)
  end.

Definition MCKubeSpec_DeepCopyInto (in_ : hMCKubeSpec) : heapM hMCKubeSpec :=
  let out := in_ in
  match h_RTSettings in_ with
  | None => mret out
  | Some p =>
      q ← alloc (cell_rt zero_rt);
      v ← load_rt p;
      v ← RTSettings_DeepCopyInto v;
      store q (cell_rt v);;
      mret (set_h_RTSettings (Some q) out)
  end.

Definition MCKubeSpec_DeepCopy (in_ : option loc) : heapM (option loc) :=
  match in_ with
  | None => mret None
  | Some p =>
      out ← alloc (cell_spec zero_spec);
      v ← load_spec p;
      v ← MCKubeSpec_DeepCopyInto v;
      store out (cell_spec v);;
      mret (Some out)
  end.

Definition MCKubeStatus_DeepCopyInto (in_ : hMCKubeStatus) : heapM hMCKubeStatus :=
  let out := in_ in
  match h_LastOverrunTime in_ with
  | None => mret out
  | Some p =>
      q ← Time_DeepCopy p;
      mret (set_h_LastOverrunTime (Some q) out)
  end.

Definition MCKubeStatus_DeepCopy (in_ : option loc) : heapM (option loc) :=
  match in_ with
  | None => mret None
  | Some p =>
      out ← alloc (cell_status zero_status);
      v ← load_status p;
      v ← MCKubeStatus_DeepCopyInto v;
      store out (cell_status v);;
      mret (Some out)
  end.

Definition MCKube_DeepCopyInto (in_ : hMCKube) : heapM hMCKube :=
  let out := set_h_ObjectMeta (ObjectMeta_DeepCopyInto (h_ObjectMeta in_)) in_ in
  spec ← MCKubeSpec_DeepCopyInto (h_Spec in_);
  let out := set_h_Spec spec out in
  status ← MCKubeStatus_DeepCopyInto (h_Status in_);
  mret (set_h_Status status out).

Definition MCKube_DeepCopy (in_ : option loc) : heapM (option loc) :=
  match in_ with
  | None => mret None
  | Some p =>
      out ← alloc (cell_mckube zero_mckube);
      v ← load_mckube p;
      v ← MCKube_DeepCopyInto v;
      store out (cell_mckube v);;
      mret (Some out)
  end.

(** The nil pointer becomes a nil interface. *)
Definition MCKube_DeepCopyObject (in_ : option loc) : heapM (option loc) :=
  c ← MCKube_DeepCopy in_;
  match c with Some c => mret (Some c) | None => mret None end.

(** The loop over the items, filling the new array from the front. *)
Fixpoint copyItems (items : list hMCKube) (arr : loc) (done : list hMCKube) : heapM unit :=
  match items with
  | [] => mret tt
  | v :: items =>
      v ← MCKube_DeepCopyInto v;
      store arr (cell_items (done ++ v :: (replicate (length items) zero_mckube)));;
      copyItems items arr (done ++ [v])
  end.

Definition MCKubeList_DeepCopyInto (in_ : hMCKubeList) : heapM hMCKubeList :=
  let out := set_h_ListMeta (ListMeta_DeepCopyInto (h_ResourceVersion in_)) in_ in
  match h_Items in_ with
  | None => mret out
  | Some p =>
      items ← load_items p;
      q ← alloc (cell_items (replicate (length items) zero_mckube));
      copyItems items q [];;
      mret (set_h_Items (Some q) out)
  end.

Definition MCKubeList_DeepCopy (in_ : option loc) : heapM (option loc) :=
  match in_ with
  | None => mret None
  | Some p =>
      out ← alloc (cell_list zero_list);
      v ← load_list p;
      v ← MCKubeList_DeepCopyInto v;
      store out (cell_list v);;
      mret (Some out)
  end.

Definition MCKubeList_DeepCopyObject (in_ : option loc) : heapM (option loc) :=
  c ← MCKubeList_DeepCopy in_;
  match c with Some c => mret (Some c) | None => mret None end.

(** ** [patchMcKubeCore] *)

(** The resource in a store as a value; [None] if a pointer is bad. *)
Definition read_rt (h : heap) (v : hRTSettings) : option RTSettings :=
  match h_Core v with
  | None => Some (mkRT (h_Period v) (h_RuntimeLow v) (h_RuntimeHi v) None)
  | Some p =>
      match h !! p with
      | Some (cell_string s) => Some (mkRT (h_Period v) (h_RuntimeLow v) (h_RuntimeHi v) (Some s))
      | _ => None
      end
  end.

Definition read_spec (h : heap) (v : hMCKubeSpec) : option MCKubeSpec :=
  let mk := mkSpec (h_Node v) (h_PodName v) (h_Criticality v) (h_PressuredDeadlinesTotal v) (h_PressuredDeadlinesPeriod v) in
  match h_RTSettings v with
  | None => Some (mk None)
  | Some p =>
      match h !! p with
      | Some (cell_rt v) => mk ∘ Some <$> read_rt h v
      | _ => None
      end
  end.

Definition read_status (h : heap) (v : hMCKubeStatus) : option MCKubeStatus :=
  match h_LastOverrunTime v with
  | None => Some (mkStatus (h_CurrentRuntime v) None (h_AllocatedCore v))
  | Some p =>
      match h !! p with
      | Some (cell_time t) => Some (mkStatus (h_CurrentRuntime v) (Some t) (h_AllocatedCore v))
      | _ => None
      end
  end.

Definition read_mckube (h : heap) (v : hMCKube) : option MCKube :=
  let m := h_ObjectMeta v in
  spec ← read_spec h (h_Spec v);
  status ← read_status h (h_Status v);
  Some (mkMCKube (om_Name m) (om_Namespace m) (om_Finalizers m) (om_DeletionTimestamp m) spec status).

(** Through a pointer. *)
Definition mckube_at (h : heap) (p : loc) : option MCKube :=
  match h !! p with Some (cell_mckube v) => read_mckube h v | _ => None end.

Definition rt_at (h : heap) (p : loc) : option RTSettings :=
  match h !! p with Some (cell_rt v) => read_rt h v | _ => None end.

(** The metadata of the list and its resources. *)
Definition read_list (h : heap) (v : hMCKubeList) : option (string * list MCKube) :=
  match h_Items v with
  | None => Some (h_ResourceVersion v, [])
  | Some q =>
      match h !! q with
      | Some (cell_items l) => (h_ResourceVersion v,.) <$> mapM (read_mckube h) l
      | _ => None
      end
  end.

Definition list_at (h : heap) (p : loc) : option (string * list MCKube) :=
  match h !! p with Some (cell_list v) => read_list h v | _ => None end.

(** What the client encodes when it is given a pointer. *)
Definition encode (p : loc) : heapM MCKube := fun h => (h,.) <$> mckube_at h p.

(** [patchMcKubeCore] on the store; [base] is what [client.MergeFrom] keeps. *)
Definition patchMcKubeCore_ptr `{KubeClient W} (w : W) (mc : loc) (core nodeName : string) : heapM (W * option error) :=
  base ← MCKube_DeepCopy (Some mc);
  core' ← alloc (cell_string core);
  v ← load_mckube mc;
  match h_RTSettings (h_Spec v) with
  | None => fault
  | Some p => rt ← load_rt p; store p (cell_rt (set_h_Core (Some core') rt))
  end;;
  v ← load_mckube mc;
  (if decide (h_Node (h_Spec v) = EmptyString)
   then store mc (cell_mckube (set_h_Spec (set_h_Node nodeName (h_Spec v)) v)) else mret tt);;
  match base with
  | None => fault
  | Some base =>
      original ← encode base;
      modified ← encode mc;
      mret (PatchMCKube w original modified)
  end.
End copy.

(** ** Lemmas: reading *)

(** Reads do not depend on cells that are added. *)
Lemma read_rt_mono h h' v rt : h ⊆ h' -> read_rt h v = Some rt -> read_rt h' v = Some rt.
Proof.
  unfold read_rt. intros Hs. destruct (h_Core v) as [p|]; [|done].
  destruct (h !! p) as [[]|] eqn:E; try done. by rewrite (lookup_weaken _ _ _ _ E Hs).
Qed.

Lemma read_spec_mono h h' v s : h ⊆ h' -> read_spec h v = Some s -> read_spec h' v = Some s.
Proof.
  unfold read_spec. intros Hs. destruct (h_RTSettings v) as [p|]; [|done].
  destruct (h !! p) as [[| |r| | | | |]|] eqn:E; try done. rewrite (lookup_weaken _ _ _ _ E Hs).
  destruct (read_rt h r) as [rt|] eqn:Er; [|done]. by rewrite (read_rt_mono _ _ _ _ Hs Er).
Qed.

Lemma read_status_mono h h' v s : h ⊆ h' -> read_status h v = Some s -> read_status h' v = Some s.
Proof.
  unfold read_status. intros Hs. destruct (h_LastOverrunTime v) as [p|]; [|done].
  destruct (h !! p) as [[]|] eqn:E; try done. by rewrite (lookup_weaken _ _ _ _ E Hs).
Qed.

Lemma read_mckube_parts h v mc :
  read_mckube h v = Some mc <->
  read_spec h (h_Spec v) = Some (mc_Spec mc) /\ read_status h (h_Status v) = Some (mc_Status mc) /\
  h_ObjectMeta v = mkMeta (mc_Name mc) (mc_Namespace mc) (mc_Finalizers mc) (mc_DeletionTimestamp mc).
Proof.
  unfold read_mckube. cbv zeta. split.
  - destruct (read_spec h _) as [s|]; [|done]. destruct (read_status h _) as [t|]; [|done].
    intros [= <-]. by destruct (h_ObjectMeta v).
  - intros (-> & -> & ->). by destruct mc.
Qed.

Lemma read_mckube_mono h h' v mc : h ⊆ h' -> read_mckube h v = Some mc -> read_mckube h' v = Some mc.
Proof.
  rewrite !read_mckube_parts. intros Hs (H1 & H2 & H3). split_and!; [by eapply read_spec_mono|by eapply read_status_mono|done].
Qed.

(** ** Lemmas: copying *)

(** [h''] has the cells by which [h'] extends [h]; what else it has, and what has
    become of the cells of [h], does not matter. *)
Definition has_new (h h' h'' : heap) : Prop := forall l c, h !! l = None -> h' !! l = Some c -> h'' !! l = Some c.

(** The computation returns a value that reads as [b] from its own new cells, and
    leaves the cells of [h] as they are. *)
Definition copies {A B} (m : heapM A) (read : heap -> A -> option B) (b : B) (h : heap) : Prop :=
  exists h' a, m h = Some (h', a) /\ h ⊆ h' /\ forall h'', has_new h h' h'' -> read h'' a = Some b.

Lemma heap_bind {A B} (m : heapM A) (f : A -> heapM B) h h' a : m h = Some (h', a) -> (m ≫= f) h = f a h'.
Proof. intros E. unfold mbind, heapM_bind. by rewrite E. Qed.

Lemma heap_assoc {A B C} (m : heapM A) (f : A -> heapM B) (g : B -> heapM C) h :
  ((m ≫= f) ≫= g) h = (m ≫= (fun a => f a ≫= g)) h.
Proof. unfold mbind, heapM_bind. by destruct (m h) as [[h' a]|]. Qed.

Lemma load_run {A} l c (k : cell -> heapM A) h : h !! l = Some c -> (load l ≫= k) h = k c h.
Proof. intros E. apply heap_bind. unfold load. by rewrite E. Qed.

Lemma store_run {A} l c c' (k : unit -> heapM A) h : h !! l = Some c -> (store l c' ≫= k) h = k tt (<[l := c']> h).
Proof. intros E. apply heap_bind. unfold store. by rewrite E. Qed.

Lemma alloc_run {A} c (k : loc -> heapM A) h : (alloc c ≫= k) h = k (fresh (dom h)) (<[fresh (dom h) := c]> h).
Proof. by apply heap_bind. Qed.

Lemma has_new_trans h h1 h2 h'' : h ⊆ h1 -> h1 ⊆ h2 -> has_new h h2 h'' -> has_new h h1 h'' /\ has_new h1 h2 h''.
Proof.
  intros H1 H2 Hn. split; intros l c E1 E2.
  - apply Hn; [done|]. by eapply lookup_weaken.
  - apply Hn; [|done]. destruct (h !! l) as [c'|] eqn:E; [|done]. by rewrite (lookup_weaken _ _ _ _ E H1) in E1.
Qed.

(** A new cell that is then filled with a copy. *)
Lemma new_copy {V B C} (inj : V -> cell) (zero : V) (ld : loc -> heapM V) (into : V -> heapM V)
    (read : heap -> V -> option B) p v b h (k : loc -> heapM C) :
  (forall h, h !! p = Some (inj v) -> ld p h = Some (h, v)) -> h !! p = Some (inj v) ->
  (forall h1, h ⊆ h1 -> copies (into v) read b h1) ->
  exists q a h2,
    (out ← alloc (inj zero); v ← ld p; v ← into v; store out (inj v);; k out) h = k q h2 /\
    h !! q = None /\ h ⊆ h2 /\ h2 !! q = Some (inj a) /\
    forall h'', has_new h h2 h'' -> read h'' a = Some b.
Proof.
  intros Hld Hp Hinto. rewrite alloc_run. set (q := fresh (dom h)). assert (Hq : h !! q = None) by apply fresh_unused.
  set (h1 := <[q := inj zero]> h). assert (Hs : h ⊆ h1) by by apply insert_subseteq.
  destruct (Hinto h1 Hs) as (h' & a & E & Hs' & Hread).
  assert (Hq' : h' !! q = Some (inj zero)).
  { eapply lookup_weaken; [|exact Hs']. apply lookup_insert_eq. }
  exists q, a, (<[q := inj a]> h'). split_and!.
  - rewrite (heap_bind _ _ _ _ _ (Hld h1 (lookup_weaken _ _ _ _ Hp Hs))), (heap_bind _ _ _ _ _ E).
    by rewrite (store_run _ _ _ _ _ Hq').
  - done.
  - apply map_subseteq_spec. intros l c Hl. rewrite lookup_insert_ne by (intros ->; congruence).
    eapply lookup_weaken; [|exact Hs']. by eapply lookup_weaken.
  - apply lookup_insert_eq.
  - intros h'' Hn. apply Hread. intros l c Hl1 Hl2. apply Hn.
    + unfold h1 in Hl1. by apply lookup_insert_None in Hl1 as [? _].
    + rewrite lookup_insert_ne; [done|]. intros <-. unfold h1 in Hl1. by rewrite lookup_insert_eq in Hl1.
Qed.

(** A pointer field that is nil needs no copy; reading it needs no cells. *)
Section copies.
Context `{M : ApiMachinery, L : !ApiMachineryLaws}.

Lemma copies_ret {A B} (read : heap -> A -> option B) a b h :
  (forall h, read h a = Some b) -> copies (mret a) read b h.
Proof using Type. intros H. by exists h, a. Qed.

(** The field then points to the new cell. *)
Lemma copies_field {V B A C} (inj : V -> cell) zero ld into (read : heap -> V -> option B) p v b h
    (field : loc -> A) (read' : heap -> A -> option C) c :
  (forall h, h !! p = Some (inj v) -> ld p h = Some (h, v)) -> h !! p = Some (inj v) ->
  (forall h1, h ⊆ h1 -> copies (into v) read b h1) ->
  (forall h q a, h !! q = Some (inj a) -> read h a = Some b -> read' h (field q) = Some c) ->
  copies (out ← alloc (inj zero); v ← ld p; v ← into v; store out (inj v);; mret (field out)) read' c h.
Proof using Type.
  intros Hld Hp Hinto Hread'.
  destruct (new_copy inj zero ld into read p v b h (fun q => mret (field q)) Hld Hp Hinto)
    as (q & a & h2 & E & Hq & Hs & Ha & Hread).
  exists h2, (field q). split_and!; [exact E|done|]. intros h'' Hn. eapply Hread'; [|by apply Hread]. by apply Hn.
Qed.

Lemma RTSettings_copies v rt h : read_rt h v = Some rt -> copies (RTSettings_DeepCopyInto v) read_rt rt h.
Proof using Type.
  unfold RTSettings_DeepCopyInto, read_rt. destruct (h_Core v) as [p|] eqn:Ec.
  2: { intros [= <-]. apply copies_ret. intros h'. by rewrite Ec. }
  destruct (h !! p) as [[s| | | | | | |]|] eqn:Ep; try done. intros [= <-].
  refine (copies_field cell_string "" load_string mret (fun _ a => Some a) p s s h (fun q => set_h_Core (Some q) v)
    read_rt _ _ _ _ _).
  - intros h' E. unfold load_string. by rewrite (load_run _ _ _ _ E).
  - done.
  - intros h1 _. by apply copies_ret.
  - intros h' q a Hq [= ->]. unfold read_rt. simpl. by rewrite Hq.
Qed.

Lemma load_rt_run p v h : h !! p = Some (cell_rt v) -> load_rt p h = Some (h, v).
Proof using Type. intros E. unfold load_rt. by rewrite (load_run _ _ _ _ E). Qed.

Lemma Spec_copies v s h : read_spec h v = Some s -> copies (MCKubeSpec_DeepCopyInto v) read_spec s h.
Proof using Type.
  unfold MCKubeSpec_DeepCopyInto. intros Hs. pose proof Hs as Hs'. unfold read_spec in Hs'.
  destruct (h_RTSettings v) as [p|] eqn:Ec.
  2: { apply copies_ret. intros h'. unfold read_spec. by rewrite Ec. }
  destruct (h !! p) as [[| |r| | | | |]|] eqn:Ep; try done. destruct (read_rt h r) as [rt|] eqn:Er; [|done].
  injection Hs' as <-.
  apply (copies_field cell_rt zero_rt load_rt RTSettings_DeepCopyInto read_rt p r rt h
           (fun q => set_h_RTSettings (Some q) v) read_spec).
  - apply load_rt_run.
  - done.
  - intros h1 H1. apply RTSettings_copies. by eapply read_rt_mono.
  - intros h' q a Hq Ha. unfold read_spec. simpl. by rewrite Hq, Ha.
Qed.

Lemma Status_copies v s h : read_status h v = Some s -> copies (MCKubeStatus_DeepCopyInto v) read_status s h.
Proof using L.
  unfold MCKubeStatus_DeepCopyInto. intros Hs. pose proof Hs as Hs'. unfold read_status in Hs'.
  destruct (h_LastOverrunTime v) as [p|] eqn:Ec.
  2: { apply copies_ret. intros h'. unfold read_status. by rewrite Ec. }
  destruct (h !! p) as [[|t| | | | | |]|] eqn:Ep; try done. injection Hs' as <-.
  destruct (time_copied h p t Ep) as (q & h' & E & Hq & ->).
  exists (<[q := cell_time t]> h), (set_h_LastOverrunTime (Some q) v). split_and!.
  - by rewrite (heap_bind _ _ _ _ _ E).
  - by apply insert_subseteq.
  - intros h'' Hn. unfold read_status. simpl. by rewrite (Hn q (cell_time t)) by (done || apply lookup_insert_eq).
Qed.

Lemma MCKube_copies v mc h : read_mckube h v = Some mc -> copies (MCKube_DeepCopyInto v) read_mckube mc h.
Proof using L.
  intros (Hsp & Hst & Hm)%read_mckube_parts. unfold MCKube_DeepCopyInto.
  destruct (Spec_copies _ _ _ Hsp) as (h1 & s & E1 & H1 & Hr1).
  destruct (Status_copies _ _ h1 (read_status_mono _ _ _ _ H1 Hst)) as (h2 & t & E2 & H2 & Hr2).
  eexists h2, _. split_and!.
  - rewrite (heap_bind _ _ _ _ _ E1), (heap_bind _ _ _ _ _ E2). reflexivity.
  - by etrans.
  - intros h'' Hn. destruct (has_new_trans _ _ _ _ H1 H2 Hn) as [Hn1 Hn2].
    apply read_mckube_parts. simpl. rewrite meta_copied. split_and!; [by apply Hr1|by apply Hr2|done].
Qed.

Lemma load_mckube_run p v h : h !! p = Some (cell_mckube v) -> load_mckube p h = Some (h, v).
Proof using Type. intros E. unfold load_mckube. by rewrite (load_run _ _ _ _ E). Qed.

Lemma mckube_at_Some h p mc :
  mckube_at h p = Some mc -> exists v, h !! p = Some (cell_mckube v) /\ read_mckube h v = Some mc.
Proof using Type. unfold mckube_at. destruct (h !! p) as [[]|]; try done. eauto. Qed.

(** [DeepCopy]: the copy is in new cells, which alone determine what it reads as. *)
Lemma DeepCopy_run p mc h :
  mckube_at h p = Some mc ->
  exists q h', MCKube_DeepCopy (Some p) h = Some (h', Some q) /\ h !! q = None /\ h ⊆ h' /\
    forall h'', has_new h h' h'' -> mckube_at h'' q = Some mc.
Proof using L.
  intros (v & Hp & Hv)%mckube_at_Some.
  destruct (new_copy cell_mckube zero_mckube load_mckube MCKube_DeepCopyInto read_mckube p v mc h (fun q => mret (Some q)))
    as (q & a & h2 & E & Hq & Hs & Ha & Hread).
  - apply load_mckube_run.
  - done.
  - intros h1 H1. apply MCKube_copies. by eapply read_mckube_mono.
  - exists q, h2. split_and!; [exact E|done|done|]. intros h'' Hn. unfold mckube_at.
    rewrite (Hn q _ Hq Ha). by apply Hread.
Qed.
End copies.

(** ** Lemmas: lists *)

Section lists.
Context `{M : ApiMachinery, L : !ApiMachineryLaws}.

(** The loop over the items: [hb] is the store before the new array [arr]. *)
Lemma copyItems_run hb arr items mcs : forall done h,
  mapM (read_mckube hb) items = Some mcs -> hb ⊆ h -> hb !! arr = None ->
  h !! arr = Some (cell_items (done ++ replicate (length items) zero_mckube)) ->
  exists h' l, copyItems items arr done h = Some (h', tt) /\
    (forall x c, x <> arr -> h !! x = Some c -> h' !! x = Some c) /\
    h' !! arr = Some (cell_items (done ++ l)) /\
    forall h'', has_new hb h' h'' -> mapM (read_mckube h'') l = Some mcs.
Proof using L.
  revert mcs. induction items as [|v items IH]; intros mcs done h Hm Hs Hb Ha.
  { exists h, []. by split_and!. }
  apply mapM_Some in Hm. apply Forall2_cons_inv_l in Hm as (mc & mcs' & Hv & Hm & ->).
  destruct (MCKube_copies v mc h (read_mckube_mono _ _ _ _ Hs Hv)) as (h1 & a & E1 & Hs1 & Hr1).
  set (h2 := <[arr := cell_items ((done ++ [a]) ++ replicate (length items) zero_mckube)]> h1).
  assert (Ha1 := lookup_weaken _ _ _ _ Ha Hs1).
  destruct (IH mcs' (done ++ [a]) h2) as (h' & l & E & Hkeep & Harr & Hread); try done.
  - by apply mapM_Some.
  - apply map_subseteq_spec. intros x c Hx. unfold h2. rewrite lookup_insert_ne by (intros ->; congruence).
    eapply lookup_weaken; [|exact Hs1]. by eapply lookup_weaken.
  - apply lookup_insert_eq.
  - assert (Hkeep1 : forall x c, x <> arr -> h1 !! x = Some c -> h' !! x = Some c).
    { intros x c Hx Hc. apply Hkeep; [done|]. unfold h2. by rewrite lookup_insert_ne. }
    exists h', (a :: l). split_and!.
    + cbn [copyItems]. rewrite (heap_bind _ _ _ _ _ E1), (store_run _ _ _ _ _ Ha1).
      replace (done ++ a :: replicate (length items) zero_mckube) with ((done ++ [a]) ++ replicate (length items) zero_mckube)
        by by rewrite <- app_assoc. exact E.
    + intros x c Hx Hc. apply Hkeep1; [done|]. by eapply lookup_weaken.
    + by rewrite <- app_assoc in Harr.
    + intros h'' Hn. apply mapM_Some. constructor; [|by apply mapM_Some, Hread]. apply Hr1.
      intros x c Hx Hc. assert (x <> arr) by (intros ->; congruence). apply Hn; [|by apply Hkeep1].
      destruct (hb !! x) eqn:Eb; [|done]. by rewrite (lookup_weaken _ _ _ _ Eb Hs) in Hx.
Qed.

Lemma mapM_read_mono h h' l mcs : h ⊆ h' -> mapM (read_mckube h) l = Some mcs -> mapM (read_mckube h') l = Some mcs.
Proof using Type.
  rewrite !mapM_Some. intros Hs H. eapply Forall2_impl; [exact H|]. intros v mc. by apply read_mckube_mono.
Qed.

Lemma list_at_Some h p mcs :
  list_at h p = Some mcs <-> exists v, h !! p = Some (cell_list v) /\ read_list h v = Some mcs.
Proof using Type.
  unfold list_at. split.
  - destruct (h !! p) as [[]|]; try done. eauto.
  - intros (v & -> & H). done.
Qed.

Lemma read_list_mono h h' v mcs : h ⊆ h' -> read_list h v = Some mcs -> read_list h' v = Some mcs.
Proof using Type.
  unfold read_list. intros Hs. destruct (h_Items v) as [q|]; [|done].
  destruct (h !! q) as [[| | | | | |l|]|] eqn:E; try done. rewrite (lookup_weaken _ _ _ _ E Hs).
  intros (items & Hi & ->)%fmap_Some. by rewrite (mapM_read_mono _ _ _ _ Hs Hi).
Qed.

Lemma List_copies v mcs h : read_list h v = Some mcs -> copies (MCKubeList_DeepCopyInto v) read_list mcs h.
Proof using L.
  unfold MCKubeList_DeepCopyInto. intros Hl. pose proof Hl as Hl'. unfold read_list in Hl'. cbv zeta.
  destruct (h_Items v) as [p|] eqn:Ei.
  2: { apply copies_ret. intros h'. unfold read_list. simpl. by rewrite Ei, listmeta_copied. }
  destruct (h !! p) as [[| | | | | |items|]|] eqn:Ep; try done.
  apply fmap_Some in Hl' as (mcs' & Hl' & ->).
  set (arr := fresh (dom h)). set (h1 := <[arr := cell_items (replicate (length items) zero_mckube)]> h).
  assert (Harr : h !! arr = None) by apply fresh_unused.
  destruct (copyItems_run h arr items mcs' [] h1) as (h' & l & E & Hkeep & Ha & Hread); try done.
  { by apply insert_subseteq. } { apply lookup_insert_eq. }
  exists h', (set_h_Items (Some arr) (set_h_ListMeta (ListMeta_DeepCopyInto (h_ResourceVersion v)) v)). split_and!.
  - unfold load_items. rewrite heap_assoc, (load_run _ _ _ _ Ep).
    change ((x ← mret items; (fun items => q ← alloc (cell_items (replicate (length items) zero_mckube));
      copyItems items q [];; mret (set_h_Items (Some q) (set_h_ListMeta (ListMeta_DeepCopyInto (h_ResourceVersion v)) v))) x) h
      = Some (h', set_h_Items (Some arr) (set_h_ListMeta (ListMeta_DeepCopyInto (h_ResourceVersion v)) v))).
    cbv beta. rewrite (heap_bind (mret items) _ h h items) by done. rewrite alloc_run. fold arr. fold h1.
    by rewrite (heap_bind _ _ _ _ _ E).
  - apply map_subseteq_spec. intros x c Hx. assert (x <> arr) by (intros ->; congruence). apply Hkeep; [done|].
    unfold h1. by rewrite lookup_insert_ne.
  - intros h'' Hn. unfold read_list. cbn [h_Items h_ResourceVersion set_h_Items set_h_ListMeta].
    rewrite (Hn arr _ Harr Ha). cbn [app]. by rewrite (Hread h'' Hn), listmeta_copied.
Qed.
End lists.

(** ** Properties *)

Section properties.
Context `{M : ApiMachinery, L : !ApiMachineryLaws}.

(** A deep copy of a resource is equal to the original and independent of
    it: it reads the same whatever becomes of the cells that existed before,
    and the original reads the same whatever becomes of the new ones.  A nil
    pointer is copied to nil. *)
Theorem DeepCopy_independent h p mc :
  mckube_at h p = Some mc ->
  (exists q h', MCKube_DeepCopy (Some p) h = Some (h', Some q) /\ h !! q = None /\
     (forall h'', (forall l, h !! l = None -> h'' !! l = h' !! l) -> mckube_at h'' q = Some mc) /\
     (forall h'', (forall l, is_Some (h !! l) -> h'' !! l = h' !! l) -> mckube_at h'' p = Some mc)) /\
  MCKube_DeepCopy None h = Some (h, None).
Proof using L.
  intros Hp. split; [|done]. destruct (DeepCopy_run p mc h Hp) as (q & h' & E & Hq & Hs & Hread).
  exists q, h'. split_and!; [done|done| |].
  - intros h'' Hn. apply Hread. intros l c Hl Hc. by rewrite Hn.
  - intros h'' Ho. apply mckube_at_Some in Hp as (v & Hp & Hv).
    assert (H'' : h ⊆ h'').
    { apply map_subseteq_spec. intros l c Hl. rewrite Ho by by eexists. by eapply lookup_weaken. }
    unfold mckube_at. rewrite (lookup_weaken _ _ _ _ Hp H''). by eapply read_mckube_mono.
Qed.

(** C29: a deep copy of a list has its own array and its own items: it keeps the
    list's metadata and its resources, in their order, whatever becomes of the cells that existed
    before, those of the original's items included. *)
Theorem List_DeepCopy_independent h p mcs :
  list_at h p = Some mcs ->
  exists q h', MCKubeList_DeepCopy (Some p) h = Some (h', Some q) /\ h !! q = None /\ list_at h' p = Some mcs /\
    forall h'', (forall l, h !! l = None -> h'' !! l = h' !! l) -> list_at h'' q = Some mcs.
Proof using L.
  intros Hl. pose proof Hl as (v & Hp & Hv)%list_at_Some.
  destruct (new_copy cell_list zero_list load_list MCKubeList_DeepCopyInto read_list p v mcs h (fun q => mret (Some q)))
    as (q & a & h2 & E & Hq & Hs & Ha & Hread).
  - intros h' E. unfold load_list. by rewrite (load_run _ _ _ _ E).
  - done.
  - intros h1 H1. apply List_copies. by eapply read_list_mono.
  - exists q, h2. split_and!; [exact E|done| |].
    + apply list_at_Some. exists v. split; [by eapply lookup_weaken|by eapply read_list_mono].
    + intros h'' Hn. apply list_at_Some. exists a. split; [by rewrite Hn|]. apply Hread.
      intros l c H1 H2. by rewrite Hn.
Qed.

(** The resource once its settings point to the new core. *)
Lemma patched_reads h h4 p q c v r mc rt core nodeName :
  h !! p = Some (cell_mckube v) -> h !! q = Some (cell_rt r) -> h_RTSettings (h_Spec v) = Some q ->
  read_mckube h v = Some mc -> read_rt h r = Some rt ->
  (forall l x, l <> p -> l <> q -> h !! l = Some x -> h4 !! l = Some x) ->
  h4 !! p = Some (cell_mckube (if decide (h_Node (h_Spec v) = "") then set_h_Spec (set_h_Node nodeName (h_Spec v)) v else v)) ->
  h4 !! q = Some (cell_rt (set_h_Core (Some c) r)) -> h4 !! c = Some (cell_string core) ->
  mckube_at h4 p = Some (withCore core nodeName mc) /\ rt_at h4 q = Some (set_Core (Some core) rt).
Proof using Type.
  intros Hp Eq Hq (Hspec & Hstatus & Hmeta)%read_mckube_parts Hrt Hkeep Hp4 Hq4 Hc4.
  assert (Hr4 : read_rt h4 (set_h_Core (Some c) r) = Some (set_Core (Some core) rt)).
  { unfold read_rt. simpl. rewrite Hc4. unfold read_rt in Hrt.
    destruct (h_Core r) as [pc|]; [destruct (h !! pc) as [[]|]; try done|]; by injection Hrt as <-. }
  split; [|unfold rt_at; by rewrite Hq4].
  assert (Hst4 : read_status h4 (h_Status v) = Some (mc_Status mc)).
  { unfold read_status in Hstatus |- *. destruct (h_LastOverrunTime v.(h_Status)) as [pt|]; [|done].
    destruct (h !! pt) as [[]|] eqn:Et; try done.
    assert (Hpt : pt <> p /\ pt <> q) by (split; intros ->; congruence). by rewrite (Hkeep _ _ (proj1 Hpt) (proj2 Hpt) Et). }
  unfold mckube_at. rewrite Hp4. apply read_mckube_parts.
  unfold read_spec in Hspec. rewrite Hq, Eq, Hrt in Hspec. cbn in Hspec. injection Hspec as Hspec.
  unfold withCore. cbn. rewrite <- Hspec. cbn. case_decide as Hn; cbn; rewrite Hst4; (split_and!; [|done|done]).
  all: unfold read_spec; cbn; rewrite Hq, Hq4, Hr4, <- Hspec; reflexivity.
Qed.

Context {W : Type} `{K : !KubeClient W}.

(** C16: [patchMcKubeCore] on pointers implements the function on values the
    webhook is modelled with: the client is asked to patch the resource as it
    was, not as it has become, and the settings the handler points to have the
    new core afterwards, whether or not the patch succeeds. *)
Theorem patchMcKubeCore_refines (w : W) h p q mc rt v core nodeName :
  h !! p = Some (cell_mckube v) -> h_RTSettings (h_Spec v) = Some q ->
  mckube_at h p = Some mc -> rt_at h q = Some rt ->
  let '(w', mc', err) := patchMcKubeCore w mc core nodeName in
  exists h', patchMcKubeCore_ptr w p core nodeName h = Some (h', (w', err)) /\
    mckube_at h' p = Some mc' /\ rt_at h' q = Some (set_Core (Some core) rt).
Proof using L.
  intros Hp Hq Hmc Hrt. unfold patchMcKubeCore. destruct (PatchMCKube w mc _) as [w' err] eqn:Epatch.
  destruct (DeepCopy_run p mc h Hmc) as (b & h1 & E1 & Hb & Hs & Hread).
  unfold patchMcKubeCore_ptr. rewrite (heap_bind _ _ _ _ _ E1), alloc_run.
  set (c := fresh (dom h1)). set (h2 := <[c := cell_string core]> h1).
  assert (Hs2 : h1 ⊆ h2) by by apply insert_subseteq, fresh_unused.
  unfold mckube_at in Hmc. rewrite Hp in Hmc.
  unfold rt_at in Hrt. destruct (h !! q) as [[| |r| | | | |]|] eqn:Eq; try done.
  pose proof (lookup_weaken _ _ _ _ (lookup_weaken _ _ _ _ Hp Hs) Hs2) as Hp2.
  pose proof (lookup_weaken _ _ _ _ (lookup_weaken _ _ _ _ Eq Hs) Hs2) as Hq2.
  rewrite (heap_bind _ _ _ _ _ (load_mckube_run _ _ _ Hp2)), Hq, heap_assoc,
    (heap_bind _ _ _ _ _ (load_rt_run _ _ _ Hq2)), (store_run _ _ _ _ _ Hq2).
  set (r' := set_h_Core (Some c) r). set (h3 := <[q := cell_rt r']> h2).
  assert (Hpq : p <> q) by (intros ->; congruence).
  assert (Hp3 : h3 !! p = Some (cell_mckube v)) by (unfold h3; by rewrite lookup_insert_ne).
  rewrite (heap_bind _ _ _ _ _ (load_mckube_run _ _ _ Hp3)).
  set (v' := if decide (h_Node (h_Spec v) = "") then set_h_Spec (set_h_Node nodeName (h_Spec v)) v else v).
  set (h4 := <[p := cell_mckube v']> h3).
  assert (E4 : forall k : unit -> heapM (W * option error),
    ((if decide (h_Node (h_Spec v) = EmptyString)
      then store p (cell_mckube (set_h_Spec (set_h_Node nodeName (h_Spec v)) v)) else mret tt) ≫= k) h3 = k tt h4).
  { intros k. unfold h4, v'. case_decide; [apply (store_run _ _ _ _ _ Hp3)|]. rewrite insert_id by done. by apply heap_bind. }
  rewrite E4. clear E4.
  assert (Hkeep : forall l x, l <> p -> l <> q -> h !! l = Some x -> h4 !! l = Some x).
  { intros l x Hlp Hlq Hl. unfold h4, h3. rewrite !lookup_insert_ne by done.
    eapply lookup_weaken; [|exact Hs2]. by eapply lookup_weaken. }
  assert (Hc4 : h4 !! c = Some (cell_string core)).
  { unfold h4, h3, h2. assert (Hc : h1 !! c = None) by apply fresh_unused.
    rewrite lookup_insert_ne, lookup_insert_ne, lookup_insert_eq; [done|intros ->..].
    - apply (lookup_weaken _ _ _ _ Eq) in Hs. congruence.
    - apply (lookup_weaken _ _ _ _ Hp) in Hs. congruence. }
  assert (Hb4 : mckube_at h4 b = Some mc).
  { apply Hread. intros l x Hl Hx. unfold h4, h3. rewrite !lookup_insert_ne by (intros ->; congruence).
    by eapply lookup_weaken. }
  destruct (patched_reads h h4 p q c v r mc rt core nodeName) as [Hp4 Hrt4]; try done.
  { apply lookup_insert_eq. } { unfold h4, h3. by rewrite lookup_insert_ne, lookup_insert_eq. }
  rewrite (heap_bind _ _ h4 h4 mc) by (unfold encode; by rewrite Hb4).
  rewrite (heap_bind _ _ h4 h4 (withCore core nodeName mc)) by (unfold encode; by rewrite Hp4).
  rewrite Epatch. by exists h4.
Qed.
End properties.

(** ** Witnesses *)

Module Example_store.
(** The resource of the pod "p" at 1, with its settings at 2 and a list of it at 5. *)
Definition spec : hMCKubeSpec := mkHSpec "" "p" "LOW" 0 0 (Some 2%positive).
Definition resource : hMCKube :=
  mkHMCKube (mkMeta "mc-p" "default" ["f"] None) spec (mkHStatus "hi" (Some 4%positive) "").
Definition settings : hRTSettings := mkHRT 1000 300 500 (Some 3%positive).
Definition h : heap :=
  {[1%positive := cell_mckube resource; 2%positive := cell_rt settings; 3%positive := cell_string "7";
    4%positive := cell_time 42; 5%positive := cell_list (mkHList "v1" (Some 6%positive));
    6%positive := cell_items [resource]]}.

Definition rt : RTSettings := mkRT 1000 300 500 (Some "7").
Definition mc : MCKube :=
  mkMCKube "mc-p" "default" ["f"] None (mkSpec "" "p" "LOW" 0 0 (Some rt)) (mkStatus "hi" (Some 42) "").

Lemma at_1 : mckube_at h 1%positive = Some mc.
Proof. by vm_compute. Qed.
End Example_store.

Example DeepCopy_independent_witness :
  exists q h', MCKube_DeepCopy (Some 1%positive) Example_store.h = Some (h', Some q) /\
    Example_store.h !! q = None.
Proof.
  destruct (@DeepCopy_independent reference_machinery _ Example_store.h 1%positive Example_store.mc Example_store.at_1)
    as [(q & h' & E & Hq & _) _]. by exists q, h'.
Defined.

Example List_DeepCopy_independent_witness :
  exists q h', MCKubeList_DeepCopy (Some 5%positive) Example_store.h = Some (h', Some q).
Proof.
  destruct (@List_DeepCopy_independent reference_machinery _ Example_store.h 5%positive ("v1", [Example_store.mc]))
    as (q & h' & E & _); [by vm_compute|by exists q, h'].
Defined.

Example patchMcKubeCore_refines_witness :
  exists h' w', patchMcKubeCore_ptr (mkServer [Example_store.mc] [] [] false 200 []) 1%positive "3" "n1" Example_store.h =
      Some (h', (w', None)) /\ rt_at h' 2%positive = Some (set_Core (Some "3") Example_store.rt).
Proof.
  pose proof (@patchMcKubeCore_refines reference_machinery _ Server _ (mkServer [Example_store.mc] [] [] false 200 [])
    Example_store.h 1%positive 2%positive Example_store.mc Example_store.rt Example_store.resource "3" "n1"
    eq_refl eq_refl Example_store.at_1 eq_refl) as H.
  destruct (patchMcKubeCore _ _ _ _) as [[w' mc'] err] eqn:E. destruct H as (h' & H & _ & Hrt).
  assert (err = None) as -> by by injection E. by exists h', w'.
Defined.

(** A copy that keeps the pointer to the settings would let the patch lose the
    core: the client would compare the new resource with itself. *)
Lemma shared_settings_lose_patch :
  let shallow : heap := <[7%positive := cell_mckube Example_store.resource]> Example_store.h in
  let written := <[2%positive := cell_rt (set_h_Core None Example_store.settings)]> shallow in
  mckube_at written 7%positive = mckube_at written 1%positive.
Proof. by vm_compute. Qed.
