(* ===== verification/DataCollector.v ===== *)
(** * DataCollector: the data of the pressure handler

    [internal/ipvs/data_collector.go]: the CPU requests of a node's pods, and
    the real-time data of the [mckuberealtimes] resources, which are read
    dynamically.  Such a resource is a tree of [GoValue]s; the accessors of the
    library that reads it ([unstructured.NestedString] and the others) are an
    interface, each returning the value, whether it was found, and an error. *)
From S2P Require Import Prelude Float64 GoRuntime GoString ApiTypes Kube ApiServer.
From stdpp Require Import options.

Local Open Scope Z_scope.

(** The dynamic values ([interface{}]) of a decoded resource. *)
Inductive GoValue :=
| GoNil
| GoString (s : string)
| GoInt64 (n : Z)
| GoFloat64 (f : f64)
| GoBool (b : bool)
| GoSlice (l : list GoValue)
| GoMap (m : list (string * GoValue)).

(** [m[key]] of a [map[string]interface{}] *)
Definition map_get (m : list (string * GoValue)) (key : string) : GoValue :=
  match List.find (fun kv => String.eqb kv.1 key) m with Some kv => kv.2 | None => GoNil end.

Record RealTimeWCET := mkWCET { wcet_Node : string; RTWcet : Z }.

Record RealTimeData := mkRealTimeData {
  Criticality : string;
  RTDeadline : Z;
  RTPeriod : Z;
  RTWcets : list RealTimeWCET
}.

(** The accessors, the dynamic client and [fmt.Sprintf("%v", _)]. *)
Class Unstructured (W : Type) := {
  NestedString : GoValue -> list string -> string * bool * option error;
  NestedInt64 : GoValue -> list string -> Z * bool * option error;
  NestedSlice : GoValue -> list string -> list GoValue * bool * option error;
  ListResources : W -> string -> string -> string -> string -> result (list GoValue);
  Sprint_v : GoValue -> string
}.

(** A map that may be nil, or the error. *)
Abbreviation rt_result := (result (gmap string RealTimeData)).

Section collector.
Context `{R : GoRuntime} {W : Type} `{K : !KubeClient W, U : !Unstructured W}.

(** One iteration over the containers. *)
Definition addContainerMilli (sumMilli : Z) (c : Container) : Z :=
  match c_RequestCPU c with
  | None => sumMilli
  | Some cpu => wrap64 (sumMilli + q_MilliValue cpu)
  end.

Definition podMilliCPU (p : Pod) : Z := foldl addContainerMilli 0 (pod_Containers p).

Definition ListPodMilliCPUByNode (w : W) (namespace : string) (node : Node) : result (gmap string Z) :=
  match ListPods w (Some namespace) with
  | Err e => Err e
  | Ok items =>
      Ok (foldl (fun out p =>
        if decide (pod_NodeName p <> node_Name node) then out
        else <[pod_Name p := podMilliCPU p]> out) ∅ items)
  end.

Definition GetResourcesDynamically (w : W) (group version resource namespace : string) : result (list GoValue) :=
  ListResources w group version resource namespace.

(** [return nil, err]: with a nil error the caller gets a nil map. *)
Definition missing (err : option error) : rt_result :=
  match err with Some e => Err e | None => Ok ∅ end.

(** One element of [rtWcets]. *)
Definition readWcet (v : GoValue) : result RealTimeWCET :=
  match v with
  | GoMap m =>
      match map_get m "rtWcet" with
      | GoInt64 n => Ok (mkWCET (Sprint_v (map_get m "node")) n)
      | GoFloat64 f => Ok (mkWCET (Sprint_v (map_get m "node")) (to_int go_f2i f))
      | _ => Err "rtWcet: unsupported number type"
      end
  | _ => Err "unable to obtain map from rtWcet object"
  end.

Fixpoint readWcets (l : list GoValue) : result (list RealTimeWCET) :=
  match l with
  | [] => Ok []
  | v :: l =>
      match readWcet v with
      | Err e => Err e
      | Ok wcet => match readWcets l with Err e => Err e | Ok wcets => Ok (wcet :: wcets) end
      end
  end.

(** One resource: its name and data, or what [GetRealTimeData] returns. *)
Definition readItem (item : GoValue) : (string * RealTimeData) + rt_result :=
  let '(appName, appNameFound, appNameErr) := NestedString item ["metadata"; "name"] in
  let '(criticality, criticalityFound, criticalityErr) := NestedString item ["spec"; "criticality"] in
  let '(rtDeadline, rtDeadlineFound, rtDeadlineErr) := NestedInt64 item ["spec"; "rtDeadline"] in
  let '(rtPeriod, rtPeriodFound, rtPeriodErr) := NestedInt64 item ["spec"; "rtPeriod"] in
  if negb appNameFound || bool_decide (is_Some appNameErr) then inr (missing appNameErr)
  else if negb criticalityFound || bool_decide (is_Some criticalityErr) then inr (missing criticalityErr)
  else if negb rtDeadlineFound || bool_decide (is_Some rtDeadlineErr) then inr (missing rtDeadlineErr)
  else if negb rtPeriodFound || bool_decide (is_Some rtPeriodErr) then inr (missing rtPeriodErr)
  else
    let '(rtWcets, rtWcetsFound, rtWcetsErr) := NestedSlice item ["spec"; "rtWcets"] in
    if negb rtWcetsFound || bool_decide (is_Some rtWcetsErr) then inr (missing rtWcetsErr)
    else match readWcets rtWcets with
         | Err e => inr (Err e)
         | Ok wcets => inl (appName, mkRealTimeData criticality rtDeadline rtPeriod wcets)
         end.

Fixpoint readItems (items : list GoValue) (acc : gmap string RealTimeData) : rt_result :=
  match items with
  | [] => Ok acc
  | item :: items =>
      match readItem item with
      | inl (appName, typedData) => readItems items (<[appName := typedData]> acc)
      | inr returned => returned
      end
  end.

Definition GetRealTimeData (w : W) : rt_result :=
  match GetResourcesDynamically w "mcoperator.sdv.com" "v1" "mckuberealtimes" "default" with
  | Err e => Err e
  | Ok items => readItems items ∅
  end.
End collector.

(** ** Reference accessors

    The documented behaviour of the accessors, with a fixed list of resources:
    a missing field is not found, and a field of another type, or below a value
    that is not a map, is an error. *)
Fixpoint nested_field (v : GoValue) (fields : list string) : result (option GoValue) :=
  match fields with
  | [] => Ok (Some v)
  | f :: fields =>
      match v with
      | GoMap m =>
          match List.find (fun kv => String.eqb kv.1 f) m with
          | Some kv => nested_field kv.2 fields
          | None => Ok None
          end
      | _ => Err "accessor error"
      end
  end.

(** A typed accessor, from the projection of its type. *)
Definition nested_typed {A} (zero : A) (proj : GoValue -> option A) (v : GoValue) (fields : list string)
  : A * bool * option error :=
  match nested_field v fields with
  | Err e => (zero, false, Some e)
  | Ok None => (zero, false, None)
  | Ok (Some v) => match proj v with Some a => (a, true, None) | None => (zero, false, Some "accessor error") end
  end.

Definition reference_accessors (items : list GoValue) : Unstructured Server := {|
  NestedString := nested_typed EmptyString (fun v => match v with GoString s => Some s | _ => None end);
  NestedInt64 := nested_typed 0 (fun v => match v with GoInt64 n => Some n | _ => None end);
  NestedSlice := nested_typed [] (fun v => match v with GoSlice l => Some l | _ => None end);
  ListResources _ _ _ _ _ := Ok items;
  Sprint_v v := match v with GoString s => s | _ => "<nil>" end
|}.

(** The resource of an application with a criticality. *)
Definition sample_resource (name : string) (spec : list (string * GoValue)) : GoValue :=
  GoMap [("metadata", GoMap [("name", GoString name)]);
         ("spec", GoMap (spec ++ [("rtDeadline", GoInt64 10); ("rtPeriod", GoInt64 10);
                                  ("rtWcets", GoSlice [GoMap [("node", GoString "n1"); ("rtWcet", GoInt64 5)]])]))].

(** ** Properties *)

(** A [mckuberealtimes] resource that lacks one of the fields the collector
    reads hides all of them: [GetRealTimeData] returns an empty map and no
    error, whatever the other resources hold. *)
Theorem GetRealTimeData_incomplete `{R : GoRuntime} {W : Type} `{U : !Unstructured W} (w : W) items before item after :
  ListResources w "mcoperator.sdv.com" "v1" "mckuberealtimes" "default" = Ok items ->
  items = before ++ item :: after ->
  Forall (fun i => exists kv, readItem i = inl kv) before ->
  (exists v, NestedString item ["metadata"; "name"] = (v, true, None)) ->
  (exists v, NestedString item ["spec"; "criticality"] = (v, false, None)) ->
  GetRealTimeData w = Ok ∅.
Proof.
  intros Hl -> Hb [name Hname] [crit Hcrit]. unfold GetRealTimeData, GetResourcesDynamically. rewrite Hl. clear Hl.
  generalize (∅ : gmap string RealTimeData) at 1. induction Hb as [|i before [[app d] Hi] _ IH]; intros acc; simpl.
  - assert (E : readItem item = inr (Ok ∅)); [|by rewrite E].
    unfold readItem. rewrite Hname, Hcrit.
    destruct (NestedInt64 item ["spec"; "rtDeadline"]) as [[? ?] ?].
    destruct (NestedInt64 item ["spec"; "rtPeriod"]) as [[? ?] ?]. done.
  - by rewrite Hi.
Qed.

(** The resource of an application of criticality LOW. *)
Definition sample_resources : list GoValue := [sample_resource "app" [("criticality", GoString "LOW")]].

Example GetRealTimeData_incomplete_witness :
  @GetRealTimeData reference_runtime Server
    (reference_accessors (sample_resources ++ [sample_resource "b" []])) (mkServer [] [] [] false 200 []) = Ok ∅.
Proof.
  apply (@GetRealTimeData_incomplete reference_runtime Server _ _ (sample_resources ++ [sample_resource "b" []])
    sample_resources (sample_resource "b" []) []).
  - reflexivity.
  - reflexivity.
  - constructor; [|constructor]. eexists (_, _). vm_compute. reflexivity.
  - exists "b". vm_compute. reflexivity.
  - exists "". vm_compute. reflexivity.
Defined.
