(* ===== verification/Pressure.v ===== *)
(** * Pressure: degradation and eviction under CPU pressure

    [internal/ipvs/pod_spec_handler.go] and [internal/ipvs/event_handler.go].
    [PressureState] is a map from nodes to records; the handler updates the
    record of its node in place, here by returning the new one.  The pods of a
    node are objects shared by the lists the handler builds; a call that stores
    the server's answer in a pod is an update of the pod of that name in the
    list (names are unique in the one namespace the handler lists).
    [ProcessCurrentTier] calls itself with a tier of higher rank; [tierFuel]
    calls are enough, as [ProcessCurrentTier_returns] shows. *)
From S2P Require Import Prelude Float64 GoRuntime GoString GoParse ApiTypes Kube ApiServer Budget Conversions DataCollector.
From stdpp Require Import options.

Local Open Scope Z_scope.

(** ** Constants and state *)

Definition AnnUsageKey : string := "mckube.sdv.com/cpu-usage".
Definition AnnDurKey : string := "mckube.sdv.com/cpu-over90-duration-s".
Definition AnnCpuBusyKey : string := "mckube.sdv.com/isCpuBusy".
Definition TargetNamespace : string := "default".
Definition TierMissingTolerance : Z := 2.
Definition MinMilli : Z := 10.

(** The ranking of this package; equal to that of [cpupool]. *)
Definition CriticalityRank : gmap string Z := {["LOW" := 0; "MIDDLE" := 1; "HIGH" := 2]}.

Record PerTierState := mkTier {
  ElapsedSec : Z;
  DegradeCount : Z;
  EvictTried : bool;
  MissingTicks : Z;
  LastDegradeTime : Z
}.

Definition newTier : PerTierState := mkTier 0 0 false 0 0.

Record NodePressureState := mkPressure {
  AboveSec : Z;
  Tiers : list string;
  CurrentTierIdx : Z;
  CurrentTier : string;
  PerTier : gmap string PerTierState
}.

Definition newPressure : NodePressureState := mkPressure 0 [] 0 EmptyString ∅.

#[export] Instance PerTierState_eq_dec : EqDecision PerTierState.
Proof. solve_decision. Defined.
#[export] Instance NodePressureState_eq_dec : EqDecision NodePressureState.
Proof. solve_decision. Defined.

(** [state.PerTier[tier]], created when it is missing. *)
Definition tierState (state : NodePressureState) (tier : string) : PerTierState :=
  default newTier (PerTier state !! tier).

Definition put_tier (tier : string) (pts : PerTierState) (state : NodePressureState) : NodePressureState :=
  mkPressure (AboveSec state) (Tiers state) (CurrentTierIdx state) (CurrentTier state) (<[tier := pts]> (PerTier state)).

Definition set_current (idx : Z) (tier : string) (state : NodePressureState) : NodePressureState :=
  mkPressure (AboveSec state) (Tiers state) idx tier (PerTier state).

Definition set_missing (n : Z) (pts : PerTierState) : PerTierState :=
  mkTier (ElapsedSec pts) (DegradeCount pts) (EvictTried pts) n (LastDegradeTime pts).
Definition set_degraded (count last : Z) (pts : PerTierState) : PerTierState :=
  mkTier (ElapsedSec pts) count (EvictTried pts) (MissingTicks pts) last.
Definition set_evict_tried (pts : PerTierState) : PerTierState :=
  mkTier (ElapsedSec pts) (DegradeCount pts) true (MissingTicks pts) (LastDegradeTime pts).

(** ** Selecting pods *)

(** [p.Labels["sdv.com"]] *)
Definition appOf (p : Pod) : string := str_get (pod_Labels p) "sdv.com".

Definition FilterPodsByCriticality (pods : list Pod) (rtData : gmap string RealTimeData) (crit : string) : list Pod :=
  foldl (fun out p =>
    let app := appOf p in
    if decide (app = EmptyString) then out
    else match rtData !! app with
         | Some rt => if decide (Criticality rt = crit) then out ++ [p] else out
         | None => out
         end) [] pods.

(** [best] is nil before the first pod with a known request. *)
Definition PickHighestCPUFromMilli (pods : list Pod) (podMilli : gmap string Z) : option Pod :=
  (foldl (fun '(best, bestMilli) p =>
    match podMilli !! pod_Name p with
    | Some m => if bestMilli <? m then (Some p, m) else (best, bestMilli)
    | None => (best, bestMilli)
    end) (None, -1) pods).1.

Definition HasActionableInTier (pods : list Pod) (rtData : gmap string RealTimeData) (tier : string) : bool :=
  let targets := FilterPodsByCriticality pods rtData tier in
  match targets with
  | [] => false
  | _ => existsb (fun p => existsb (fun c =>
           match c_RequestCPU c with Some cpu => MinMilli <? q_MilliValue cpu | None => false end)
           (pod_Containers p)) targets
  end.

(** ** Tiers *)

(** The comparison and swap of the two nested loops. *)
Definition exchange (tiers : list string) (i j : nat) : list string :=
  match tiers !! i, tiers !! j with
  | Some a, Some b =>
      if default 0 (CriticalityRank !! b) <? default 0 (CriticalityRank !! a)
      then <[i := b]> (<[j := a]> tiers) else tiers
  | _, _ => tiers
  end.

Definition sortTiers (tiers : list string) : list string :=
  let n := length tiers in
  foldl (fun tiers i => foldl (fun tiers j => exchange tiers i j) tiers (seq (S i) (n - S i))) tiers (seq 0 n).

Definition seenTiers (pods : list Pod) (rtData : gmap string RealTimeData) : gmap string bool :=
  foldl (fun seen p =>
    let app := appOf p in
    if decide (app = EmptyString) then seen
    else match rtData !! app with
         | Some rt => match CriticalityRank !! Criticality rt with
                      | Some _ => <[Criticality rt := true]> seen
                      | None => seen
                      end
         | None => seen
         end) ∅ pods.

Definition CollectSortedTiers `{GoRuntime} (pods : list Pod) (rtData : gmap string RealTimeData) : list string :=
  sortTiers (go_range "CollectSortedTiers" (seenTiers pods rtData)).*1.

(** The position of a tier in the list, as the loops with [break] find it. *)
Fixpoint tierIndex (tier : string) (tiers : list string) (i : Z) : option Z :=
  match tiers with
  | [] => None
  | t :: tiers => if decide (t = tier) then Some i else tierIndex tier tiers (i + 1)
  end.

Definition ReindexCurrentTier (state : NodePressureState) : NodePressureState :=
  match Tiers state with
  | [] => set_current 0 EmptyString state
  | t0 :: _ =>
      match tierIndex (CurrentTier state) (Tiers state) 0 with
      | Some i => set_current i (CurrentTier state) state
      | None => set_current 0 t0 state
      end
  end.

Definition NextHigherTier (cur : string) (tiers : list string) : option string :=
  match CriticalityRank !! cur with
  | None => None
  | Some curRank =>
      let '(best, _) := foldl (fun '(best, bestRank) t =>
        match CriticalityRank !! t with
        | Some r => if (curRank <? r) && (r <? bestRank) then (t, r) else (best, bestRank)
        | None => (best, bestRank)
        end) (EmptyString, 2 ^ 30) tiers in
      if decide (best = EmptyString) then None else Some best
  end.

(** Makes [nextTier] current. *)
Definition switchTier (nextTier : string) (state : NodePressureState) : NodePressureState :=
  let state := set_current (default (CurrentTierIdx state) (tierIndex nextTier (Tiers state) 0)) nextTier state in
  match PerTier state !! nextTier with
  | Some _ => state
  | None => put_tier nextTier newTier state
  end.

(** ** Acting on pods *)

(** [int64(float64(oldMilli) * (1.0 - ratio))], at least [MinMilli] *)
Definition degradedMilli `{GoRuntime} (ratio : f64) (oldMilli : Z) : Z :=
  let newMilli := to_int go_f2i (fmul (of_int oldMilli) (fsub (of_int 1) ratio)) in
  if newMilli <? MinMilli then MinMilli else newMilli.

(** The entry of one container, if it has a CPU request. *)
Definition degradeContainer `{GoRuntime} (ratio : f64) (c : Container) : option containerPatch :=
  match c_RequestCPU c with
  | None => None
  | Some reqCPU =>
      if q_IsZero reqCPU then None
      else Some (mkContainerPatch (c_Name c) (itoa (degradedMilli ratio (q_MilliValue reqCPU)) +:+ "m")
                   ((fun lim => (lim.1, q_String lim.2)) <$> c_Limits c))
  end.

(** [degradeRatio] *)
Definition degradeRatio : f64 := literal 2 10.

Section handler.
Context `{R : GoRuntime} {W : Type} `{K : !KubeClient W, U : !Unstructured W}.

(** The second component is the pod as the call leaves it. *)
Definition DegradePodRequests (w : W) (pod : Pod) (ratio : f64) : W * Pod * option error :=
  let pr := omap (degradeContainer ratio) (pod_Containers pod) in
  match pr with
  | [] => (w, pod, None)
  | _ =>
      match ResizePod w pod pr with
      | (w, Ok pod) => (w, pod, None)
      | (w, Err e) => (w, pod, Some e)
      end
  end.

Definition EvictPod (w : W) (pod : Pod) : W * Pod * option error :=
  let pod := set_pod_labels (<["evicted" := "true"]> (pod_Labels pod)) pod in
  let '(w, updated) := UpdatePod w pod in
  let pod := match updated with Ok pod => pod | Err _ => pod end in
  let '(w, err) := CreateEviction w pod in
  (w, pod, err).

(** A pod of the lists changes: the pointers in all of them see it. *)
Definition update_pod (touched : option Pod) (pods : list Pod) : list Pod :=
  match touched with
  | Some p => (fun q => if decide (pod_Name q = pod_Name p) then p else q) <$> pods
  | None => pods
  end.

(** The degradation block of [ProcessCurrentTier]; the last component is the
    pod it changed. *)
Definition degradeStep (w : W) (pts : PerTierState) (targets : list Pod) (podMilli : gmap string Z) (overSec : Z)
  : W * PerTierState * option Pod :=
  if (1 <=? overSec) && negb (EvictTried pts) then
    let shouldDegrade := (DegradeCount pts =? 0) || (3 <=? wrap64 (overSec - LastDegradeTime pts)) in
    if shouldDegrade : bool then
      match PickHighestCPUFromMilli targets podMilli with
      | None => (w, pts, None)
      | Some top =>
          let m := default 0 (podMilli !! pod_Name top) in
          let currentMilli := if 0 <? m then m else 0 in
          if MinMilli <? currentMilli then
            match DegradePodRequests w top degradeRatio with
            | (w, top, Some _) => (w, pts, Some top)
            | (w, top, None) => (w, set_degraded (wrap64 (DegradeCount pts + 1)) overSec pts, Some top)
            end
          else (w, set_degraded 999 (LastDegradeTime pts) pts, None)
      end
    else (w, pts, None)
  else (w, pts, None).

(** The eviction block. *)
Definition evictStep (w : W) (pts : PerTierState) (targets : list Pod) (podMilli : gmap string Z) (overSec : Z)
  : W * PerTierState * option Pod :=
  if (10 <=? overSec) && (0 <? DegradeCount pts) && negb (EvictTried pts) then
    match PickHighestCPUFromMilli targets podMilli with
    | None => (w, pts, None)
    | Some victim =>
        let '(w, victim, _) := EvictPod w victim in
        (w, set_evict_tried pts, Some victim)
    end
  else (w, pts, None).

(** The escalation block. *)
Definition escalateStep (pts : PerTierState) (state : NodePressureState) (nodePods : list Pod)
  (rtData : gmap string RealTimeData) (curTier : string) : NodePressureState :=
  if (0 <? DegradeCount pts) && EvictTried pts then
    if HasActionableInTier nodePods rtData curTier then state
    else match NextHigherTier curTier (Tiers state) with
         | Some nextTier => switchTier nextTier state
         | None => state
         end
  else state.

Fixpoint ProcessCurrentTier (fuel : nat) (w : W) (state : NodePressureState) (nodePods : list Pod)
  (rtData : gmap string RealTimeData) (podMilli : gmap string Z) (overSec : Z) : option (W * NodePressureState) :=
  match fuel with
  | O => None
  | S fuel =>
      let curTier := CurrentTier state in
      let pts := tierState state curTier in
      let targets := FilterPodsByCriticality nodePods rtData curTier in
      match targets with
      | [] =>
          let pts := set_missing (wrap64 (MissingTicks pts + 1)) pts in
          let state := put_tier curTier pts state in
          if TierMissingTolerance <=? MissingTicks pts then
            match NextHigherTier curTier (Tiers state) with
            | Some nextTier =>
                ProcessCurrentTier fuel w (switchTier nextTier state) nodePods rtData podMilli overSec
            | None => Some (w, state)
            end
          else Some (w, state)
      | _ =>
          let pts := set_missing 0 pts in
          let '(w, pts, touched) := degradeStep w pts targets podMilli overSec in
          let nodePods := update_pod touched nodePods in
          let targets := update_pod touched targets in
          let '(w, pts, touched) := evictStep w pts targets podMilli overSec in
          let nodePods := update_pod touched nodePods in
          Some (w, escalateStep pts (put_tier curTier pts state) nodePods rtData curTier)
      end
  end.

(** The ranks 0, 1 and 2 and one more call. *)
Definition tierFuel : nat := 4.

(** The duration annotation; 0 when it is absent, negative or unreadable. *)
Definition parseOverSec (overSecStr : string) : Z :=
  if decide (overSecStr = EmptyString) then 0
  else match ParseInt_10_64 overSecStr with
       | Some sec => if 0 <=? sec then sec else 0
       | None => 0
       end.

(** The state of the handler when it reaches [ProcessCurrentTier]. *)
Definition refreshState (state : NodePressureState) (tiers : list string) (overSec : Z) : NodePressureState :=
  ReindexCurrentTier (mkPressure overSec tiers (CurrentTierIdx state) (CurrentTier state) (PerTier state)).

Definition initialTier (state : NodePressureState) : NodePressureState :=
  if bool_decide (CurrentTier state = EmptyString) || (Z.of_nat (length (Tiers state)) <=? CurrentTierIdx state) then
    match Tiers state with
    | [] => state
    | t0 :: _ =>
        let state := set_current 0 t0 state in
        match PerTier state !! t0 with Some _ => state | None => put_tier t0 newTier state end
    end
  else state.

Definition HandleNodeCPUPressure (w : W) (PressureState : gmap string NodePressureState) (nodeName : string)
  : option (W * gmap string NodePressureState) :=
  match GetNode w nodeName with
  | Err _ => Some (w, PressureState)
  | Ok node =>
      let ann := node_Annotations node in
      let cpuUsageStr := TrimSpace (str_get ann AnnUsageKey) in
      if decide (cpuUsageStr = EmptyString) then Some (w, PressureState)
      else if negb (ParseFloat_ok cpuUsageStr) then Some (w, PressureState)
      else
        let overSec := parseOverSec (TrimSpace (str_get ann AnnDurKey)) in
        match GetRealTimeData w with
        | Err _ => Some (w, PressureState)
        | Ok rtData =>
            match ListPods w (Some TargetNamespace) with
            | Err _ => Some (w, PressureState)
            | Ok items =>
                let nodePods := filter (fun p => pod_NodeName p = nodeName) items in
                match nodePods with
                | [] => Some (w, PressureState)
                | _ =>
                    match ListPodMilliCPUByNode w TargetNamespace node with
                    | Err _ => Some (w, PressureState)
                    | Ok podMilli =>
                        let state := default newPressure (PressureState !! nodeName) in
                        let state := refreshState state (CollectSortedTiers nodePods rtData) overSec in
                        match Tiers state with
                        | [] => Some (w, <[nodeName := state]> PressureState)
                        | _ =>
                            match ProcessCurrentTier tierFuel w (initialTier state) nodePods rtData podMilli overSec with
                            | Some (w, state) => Some (w, <[nodeName := state]> PressureState)
                            | None => None
                            end
                        end
                    end
                end
            end
        end
  end.
End handler.

(** ** Tiers: lemmas *)

Definition allTiers : list string := ["LOW"; "MIDDLE"; "HIGH"].

Lemma ranked_tiers c : is_Some (CriticalityRank !! c) <-> c ∈ allTiers.
Proof.
  unfold CriticalityRank, allTiers. rewrite !elem_of_cons, elem_of_nil. split.
  - intros [r Hr]. apply lookup_insert_Some in Hr as [[<- _]|[_ Hr]]; [auto|].
    apply lookup_insert_Some in Hr as [[<- _]|[_ Hr]]; [auto|].
    apply lookup_singleton_Some in Hr as [<- _]. auto.
  - intros [->|[->|[->|[]]]]; eexists; vm_compute; reflexivity.
Qed.

(** The pods of a criticality, by a filter. *)
Definition hasTier (rtData : gmap string RealTimeData) (crit : string) (p : Pod) : Prop :=
  appOf p <> EmptyString /\ Criticality <$> rtData !! appOf p = Some crit.

#[export] Instance hasTier_dec rtData crit p : Decision (hasTier rtData crit p).
Proof. unfold hasTier. apply _. Defined.

Lemma FilterPods_filter pods rtData crit :
  FilterPodsByCriticality pods rtData crit = filter (hasTier rtData crit) pods.
Proof.
  unfold FilterPodsByCriticality.
  assert (Hgen : forall l out, foldl (fun out p =>
    let app := appOf p in
    if decide (app = EmptyString) then out
    else match rtData !! app with
         | Some rt => if decide (Criticality rt = crit) then out ++ [p] else out
         | None => out
         end) out l = out ++ filter (hasTier rtData crit) l); [|by rewrite Hgen].
  induction l as [|p l IH]; intros out; [by rewrite app_nil_r|]. cbn [foldl]. cbv zeta. rewrite IH, filter_cons.
  destruct (decide (hasTier rtData crit p)) as [[Ha Hc]|Hn].
  - rewrite decide_False by done. destruct (rtData !! appOf p) as [rt|]; [|done]. injection Hc as Hc.
    rewrite decide_True by done. by rewrite <- app_assoc.
  - case_decide as Ha; [done|]. destruct (rtData !! appOf p) as [rt|] eqn:E; [|done].
    case_decide as Hc; [|done]. destruct Hn. split; [done|]. rewrite E. simpl. by rewrite Hc.
Qed.

Lemma seenTiers_lookup pods rtData c :
  is_Some (seenTiers pods rtData !! c) <-> c ∈ allTiers /\ Exists (hasTier rtData c) pods.
Proof.
  rewrite <- ranked_tiers. unfold seenTiers.
  assert (Hgen : forall (l : list Pod) (seen : gmap string bool), is_Some (foldl (fun seen p =>
    let app := appOf p in
    if decide (app = EmptyString) then seen
    else match rtData !! app with
         | Some rt => match CriticalityRank !! Criticality rt with
                      | Some _ => <[Criticality rt := true]> seen
                      | None => seen
                      end
         | None => seen
         end) seen l !! c) <-> is_Some (seen !! c) \/ (is_Some (CriticalityRank !! c) /\ Exists (hasTier rtData c) l)).
  { induction l as [|p l IH]; intros seen; [rewrite Exists_nil; cbn; tauto|].
    cbn [foldl]. cbv zeta. rewrite IH, Exists_cons. clear IH. unfold hasTier at 2.
    destruct (decide (appOf p = EmptyString)) as [E|E]; [tauto|].
    destruct (rtData !! appOf p) as [rt|]; simpl; [|split; [tauto|intros [?|(? & [[_ ?]|?])]; [tauto|done|tauto]]].
    destruct (CriticalityRank !! Criticality rt) as [r|] eqn:Er.
    - destruct (decide (Criticality rt = c)) as [<-|Hc].
      + rewrite lookup_insert_eq. split; [intros _; right; eauto|intros _; left; eauto].
      + rewrite lookup_insert_ne by done. split; [tauto|]. intros [?|(? & [[_ [= ?]]|?])]; tauto.
    - split; [tauto|]. intros [?|(Hr & [[_ [= <-]]|?])]; [tauto| |tauto].
      rewrite Er in Hr. by destruct Hr. }
  rewrite Hgen, lookup_empty. split; [intros [[? ?]|?]; [done|done]|by right].
Qed.

(** Sorting any enumeration of a set of tiers gives the tiers in order. *)
Lemma sortTiers_subset l :
  NoDup l -> (forall c, c ∈ l -> c ∈ allTiers) -> sortTiers l = filter (fun c => c ∈ l) allTiers.
Proof.
  intros Hnd Hl. unfold allTiers in *.
  assert (Hsub : l ⊆+ ["LOW"; "MIDDLE"; "HIGH"]) by by apply NoDup_submseteq.
  pose proof (submseteq_length _ _ Hsub) as Hlen.
  assert (Hin : Forall (fun c => c = "LOW" \/ c = "MIDDLE" \/ c = "HIGH") l).
  { apply Forall_forall. intros c Hc%Hl. rewrite !elem_of_cons, elem_of_nil in Hc. tauto. }
  destruct l as [|a [|b [|c [|d l]]]]; simpl in Hlen; [done| | | |lia];
    rewrite ?Forall_cons in Hin; rewrite ?NoDup_cons, ?not_elem_of_cons in Hnd.
  - destruct Hin as ([->|[->| ->]] & _); vm_compute; reflexivity.
  - destruct Hin as ([->|[->| ->]] & [->|[->| ->]] & _); first [vm_compute; reflexivity|tauto].
  - destruct Hin as ([->|[->| ->]] & [->|[->| ->]] & [->|[->| ->]] & _); first [vm_compute; reflexivity|tauto].
Qed.

Lemma CollectSortedTiers_filter `{R : GoRuntime} pods rtData :
  CollectSortedTiers pods rtData = filter (fun c => Exists (hasTier rtData c) pods) allTiers.
Proof.
  unfold CollectSortedTiers. set (l := (go_range "CollectSortedTiers" (seenTiers pods rtData)).*1).
  assert (Hl : forall c, c ∈ l <-> c ∈ allTiers /\ Exists (hasTier rtData c) pods).
  { intros c. unfold l. by rewrite go_range_keys, seenTiers_lookup. }
  rewrite sortTiers_subset; [|apply go_range_NoDup|by intros c [? _]%Hl].
  apply filter_ext_elem. intros c Hc. rewrite Hl. tauto.
Qed.

Definition tierRank (c : string) : Z := default 0 (CriticalityRank !! c).

Lemma tierRank_bound c : 0 <= tierRank c <= 2.
Proof.
  unfold tierRank. destruct (CriticalityRank !! c) as [r|] eqn:E; simpl; [|lia].
  assert (Hc : c ∈ allTiers) by (apply ranked_tiers; eauto). unfold allTiers in Hc.
  rewrite !elem_of_cons, elem_of_nil in Hc. destruct Hc as [->|[->|[->|[]]]]; vm_compute in E; injection E as <-; lia.
Qed.

(** The loop of [NextHigherTier]: the pair it carries is the tier of least rank
    above [cur] among those seen. *)
Lemma NextHigherTier_fold curRank l best :
  let step := fun '(best, bestRank) t =>
    match CriticalityRank !! t with
    | Some r => if (curRank <? r) && (r <? bestRank) then (t, r) else (best, bestRank)
    | None => (best, bestRank)
    end in
  let '(b, r) := foldl step best l in
  r <= best.2 /\
  (forall t rt, t ∈ l -> CriticalityRank !! t = Some rt -> curRank < rt -> r <= rt) /\
  ((b, r) = best \/ (b ∈ l /\ CriticalityRank !! b = Some r /\ curRank < r)).
Proof.
  intros step. revert best. induction l as [|t l IH]; intros [b0 r0]; cbn [foldl].
  - split_and!; [simpl; lia|by intros ? ? ?%not_elem_of_nil|by left].
  - specialize (IH (step (b0, r0) t)). destruct (foldl step (step (b0, r0) t) l) as [b r].
    destruct IH as (IH1 & IH2 & IH3). unfold step in IH1, IH3.
    destruct (CriticalityRank !! t) as [rt|] eqn:Et.
    + destruct ((curRank <? rt) && (rt <? r0)) eqn:E; z_bools; simpl in IH1 |- *.
      * split_and!; [lia| |].
        -- intros t' rt' [->|Hin]%elem_of_cons Ht' Hlt; [|by eapply IH2].
           rewrite Et in Ht'. injection Ht' as <-. lia.
        -- right. destruct IH3 as [[= -> ->]|(? & ? & ?)]; [by split; [left|]|split_and!; try done; by right].
      * split_and!; [lia| |].
        -- intros t' rt' [->|Hin]%elem_of_cons Ht' Hlt; [|by eapply IH2].
           rewrite Et in Ht'. injection Ht' as <-. destruct E; z_bools; lia.
        -- destruct IH3 as [->|(? & ? & ?)]; [by left|right; split_and!; try done; by right].
    + simpl in IH1 |- *. split_and!; [done| |].
      * intros t' rt' [->|Hin]%elem_of_cons Ht' Hlt; [congruence|by eapply IH2].
      * destruct IH3 as [->|(? & ? & ?)]; [by left|right; split_and!; try done; by right].
Qed.

(** [NextHigherTier] returns the listed tier of least rank above the current
    one, and nothing exactly when there is none. *)
Lemma NextHigherTier_Some cur tiers next :
  NextHigherTier cur tiers = Some next ->
  next ∈ tiers /\ is_Some (CriticalityRank !! cur) /\ tierRank cur < tierRank next /\
  (forall t, t ∈ tiers -> is_Some (CriticalityRank !! t) -> tierRank t <= tierRank cur \/ tierRank next <= tierRank t).
Proof.
  unfold NextHigherTier. destruct (CriticalityRank !! cur) as [curRank|] eqn:Ecur; [|done].
  pose proof (NextHigherTier_fold curRank tiers (EmptyString, 2 ^ 30)) as Hf. cbv zeta in Hf.
  destruct (foldl _ _ tiers) as [b r]. destruct Hf as (_ & Hmin & Hb).
  case_decide as Hne; [done|]. intros [= <-]. destruct Hb as [[= -> _]|(Hin & Hr & Hlt)]; [done|].
  unfold tierRank. rewrite Ecur, Hr. simpl. split_and!; [done|eauto|done|].
  intros t Ht [rt Hrt]. rewrite Hrt. simpl. destruct (Z.le_gt_cases rt curRank) as [|Hgt]; [by left|].
  right. by apply (Hmin t).
Qed.

Lemma NextHigherTier_None cur tiers :
  NextHigherTier cur tiers = None -> is_Some (CriticalityRank !! cur) ->
  forall t, t ∈ tiers -> is_Some (CriticalityRank !! t) -> tierRank t <= tierRank cur.
Proof.
  unfold NextHigherTier. intros H [curRank Ecur]. rewrite Ecur in H.
  pose proof (NextHigherTier_fold curRank tiers (EmptyString, 2 ^ 30)) as Hf. cbv zeta in Hf.
  destruct (foldl _ _ tiers) as [b r]. destruct Hf as (_ & Hmin & Hb).
  case_decide as Hne; [|done]. intros t Ht [rt Hrt]. unfold tierRank at 2. rewrite Ecur. unfold tierRank. rewrite Hrt. simpl.
  destruct Hb as [[= -> ->]|(_ & Hr & _)].
  - pose proof (tierRank_bound t) as Hb. unfold tierRank in Hb. rewrite Hrt in Hb. simpl in Hb.
    destruct (Z.le_gt_cases rt curRank) as [|Hgt]; [done|]. specialize (Hmin t rt Ht Hrt Hgt). lia.
  - subst b. assert (EmptyString ∈ allTiers) as Hin by (apply ranked_tiers; eauto).
    unfold allTiers in Hin. rewrite !elem_of_cons, elem_of_nil in Hin. by destruct Hin as [|[|[|]]].
Qed.

(** [PickHighestCPUFromMilli]: a pod of greatest known request. *)
Lemma PickHighest_fold podMilli (l : list Pod) (best : option Pod * Z) :
  let step := fun '(best, bestMilli) p =>
    match podMilli !! pod_Name p with
    | Some m => if bestMilli <? m then (Some p, m) else (best, bestMilli)
    | None => (best, bestMilli)
    end in
  let '(b, m) := foldl step best l in
  best.2 <= m /\
  (forall p mp, p ∈ l -> (podMilli : gmap string Z) !! pod_Name p = Some mp -> mp <= m) /\
  ((b, m) = best \/ exists p, b = Some p /\ p ∈ l /\ podMilli !! pod_Name p = Some m /\ best.2 < m).
Proof.
  intros step. revert best. induction l as [|p l IH]; intros [b0 m0]; cbn [foldl].
  - split_and!; [simpl; lia|by intros ? ? ?%not_elem_of_nil|by left].
  - specialize (IH (step (b0, m0) p)). destruct (foldl step (step (b0, m0) p) l) as [b m].
    destruct IH as (IH1 & IH2 & IH3). unfold step in IH1, IH3.
    destruct (podMilli !! pod_Name p) as [mp|] eqn:Ep; [destruct (m0 <? mp) eqn:E; z_bools|];
      simpl in IH1, IH3 |- *.
    + split_and!; [lia| |].
      * intros p' mp' [->|Hin]%elem_of_cons Hp'; [|by eapply IH2]. rewrite Ep in Hp'. injection Hp' as <-. lia.
      * right. destruct IH3 as [[= -> ->]|(q & -> & Hq & Hm & Hlt)]; [exists p; split_and!; try done; by left|].
        exists q. split_and!; try done; [by right|lia].
    + split_and!; [lia| |].
      * intros p' mp' [->|Hin]%elem_of_cons Hp'; [|by eapply IH2]. rewrite Ep in Hp'. injection Hp' as <-. lia.
      * destruct IH3 as [->|(q & -> & Hq & Hm & Hlt)]; [by left|right].
        exists q. split_and!; try done. by right.
    + split_and!; [lia| |].
      * intros p' mp' [->|Hin]%elem_of_cons Hp'; [congruence|by eapply IH2].
      * destruct IH3 as [->|(q & -> & Hq & Hm & Hlt)]; [by left|right].
        exists q. split_and!; try done. by right.
Qed.

Lemma PickHighest_Some pods podMilli p :
  PickHighestCPUFromMilli pods podMilli = Some p ->
  p ∈ pods /\ exists m, podMilli !! pod_Name p = Some m /\
    forall q mq, q ∈ pods -> podMilli !! pod_Name q = Some mq -> mq <= m.
Proof.
  unfold PickHighestCPUFromMilli. pose proof (PickHighest_fold podMilli pods (None, -1)) as Hf. cbv zeta in Hf.
  destruct (foldl _ _ pods) as [b m]. destruct Hf as (_ & Hmax & Hb). simpl. intros ->.
  destruct Hb as [[=]|(q & [= <-] & Hin & Hm & _)]. split; [done|]. by exists m.
Qed.

Lemma PickHighest_None pods podMilli :
  PickHighestCPUFromMilli pods podMilli = None ->
  forall q mq, q ∈ pods -> podMilli !! pod_Name q = Some mq -> mq < 0.
Proof.
  unfold PickHighestCPUFromMilli. pose proof (PickHighest_fold podMilli pods (None, -1)) as Hf. cbv zeta in Hf.
  destruct (foldl _ _ pods) as [b m]. destruct Hf as (_ & Hmax & Hb). simpl. intros ->.
  destruct Hb as [[= ->]|(q & [=] & _)]. intros q mq Hq Hmq. specialize (Hmax q mq Hq Hmq). lia.
Qed.

(** [tierIndex] is the position of the first occurrence. *)
Lemma tierIndex_spec tier tiers i :
  match tierIndex tier tiers i with
  | Some j => exists k : nat, j = i + Z.of_nat k /\ tiers !! k = Some tier
  | None => tier ∉ tiers
  end.
Proof.
  revert i. induction tiers as [|t tiers IH]; intros i; cbn [tierIndex]; [apply not_elem_of_nil|].
  case_decide as Ht; [exists 0%nat; subst; split; [lia|done]|].
  specialize (IH (i + 1)). destruct (tierIndex tier tiers (i + 1)) as [j|].
  - destruct IH as (k & -> & Hk). exists (S k). split; [lia|done].
  - rewrite not_elem_of_cons. auto.
Qed.

(** ** The handler: lemmas *)

Section lemmas.
Context `{R : GoRuntime} {W : Type} `{K : !KubeClient W, U : !Unstructured W}.
Implicit Types (w : W) (state : NodePressureState) (pods : list Pod).

Lemma tierState_put state t t' pts :
  tierState (put_tier t pts state) t' = if decide (t' = t) then pts else tierState state t'.
Proof.
  unfold tierState. simpl. case_decide as Ht; [subst; by rewrite lookup_insert_eq|by rewrite lookup_insert_ne].
Qed.

Lemma tierState_switch state next t : tierState (switchTier next state) t = tierState state t.
Proof.
  unfold switchTier. simpl. destruct (PerTier state !! next) as [pts|] eqn:E; [done|].
  rewrite tierState_put. case_decide as Ht; [|done]. subst. unfold tierState. by rewrite E.
Qed.

Lemma switchTier_current state next :
  CurrentTier (switchTier next state) = next /\ Tiers (switchTier next state) = Tiers state.
Proof. unfold switchTier. simpl. by destruct (PerTier state !! next). Qed.

(** More fuel than the remaining ranks is enough. *)
Lemma ProcessCurrentTier_some fuel w state pods rtData podMilli overSec :
  2 - tierRank (CurrentTier state) < Z.of_nat fuel ->
  is_Some (ProcessCurrentTier fuel w state pods rtData podMilli overSec).
Proof.
  revert state. induction fuel as [|fuel IH]; intros state Hf.
  { pose proof (tierRank_bound (CurrentTier state)). lia. }
  cbn [ProcessCurrentTier]. destruct (FilterPodsByCriticality _ _ _) as [|t ts].
  - case_match; [|eauto]. destruct (NextHigherTier _ _) as [next|] eqn:En; [|eauto].
    apply NextHigherTier_Some in En as (_ & _ & Hlt & _). apply IH.
    rewrite (proj1 (switchTier_current _ next)). simpl in Hlt. lia.
  - destruct (degradeStep _ _ _ _ _) as [[w1 pts1] touched1].
    destruct (evictStep _ _ _ _ _) as [[w2 pts2] touched2]. eauto.
Qed.

(** The choice among the targets does not depend on the state of the pods. *)
Lemma Pick_update (p : Pod) pods podMilli :
  PickHighestCPUFromMilli (update_pod (Some p) pods) podMilli =
  (fun q => if decide (pod_Name q = pod_Name p) then p else q) <$> PickHighestCPUFromMilli pods podMilli.
Proof.
  unfold PickHighestCPUFromMilli, update_pod.
  assert (Hgen : forall l b m, (foldl (fun '(best, bestMilli) p0 =>
      match podMilli !! pod_Name p0 with
      | Some m => if bestMilli <? m then (Some p0, m) else (best, bestMilli)
      | None => (best, bestMilli)
      end) ((fun q => if decide (pod_Name q = pod_Name p) then p else q) <$> b, m)
        ((fun q => if decide (pod_Name q = pod_Name p) then p else q) <$> l)).1 =
    (fun q => if decide (pod_Name q = pod_Name p) then p else q) <$>
      (foldl (fun '(best, bestMilli) p0 =>
        match podMilli !! pod_Name p0 with
        | Some m => if bestMilli <? m then (Some p0, m) else (best, bestMilli)
        | None => (best, bestMilli)
        end) (b, m) l).1).
  { induction l as [|q l IH]; intros b m; [done|]. rewrite fmap_cons. cbn [foldl].
    set (q' := if decide (pod_Name q = pod_Name p) then p else q).
    assert (Hq : pod_Name q' = pod_Name q) by (unfold q'; by case_decide).
    rewrite Hq. destruct (podMilli !! pod_Name q) as [mq|]; [|apply IH]. destruct (m <? mq); [|apply IH].
    apply (IH (Some q) mq). }
  apply (Hgen pods None (-1)).
Qed.

Lemma Pick_update_name touched pods podMilli victim :
  PickHighestCPUFromMilli (update_pod touched pods) podMilli = Some victim ->
  exists top, PickHighestCPUFromMilli pods podMilli = Some top /\ pod_Name victim = pod_Name top.
Proof.
  destruct touched as [p|]; [|by exists victim]. rewrite Pick_update.
  destruct (PickHighestCPUFromMilli pods podMilli) as [top|]; [|done]. intros [= <-].
  exists top. split; [done|]. by case_decide.
Qed.

(** *** What one call does to the world: at most one resize and one eviction *)

(** [top] is one of the targets of greatest known request, which is [m]. *)
Definition highest (targets : list Pod) (podMilli : gmap string Z) (top : Pod) (m : Z) : Prop :=
  top ∈ targets /\ podMilli !! pod_Name top = Some m /\
  forall q mq, q ∈ targets -> podMilli !! pod_Name q = Some mq -> mq <= m.

(** No target has a request that is known and not negative. *)
Definition unknown (targets : list Pod) (podMilli : gmap string Z) : Prop :=
  forall q mq, q ∈ targets -> podMilli !! pod_Name q = Some mq -> mq < 0.

Lemma PickHighest_spec targets podMilli :
  match PickHighestCPUFromMilli targets podMilli with
  | Some top => exists m, highest targets podMilli top m
  | None => unknown targets podMilli
  end.
Proof.
  destruct (PickHighestCPUFromMilli targets podMilli) as [top|] eqn:E.
  - apply PickHighest_Some in E as (Hin & m & Hm & Hmax). by exists m.
  - exact (PickHighest_None _ _ E).
Qed.

(** The patches of a degradation of the pod. *)
Definition degradePatches (pod : Pod) : list containerPatch := omap (degradeContainer degradeRatio) (pod_Containers pod).

(** A degradation is due from the first second on, for the first time or three
    seconds after the last one, until an eviction has been tried. *)
Definition degrade_due (pts : PerTierState) (overSec : Z) : Prop :=
  1 <= overSec /\ EvictTried pts = false /\
  (DegradeCount pts = 0 \/ 3 <= wrap64 (overSec - LastDegradeTime pts)).

(** The one due is done, on a target of greatest request, if that is above the
    minimum and has a container to degrade. *)
Definition degrade_effect (pts : PerTierState) (targets : list Pod) (podMilli : gmap string Z) (overSec : Z)
  (w w' : W) : Prop :=
  (degrade_due pts overSec /\ exists top m, highest targets podMilli top m /\ MinMilli < m /\
     degradePatches top <> [] /\ w' = (ResizePod w top (degradePatches top)).1) \/
  (w' = w /\ (degrade_due pts overSec -> unknown targets podMilli \/
     exists top m, highest targets podMilli top m /\ (m <= MinMilli \/ degradePatches top = []))).

(** An eviction is due from the tenth second on, once there has been a
    degradation, if none has been tried; [pts'] is the state after the call. *)
Definition evict_due (pts pts' : PerTierState) (overSec : Z) : Prop :=
  10 <= overSec /\ EvictTried pts = false /\ 0 < DegradeCount pts'.

(** The one due is done, on a target of greatest request, and recorded. *)
Definition evict_effect (pts pts' : PerTierState) (targets : list Pod) (podMilli : gmap string Z) (overSec : Z)
  (w w' : W) : Prop :=
  (evict_due pts pts' overSec /\ EvictTried pts' = true /\ exists top m victim, highest targets podMilli top m /\
     pod_Name victim = pod_Name top /\ w' = (EvictPod w victim).1.1) \/
  (w' = w /\ EvictTried pts' = EvictTried pts /\ (evict_due pts pts' overSec -> unknown targets podMilli)).

Lemma degradeStep_effect w pts targets podMilli overSec w' pts' touched :
  degradeStep w pts targets podMilli overSec = (w', pts', touched) ->
  degrade_effect pts targets podMilli overSec w w' /\ EvictTried pts' = EvictTried pts /\
  (EvictTried pts = true -> pts' = pts /\ touched = None).
Proof.
  unfold degradeStep. destruct (_ && _) eqn:E.
  2: { intros [= <- <- <-]. split_and!; [|done|done]. right. split; [done|]. unfold degrade_due.
       intros (H1 & H2 & _). rewrite H2, andb_true_r in E. z_bools. lia. }
  z_bools. destruct (_ || _) eqn:Eo.
  2: { intros [= <- <- <-]. split_and!; [|done|done]. right. split; [done|]. intros (_ & _ & Hd). z_bools. lia. }
  assert (Hdue : degrade_due pts overSec) by (split_and!; [done| |z_bools; lia]; by destruct (EvictTried pts)).
  assert (Hno : EvictTried pts = true -> False) by (destruct Hdue as (_ & -> & _); done).
  pose proof (PickHighest_spec targets podMilli) as Hp.
  destruct (PickHighestCPUFromMilli targets podMilli) as [top|].
  2: { intros [= <- <- <-]. split_and!; [|done|done]. right. split; [done|]. by left. }
  destruct Hp as [m Hm]. rewrite (proj1 (proj2 Hm)). cbn [default]. destruct (MinMilli <? _) eqn:Em.
  2: { intros [= <- <- <-]. split_and!; [|done|by intros ?%Hno]. right. split; [done|]. right. exists top, m.
       split; [done|]. left. revert Em. unfold MinMilli. simpl. destruct (Z.ltb_spec 0 m); z_bools; lia. }
  unfold DegradePodRequests. fold (degradePatches top).
  destruct (degradePatches top) as [|c cs] eqn:Ec.
  { intros [= <- <- <-]. split_and!; [|done|by intros ?%Hno]. right. split; [done|]. right. exists top, m. auto. }
  assert (Heff : degrade_effect pts targets podMilli overSec w (ResizePod w top (c :: cs)).1).
  { left. split; [done|]. exists top, m. rewrite Ec. split_and!; try done.
    revert Em. unfold MinMilli. simpl. destruct (Z.ltb_spec 0 m); z_bools; lia. }
  destruct (ResizePod w top (c :: cs)) as [w1 [p'|e]]; intros [= <- <- <-]; split_and!; try done; by intros ?%Hno.
Qed.

Lemma evictStep_effect w pts touched targets podMilli overSec w' pts' touched' :
  evictStep w pts (update_pod touched targets) podMilli overSec = (w', pts', touched') ->
  evict_effect pts pts' targets podMilli overSec w w' /\ DegradeCount pts' = DegradeCount pts /\
  (EvictTried pts = true -> w' = w /\ pts' = pts /\ touched' = None).
Proof.
  unfold evictStep. destruct (_ && _ && _) eqn:E.
  2: { intros [= <- <- <-]. split_and!; [|done..]. right. split_and!; [done..|]. intros (H1 & H2 & H3).
       rewrite H2, andb_true_r in E. z_bools; lia. }
  z_bools. pose proof (PickHighest_spec targets podMilli) as Hp.
  destruct (PickHighestCPUFromMilli (update_pod _ _) podMilli) as [victim|] eqn:Ep.
  2: { intros [= <- <- <-]. split_and!; [|done..]. right. split_and!; [done..|]. intros _.
       destruct touched as [p|]; [rewrite Pick_update in Ep|simpl in Ep];
         destruct (PickHighestCPUFromMilli targets podMilli); done. }
  apply Pick_update_name in Ep as (top & Htop & Hname). rewrite Htop in Hp. destruct Hp as [m Hm].
  destruct (EvictPod w victim) as [[w1 v1] e1] eqn:Ev. intros [= <- <- <-]. split_and!; [|done|congruence].
  left. split_and!; [|done|]; [split_and!; try done; by destruct (EvictTried pts)|].
  exists top, m, victim. split_and!; try done. by rewrite Ev.
Qed.
End lemmas.

(** ** Properties *)

(** [CollectSortedTiers] returns, in ascending order of rank and without
    repetition, exactly the known criticalities that some pod of the node has;
    the enumeration order of the set it sorts does not matter. *)
Theorem CollectSortedTiers_spec `{R : GoRuntime} pods rtData :
  CollectSortedTiers pods rtData =
  filter (fun c => FilterPodsByCriticality pods rtData c <> []) ["LOW"; "MIDDLE"; "HIGH"].
Proof.
  rewrite CollectSortedTiers_filter. apply filter_ext_elem. intros c _.
  rewrite FilterPods_filter, Exists_exists. split.
  - intros (p & Hp & Ht) E. apply (not_elem_of_nil p). rewrite <- E. by apply list_elem_of_filter.
  - destruct (filter (hasTier rtData c) pods) as [|p l] eqn:E; [done|]. intros _.
    assert (Hp : p ∈ filter (hasTier rtData c) pods) by (rewrite E; by left).
    apply list_elem_of_filter in Hp as [? ?]. by exists p.
Qed.

Section properties.
Context `{R : GoRuntime} {W : Type} `{K : !KubeClient W, U : !Unstructured W}.
Implicit Types (w : W) (state : NodePressureState) (pods : list Pod).

Lemma refresh_current state pods rtData overSec :
  let tiers := CollectSortedTiers pods rtData in
  let s := refreshState state tiers overSec in
  tiers <> [] ->
  initialTier s = s /\ CurrentTier s ∈ tiers /\
  (exists k : nat, CurrentTierIdx s = Z.of_nat k /\ tiers !! k = Some (CurrentTier s)) /\
  (CurrentTier state ∈ tiers -> CurrentTier s = CurrentTier state) /\
  (CurrentTier state ∉ tiers -> head tiers = Some (CurrentTier s)).
Proof.
  intros tiers s Hne.
  assert (Hall : forall c, c ∈ tiers -> c ∈ allTiers).
  { intros c. unfold tiers. rewrite CollectSortedTiers_filter. by intros [_ ?]%list_elem_of_filter. }
  unfold s, refreshState, ReindexCurrentTier. cbn [Tiers CurrentTier].
  destruct tiers as [|t0 ts] eqn:Et; [done|].
  assert (Hinit : forall i t, t ∈ t0 :: ts -> 0 <= i < Z.of_nat (length (t0 :: ts)) ->
    initialTier (set_current i t (mkPressure overSec (t0 :: ts) (CurrentTierIdx state) (CurrentTier state) (PerTier state))) =
    set_current i t (mkPressure overSec (t0 :: ts) (CurrentTierIdx state) (CurrentTier state) (PerTier state))).
  { intros i t Hin Hi. unfold initialTier. cbn [CurrentTier CurrentTierIdx Tiers set_current].
    rewrite bool_decide_eq_false_2; [|intros ->; apply Hall in Hin; unfold allTiers in Hin; by rewrite !elem_of_cons, elem_of_nil in Hin; destruct Hin as [|[|[|]]]].
    replace (Z.of_nat (length (t0 :: ts)) <=? i) with false; [done|]. symmetry. apply Z.leb_gt. lia. }
  pose proof (tierIndex_spec (CurrentTier state) (t0 :: ts) 0) as Hidx.
  destruct (tierIndex (CurrentTier state) (t0 :: ts) 0) as [i|].
  - destruct Hidx as (k & -> & Hk). pose proof (list_elem_of_lookup_2 _ _ _ Hk) as Hin.
    apply lookup_lt_Some in Hk as Hlt. split_and!; try done.
    + apply Hinit; [done|lia].
    + exists k. split; [simpl; lia|done].
  - split_and!; try done.
    + apply Hinit; [by left|simpl; lia].
    + by left.
    + by exists 0%nat.
Qed.

(** The handler returns: the fuel of [ProcessCurrentTier] is enough. *)
Lemma HandleNodeCPUPressure_Some w ps nodeName : is_Some (HandleNodeCPUPressure w ps nodeName).
Proof.
  unfold HandleNodeCPUPressure. repeat (case_match; try by eauto).
  match goal with H : ProcessCurrentTier _ _ ?s _ _ _ _ = None |- _ => pose proof (tierRank_bound (CurrentTier s)) as Hb end.
  match goal with H : ProcessCurrentTier ?f ?w ?s ?p ?r ?m ?o = None |- _ =>
    destruct (ProcessCurrentTier_some f w s p r m o) as [? Hs]; [unfold tierFuel; lia|congruence] end.
Qed.

(** C31: the handler of CPU pressure always returns, and it always has pods to
    act on: the current tier of the refreshed state is one of the collected
    tiers, kept if it still has pods and otherwise reset to the lowest, its index
    is right, and some pod of the node belongs to it. *)
Theorem HandleNodeCPUPressure_total w ps nodeName :
  is_Some (HandleNodeCPUPressure w ps nodeName) /\
  (forall state pods rtData overSec, CollectSortedTiers pods rtData <> [] ->
   let tiers := CollectSortedTiers pods rtData in
   let s := initialTier (refreshState state tiers overSec) in
   (exists k : nat, CurrentTierIdx s = Z.of_nat k /\ tiers !! k = Some (CurrentTier s)) /\
   (CurrentTier state ∈ tiers -> CurrentTier s = CurrentTier state) /\
   (CurrentTier state ∉ tiers -> head tiers = Some (CurrentTier s)) /\
   FilterPodsByCriticality pods rtData (CurrentTier s) <> []).
Proof.
  split.
  - apply HandleNodeCPUPressure_Some.
  - intros state pods rtData overSec Hne. cbv zeta.
    destruct (refresh_current state pods rtData overSec Hne) as (-> & Hin & Hk & Hkeep & Hreset).
    split_and!; [done..|].
    clear Hk Hkeep Hreset. revert Hin. generalize (CurrentTier (refreshState state (CollectSortedTiers pods rtData) overSec)).
    intros c Hin. rewrite CollectSortedTiers_filter in Hin. apply list_elem_of_filter in Hin as [Hex _].
    rewrite FilterPods_filter. apply Exists_exists in Hex as (p & Hp & Ht). intros E.
    pose proof (proj2 (list_elem_of_filter _ _ p) (conj Ht Hp)) as Hf. rewrite E in Hf.
    by apply not_elem_of_nil in Hf.
Qed.

(** What a call does to the pods of a tier: what is due, and nothing else. *)
Definition tier_effects pods rtData podMilli overSec state state' w w' (tier : string) : Prop :=
  let targets := FilterPodsByCriticality pods rtData tier in
  exists w1,
    degrade_effect (tierState state tier) targets podMilli overSec w w1 /\
    evict_effect (tierState state tier) (tierState state' tier) targets podMilli overSec w1 w'.

Lemma tier_effects_none pods rtData podMilli overSec state pts w :
  FilterPodsByCriticality pods rtData (CurrentTier state) = [] -> EvictTried pts = EvictTried (tierState state (CurrentTier state)) ->
  tier_effects pods rtData podMilli overSec state (put_tier (CurrentTier state) pts state) w w (CurrentTier state).
Proof using Type.
  intros Ht Hp. unfold tier_effects. rewrite Ht, tierState_put, decide_True by done.
  assert (Hu : unknown [] podMilli) by (intros q mq Hq; by apply not_elem_of_nil in Hq).
  exists w. split; right; (split_and!; [done..|]); intros _; [by left|done].
Qed.

(** C19: what pressure handling does to the cluster in one call concerns the pods
    of one tier, the current one, or a higher one if the current one has no
    pods.  It resizes at most one pod, and then evicts at most one: each time a
    pod whose request is the greatest known one among the pods of the tier.  The
    resize is made exactly when one is due and that pod requests more than the
    minimum and has a container to degrade; due it is from the first second of
    pressure on, three seconds after the last one, until an eviction has been
    tried.  The eviction is made exactly when one is due and some request is
    known; due it is from the tenth second on, after a degradation has been
    counted, once in the tier. *)
Theorem ProcessCurrentTier_actions fuel w state pods rtData podMilli overSec w' state' :
  ProcessCurrentTier fuel w state pods rtData podMilli overSec = Some (w', state') ->
  exists tier,
    (tier = CurrentTier state \/
     (tierRank (CurrentTier state) < tierRank tier /\ FilterPodsByCriticality pods rtData (CurrentTier state) = [])) /\
    tier_effects pods rtData podMilli overSec state state' w w' tier /\
    (EvictTried (tierState state tier) = true -> w' = w).
Proof using Type.
  intros H. cut (exists tier, (tier = CurrentTier state \/ (tierRank (CurrentTier state) < tierRank tier /\
    FilterPodsByCriticality pods rtData (CurrentTier state) = [])) /\
    tier_effects pods rtData podMilli overSec state state' w w' tier).
  { intros (tier & Htier & Heff). exists tier. split_and!; [done..|]. intros Htried.
    destruct Heff as (w1 & [[(_ & Hn & _) _]|[-> _]] & [[(_ & Hn' & _) _]|[-> _]]); congruence. }
  revert state H. induction fuel as [|fuel IH]; intros state; [done|]. cbn [ProcessCurrentTier].
  destruct (FilterPodsByCriticality pods rtData (CurrentTier state)) as [|t ts] eqn:Ef.
  - set (pts := set_missing _ _).
    pose proof (tier_effects_none pods rtData podMilli overSec state pts w Ef eq_refl) as Hnone.
    case_match; [|intros [= <- <-]; exists (CurrentTier state); split; [by left|done]].
    destruct (NextHigherTier _ _) as [next|] eqn:En;
      [|intros [= <- <-]; exists (CurrentTier state); split; [by left|done]].
    apply NextHigherTier_Some in En as (_ & _ & Hlt & _).
    intros (tier & Htier & Heff)%IH. rewrite (proj1 (switchTier_current _ next)) in Htier.
    assert (Hrank : tierRank (CurrentTier state) < tierRank tier) by (destruct Htier as [->|[? _]]; lia).
    exists tier. split; [by right|]. unfold tier_effects in *.
    rewrite tierState_switch, tierState_put, decide_False in Heff; [done|]. intros ->. lia.
  - destruct (degradeStep _ _ _ _ _) as [[w1 pts1] touched1] eqn:Ed.
    destruct (evictStep _ _ _ _ _) as [[w2 pts2] touched2] eqn:Ee.
    intros [= <- <-]. apply degradeStep_effect in Ed as (Hd & Htried & _).
    apply evictStep_effect in Ee as (He & Hc & _).
    exists (CurrentTier state). split; [by left|]. exists w1. rewrite Ef. split; [exact Hd|].
    replace (tierState (escalateStep _ _ _ _ _) _) with pts2.
    + unfold evict_effect, evict_due in *. simpl in Htried. by rewrite Htried in He.
    + assert (Hp : tierState (put_tier (CurrentTier state) pts2 state) (CurrentTier state) = pts2)
        by (by rewrite tierState_put, decide_True).
      unfold escalateStep. repeat case_match; by rewrite ?tierState_switch.
Qed.

(** C38: pressure handling can stall: once an eviction has been tried in the
    current tier, as long as some pod of the tier requests more than 10
    milli-CPUs, nothing is degraded or evicted and the tier is never left, for
    any further duration of the pressure. *)
Theorem pressure_stalls fuel w state pods rtData podMilli overSec :
  FilterPodsByCriticality pods rtData (CurrentTier state) <> [] ->
  EvictTried (tierState state (CurrentTier state)) = true ->
  HasActionableInTier pods rtData (CurrentTier state) = true ->
  exists state', ProcessCurrentTier (S fuel) w state pods rtData podMilli overSec = Some (w, state') /\
    CurrentTier state' = CurrentTier state /\ EvictTried (tierState state' (CurrentTier state')) = true.
Proof.
  intros Hne Htried Hact. cbn [ProcessCurrentTier].
  destruct (FilterPodsByCriticality pods rtData (CurrentTier state)) as [|t ts] eqn:Ef; [done|].
  destruct (degradeStep _ _ _ _ _) as [[w1 pts1] touched1] eqn:Ed.
  apply degradeStep_effect in Ed as (Hd & _ & Hdone1). destruct Hdone1 as (-> & ->); [done|].
  assert (w1 = w) as -> by (destruct Hd as [[(_ & Hn & _) _]|[-> _]]; [simpl in Hn; congruence|done]).
  destruct (evictStep _ _ _ _ _) as [[w2 pts2] touched2] eqn:Ee.
  apply evictStep_effect in Ee as (_ & _ & Hdone2). destruct Hdone2 as (-> & -> & ->); [done|].
  eexists. split; [reflexivity|]. unfold escalateStep. cbn [update_pod]. rewrite Hact.
  destruct (_ && _); simpl; (split; [done|]); by rewrite tierState_put, decide_True.
Qed.
End properties.

(** One degradation of a request of [m] milli-CPUs leaves exactly
    [max 10 (floor (4m/5))]: the floating-point factor [1.0 - 0.2] is exact
    enough; a request of at least 10 never grows and stays at least 10, while a
    smaller one is raised to 10. *)
Theorem degradedMilli_spec `{R : GoRuntime} m :
  1 <= m <= 2 ^ 45 ->
  degradedMilli degradeRatio m = Z.max 10 (4 * m / 5) /\
  (10 <= m -> 10 <= degradedMilli degradeRatio m <= m) /\
  (12 < m -> degradedMilli degradeRatio m < m) /\
  (m < 10 -> m < degradedMilli degradeRatio m).
Proof.
  intros Hm.
  assert (E : degradedMilli degradeRatio m = Z.max 10 (4 * m / 5)).
  { unfold degradedMilli, degradeRatio. fold degradeFactor. rewrite degrade_scaled by done.
    unfold MinMilli. destruct (Z.ltb_spec (4 * m / 5) 10); lia. }
  rewrite E. pose proof (Z_div_mod_eq_full (4 * m) 5). pose proof (Z.mod_pos_bound (4 * m) 5). lia.
Qed.

(** ** Witnesses and an example

    A node [n1] with two LOW pods [a] and [b] of 100 and 90 milli-CPUs. *)
Module Sample.
Definition container (milli : Z) : Container :=
  mkContainer "c" (Some (mkQuantity 1 milli false (itoa milli))) [].
Definition pod (name : string) (milli : Z) : Pod :=
  set_pod_containers [container milli]
    (set_pod_labels {["sdv.com" := "app"]} (sample_pod name "n1")).
Definition node (over : string) : Node :=
  mkNode "n1" {[AnnUsageKey := "95.0"; AnnDurKey := over]} None [] [].
Definition resources : list GoValue := [sample_resource "app" [("criticality", GoString "LOW")]].
Definition server (over : string) (pods : list Pod) : Server := mkServer [] pods [node over] false 200 [].
Definition rtData : gmap string RealTimeData := {["app" := mkRealTimeData "LOW" 10 10 []]}.

Definition podMilli : gmap string Z := {["a" := 100; "b" := 90]}.

Definition handle (s : Server) (ps : gmap string NodePressureState) :=
  @HandleNodeCPUPressure reference_runtime Server _ (reference_accessors resources) s ps "n1".

(** The pods and their requests after a call. *)
Definition requests (s : Server) : list (string * list (option Z)) :=
  (fun p => (pod_Name p, (fun c => q_MilliValue <$> c_RequestCPU c) <$> pod_Containers p)) <$> srv_pods s.

(** The handler at 8 seconds of pressure, then at 10. *)
Definition run : option (Server * Server) :=
  match handle (server "8" [pod "a" 100; pod "b" 90]) ∅ with
  | Some (s1, ps1) =>
      match handle (with_nodes [node "10"] s1) ps1 with
      | Some (s2, _) => Some (s1, s2)
      | None => None
      end
  | None => None
  end.
End Sample.

(** The pod that is evicted need not be the one that was degraded: of two LOW
    pods of 100 and 90 milli-CPUs the first is degraded to 80 after 8 seconds of
    pressure, and after 10 seconds the second, which now requests more and was
    never degraded, is evicted. *)
Theorem evicts_undegraded_pod :
  exists s1 s2, Sample.run = Some (s1, s2) /\
    Sample.requests s1 = [("a", [Some 80]); ("b", [Some 90])] /\
    Sample.requests s2 = [("a", [Some 80])].
Proof. eexists _, _. split; [vm_compute; reflexivity|]. split; vm_compute; reflexivity. Qed.

(** After 8 seconds the world changes, so the degradation was due: the pod that is
    resized is "a". *)
Example ProcessCurrentTier_actions_witness :
  let state := mkPressure 8 ["LOW"] 0 "LOW" ∅ in
  let pods := [Sample.pod "a" 100; Sample.pod "b" 90] in
  exists w' state',
    @ProcessCurrentTier reference_runtime Server _ 4 (Sample.server "8" pods) state pods Sample.rtData Sample.podMilli 8 =
      Some (w', state') /\
    exists top, highest pods Sample.podMilli top 100 /\
      w' = (@ResizePod Server _ (Sample.server "8" pods) top (@degradePatches reference_runtime top)).1.
Proof.
  intros state pods.
  destruct (@ProcessCurrentTier reference_runtime Server _ 4 (Sample.server "8" pods) state pods Sample.rtData
    Sample.podMilli 8) as [[w' state']|] eqn:E; [|vm_compute in E; discriminate E].
  exists w', state'. split; [done|].
  destruct (@ProcessCurrentTier_actions reference_runtime Server _ 4 (Sample.server "8" pods) state pods Sample.rtData
    Sample.podMilli 8 w' state' E) as (tier & Htier & (w1 & Hd & He) & _).
  assert (Htargets : FilterPodsByCriticality pods Sample.rtData "LOW" = pods) by (by vm_compute).
  destruct Htier as [->|[_ Hnone]]; [|vm_compute in Hnone; discriminate Hnone].
  change (CurrentTier state) with "LOW" in *. rewrite Htargets in Hd, He.
  assert (Hw : w' <> Sample.server "8" pods) by (vm_compute in E; injection E as <- <-; by vm_compute).
  destruct He as [[[Hlate _] _]|[He _]]; [lia|]. rewrite <- He in Hd.
  destruct Hd as [(_ & top & m & Htop & _ & _ & Ew)|[Ew _]]; [|exfalso; apply Hw; exact Ew].
  exists top. split; [|exact Ew]. clear E Ew Hw He. destruct Htop as (Hin & Hm & Hmax).
  assert (m = 100) as ->; [|by split].
  revert Hm. unfold pods in Hin. rewrite !elem_of_cons, elem_of_nil in Hin.
  specialize (Hmax (Sample.pod "a" 100) 100 ltac:(by left) eq_refl).
  destruct Hin as [->|[->|[]]]; vm_compute; intros [= <-]; [done|]. by vm_compute in Hmax.
Defined.

Example pressure_stalls_witness :
  let state := mkPressure 60 ["LOW"] 0 "LOW" {["LOW" := mkTier 0 3 true 0 9]} in
  let pods := [Sample.pod "a" 80] in
  exists state', @ProcessCurrentTier reference_runtime Server _ 4 (Sample.server "60" pods) state pods Sample.rtData
    Sample.podMilli 60 = Some (Sample.server "60" pods, state').
Proof.
  intros state pods.
  destruct (@pressure_stalls reference_runtime Server _ 3 (Sample.server "60" pods) state pods Sample.rtData
    Sample.podMilli 60) as (state' & H & _).
  - vm_compute. discriminate.
  - vm_compute. reflexivity.
  - vm_compute. reflexivity.
  - by exists state'.
Defined.

Example HandleNodeCPUPressure_total_witness :
  FilterPodsByCriticality [Sample.pod "a" 80] Sample.rtData "LOW" <> [].
Proof.
  destruct (@HandleNodeCPUPressure_total reference_runtime Server _ (reference_accessors [])
    (Sample.server "8" []) ∅ "n1") as [_ H].
  assert (Hne : @CollectSortedTiers reference_runtime [Sample.pod "a" 80] Sample.rtData <> []) by (vm_compute; discriminate).
  destruct (H newPressure [Sample.pod "a" 80] Sample.rtData 8 Hne) as (_ & _ & _ & Hf).
  intros E. apply Hf. vm_compute in E. discriminate E.
Defined.

Example degradedMilli_spec_witness : @degradedMilli reference_runtime degradeRatio 100 = 80.
Proof.
  destruct (@degradedMilli_spec reference_runtime 100) as [-> _]; [lia|]. reflexivity.
Defined.
