(* ===== verification/NodeEvents.v ===== *)
(** * NodeEvents: the processing flag of a node

    [FindObjectsForNode] of [internal/ipvs/event_handler.go] starts a background
    handler for a node unless the flag of the node in [ProcessingNodes] is set;
    the handler clears the flag when it ends.  The interleavings of these
    events with the end of [handleCPURecovery] of the controller, which clears
    the flag too, are the steps of a relation. *)
From S2P Require Import Prelude GoString GoParse ApiTypes Pressure.
From stdpp Require Import options.

(** The goroutine started for a node; it handles pressure only if busy. *)
Record goroutine := mkGoroutine { gr_node : string; gr_busy : bool }.

(** [ProcessingNodes] as the set of the nodes whose flag is [true]. *)
Definition FindObjectsForNode (ProcessingNodes : gset string) (node : Node) : gset string * option goroutine :=
  let ann := node_Annotations node in
  let cpuUsageStr := TrimSpace (str_get ann AnnUsageKey) in
  if decide (cpuUsageStr = EmptyString) then (ProcessingNodes, None)
  else if negb (ParseFloat_ok cpuUsageStr) then (ProcessingNodes, None)
  else
    let isCpuBusyStr := TrimSpace (str_get ann AnnCpuBusyKey) in
    let isCpuBusy :=
      if decide (isCpuBusyStr <> EmptyString) then default true (ParseBool isCpuBusyStr) else true in
    if decide (node_Name node ∈ ProcessingNodes) then (ProcessingNodes, None)
    else ({[node_Name node]} ∪ ProcessingNodes, Some (mkGoroutine (node_Name node) isCpuBusy)).

(** The deferred function of the goroutine. *)
Definition finishProcessing (ProcessingNodes : gset string) (nodeName : string) : gset string :=
  ProcessingNodes ∖ {[nodeName]}.

(** The end of [handleCPURecovery]. *)
Definition clearProcessing (ProcessingNodes : gset string) (nodeName : string) : gset string :=
  ProcessingNodes ∖ {[nodeName]}.

Record events_state := mkEvents { processing : gset string; running : list goroutine }.

(** The recoveries of each node so far that cleared a set flag. *)
Definition cleared : Type := string -> nat.
Definition count_clear (ps : gset string) (nodeName : string) (r : cleared) : cleared :=
  fun n => if decide (n = nodeName /\ n ∈ ps) then S (r n) else r n.

Inductive events_step : events_state * cleared -> events_state * cleared -> Prop :=
| step_event st r node ps spawned :
    FindObjectsForNode (processing st) node = (ps, spawned) ->
    events_step (st, r) (mkEvents ps (option_list spawned ++ running st), r)
| step_finish st r l1 gr l2 :
    running st = l1 ++ gr :: l2 ->
    events_step (st, r) (mkEvents (finishProcessing (processing st) (gr_node gr)) (l1 ++ l2), r)
| step_recovery st r nodeName :
    events_step (st, r)
      (mkEvents (clearProcessing (processing st) nodeName) (running st), count_clear (processing st) nodeName r).

Definition events_init : events_state * cleared := (mkEvents ∅ [], fun _ => O).

(** How many handlers of a node run. *)
Definition handlers (n : string) (st : events_state) : nat := length (filter (fun gr => gr_node gr = n) (running st)).

(** The handlers of a node, and one more while its flag is off, are bounded by
    the recoveries that cleared the flag; a set flag has a handler. *)
Definition events_inv (sr : events_state * cleared) : Prop :=
  forall n, let '(st, r) := sr in
    (handlers n st + (if decide (n ∈ processing st) then 0 else 1) <= 1 + r n)%nat /\
    (n ∈ processing st -> 0 < handlers n st)%nat.

Lemma FindObjectsForNode_cases ps node :
  FindObjectsForNode ps node = (ps, None) \/
  ((node_Name node ∉ ps) /\ exists busy,
     FindObjectsForNode ps node = ({[node_Name node]} ∪ ps, Some (mkGoroutine (node_Name node) busy))).
Proof.
  unfold FindObjectsForNode. case_decide; [by left|]. destruct (negb _); [by left|].
  destruct (decide (node_Name node ∈ ps)); [by left|]. right. split; [done|]. eauto.
Qed.

Lemma handlers_cons n gr l ps : handlers n (mkEvents ps (gr :: l)) = ((if decide (gr_node gr = n) then 1 else 0) + handlers n (mkEvents ps l))%nat.
Proof. unfold handlers. simpl. rewrite filter_cons. by case_decide. Qed.

Lemma handlers_app n l1 gr l2 ps ps' :
  handlers n (mkEvents ps (l1 ++ gr :: l2)) =
    ((if decide (gr_node gr = n) then 1 else 0) + handlers n (mkEvents ps' (l1 ++ l2)))%nat.
Proof. unfold handlers. simpl. rewrite !filter_app, filter_cons, !length_app. case_decide; simpl; lia. Qed.

Lemma events_step_inv sr sr' : events_step sr sr' -> events_inv sr -> events_inv sr'.
Proof.
  intros Hstep Hinv n. specialize (Hinv n). destruct Hstep as [[ps0 l] r node ps spawned E|[ps l] r l1 gr l2 E|[ps l] r nodeName];
    cbn [processing running] in *.
  - destruct (FindObjectsForNode_cases ps0 node) as [E'|(Hnot & busy & E')];
      rewrite E' in E; injection E as <- <-; [done|].
    set (gr := mkGoroutine (node_Name node) busy). change (option_list (Some gr) ++ l) with (gr :: l). unfold gr.
    rewrite handlers_cons. change (handlers n (mkEvents ({[node_Name node]} ∪ ps0) l)) with (handlers n (mkEvents ps0 l)).
    cbn [gr_node]. destruct Hinv as [Hle Hrun]. destruct (decide (node_Name node = n)) as [<-|Hn].
    + rewrite decide_False in Hle by done. rewrite decide_True by set_solver. lia.
    + assert (Hiff : n ∈ {[node_Name node]} ∪ ps0 <-> n ∈ ps0) by set_solver. rewrite (decide_ext _ _ _ _ Hiff).
      split; [lia|]. rewrite Hiff. exact Hrun.
  - subst l. rewrite (handlers_app n l1 gr l2 ps (finishProcessing ps (gr_node gr))) in Hinv.
    unfold finishProcessing in *. destruct Hinv as [Hle Hrun]. destruct (decide (gr_node gr = n)) as [<-|Hn].
    + rewrite decide_False by set_solver. split; [lia|set_solver].
    + assert (Hiff : n ∈ ps ∖ {[gr_node gr]} <-> n ∈ ps) by set_solver. rewrite (decide_ext _ _ _ _ Hiff).
      split; [lia|]. rewrite Hiff. exact Hrun.
  - unfold clearProcessing, count_clear. change (handlers n (mkEvents (ps ∖ {[nodeName]}) l)) with (handlers n (mkEvents ps l)).
    destruct Hinv as [Hle Hrun]. destruct (decide (n = nodeName)) as [->|Hn].
    + rewrite (decide_False (P := nodeName ∈ ps ∖ {[nodeName]})) by set_solver. split; [|set_solver].
      destruct (decide (nodeName ∈ ps)); [rewrite decide_True by done|rewrite decide_False by tauto]; lia.
    + assert (Hiff : n ∈ ps ∖ {[nodeName]} <-> n ∈ ps) by set_solver. rewrite (decide_ext _ _ _ _ Hiff).
      rewrite (decide_False (P := n = nodeName /\ _)) by tauto. split; [lia|]. rewrite Hiff. exact Hrun.
Qed.

(** C27: how far the flag works as a lock, in every order of the events of the
    nodes, of the ends of their background handlers and of the recoveries of the
    controller: for no node do more handlers run at once than one, plus one for
    every recovery that ended while the flag of the node was set, and a flag is
    set only while a handler of its node runs.  So for a node without such a
    recovery at most one handler runs at a time, and the flag is set exactly
    while it does. *)
Theorem processing_exclusive st r n :
  rtc events_step events_init (st, r) ->
  (handlers n st <= 1 + r n)%nat /\
  (n ∈ processing st -> 0 < handlers n st <= 1 + r n)%nat /\
  (r n = O -> (handlers n st <= 1)%nat /\ (n ∈ processing st <-> handlers n st = 1%nat)).
Proof.
  intros Hrtc. assert (H : events_inv (st, r)).
  { assert (H0 : events_inv events_init) by (intros m; split; simpl; [by case_decide|set_solver]).
    revert H0. induction Hrtc as [|? ? ? Hstep _ IH]; [done|]. intros H. apply IH. by eapply events_step_inv. }
  destruct (H n) as [Hle Hrun]. case_decide; (split_and!; [lia|intros; split; [tauto|lia]|]).
  - intros Hr. specialize (Hrun ltac:(done)). split; [lia|]. split; [lia|done].
  - intros Hr. split; [lia|]. split; [done|lia].
Qed.

(** A node under pressure, as the event carries it. *)
Definition busy_node : Node := mkNode "n1" {[AnnUsageKey := "95.0"]} None [] [].

(** The node's flag is set by the first event, cleared by a recovery, and set
    again by the next event, while the first handler still runs. *)
Lemma broken_run :
  exists r, rtc events_step events_init (mkEvents {["n1"]} [mkGoroutine "n1" true; mkGoroutine "n1" true], r) /\
    r "n1" = 1%nat /\ r "n2" = O.
Proof.
  eexists. split.
  { eapply rtc_l; [apply (step_event _ _ busy_node {["n1"]} (Some (mkGoroutine "n1" true))); by vm_compute|].
    eapply rtc_l; [by apply (step_recovery _ _ "n1")|].
    eapply rtc_l; [apply (step_event _ _ busy_node {["n1"]} (Some (mkGoroutine "n1" true))); by vm_compute|].
    apply rtc_refl. }
  by vm_compute.
Qed.

Example processing_exclusive_witness :
  exists st r, rtc events_step events_init (st, r) /\ handlers "n1" st = 2%nat /\ (2 <= 1 + r "n1")%nat /\
    (handlers "n2" st <= 1)%nat.
Proof.
  destruct broken_run as (r & Hrun & H1 & H2). exists (mkEvents {["n1"]} [mkGoroutine "n1" true; mkGoroutine "n1" true]), r.
  split_and!; [done|done| |].
  - exact (proj1 (processing_exclusive _ r "n1" Hrun)).
  - exact (proj1 (proj2 (proj2 (processing_exclusive _ r "n2" Hrun)) H2)).
Defined.

(** A recovery that ends while a background handler runs clears the flag of
    the handler, and the next event of the node starts a second one: two
    handlers then run for the same node at the same time. *)
Theorem recovery_breaks_exclusion :
  exists st r, rtc events_step events_init (st, r) /\ running st = [mkGoroutine "n1" true; mkGoroutine "n1" true].
Proof. destruct broken_run as (r & Hrun & _). by eexists _, r. Qed.
