(* ===== verification/Controller.v ===== *)
(** * Controller: the state of the controller and the monad of its operations

    The package variables of [internal/controller/mckube_controller.go] and the
    shared variables of the packages it calls are one record [St], next to the
    world of the other processes.  The operations are computations of a state
    monad: they read and write the record, call the API server, the
    node-actuator and the clock, and may panic (a nil pointer) or never return
    (a core string [ParseCoreSet] does not return on).  The record they leave
    behind is kept in all cases.  A mutex of the source is held over single
    reads and writes only, so each access is atomic here. *)
From S2P Require Import Prelude Float64 GoRuntime GoString CPUPool CoreSet ApiTypes Kube ApiServer Budget Conversions DataCollector Pressure NodeEvents.
From stdpp Require Import options.

Local Open Scope Z_scope.

(** ** The clock: [time.Now()] in nanoseconds *)
Class Clock (W : Type) := { time_Now : W -> W * Z }.

(** Reading the clock does not change what the API server answers, and the
    clock does not go back. *)
Class ClockLaws W `{KubeClient W, Clock W} := {
  clock_get w ns name : GetMCKube (time_Now w).1 ns name = GetMCKube w ns name;
  clock_forward w : (time_Now w).2 <= (time_Now (time_Now w).1).2
}.

(** The reference server has a clock that stands still. *)
#[export] Instance server_clock : Clock Server := { time_Now s := (s, 1000000000000) }.

#[export] Instance server_clock_laws : ClockLaws Server.
Proof. split; intros; by cbn. Qed.

(** ** State *)

Record St (W : Type) := mkSt {
  world : W;
  podRuntimeState : gmap string string;
  throttledVictims : gmap string Z;
  lastCpuBusyState : gmap string bool;
  Timers : gmap string Z;
  globalPools : Pools;
  PressureState : gmap string NodePressureState;
  ProcessingNodes : gset string
}.
Arguments mkSt {W} _ _ _ _ _ _ _ _.
Arguments world {W} _.
Arguments podRuntimeState {W} _.
Arguments throttledVictims {W} _.
Arguments lastCpuBusyState {W} _.
Arguments Timers {W} _.
Arguments globalPools {W} _.
Arguments PressureState {W} _.
Arguments ProcessingNodes {W} _.

(** The state of a controller that has just started. *)
Definition st_init {W} (w : W) : St W := mkSt w ∅ ∅ ∅ ∅ ∅ ∅ ∅.

Section setters.
Context {W : Type}.

Definition with_world (w : W) (st : St W) : St W :=
  mkSt w (podRuntimeState st) (throttledVictims st) (lastCpuBusyState st) (Timers st) (globalPools st)
    (PressureState st) (ProcessingNodes st).
Definition with_runtime (m : gmap string string) (st : St W) : St W :=
  mkSt (world st) m (throttledVictims st) (lastCpuBusyState st) (Timers st) (globalPools st)
    (PressureState st) (ProcessingNodes st).
Definition with_throttled (m : gmap string Z) (st : St W) : St W :=
  mkSt (world st) (podRuntimeState st) m (lastCpuBusyState st) (Timers st) (globalPools st)
    (PressureState st) (ProcessingNodes st).
Definition with_busy (m : gmap string bool) (st : St W) : St W :=
  mkSt (world st) (podRuntimeState st) (throttledVictims st) m (Timers st) (globalPools st)
    (PressureState st) (ProcessingNodes st).
Definition with_timers (m : gmap string Z) (st : St W) : St W :=
  mkSt (world st) (podRuntimeState st) (throttledVictims st) (lastCpuBusyState st) m (globalPools st)
    (PressureState st) (ProcessingNodes st).
Definition with_pools (g : Pools) (st : St W) : St W :=
  mkSt (world st) (podRuntimeState st) (throttledVictims st) (lastCpuBusyState st) (Timers st) g
    (PressureState st) (ProcessingNodes st).
Definition with_pressure (m : gmap string NodePressureState) (st : St W) : St W :=
  mkSt (world st) (podRuntimeState st) (throttledVictims st) (lastCpuBusyState st) (Timers st) (globalPools st)
    m (ProcessingNodes st).
Definition with_processing (s : gset string) (st : St W) : St W :=
  mkSt (world st) (podRuntimeState st) (throttledVictims st) (lastCpuBusyState st) (Timers st) (globalPools st)
    (PressureState st) s.
End setters.

(** ** Computations *)

Create HintDb ctl.

Inductive stuck := Panics | Diverges.

Definition ctl (W A : Type) : Type := St W -> St W * (stuck + A).

#[export] Instance ctl_ret {W} : MRet (ctl W) := fun A a st => (st, inr a).
#[export] Instance ctl_bind {W} : MBind (ctl W) := fun A B f m st =>
  match m st with
  | (st, inr a) => f a st
  | (st, inl s) => (st, inl s)
  end.

Section operations.
Context {W : Type}.

Definition stop {A} (s : stuck) : ctl W A := fun st => (st, inl s).
Definition gets {A} (f : St W -> A) : ctl W A := fun st => (st, inr (f st)).
Definition modify (f : St W -> St W) : ctl W unit := fun st => (f st, inr tt).

(** A call that changes the world, and one that only reads it. *)
Definition call {A} (f : W -> W * A) : ctl W A := fun st => (with_world (f (world st)).1 st, inr (f (world st)).2).
Definition query {A} (f : W -> A) : ctl W A := gets (fun st => f (world st)).

(** The loops of the source: over all elements; with an accumulator; and with
    [return err] in the body. *)
Fixpoint for_each {A} (l : list A) (body : A -> ctl W unit) : ctl W unit :=
  match l with
  | [] => mret tt
  | x :: l => body x;; for_each l body
  end.

Fixpoint for_acc {A B} (l : list A) (acc : B) (body : B -> A -> ctl W B) : ctl W B :=
  match l with
  | [] => mret acc
  | x :: l => acc ← body acc x; for_acc l acc body
  end.

Fixpoint for_until {A} (l : list A) (body : A -> ctl W (option error)) : ctl W (option error) :=
  match l with
  | [] => mret None
  | x :: l =>
      err ← body x;
      match err with
      | Some e => mret (Some e)
      | None => for_until l body
      end
  end.

(** [ParseCoreSet], which may not return. *)
Definition parseCoreSet (s : string) : ctl W (list Z) :=
  match ParseCoreSet s with
  | Some l => mret l
  | None => stop Diverges
  end.

(** Following the pointer to the pool of a node. *)
Definition poolOf (nodeName : string) : ctl W CPUPool :=
  pool ← gets (fun st => GetPoolForNode (globalPools st) nodeName);
  match pool with
  | Some p => mret p
  | None => stop Panics
  end.

(** A method on the pool of a node. *)
Definition onPool (nodeName : string) (f : CPUPool -> CPUPool) : ctl W unit :=
  modify (fun st => with_pools (alter f nodeName (globalPools st)) st).

Definition getOrCreatePool (nodeName : string) : ctl W CPUPool := fun st =>
  let '(g, p) := GetOrCreateCPUPool (globalPools st) nodeName DefaultNumCores in
  (with_pools g st, inr p).
End operations.

(** ** How a computation may change the state *)

(** Whatever the outcome, the state changes as [T] allows. *)
Definition evolves {W A} (T : St W -> St W -> Prop) (m : ctl W A) : Prop := forall st, T st (m st).1.

Section evolves.
Context {W : Type} (T : St W -> St W -> Prop) `{!PreOrder T}.

Lemma evolves_ret {A} (a : A) : evolves T (mret a).
Proof using All. intros st. simpl. reflexivity. Qed.

Lemma evolves_stop {A} s : evolves T (stop (A := A) s).
Proof using All. intros st. simpl. reflexivity. Qed.

Lemma evolves_gets {A} (f : St W -> A) : evolves T (gets f).
Proof using All. intros st. simpl. reflexivity. Qed.

Lemma evolves_query {A} (f : W -> A) : evolves T (query f).
Proof using All. apply evolves_gets. Qed.

Lemma evolves_bind {A B} (m : ctl W A) (f : A -> ctl W B) :
  evolves T m -> (forall a, evolves T (f a)) -> evolves T (m ≫= f).
Proof using All.
  intros Hm Hf st. unfold mbind, ctl_bind. specialize (Hm st). destruct (m st) as [st1 [s|a]]; [done|].
  etrans; [done|apply Hf].
Qed.

(** What the query returned is known to the rest. *)
Lemma evolves_query_bind {A B} (q : W -> A) (f : A -> ctl W B) :
  (forall w, evolves T (f (q w))) -> evolves T (query q ≫= f).
Proof using All. intros H st. apply (H (world st) st). Qed.

Lemma evolves_for_each {A} (l : list A) body : (forall x, x ∈ l -> evolves T (body x)) -> evolves T (for_each l body).
Proof using All.
  induction l as [|x l IH]; intros H; [apply evolves_ret|]. simpl.
  apply evolves_bind; [apply H; by left|]. intros _. apply IH. intros y Hy. apply H. by right.
Qed.

Lemma evolves_for_acc {A B} (l : list A) (acc : B) body :
  (forall b x, x ∈ l -> evolves T (body b x)) -> evolves T (for_acc l acc body).
Proof using All.
  revert acc. induction l as [|x l IH]; intros acc H; [apply evolves_ret|]. simpl.
  apply evolves_bind; [apply H; by left|]. intros b. apply IH. intros b' y Hy. apply H. by right.
Qed.

Lemma evolves_for_until {A} (l : list A) body : (forall x, evolves T (body x)) -> evolves T (for_until l body).
Proof using All.
  intros H. induction l as [|x l IH]; [apply evolves_ret|]. simpl. apply evolves_bind; [done|].
  intros [e|]; [apply evolves_ret|done].
Qed.

Lemma evolves_parse s : evolves T (parseCoreSet s).
Proof using All. unfold parseCoreSet. destruct (ParseCoreSet s); [apply evolves_ret|apply evolves_stop]. Qed.

Lemma evolves_pool n : evolves T (poolOf n).
Proof using All.
  apply evolves_bind; [apply evolves_gets|]. intros [p|]; [apply evolves_ret|apply evolves_stop].
Qed.
End evolves.

Section evolves_calls.
Context {W : Type} (T : St W -> St W -> Prop).

Lemma evolves_call {A} (f : W -> W * A) : (forall w st, T st (with_world w st)) -> evolves T (call f).
Proof. intros H st. apply H. Qed.

Lemma evolves_modify f : (forall st, T st (f st)) -> evolves T (modify f).
Proof. intros H st. apply H. Qed.

Lemma evolves_weaken {A} (T' : St W -> St W -> Prop) (m : ctl W A) :
  (forall st st', T st st' -> T' st st') -> evolves T m -> evolves T' m.
Proof. intros H Hm st. apply H, Hm. Qed.
End evolves_calls.

(** A part of the state stays as it is; a predicate on the state stays true. *)
Definition keeps {W B} (f : St W -> B) (st st' : St W) : Prop := f st' = f st.
Definition preserves {W} (P : St W -> Prop) (st st' : St W) : Prop := P st -> P st'.

#[export] Instance keeps_preorder {W B} (f : St W -> B) : PreOrder (keeps f).
Proof. unfold keeps. split; [by intros st|intros st1 st2 st3; congruence]. Qed.

#[export] Instance preserves_preorder {W} (P : St W -> Prop) : PreOrder (preserves P).
Proof. unfold preserves. split; [by intros st|intros st1 st2 st3; tauto]. Qed.

(** Follows the structure of a computation. *)
Ltac evolve_step :=
  first
    [ apply evolves_ret; apply _ | apply evolves_stop; apply _ | apply evolves_gets; apply _
    | apply evolves_query; apply _ | apply evolves_parse; apply _ | apply evolves_pool; apply _
    | apply evolves_for_each; [apply _|intros ? ?] | apply evolves_for_acc; [apply _|intros ? ? ?]
    | apply evolves_for_until; [apply _|intros ?]
    | solve [auto with ctl]
    | apply evolves_bind; [apply _| |intros ?]
    | match goal with
      | |- evolves _ (match ?x with _ => _ end) => destruct x
      | |- evolves _ (let '(_, _) := ?x in _) => destruct x
      end ].
Ltac evolve := cbv zeta; repeat evolve_step.

(** Calls, and assignments to other parts, keep a part of the state. *)
#[export] Hint Extern 1 (evolves (keeps _) _) => (apply evolves_call; intros ? ?; reflexivity) : ctl.
#[export] Hint Extern 1 (evolves (keeps _) _) => (apply evolves_modify; intros ?; reflexivity) : ctl.

(** ** Computations that return

    [returns P m]: from every state with [P] the computation returns, in a state
    with [P] again. *)
Definition returns {W A} (P : St W -> Prop) (m : ctl W A) : Prop :=
  forall st, P st -> P (m st).1 /\ exists a, (m st).2 = inr a.

Section returns.
Context {W : Type} (P : St W -> Prop).

Lemma returns_ret {A} (a : A) : returns P (mret a).
Proof. intros st H. split; [done|by exists a]. Qed.

Lemma returns_gets {A} (f : St W -> A) : returns P (gets f).
Proof. intros st H. split; [done|by eexists]. Qed.

Lemma returns_query {A} (f : W -> A) : returns P (query f).
Proof. apply returns_gets. Qed.

Lemma returns_call {A} (f : W -> W * A) : (forall w st, P st -> P (with_world w st)) -> returns P (call f).
Proof. intros H st Hst. split; [by apply H|by eexists]. Qed.

Lemma returns_modify f : (forall st, P st -> P (f st)) -> returns P (modify f).
Proof. intros H st Hst. split; [by apply H|by eexists]. Qed.

Lemma returns_bind {A B} (m : ctl W A) (f : A -> ctl W B) :
  returns P m -> (forall a, returns P (f a)) -> returns P (m ≫= f).
Proof.
  intros Hm Hf st Hst. unfold mbind, ctl_bind. destruct (Hm st Hst) as [H1 [a Ha]].
  destruct (m st) as [st1 r]. simpl in *. subst r. by apply Hf.
Qed.

Lemma returns_for_each {A} (l : list A) body : (forall x, returns P (body x)) -> returns P (for_each l body).
Proof. intros H. induction l as [|x l IH]; [apply returns_ret|]. simpl. apply returns_bind; auto. Qed.

Lemma returns_for_acc {A B} (l : list A) (acc : B) body :
  (forall b x, returns P (body b x)) -> returns P (for_acc l acc body).
Proof.
  intros H. revert acc. induction l as [|x l IH]; intros acc; [apply returns_ret|]. simpl. apply returns_bind; auto.
Qed.

Lemma returns_for_until {A} (l : list A) body : (forall x, returns P (body x)) -> returns P (for_until l body).
Proof.
  intros H. induction l as [|x l IH]; [apply returns_ret|]. simpl. apply returns_bind; [done|].
  intros [e|]; [apply returns_ret|done].
Qed.

Lemma returns_run {A} (m : ctl W A) st : returns P m -> P st -> exists st' a, m st = (st', inr a) /\ P st'.
Proof.
  intros Hm Hst. destruct (Hm st Hst) as [H1 [a Ha]]. destruct (m st) as [st' r]. simpl in *. subst r. by exists st', a.
Qed.
End returns.

(** [P] may depend on the pools only. *)
Definition on_pools {W} (P : Pools -> Prop) (st : St W) : Prop := P (globalPools st).

Lemma returns_pool {W} node (P : Pools -> Prop) :
  (forall g, P g -> is_Some (g !! node)) -> returns (on_pools P) (poolOf (W := W) node).
Proof.
  intros HP st Hst. unfold poolOf, GetPoolForNode. unfold mbind, ctl_bind. simpl.
  destruct (HP _ Hst) as [p ->]. split; [done|by exists p].
Qed.

Ltac returns_step :=
  first
    [ apply returns_ret | apply returns_gets | apply returns_query
    | apply returns_for_each; intros ? | apply returns_for_acc; intros ? ? | apply returns_for_until; intros ?
    | solve [auto with ctl]
    | apply returns_call; intros ? ? ?; assumption
    | apply returns_modify; intros ? ?; assumption
    | apply returns_bind; [|intros ?]
    | match goal with
      | |- returns _ (match ?x with _ => _ end) => destruct x
      | |- returns _ (let '(_, _) := ?x in _) => destruct x
      end ].
Ltac return_ := cbv zeta; repeat returns_step.

(** ** Equations for running a computation *)

Lemma run_bind {W A B} (m : ctl W A) (f : A -> ctl W B) st :
  (m ≫= f) st = match m st with (st, inr a) => f a st | (st, inl s) => (st, inl s) end.
Proof. done. Qed.

Lemma run_bind_inr {W A B} (m : ctl W A) (f : A -> ctl W B) st st1 a :
  m st = (st1, inr a) -> (m ≫= f) st = f a st1.
Proof. intros E. by rewrite run_bind, E. Qed.

Lemma run_assoc {W A B C} (m : ctl W A) (f : A -> ctl W B) (g : B -> ctl W C) st :
  ((m ≫= f) ≫= g) st = (m ≫= (fun a => f a ≫= g)) st.
Proof. unfold mbind, ctl_bind. by destruct (m st) as [st1 [s|a]]. Qed.

Lemma run_gets {W A B} (f : St W -> A) (k : A -> ctl W B) st : (gets f ≫= k) st = k (f st) st.
Proof. done. Qed.

Lemma run_query {W A B} (f : W -> A) (k : A -> ctl W B) st : (query f ≫= k) st = k (f (world st)) st.
Proof. done. Qed.

Lemma run_call {W A B} (f : W -> W * A) (k : A -> ctl W B) st :
  (call f ≫= k) st = k (f (world st)).2 (with_world (f (world st)).1 st).
Proof. done. Qed.

Lemma run_modify {W B} f (k : unit -> ctl W B) st : (modify f ≫= k) st = k tt (f st).
Proof. done. Qed.

Lemma run_onPool {W B} n f (k : unit -> ctl W B) st :
  (onPool n f ≫= k) st = k tt (with_pools (alter f n (globalPools st)) st).
Proof. done. Qed.

Lemma run_ret {W A B} (a : A) (k : A -> ctl W B) st : (mret a ≫= k) st = k a st.
Proof. done. Qed.

Lemma run_pool {W B} n p (k : CPUPool -> ctl W B) st :
  globalPools st !! n = Some p -> (poolOf n ≫= k) st = k p st.
Proof. intros E. unfold poolOf, GetPoolForNode. by rewrite run_bind, run_gets, E. Qed.

Lemma run_no_pool {W B} n (k : CPUPool -> ctl W B) st :
  globalPools st !! n = None -> (poolOf n ≫= k) st = (st, inl Panics).
Proof. intros E. unfold poolOf, GetPoolForNode. by rewrite run_bind, run_gets, E. Qed.

(** A loop with an invariant on the elements still to come. *)
Lemma for_each_inv {W A} (Inv : list A -> St W -> Prop) (body : A -> ctl W unit) l st :
  (forall x l st, Inv (x :: l) st -> Inv l (body x st).1) -> Inv l st -> exists l', Inv l' (for_each l body st).1.
Proof.
  intros Hb. revert st. induction l as [|x l IH]; intros st H; simpl; [by exists []|].
  rewrite run_bind. specialize (Hb x l st H). destruct (body x st) as [st1 [s|[]]]; [by exists l|by apply IH].
Qed.
