(* ===== verification/Housekeeping.v ===== *)
(** * Housekeeping: markers, clean-up, watch events and taints

    The small operations of [internal/controller/mckube_controller.go]: the
    markers of throttled victims and their time to live, the removal of the
    state of deleted pods, the mapping of pod events to requests, the timers of
    tainted nodes and the helpers on finalizer lists. *)
From S2P Require Import Prelude Float64 GoRuntime GoString CPUPool CoreSet ApiTypes Kube ApiServer Budget Conversions DataCollector Pressure NodeEvents Controller.
From stdpp Require Import options.

Local Open Scope Z_scope.

Definition targetNamespace : string := "default".
Definition rtPressureTaintKey : string := "McKubeRTDeadlinePressure".
Definition mckubeFinalizer : string := "mckube.mcoperator.sdv.com/finalizer".

(** 30 seconds *)
Definition throttledVictimTTL : Z := 30 * 1000000000.

Record NamespacedName := mkName { nn_Namespace : string; nn_Name : string }.

(** ** Finalizer lists *)

Fixpoint containsString (slice : list string) (s : string) : bool :=
  match slice with
  | [] => false
  | item :: slice => if decide (item = s) then true else containsString slice s
  end.

Definition removeString (slice : list string) (s : string) : list string :=
  foldl (fun result item => if decide (item <> s) then result ++ [item] else result) [] slice.

(** The taints after the removal at position [i]: the last one takes its place. *)
Definition dropTaint (i : nat) (taints : list Taint) : list Taint :=
  match last taints with
  | Some l => take (length taints - 1) (<[i := l]> taints)
  | None => taints
  end.

(** The first position of a taint with the key. *)
Fixpoint taintIndex (taints : list Taint) : option nat :=
  match taints with
  | [] => None
  | t :: taints => if decide (taint_Key t = rtPressureTaintKey) then Some 0%nat else S <$> taintIndex taints
  end.

(** [mckubeList.Items[i].Spec.PodName == pod.Name], the first such resource. *)
Definition findByPodName (items : list MCKube) (podName : string) : option MCKube :=
  List.find (fun mc => bool_decide (spec_PodName (mc_Spec mc) = podName)) items.

(** ** Timing of reconciliations *)

(** The package variables [max] and [counter]; times are in nanoseconds. *)
Record timing := mkTiming { timing_max : Z; timing_counter : Z }.

Definition timing_init : timing := mkTiming 0 1.

(** [duration], for an [elapsed] time since the start. *)
Definition duration (elapsed : Z) (t : timing) : timing :=
  let max := if 1 <? timing_counter t then (if timing_max t <? elapsed then elapsed else timing_max t)
             else timing_max t in
  let counter := if Z.rem (timing_counter t) 50 =? 0 then 1 else timing_counter t in
  mkTiming max (wrap64 (counter + 1)).

Section housekeeping.
Context `{R : GoRuntime} {W : Type} `{K : !KubeClient W, T : !Clock W}.

(** ** Throttled victims *)

Definition cleanupExpiredThrottledVictims : ctl W unit :=
  now ← call time_Now;
  let cutoff := now - throttledVictimTTL in
  modify (fun st => with_throttled
    (foldl (fun m '(uid, throttledAt) => if throttledAt <? cutoff then delete uid m else m)
      (throttledVictims st) (go_range "cleanupExpiredThrottledVictims" (throttledVictims st))) st).

Definition markThrottledVictim (uid : string) (throttledAt : Z) : ctl W unit :=
  modify (fun st => with_throttled (<[uid := throttledAt]> (throttledVictims st)) st).

Definition isVictimThrottled (uid : string) : ctl W bool :=
  entry ← gets (fun st => throttledVictims st !! uid);
  match entry with
  | None => mret false
  | Some throttledAt =>
      now ← call time_Now;
      mret (now - throttledAt <=? throttledVictimTTL)
  end.

(** ** The state of pods *)

Definition ensurePodRuntimeStateInitialized (podName : string) : ctl W unit :=
  modify (fun st =>
    match podRuntimeState st !! podName with
    | Some _ => st
    | None => with_runtime (<[podName := "low"]> (podRuntimeState st)) st
    end).

(** The flags only decide what is logged. *)
Definition cleanupPodState (podName namespace : string) : ctl W unit :=
  modify (fun st => with_runtime (delete podName (podRuntimeState st)) st);;
  modify (fun st => with_pools (RemovePodFromPool (globalPools st) podName).1 st).

(** The pods of the namespace with an application label. *)
Definition existingPods (items : list Pod) : gmap string bool :=
  foldl (fun m pod => if decide (appOf pod <> EmptyString) then <[pod_Name pod := true]> m else m) ∅ items.

Definition cleanupPodStateByMcKubeName (mcKubeName : NamespacedName) : ctl W unit :=
  listed ← query (fun w => ListPods w (Some (nn_Namespace mcKubeName)));
  match listed with
  | Err _ => mret tt
  | Ok items =>
      let exists_ podName := default false (existingPods items !! podName) in
      modify (fun st => with_runtime
        (foldl (fun m '(podName, _) => if exists_ podName then m else delete podName m)
          (podRuntimeState st) (go_range "cleanupPodStateByMcKubeName" (podRuntimeState st))) st);;
      modify (fun st => with_pools (RemovePodsNotIn (globalPools st) exists_) st)
  end.

(** ** Events of pods *)

Definition findObjectsForPod (pod : Pod) : ctl W (list NamespacedName) :=
  if decide (pod_Namespace pod <> targetNamespace) then mret []
  else if decide (appOf pod = EmptyString) then mret []
  else
    (if decide (is_Some (pod_DeletionTimestamp pod))
     then cleanupPodState (pod_Name pod) (pod_Namespace pod) else mret tt);;
    listed ← query (fun w => ListMCKubes w (pod_Namespace pod));
    match listed with
    | Err _ => mret []
    | Ok items =>
        match findByPodName items (pod_Name pod) with
        | Some mckube => mret [mkName (mc_Namespace mckube) (mc_Name mckube)]
        | None => mret []
        end
    end.

(** ** The taint monitoring thread: one round, every [polling_rate] seconds *)

Definition untaint (nodeName : string) (node : Node) : ctl W unit :=
  (match taintIndex (node_Taints node) with
   | Some i => _ ← call (fun w => UpdateNode w (set_node_taints (dropTaint i (node_Taints node)) node)); mret tt
   | None => mret tt
   end);;
  modify (fun st => with_timers (delete nodeName (Timers st)) st).

Definition taintRound : ctl W unit :=
  timers ← gets (fun st => go_range "StartTaintThread" (Timers st));
  for_each timers (fun '(nodeName, timer) =>
    if timer <=? 0 then
      got ← query (fun w => GetNode w nodeName);
      match got with
      | Err _ => mret tt
      | Ok node => untaint nodeName node
      end
    else modify (fun st => with_timers (<[nodeName := timer - 1]> (Timers st)) st)).
End housekeeping.

(** ** Lemmas *)

Lemma containsString_elem slice s : containsString slice s = true <-> s ∈ slice.
Proof.
  induction slice as [|item slice IH]; simpl; [set_solver|].
  rewrite elem_of_cons, <- IH. case_decide; split; naive_solver.
Qed.

Lemma removeString_filter slice s : removeString slice s = filter (fun item => item <> s) slice.
Proof.
  unfold removeString. assert (Hgen : forall l acc,
    foldl (fun result item => if decide (item <> s) then result ++ [item] else result) acc l =
    acc ++ filter (fun item => item <> s) l); [|by rewrite Hgen].
  induction l as [|item l IH]; intros acc; [by rewrite app_nil_r|]. cbn [foldl].
  rewrite IH, filter_cons. case_decide; [by rewrite <- app_assoc|done].
Qed.

(** The counter stays between 1 and 50, and the reported maximum is that of all
    calls except the very first one. *)
Lemma duration_counts t e :
  1 <= timing_counter t <= 50 -> 2 <= timing_counter (duration e t) <= 50.
Proof.
  intros H. unfold duration. cbn [timing_counter]. destruct (Z.eqb_spec (Z.rem (timing_counter t) 50) 0) as [E|E].
  - by rewrite wrap64_id by (unfold int64; lia).
  - assert (timing_counter t <> 50) by (intros E'; by rewrite E' in E). rewrite wrap64_id by (unfold int64; lia). lia.
Qed.

Lemma duration_max e es :
  let t := foldl (fun t e => duration e t) timing_init (e :: es) in
  2 <= timing_counter t <= 50 /\ timing_max t = foldl Z.max 0 es.
Proof.
  cbv zeta. cbn [foldl]. assert (H0 : timing_max (duration e timing_init) = 0) by done.
  revert H0. assert (Hc : 2 <= timing_counter (duration e timing_init) <= 50) by (apply duration_counts; simpl; lia).
  revert Hc. generalize (duration e timing_init) as t. generalize 0 as m.
  induction es as [|e' es IH]; intros m t Hc Hm; [done|]. cbn [foldl]. apply IH.
  - apply duration_counts. lia.
  - unfold duration. cbn [timing_max]. rewrite (proj2 (Z.ltb_lt _ _)) by lia. rewrite Hm.
    destruct (Z.ltb_spec m e'); lia.
Qed.

(** Deleting entries while the map is visited, whatever the order. *)
Lemma range_delete `{GoRuntime} {K A} `{Countable K} site (P : K -> A -> bool) (m : gmap K A) :
  foldl (fun m '(k, v) => if P k v then delete k m else m) m (go_range site m) =
  filter (fun kv => P kv.1 kv.2 = false) m.
Proof.
  assert (Hgen : forall (l : list (K * A)) (acc : gmap K A) k,
    NoDup l.*1 -> (forall k v, (k, v) ∈ l -> acc !! k = Some v) ->
    foldl (fun m '(k, v) => if P k v then delete k m else m) acc l !! k =
    (if decide (k ∈ l.*1) then acc !! k ≫= (fun v => if P k v then None else Some v) else acc !! k)).
  { induction l as [|[k' v'] l IH]; intros acc k Hnd Hl; [done|]. cbn [foldl].
    rewrite fmap_cons in Hnd |- *. apply NoDup_cons in Hnd as [Hk' Hnd]. rewrite IH; [|done|].
    - destruct (decide (k = k')) as [->|Hne].
      + rewrite decide_False by done. rewrite decide_True by left. rewrite (Hl k' v') by left. simpl.
        destruct (P k' v'); [apply lookup_delete_eq|apply Hl; by left].
      + assert (Hacc : (if P k' v' then delete k' acc else acc) !! k = acc !! k)
          by (destruct (P k' v'); [by apply lookup_delete_ne|done]).
        rewrite Hacc. apply decide_ext. rewrite elem_of_cons. cbn [fst]. tauto.
    - intros k2 v2 Hin. destruct (P k' v'); [|apply Hl; by right].
      rewrite lookup_delete_ne; [apply Hl; by right|]. intros ->. apply Hk', list_elem_of_fmap. by exists (k2, v2). }
  apply map_eq. intros k. rewrite Hgen; [|apply go_range_NoDup|intros k' v'; apply elem_of_go_range].
  rewrite map_lookup_filter. case_decide as Hin; rewrite go_range_keys in Hin.
  - destruct (m !! k) as [v|]; simpl; [|done]. by destruct (P k v).
  - apply eq_None_not_Some in Hin as ->. done.
Qed.

Lemma findByPodName_Some items podName mc :
  findByPodName items podName = Some mc -> mc ∈ items /\ spec_PodName (mc_Spec mc) = podName.
Proof.
  intros H. apply find_some in H as [Hin Hn]. apply bool_decide_eq_true in Hn. split; [by apply list_elem_of_In|done].
Qed.

Section lemmas.
Context `{R : GoRuntime} {W : Type} `{K : !KubeClient W, T : !Clock W}.
Implicit Types (st : St W).

(** The result of the clean-up of the markers. *)
Lemma cleanupExpired_run st :
  cleanupExpiredThrottledVictims st =
  (with_throttled (filter (fun kv => (kv.2 <? (time_Now (world st)).2 - throttledVictimTTL) = false) (throttledVictims st))
     (with_world (time_Now (world st)).1 st), inr tt).
Proof.
  unfold cleanupExpiredThrottledVictims. unfold call, modify, mbind, ctl_bind. simpl.
  by rewrite (range_delete _ (fun _ throttledAt => throttledAt <? (time_Now (world st)).2 - throttledVictimTTL)).
Qed.

(** What the clean-up of a pod leaves of the state. *)
Definition withoutPod (podName : string) (st : St W) : St W :=
  with_pools (RemovePodFromPool (globalPools st) podName).1 (with_runtime (delete podName (podRuntimeState st)) st).

Lemma cleanupPodState_run podName namespace st :
  cleanupPodState podName namespace st = (withoutPod podName st, inr tt).
Proof. done. Qed.

(** The pod's bookings and state are gone and nothing else changes. *)
Lemma withoutPod_spec podName st :
  (forall node c name, booking (globalPools (withoutPod podName st)) node c name =
     if decide (name = podName) then None else booking (globalPools st) node c name) /\
  (forall name, podRuntimeState (withoutPod podName st) !! name =
     if decide (name = podName) then None else podRuntimeState st !! name).
Proof.
  split.
  - intros node c name. simpl. rewrite RemovePodFromPool_split. apply booking_releaseEverywhere.
  - intros name. simpl. case_decide as H; [by rewrite H, lookup_delete_eq|by rewrite lookup_delete_ne].
Qed.

(** The first round of an event of a pod. *)
Lemma findObjectsForPod_run pod st :
  pod_Namespace pod = targetNamespace -> appOf pod <> EmptyString ->
  findObjectsForPod pod st =
  (if decide (is_Some (pod_DeletionTimestamp pod)) then withoutPod (pod_Name pod) st else st,
   inr (match ListMCKubes (world st) targetNamespace with
        | Ok items => match findByPodName items (pod_Name pod) with
                      | Some mc => [mkName (mc_Namespace mc) (mc_Name mc)]
                      | None => []
                      end
        | Err _ => []
        end)).
Proof using Type.
  intros Hns Happ. unfold findObjectsForPod. rewrite decide_False by (intros H; by apply H).
  rewrite decide_False by done. rewrite Hns.
  case_decide; rewrite run_bind; [rewrite cleanupPodState_run|unfold mret, ctl_ret]; rewrite run_query;
    change (world (withoutPod (pod_Name pod) st)) with (world st);
    (destruct (ListMCKubes (world st) _) as [items|e]; [|reflexivity]); by destruct (findByPodName items _).
Qed.
End lemmas.

(** ** Properties *)

Section properties.
Context `{R : GoRuntime} {W : Type} `{K : !KubeClient W, T : !Clock W}.
Implicit Types (st : St W).

(** The clean-up of expired markers keeps exactly the markers that are at
    most 30 seconds old and, as long as the clock does not go back, is invisible
    to every later question whether a victim is throttled. *)
Theorem cleanupExpired_transparent `{TL : !ClockLaws W} st st' r :
  cleanupExpiredThrottledVictims st = (st', r) ->
  (forall uid, throttledVictims st' !! uid =
     throttledVictims st !! uid ≫= fun t =>
       if decide ((time_Now (world st)).2 - t <= throttledVictimTTL) then Some t else None) /\
  (forall uid, (isVictimThrottled uid st').2 =
     (isVictimThrottled uid (with_throttled (throttledVictims st) st')).2).
Proof using Type.
  rewrite cleanupExpired_run. intros [= <- <-]. simpl.
  assert (Hlook : forall uid, filter (fun kv : string * Z => (kv.2 <? (time_Now (world st)).2 - throttledVictimTTL) = false)
      (throttledVictims st) !! uid = throttledVictims st !! uid ≫= fun t =>
       if decide ((time_Now (world st)).2 - t <= throttledVictimTTL) then Some t else None).
  { intros uid. rewrite map_lookup_filter. destruct (throttledVictims st !! uid) as [t|]; [|done]. simpl.
    destruct (Z.ltb_spec t ((time_Now (world st)).2 - throttledVictimTTL)).
    - rewrite decide_False by lia. by case_guard.
    - rewrite decide_True by lia. by case_guard. }
  split; [done|]. intros uid. unfold isVictimThrottled. rewrite !run_gets. simpl. rewrite Hlook.
  destruct (throttledVictims st !! uid) as [t|]; [|done]. simpl.
  case_decide as Hd; [done|]. unfold mret, mbind, ctl_ret, ctl_bind, call. simpl. f_equal. symmetry. apply Z.leb_gt.
  pose proof (clock_forward (world st)). lia.
Qed.

(** C32: the event of a deleted pod of the watched namespace with an application
    label removes the pod's state and all its bookings, on every core of every
    node, and nothing else; it asks for a reconciliation of the first resource
    that names the pod.  An event of a pod of another namespace or without the
    label does nothing, deleted or not. *)
Theorem findObjectsForPod_deletion pod st st' r :
  is_Some (pod_DeletionTimestamp pod) -> findObjectsForPod pod st = (st', r) ->
  (pod_Namespace pod = targetNamespace /\ appOf pod <> "" ->
     (forall node c name, booking (globalPools st') node c name =
        if decide (name = pod_Name pod) then None else booking (globalPools st) node c name) /\
     (forall name, podRuntimeState st' !! name =
        if decide (name = pod_Name pod) then None else podRuntimeState st !! name) /\
     world st' = world st /\
     forall req, r = inr [req] -> exists items mc, ListMCKubes (world st) targetNamespace = Ok items /\
       mc ∈ items /\ spec_PodName (mc_Spec mc) = pod_Name pod /\ req = mkName (mc_Namespace mc) (mc_Name mc)) /\
  (pod_Namespace pod <> targetNamespace \/ appOf pod = "" -> st' = st /\ r = inr []).
Proof using Type.
  intros Hdel E. split.
  - intros [Hns Happ]. rewrite findObjectsForPod_run, decide_True in E by done. injection E as <- <-.
    destruct (withoutPod_spec (pod_Name pod) st) as [H1 H2]. split_and!; [done..|].
    intros req [= Hreq]. destruct (ListMCKubes _ _) as [items|e]; [|done].
    destruct (findByPodName items _) as [mc|] eqn:Ef; [|done]. injection Hreq as <-.
    apply findByPodName_Some in Ef as [? ?]. by exists items, mc.
  - intros Hno. unfold findObjectsForPod in E. case_decide as Hns; [by injection E as <- <-|].
    destruct Hno as [Hno|Hno]; [done|]. rewrite decide_True in E by done. by injection E as <- <-.
Qed.
End properties.

Example cleanupExpired_transparent_witness :
  let st := with_throttled {["u" := 0]} (st_init (mkServer [] [] [] false 200 [])) in
  throttledVictims (@cleanupExpiredThrottledVictims reference_runtime Server _ st).1 !! "u" = None.
Proof.
  intros st. destruct (@cleanupExpiredThrottledVictims reference_runtime Server _ st) as [st' r] eqn:E.
  rewrite (proj1 (@cleanupExpired_transparent reference_runtime Server _ _ _ st st' r E)). reflexivity.
Defined.

(** A pod being deleted that is booked on the node "n1". *)
Definition deleted_pod : Pod :=
  {| pod_Name := "a"; pod_Namespace := "default"; pod_UID := "u"; pod_Labels := {["sdv.com" := "app"]};
     pod_Annotations := ∅; pod_DeletionTimestamp := Some 1; pod_NodeName := "n1"; pod_Containers := [];
     pod_Phase := "Running"; pod_HostIP := ""; pod_ContainerStatuses := []; pod_InitContainerStatuses := [] |}.

Example findObjectsForPod_deletion_witness :
  let st := with_pools {["n1" := AddPodToCore (newPool "n1" 2) 0 pod_a]} (st_init (mkServer [] [] [] false 200 [])) in
  booking (globalPools (@findObjectsForPod reference_runtime Server _ deleted_pod st).1) "n1" 0 "a" = None.
Proof.
  intros st. destruct (@findObjectsForPod reference_runtime Server _ deleted_pod st) as [st' r] eqn:E.
  apply (@findObjectsForPod_deletion reference_runtime Server _ deleted_pod st st' r); [by exists 1|exact E|].
  split; [done|]. by vm_compute.
Defined.
