(* ===== verification/Overrun.v ===== *)
(** * Overrun: escalation to the high runtime and recovery to the low one

    [handleOverrunEvent], [findPodByContainerID], the endpoint of
    [StartOverrunListener] and [handleCPURecovery] of
    [internal/controller/mckube_controller.go].  [podRuntimeState] is the state
    machine of a pod: absent, "low" or "hi". *)
From S2P Require Import Prelude Float64 GoRuntime GoString CPUPool CoreSet ApiTypes Kube ApiServer Budget Conversions DataCollector Pressure NodeEvents Controller Housekeeping.
From stdpp Require Import options.

Local Open Scope Z_scope.

Record OverrunData := mkOverrun {
  od_NodeName : string;
  od_ContainerID : string;
  od_Timestamp : Z
}.

(** The identifier after the first "://". *)
Definition normalizeID (containerID : string) : string :=
  match str_index "://" containerID with
  | Some idx => drop_bytes (idx + 3) containerID
  | None => containerID
  end.

(** The test of both loops over container statuses. *)
Definition matchesContainer (containerID : string) (cs : ContainerStatus) : bool :=
  bool_decide (cs_ContainerID cs = containerID)
  || bool_decide (normalizeID (cs_ContainerID cs) = normalizeID containerID)
  || str_contains (cs_ContainerID cs) (normalizeID containerID).

Definition matchesOverrun (nodeName containerID : string) (pod : Pod) : bool :=
  (bool_decide (nodeName = EmptyString) || bool_decide (pod_NodeName pod = nodeName))
  && (existsb (matchesContainer containerID) (pod_ContainerStatuses pod)
      || existsb (matchesContainer containerID) (pod_InitContainerStatuses pod)).

(** Statuses [http.Error] and [WriteHeader] answer with. *)
Definition StatusMethodNotAllowed : Z := 405.

Section overrun.
Context `{R : GoRuntime} {W : Type} `{K : !KubeClient W, A : !NodeActuator W, T : !Clock W}.

Definition findPodByContainerID (nodeName containerID : string) : ctl W (result (option Pod)) :=
  listed ← query (fun w => ListPods w None);
  match listed with
  | Err e => mret (Err ("failed to list pods: " +:+ e))
  | Ok items => mret (Ok (List.find (matchesOverrun nodeName containerID) items))
  end.

Definition sendRequest (nodeIP : string) (req : CgroupRequest) : ctl W (option error) :=
  call (fun w => SendRTRequest w nodeIP req).

Definition setRuntimeState (podName state : string) : ctl W unit :=
  modify (fun st => with_runtime (<[podName := state]> (podRuntimeState st)) st).

Definition updateStatus (mc : MCKube) : ctl W (option error) := call (fun w => UpdateMCKubeStatus w mc).

(** What remains to be done once the request for the higher runtime is accepted. *)
Definition recordOverrun (pod : Pod) (mc : MCKube) : ctl W unit :=
  setRuntimeState (pod_Name pod) "hi";;
  now ← call time_Now;
  _ ← updateStatus (set_status (fun s => set_LastOverrunTime (Some now) (set_CurrentRuntime "hi" s)) mc);
  mret tt.

(** The real-time data and the container's name are read for the log only. *)
Definition handleOverrunEvent (data : OverrunData) : ctl W unit :=
  found ← findPodByContainerID (od_NodeName data) (od_ContainerID data);
  match found with
  | Err _ | Ok None => mret tt
  | Ok (Some pod) =>
      listed ← query (fun w => ListMCKubes w (pod_Namespace pod));
      match listed with
      | Err _ => mret tt
      | Ok items =>
          match findByPodName items (pod_Name pod) with
          | None => mret tt
          | Some targetMcKube =>
              match spec_RTSettings (mc_Spec targetMcKube) with
              | None => mret tt
              | Some rt =>
                  currentState ← gets (fun st => str_get (podRuntimeState st) (pod_Name pod));
                  if decide (currentState = "hi") then mret tt
                  else
                    let nodeIP := pod_HostIP pod in
                    if decide (nodeIP = EmptyString) then mret tt
                    else
                      err ← sendRequest nodeIP
                        (mkCgroupRequest (od_ContainerID data) (Period rt) (RuntimeHi rt) (Core rt) true);
                      match err with
                      | Some _ => mret tt
                      | None => recordOverrun pod targetMcKube
                      end
              end
          end
      end
  end.

(** The endpoint: [body] is what decoding the request gives. *)
Definition serveOverrun (method : string) (body : result OverrunData) : ctl W Z :=
  if decide (method <> "POST") then mret StatusMethodNotAllowed
  else match body with
       | Err _ => mret StatusBadRequest
       | Ok data => handleOverrunEvent data;; mret StatusOK
       end.

(** ** Recovery *)

(** The loop over the containers of a pod. *)
Definition revertContainers (nodeIP : string) (rt : RTSettings) (pod : Pod) : ctl W unit :=
  for_each (pod_ContainerStatuses pod) (fun cs =>
    if decide (cs_ContainerID cs = EmptyString) then mret tt
    else
      _ ← sendRequest nodeIP (mkCgroupRequest (cs_ContainerID cs) (Period rt) (RuntimeLow rt) (Core rt) true);
      mret tt).

(** One pod. *)
Definition revertPod (pod : Pod) : ctl W unit :=
  currentState ← gets (fun st => str_get (podRuntimeState st) (pod_Name pod));
  if decide (currentState <> "hi") then mret tt
  else
    listed ← query (fun w => ListMCKubes w (pod_Namespace pod));
    match listed with
    | Err _ => mret tt
    | Ok items =>
        match findByPodName items (pod_Name pod) with
        | None => mret tt
        | Some targetMcKube =>
            match spec_RTSettings (mc_Spec targetMcKube) with
            | None => mret tt
            | Some rt =>
                let nodeIP := pod_HostIP pod in
                if decide (nodeIP = EmptyString) then mret tt
                else
                  revertContainers nodeIP rt pod;;
                  setRuntimeState (pod_Name pod) "low";;
                  _ ← updateStatus (set_status (set_CurrentRuntime "low") targetMcKube);
                  mret tt
            end
        end
    end.

(** The labelled pods of the node. *)
Definition rtPodsOn (nodeName : string) (items : list Pod) : list Pod :=
  filter (fun p => pod_NodeName p = nodeName /\ appOf p <> EmptyString) items.

Definition handleCPURecovery (nodeName : string) : ctl W unit :=
  listed ← query (fun w => ListPods w (Some targetNamespace));
  match listed with
  | Err _ => mret tt
  | Ok items =>
      match rtPodsOn nodeName items with
      | [] => mret tt
      | nodePods =>
          for_each nodePods revertPod;;
          modify (fun st => with_pressure (delete nodeName (PressureState st)) st);;
          modify (fun st => with_processing (clearProcessing (ProcessingNodes st) nodeName) st)
      end
  end.
End overrun.

(** ** Lemmas *)

Lemma normalizeID_contained s : str_contains s (normalizeID s) = true.
Proof. unfold normalizeID. destruct (str_index "://" s); [apply str_contains_drop|apply str_contains_refl]. Qed.

(** The three tests on a container amount to the last one. *)
Lemma matchesContainer_contains containerID cs :
  matchesContainer containerID cs = str_contains (cs_ContainerID cs) (normalizeID containerID).
Proof.
  unfold matchesContainer. case_bool_decide as H1; simpl; [by rewrite H1, normalizeID_contained|].
  case_bool_decide as H2; simpl; [by rewrite <- H2, normalizeID_contained|done].
Qed.

Section lemmas.
Context {W : Type} `{K : !KubeClient W, A : !NodeActuator W, T : !Clock W}.
Implicit Types (st : St W) (w : W).

(** A request succeeds when the daemon accepts it. *)
Lemma SendRTRequest_accepted w nodeIP req w1 :
  SendRTRequest w nodeIP req = (w1, None) ->
  exists body, PostCgroup w (daemonURL nodeIP) (authorization w) req = (w1, Ok (StatusOK, body)).
Proof.
  unfold SendRTRequest. destruct (PostCgroup _ _ _ _) as [w' [[status body]|e]]; [|done].
  case_decide as Hs; [done|]. intros [= ->]. exists body. by rewrite Hs.
Qed.

Lemma run_send {B} nodeIP req (k : option error -> ctl W B) st :
  (sendRequest nodeIP req ≫= k) st =
  k (SendRTRequest (world st) nodeIP req).2 (with_world (SendRTRequest (world st) nodeIP req).1 st).
Proof using Type. done. Qed.

Lemma run_status {B} mc (k : option error -> ctl W B) st :
  (updateStatus mc ≫= k) st =
  k (UpdateMCKubeStatus (world st) mc).2 (with_world (UpdateMCKubeStatus (world st) mc).1 st).
Proof using Type. done. Qed.

(** The pod, the resource and the settings an event is about. *)
Definition overrunTarget (w : W) (data : OverrunData) : option (Pod * MCKube * RTSettings) :=
  match ListPods w None with
  | Err _ => None
  | Ok pods =>
      pod ← List.find (matchesOverrun (od_NodeName data) (od_ContainerID data)) pods;
      match ListMCKubes w (pod_Namespace pod) with
      | Err _ => None
      | Ok items =>
          mc ← findByPodName items (pod_Name pod);
          rt ← spec_RTSettings (mc_Spec mc);
          Some (pod, mc, rt)
      end
  end.

Definition escalation (data : OverrunData) (rt : RTSettings) : CgroupRequest :=
  mkCgroupRequest (od_ContainerID data) (Period rt) (RuntimeHi rt) (Core rt) true.

Definition overrunStatus (t : Z) (mc : MCKube) : MCKube :=
  set_status (fun s => set_LastOverrunTime (Some t) (set_CurrentRuntime "hi" s)) mc.

(** The handler, branch by branch. *)
Lemma handleOverrunEvent_run data st :
  handleOverrunEvent data st =
  match overrunTarget (world st) data with
  | None => (st, inr tt)
  | Some (pod, mc, rt) =>
      if decide (str_get (podRuntimeState st) (pod_Name pod) = "hi" \/ pod_HostIP pod = "") then (st, inr tt)
      else
        match SendRTRequest (world st) (pod_HostIP pod) (escalation data rt) with
        | (w, Some _) => (with_world w st, inr tt)
        | (w, None) =>
            let '(w, t) := time_Now w in
            (with_world (UpdateMCKubeStatus w (overrunStatus t mc)).1
               (with_runtime (<[pod_Name pod := "hi"]> (podRuntimeState st)) st), inr tt)
        end
  end.
Proof using Type.
  unfold handleOverrunEvent, findPodByContainerID, overrunTarget. rewrite run_bind, run_query.
  destruct (ListPods (world st) None) as [pods|e]; [|reflexivity]. cbn.
  destruct (List.find _ pods) as [pod|]; [|reflexivity]. cbn. rewrite run_query.
  destruct (ListMCKubes (world st) _) as [items|e]; [|reflexivity].
  destruct (findByPodName items _) as [mc|]; [|reflexivity]. cbn.
  destruct (spec_RTSettings (mc_Spec mc)) as [rt|]; [|reflexivity]. rewrite run_gets. cbn.
  case_decide as H1; [by rewrite decide_True by by left|].
  case_decide as H2; [by rewrite decide_True by by right|]. rewrite decide_False by tauto.
  unfold sendRequest. rewrite run_call. fold (escalation data rt).
  destruct (SendRTRequest _ _ _) as [w1 [e|]]; [reflexivity|]. cbn.
  unfold recordOverrun, setRuntimeState, updateStatus. rewrite run_modify, run_call, run_call. cbn.
  by destruct (time_Now w1).
Qed.
End lemmas.

(** ** Recovery: lemmas *)

Lemma findByPodName_specs items items' podName :
  mc_Spec <$> items' = mc_Spec <$> items ->
  mc_Spec <$> findByPodName items' podName = mc_Spec <$> findByPodName items podName.
Proof.
  revert items'. induction items as [|mc items IH]; intros [|mc' items'] E; try done.
  rewrite !fmap_cons in E. injection E as E1 E2. unfold findByPodName in *. simpl. rewrite E1.
  case_bool_decide; [|by apply IH]. simpl. by rewrite E1.
Qed.

Section recovery.
Context {W : Type} `{K : !KubeClient W, A : !NodeActuator W, T : !Clock W}.
Implicit Types (st : St W) (w : W) (m : gmap string string).

(** The resource and the settings a pod is reverted with, if it can be reverted. *)
Definition recoveryTarget (w : W) (pod : Pod) : option (MCKube * RTSettings) :=
  if decide (pod_HostIP pod = "") then None
  else match ListMCKubes w (pod_Namespace pod) with
       | Ok items =>
           mc ← findByPodName items (pod_Name pod);
           rt ← spec_RTSettings (mc_Spec mc);
           Some (mc, rt)
       | Err _ => None
       end.

Definition recoverySettings (w : W) (pod : Pod) : option RTSettings := snd <$> recoveryTarget w pod.

(** The requests of a recovery: the low runtime for every started container. *)
Definition lowRequests (rt : RTSettings) (pod : Pod) : list CgroupRequest :=
  (fun cs => mkCgroupRequest (cs_ContainerID cs) (Period rt) (RuntimeLow rt) (Core rt) true) <$>
    filter (fun cs => cs_ContainerID cs <> "") (pod_ContainerStatuses pod).

(** The requests are sent one after the other, whatever the answers are. *)
Definition sendAll (w : W) (nodeIP : string) (reqs : list CgroupRequest) : W :=
  foldl (fun w req => (SendRTRequest w nodeIP req).1) w reqs.

Definition lowStatus (mc : MCKube) : MCKube := set_status (set_CurrentRuntime "low") mc.

(** What recovery promises for one pod. *)
Definition recoverPod (wm : W * gmap string string) (pod : Pod) : W * gmap string string :=
  let '(w, m) := wm in
  if decide (m !! pod_Name pod = Some "hi") then
    match recoveryTarget w pod with
    | Some (mc, rt) =>
        ((UpdateMCKubeStatus (sendAll w (pod_HostIP pod) (lowRequests rt pod)) (lowStatus mc)).1,
         <[pod_Name pod := "low"]> m)
    | None => (w, m)
    end
  else (w, m).

Lemma revertContainers_run nodeIP rt pod st :
  revertContainers nodeIP rt pod st = (with_world (sendAll (world st) nodeIP (lowRequests rt pod)) st, inr tt).
Proof using Type.
  unfold revertContainers, lowRequests, sendAll. generalize (pod_ContainerStatuses pod). intros l. revert st.
  induction l as [|cs l IH]; intros st; [by destruct st|]. cbn [for_each]. rewrite filter_cons.
  destruct (decide (cs_ContainerID cs = "")) as [H1|H1].
  - rewrite decide_False by (intros H2; by apply H2). rewrite run_ret. apply IH.
  - rewrite decide_True by done. apply (IH (with_world _ st)).
Qed.

Lemma revertPod_run pod st :
  revertPod pod st =
    (let '(w, m) := recoverPod (world st, podRuntimeState st) pod in with_world w (with_runtime m st), inr tt).
Proof using Type.
  destruct st as [w m victims busy timers pools pressure processing].
  unfold revertPod, recoverPod. rewrite run_gets. unfold str_get. cbn [podRuntimeState world].
  destruct (decide (m !! pod_Name pod = Some "hi")) as [E|E].
  2: { rewrite decide_True; [done|]. intros Hs. destruct E. destruct (m !! pod_Name pod); simpl in Hs; by subst. }
  rewrite E. rewrite decide_False by (intros Hs; by apply Hs).
  rewrite run_query. unfold recoveryTarget. cbn [world].
  destruct (ListMCKubes w (pod_Namespace pod)) as [items|e]; [|by case_decide].
  destruct (findByPodName items (pod_Name pod)) as [mc|]; [|by case_decide].
  cbn. destruct (spec_RTSettings (mc_Spec mc)) as [rt|]; [|by case_decide].
  case_decide; [done|]. rewrite run_bind, revertContainers_run.
  unfold setRuntimeState, updateStatus. by rewrite run_modify, run_call.
Qed.

Lemma revertPods_run pods st :
  for_each pods revertPod st =
    (let '(w, m) := foldl recoverPod (world st, podRuntimeState st) pods in with_world w (with_runtime m st), inr tt).
Proof using Type.
  revert st. induction pods as [|pod pods IH]; intros st; [by destruct st|].
  cbn [for_each foldl]. rewrite (run_bind_inr _ _ _ _ _ (revertPod_run pod st)), IH.
  destruct (recoverPod _ pod) as [w m]. by destruct (foldl _ _ _).
Qed.

Definition same_specs (w w' : W) : Prop := forall ns, listSpecs w' ns = listSpecs w ns.

Lemma recoverySettings_specs w w' pod : same_specs w w' -> recoverySettings w' pod = recoverySettings w pod.
Proof using Type.
  intros Hs. specialize (Hs (pod_Namespace pod)). unfold recoverySettings, recoveryTarget, listSpecs in *.
  case_decide; [done|]. destruct (ListMCKubes w' _) as [items'|e'], (ListMCKubes w _) as [items|e]; try done.
  injection Hs as Hs. apply (findByPodName_specs _ _ (pod_Name pod)) in Hs.
  destruct (findByPodName items' _) as [mc'|], (findByPodName items _) as [mc|]; try done.
  simpl in *. injection Hs as Hs. rewrite Hs. by destruct (spec_RTSettings (mc_Spec mc)).
Qed.

(** The pods a recovery takes back. *)
Definition reverts w m (pods : list Pod) (name : string) : Prop :=
  m !! name = Some "hi" /\ Exists (fun pod => pod_Name pod = name /\ is_Some (recoverySettings w pod)) pods.

#[export] Instance reverts_dec w m pods name : Decision (reverts w m pods name).
Proof. unfold reverts. apply _. Defined.

Context `{KL : !KubeClientLaws W, AL : !NodeActuatorLaws W}.

Lemma send_same_specs w nodeIP req : same_specs w (SendRTRequest w nodeIP req).1.
Proof using AL.
  intros ns. unfold listSpecs, SendRTRequest.
  pose proof (post_list w (daemonURL nodeIP) (authorization w) req ns) as Hp.
  destruct (PostCgroup _ _ _ _) as [w' [[status body]|e]]; simpl in *; [case_decide; simpl|]; by rewrite Hp.
Qed.

Lemma sendAll_same_specs w nodeIP reqs : same_specs w (sendAll w nodeIP reqs).
Proof using AL.
  revert w. induction reqs as [|req reqs IH]; intros w ns; [done|].
  change (listSpecs (sendAll (SendRTRequest w nodeIP req).1 nodeIP reqs) ns = listSpecs w ns).
  by rewrite IH, send_same_specs.
Qed.

Lemma recoverPod_same_specs wm pod : same_specs wm.1 (recoverPod wm pod).1.
Proof using KL AL.
  destruct wm as [w m]. unfold recoverPod. intros ns. repeat (case_match; try done). subst. simpl.
  by rewrite status_specs, sendAll_same_specs.
Qed.

Lemma recoverPod_state w m pod name :
  (recoverPod (w, m) pod).2 !! name =
    if decide (m !! name = Some "hi" /\ pod_Name pod = name /\ is_Some (recoverySettings w pod))
    then Some "low" else m !! name.
Proof using Type.
  unfold recoverPod, recoverySettings.
  destruct (decide (m !! name = Some "hi" /\ _)) as [(H & <- & Hs)|H].
  - rewrite decide_True by done.
    destruct (recoveryTarget w pod) as [[mc rt]|]; [by simpl; rewrite lookup_insert_eq|]. by apply is_Some_None in Hs.
  - destruct (recoveryTarget w pod) as [[mc rt]|]; [|by case_decide].
    case_decide as Hhi; [|done]. simpl. apply lookup_insert_ne. intros <-. by destruct H.
Qed.

(** The states after the loop: the pods taken back are "low". *)
Lemma recoverPods_state pods w m name :
  (foldl recoverPod (w, m) pods).2 !! name = if decide (reverts w m pods name) then Some "low" else m !! name.
Proof using KL AL.
  revert w m. induction pods as [|pod pods IH]; intros w m.
  { rewrite decide_False; [done|]. by intros [_ He%Exists_nil]. }
  cbn [foldl]. pose proof (recoverPod_same_specs (w, m) pod) as Hs. pose proof (recoverPod_state w m pod name) as Hst.
  destruct (recoverPod (w, m) pod) as [w1 m1]. simpl in Hs, Hst. rewrite IH.
  assert (Hex : Exists (fun p => pod_Name p = name /\ is_Some (recoverySettings w1 p)) pods <->
    Exists (fun p => pod_Name p = name /\ is_Some (recoverySettings w p)) pods).
  { split; (intros He; eapply Exists_impl; [exact He|]); intros p [Hp Hr]; (split; [done|]); revert Hr; by rewrite (recoverySettings_specs _ _ p Hs). }
  destruct (decide (reverts w1 m1 pods name)) as [H1|H1], (decide (reverts w m (pod :: pods) name)) as [H2|H2];
    unfold reverts in H1, H2; rewrite Exists_cons in H2; rewrite Hex in H1; [done|..];
    clear Hex; rewrite Hst in *; repeat case_decide; intuition congruence.
Qed.
End recovery.

(** ** Properties *)

Section properties.
Context {W : Type} `{K : !KubeClient W, A : !NodeActuator W, T : !Clock W}.
Implicit Types (st : St W).

(** [findPodByContainerID] returns the first listed pod, on the node if one
    is given, with a container whose identifier contains the given one without
    its scheme; the equality tests add nothing to that. *)
Theorem findPodByContainerID_spec nodeName containerID st pods :
  ListPods (world st) None = Ok pods ->
  findPodByContainerID nodeName containerID st =
    (st, inr (Ok (List.find (fun pod =>
       (bool_decide (nodeName = "") || bool_decide (pod_NodeName pod = nodeName)) &&
       existsb (fun cs => str_contains (cs_ContainerID cs) (normalizeID containerID))
         (pod_ContainerStatuses pod ++ pod_InitContainerStatuses pod)) pods))).
Proof using Type.
  intros Hl. unfold findPodByContainerID. rewrite run_query, Hl. unfold mret, ctl_ret. do 3 f_equal.
  apply find_ext. intros pod.
  unfold matchesOverrun. f_equal. rewrite existsb_app. f_equal; apply existsb_ext', matchesContainer_contains.
Qed.

(** An event whose identifier is empty, without a node, is attributed to the
    first listed pod that has any container. *)
Theorem empty_id_finds_any_pod st pods :
  ListPods (world st) None = Ok pods ->
  findPodByContainerID "" "" st =
    (st, inr (Ok (List.find (fun pod =>
       bool_decide (pod_ContainerStatuses pod <> [] \/ pod_InitContainerStatuses pod <> [])) pods))).
Proof using Type.
  intros Hl. unfold findPodByContainerID. rewrite run_query, Hl. unfold mret, ctl_ret. do 3 f_equal.
  apply find_ext. intros pod.
  unfold matchesOverrun. simpl.
  assert (Hany : forall l, existsb (matchesContainer "") l = bool_decide (l <> [])).
  { intros [|cs l]; [done|]. simpl. by rewrite matchesContainer_contains, str_contains_empty. }
  rewrite !Hany. by destruct (pod_ContainerStatuses pod), (pod_InitContainerStatuses pod).
Qed.

(** C12: an overrun event always returns, and raises a pod to the state "hi" only
    when the pod found for the container was not in it and the node-actuator
    has accepted the high runtime for the reported container; the status of the
    pod's resource is then written.  No other state of a pod, no booking and no
    other part of the controller changes, and nothing at all happens for a pod
    that is in the state "hi" already. *)
Theorem handleOverrunEvent_escalates data st st' r :
  handleOverrunEvent data st = (st', r) ->
  r = inr tt /\
  (forall pod mc rt, overrunTarget (world st) data = Some (pod, mc, rt) ->
     str_get (podRuntimeState st) (pod_Name pod) = "hi" -> st' = st) /\
  ((exists w, st' = with_world w st) \/
   exists pod mc rt w1 body,
     overrunTarget (world st) data = Some (pod, mc, rt) /\ str_get (podRuntimeState st) (pod_Name pod) <> "hi" /\
     PostCgroup (world st) (daemonURL (pod_HostIP pod)) (authorization (world st)) (escalation data rt) =
       (w1, Ok (StatusOK, body)) /\
     st' = with_runtime (<[pod_Name pod := "hi"]> (podRuntimeState st))
             (with_world (UpdateMCKubeStatus (time_Now w1).1 (overrunStatus (time_Now w1).2 mc)).1 st)).
Proof using Type.
  rewrite handleOverrunEvent_run.
  destruct (overrunTarget (world st) data) as [[[pod mc] rt]|] eqn:Et.
  2: { intros [= <- <-]. split_and!; [done|done|]. left. exists (world st). by destruct st. }
  case_decide as Hc.
  { intros [= <- <-]. split_and!; [done|done|]. left. exists (world st). by destruct st. }
  assert (Hhi : forall pod' mc' rt', Some (pod, mc, rt) = Some (pod', mc', rt') ->
    str_get (podRuntimeState st) (pod_Name pod') = "hi" -> st' = st).
  { intros pod' mc' rt' [= <- <- <-] E. destruct Hc. by left. }
  destruct (SendRTRequest _ _ _) as [w1 [e|]] eqn:Es.
  - intros [= <- <-]. split_and!; [done|done|]. left. by exists w1.
  - destruct (time_Now w1) as [w2 t] eqn:En. intros [= <- <-]. split_and!; [done|done|]. right.
    apply SendRTRequest_accepted in Es as [body Hpost]. exists pod, mc, rt, w1, body. rewrite En. simpl.
    split_and!; [done|tauto|done|done].
Qed.

(** C13: when CPU pressure ends on a node without a labelled pod, recovery
    returns and does nothing at all: it does not clear the pressure state either.
    On any other node it returns; it takes the labelled pods one after the other,
    and for each that is in the state "hi" then, and has a resource with settings
    and a host address, sends the low runtime to each of its started containers,
    whatever the node-actuator answers, makes the pod "low" and writes this into
    the status of its resource.  The pressure state and the processing flag of
    the node are cleared and no booking changes.  As nobody else writes the API
    server meanwhile, the pods that become "low" are exactly the ones that were
    "hi" and could be reverted at the start. *)
Theorem handleCPURecovery_spec `{KL : !KubeClientLaws W, AL : !NodeActuatorLaws W} nodeName st pods :
  ListPods (world st) (Some targetNamespace) = Ok pods ->
  (rtPodsOn nodeName pods = [] -> handleCPURecovery nodeName st = (st, inr tt)) /\
  (rtPodsOn nodeName pods <> [] ->
   exists st', handleCPURecovery nodeName st = (st', inr tt) /\
     (world st', podRuntimeState st') = foldl recoverPod (world st, podRuntimeState st) (rtPodsOn nodeName pods) /\
     PressureState st' = delete nodeName (PressureState st) /\
     ProcessingNodes st' = ProcessingNodes st ∖ {[nodeName]} /\
     globalPools st' = globalPools st /\
     forall name, podRuntimeState st' !! name =
       if decide (reverts (world st) (podRuntimeState st) (rtPodsOn nodeName pods) name) then Some "low"
       else podRuntimeState st !! name).
Proof using Type.
  intros Hl. unfold handleCPURecovery. rewrite run_query, Hl.
  split; [by intros ->|]. intros Hne.
  destruct (rtPodsOn nodeName pods) as [|pod0 pods0] eqn:E; [done|]. rewrite <- E. clear pod0 pods0 E Hne.
  pose proof (recoverPods_state (rtPodsOn nodeName pods) (world st) (podRuntimeState st)) as Hm.
  rewrite (run_bind_inr _ _ _ _ _ (revertPods_run (rtPodsOn nodeName pods) st)), run_modify.
  destruct (foldl _ _ _) as [w m]. eexists. split; [reflexivity|]. by split_and!.
Qed.
End properties.

(** A cluster with one labelled pod "p" on the node "n1" in the state "hi"; the
    node-actuator answers with the status. *)
Module Recovery.
Definition pod : Pod :=
  {| pod_Name := "p"; pod_Namespace := "default"; pod_UID := "u"; pod_Labels := {["sdv.com" := "app"]};
     pod_Annotations := ∅; pod_DeletionTimestamp := None; pod_NodeName := "n1"; pod_Containers := [];
     pod_Phase := "Running"; pod_HostIP := "10.0.0.1";
     pod_ContainerStatuses := [mkContainerStatus "c" "containerd://abc"]; pod_InitContainerStatuses := [] |}.

Definition settings : RTSettings := mkRT 1000 300 500 (Some "0").

Definition server (status : Z) : Server :=
  mkServer [sample_mckube "p" "n1" "HIGH" settings] [pod] [] false status [].

Definition state (status : Z) : St Server := with_runtime {["p" := "hi"]} (st_init (server status)).
Definition low (status : Z) : St Server := with_runtime {["p" := "low"]} (st_init (server status)).

(** The request of a recovery for the only container. *)
Definition request (runtime : Z) : CgroupRequest := mkCgroupRequest "containerd://abc" 1000 runtime (Some "0") true.
End Recovery.

Example findPodByContainerID_spec_witness :
  findPodByContainerID "n1" "abc" (Recovery.state 200) = (Recovery.state 200, inr (Ok (Some Recovery.pod))).
Proof.
  etransitivity; [by apply (findPodByContainerID_spec "n1" "abc" (Recovery.state 200) [Recovery.pod])|].
  reflexivity.
Defined.

Example empty_id_finds_any_pod_witness :
  findPodByContainerID "" "" (Recovery.state 200) = (Recovery.state 200, inr (Ok (Some Recovery.pod))).
Proof.
  etransitivity; [by apply (empty_id_finds_any_pod (Recovery.state 200) [Recovery.pod])|]. reflexivity.
Defined.

Example handleOverrunEvent_escalates_witness :
  (handleOverrunEvent (mkOverrun "n1" "abc" 0) (Recovery.low 200)).2 = inr tt.
Proof.
  destruct (handleOverrunEvent (mkOverrun "n1" "abc" 0) (Recovery.low 200)) as [st' r] eqn:E.
  exact (proj1 (handleOverrunEvent_escalates _ _ _ _ E)).
Defined.

(** The pod of the sample goes to "low", and its container gets the low runtime. *)
Example handleCPURecovery_spec_witness :
  exists st', handleCPURecovery "n1" (Recovery.state 200) = (st', inr tt) /\ podRuntimeState st' !! "p" = Some "low" /\
    srv_posts (world st') = [("http://10.0.0.1:8080/cgroup", Some "Bearer secret", Recovery.request 300)].
Proof.
  destruct (handleCPURecovery_spec "n1" (Recovery.state 200) [Recovery.pod]) as [_ H]; [done|].
  destruct H as (st' & E & Hw & _ & _ & _ & Hm).
  - done.
  - exists st'. split; [exact E|]. split.
    + rewrite Hm. rewrite decide_True; [done|]. apply (bool_decide_unpack _). vm_compute. exact I.
    + change (srv_posts (world st', podRuntimeState st').1 =
        [("http://10.0.0.1:8080/cgroup", Some "Bearer secret", Recovery.request 300)]).
      rewrite Hw. reflexivity.
Defined.

(** Recovery takes a pod to the state "low" even when the node-actuator
    refuses the request for the low runtime: the container then keeps running
    with the high one, and no later recovery tries again. *)
Theorem recovery_ignores_refusals :
  let st' := (handleCPURecovery "n1" (Recovery.state 500)).1 in
  podRuntimeState st' = {["p" := "low"]} /\
  srv_posts (world st') = [("http://10.0.0.1:8080/cgroup", Some "Bearer secret", Recovery.request 300)] /\
  SendRTRequest (Recovery.server 500) "10.0.0.1" (Recovery.request 300) <>
    ((SendRTRequest (Recovery.server 500) "10.0.0.1" (Recovery.request 300)).1, None) /\
  srv_posts (world (handleCPURecovery "n1" st').1) = srv_posts (world st').
Proof.
  split_and!; [apply (bool_decide_unpack _); vm_compute; exact I| | |]; [vm_compute; reflexivity|by vm_compute|vm_compute; reflexivity].
Qed.
