(* ===== verification/Preemption.v ===== *)
(** * Preemption: migrating or evicting pods of lower criticality

    [checkAndPreemptForPod] and the functions it calls, in
    [internal/controller/mckube_controller.go]. *)
From S2P Require Import Prelude Float64 GoRuntime GoString CPUPool CoreSet ApiTypes Kube ApiServer Budget Threshold Conversions Scheduling DataCollector Pressure NodeEvents Controller Housekeeping Overrun.
From stdpp Require Import options.

Local Open Scope Z_scope.

(** The ranking of this package; equal to that of [cpupool]. *)
Definition criticalityRank : gmap string Z := {["LOW" := 0; "MIDDLE" := 1; "HIGH" := 2]}.

Definition minAllowedDLRuntimeUS : Z := 2.

Section preemption.
Context `{R : GoRuntime} {W : Type} `{K : !KubeClient W, A : !NodeActuator W, T : !Clock W}.

Definition findPreemptionVictims (pool : CPUPool) (coreID : Z) (preemptorCriticality : string) : list PodInfo :=
  let preemptorRank := default 0 (criticalityRank !! preemptorCriticality) in
  foldl (fun victims pod =>
    let victimRank := default 0 (criticalityRank !! pi_Criticality pod) in
    if victimRank <? preemptorRank then victims ++ [pod] else victims) [] (GetPodsOnCore pool coreID).

(** One core of the loop of [findMigrationTargetCore]. *)
Definition migrationStep (currentCore : Z) (victimBudget : f64) (best : Z * f64) (entry : Z * CPUCoreInfo) : Z * f64 :=
  let '(bestCore, bestUsage) := best in
  let '(coreID, core) := entry in
  if coreID =? currentCore then (bestCore, bestUsage)
  else
    let usage := millis_to_cores (UsageMillis core) in
    if fleb (fadd usage victimBudget) coreUtilizationThreshold && fltb usage bestUsage
    then (coreID, usage) else (bestCore, bestUsage).

Definition findMigrationTargetCore (pool : CPUPool) (currentCore victimCPUMillis : Z) : option (Z * f64) :=
  let victimBudget := millis_to_cores victimCPUMillis in
  let '(bestCore, bestUsage) :=
    foldl (migrationStep currentCore victimBudget) (-1, of_int 2) (go_range "findMigrationTargetCore" (Cores pool)) in
  if bestCore =? -1 then None else Some (bestCore, bestUsage).

(** One container; the accumulator is the time of the first accepted request. *)
Definition throttleContainer (nodeIP : string) (rt : RTSettings) (appliedAt : option Z) (cs : ContainerStatus)
  : ctl W (option Z) :=
  if decide (cs_ContainerID cs = EmptyString) then mret appliedAt
  else
    _ ← call time_Now;
    err ← sendRequest nodeIP (mkCgroupRequest (cs_ContainerID cs) (Period rt) minAllowedDLRuntimeUS (Core rt) true);
    match err with
    | Some _ => mret appliedAt
    | None =>
        now ← call time_Now;
        mret (match appliedAt with Some t => Some t | None => Some now end)
    end.

Definition throttlePodRuntimeBeforeEviction (victimPod : Pod) : ctl W (result Z) :=
  listed ← query (fun w => ListMCKubes w (pod_Namespace victimPod));
  match listed with
  | Err e => mret (Err ("failed to list McKube resources for victim pod " +:+ pod_Name victimPod +:+ ": " +:+ e))
  | Ok items =>
      match findByPodName items (pod_Name victimPod) ≫= fun mc => spec_RTSettings (mc_Spec mc) with
      | None => mret (Err ("no McKube RT settings found for victim pod " +:+ pod_Name victimPod))
      | Some rt =>
          let nodeIP := pod_HostIP victimPod in
          if decide (nodeIP = EmptyString)
          then mret (Err ("node IP not available for victim pod " +:+ pod_Name victimPod))
          else
            throttlingAppliedAt ← for_acc (pod_ContainerStatuses victimPod) None (throttleContainer nodeIP rt);
            match throttlingAppliedAt with
            | None => mret (Err ("failed to throttle any container for victim pod " +:+ pod_Name victimPod))
            | Some t =>
                (if decide (pod_UID victimPod <> EmptyString) then markThrottledVictim (pod_UID victimPod) t
                 else mret tt);;
                mret (Ok t)
            end
      end
  end.

Definition updatePodCoreAffinity (pod : Pod) (newCore : Z) : ctl W (option error) :=
  listed ← query (fun w => ListMCKubes w (pod_Namespace pod));
  match listed with
  | Err e => mret (Some ("failed to list McKube resources: " +:+ e))
  | Ok items =>
      match findByPodName items (pod_Name pod) with
      | None => mret None
      | Some targetMcKube =>
          match spec_RTSettings (mc_Spec targetMcKube) with
          | None => mret None
          | Some rt =>
              let newCoreStr := itoa newCore in
              err ← updateStatus (set_status (set_AllocatedCore newCoreStr) targetMcKube);
              match err with
              | Some e => mret (Some ("failed to update McKube status: " +:+ e))
              | None =>
                  let nodeIP := pod_HostIP pod in
                  if decide (nodeIP = EmptyString) then mret (Some "node IP not available")
                  else
                    for_each (pod_ContainerStatuses pod) (fun cs =>
                      if decide (cs_ContainerID cs = EmptyString) then mret tt
                      else
                        _ ← sendRequest nodeIP
                          (mkCgroupRequest (cs_ContainerID cs) (Period rt) (RuntimeLow rt) (Some newCoreStr) false);
                        mret tt);;
                    mret None
              end
          end
      end
  end.

(** The pool is that of [nodeName]. *)
Definition preemptPod (victim : PodInfo) (nodeName : string) (currentCore : Z) : ctl W (option error) :=
  got ← query (fun w => GetPod w (pi_Namespace victim) (pi_Name victim));
  match got with
  | Err e => mret (Some ("failed to get victim pod: " +:+ e))
  | Ok pod =>
      pool ← poolOf nodeName;
      match findMigrationTargetCore pool currentCore (pi_CPUMillis victim) with
      | Some (newCore, _) =>
          onPool nodeName (fun p => RemovePodFromCore p currentCore (pi_Name victim));;
          onPool nodeName (fun p => AddPodToCore p newCore victim);;
          updatePodCoreAffinity pod newCore
      | None =>
          _ ← throttlePodRuntimeBeforeEviction pod;
          call (fun w => let '(w, _, err) := EvictPod w pod in (w, err))
      end
  end.

(** One target core. *)
Definition preemptOnCore (nodeName : string) (cpuMillis : Z) (criticality : string) (coreID : Z) : ctl W unit :=
  pool ← poolOf nodeName;
  let afterUsage := fadd (GetCoreUtilization pool coreID) (millis_to_cores cpuMillis) in
  if fgtb afterUsage coreUtilizationThreshold then
    let needed := fsub afterUsage coreUtilizationThreshold in
    match findPreemptionVictims pool coreID criticality with
    | [] => mret tt
    | candidates =>
        for_each (SelectMinimumVictims candidates needed) (fun victim =>
          _ ← preemptPod victim nodeName coreID; mret tt)
    end
  else mret tt.

Definition checkAndPreemptForPod (pod : Pod) (targetCores : list Z) (cpuMillis : Z) (criticality : string)
  : ctl W (option error) :=
  let nodeName := pod_NodeName pod in
  if decide (nodeName = EmptyString) then mret (Some "pod has no assigned node")
  else
    pool ← gets (fun st => GetPoolForNode (globalPools st) nodeName);
    match pool with
    | None => mret None
    | Some _ => for_each targetCores (preemptOnCore nodeName cpuMillis criticality);; mret None
    end.
End preemption.

(** ** Victims and targets: lemmas *)

(** A pod the preemptor may preempt. *)
Definition lowerThan (criticality : string) (victim : PodInfo) : Prop :=
  rank (pi_Criticality victim) < rank criticality.

#[export] Instance lowerThan_dec criticality victim : Decision (lowerThan criticality victim).
Proof. unfold lowerThan. apply _. Defined.

Lemma findPreemptionVictims_filter `{R : GoRuntime} pool c criticality :
  findPreemptionVictims pool c criticality = filter (lowerThan criticality) (GetPodsOnCore pool c).
Proof.
  unfold findPreemptionVictims.
  change (default 0 (criticalityRank !! criticality)) with (rank criticality).
  assert (Hgen : forall l victims, foldl (fun victims pod =>
    let victimRank := default 0 (criticalityRank !! pi_Criticality pod) in
    if victimRank <? rank criticality then victims ++ [pod] else victims) victims l =
    victims ++ filter (lowerThan criticality) l); [|by rewrite Hgen].
  induction l as [|pod l IH]; intros victims; [by rewrite app_nil_r|]. cbn [foldl]. cbv zeta.
  rewrite IH, filter_cons.
  change (default 0 (criticalityRank !! pi_Criticality pod)) with (rank (pi_Criticality pod)).
  destruct (Z.ltb_spec (rank (pi_Criticality pod)) (rank criticality)) as [Hlt|Hge].
  - rewrite decide_True by done. by rewrite <- app_assoc.
  - rewrite decide_False; [done|]. unfold lowerThan. lia.
Qed.

Lemma elem_of_GetPodsOnCore `{R : GoRuntime} p c pod :
  pod ∈ GetPodsOnCore p c <-> exists name, pool_booking p c name = Some pod.
Proof.
  unfold GetPodsOnCore, pool_booking. destruct (Cores p !! c) as [core|]; simpl.
  - apply go_range_values.
  - split; [by intros ?%not_elem_of_nil|by intros [? ?]].
Qed.

(** Names are distinct among the pods of a core whose entries are filed under their names. *)
Lemma GetPodsOnCore_names `{R : GoRuntime} p c :
  (forall name pi, pool_booking p c name = Some pi -> pi_Name pi = name) -> NoDup (pi_Name <$> GetPodsOnCore p c).
Proof.
  unfold pool_booking, GetPodsOnCore. intros Hn. destruct (Cores p !! c) as [core|] eqn:E; [|apply NoDup_nil_2].
  assert (Eq : pi_Name <$> (go_range "GetPodsOnCore" (Pods core)).*2 = (go_range "GetPodsOnCore" (Pods core)).*1).
  { rewrite <- list_fmap_compose. apply list_fmap_ext. intros i [k v] Hi%list_elem_of_lookup_2.
    apply elem_of_go_range in Hi. unfold compose. simpl. by apply (Hn k v). }
  rewrite Eq. apply go_range_NoDup.
Qed.

(** The cores a victim may move to, and the ranges in which the test is exact. *)
Definition movable (currentCore victimCPUMillis : Z) (kv : Z * CPUCoreInfo) : Prop :=
  kv.1 <> currentCore /\ within (UsageMillis kv.2) victimCPUMillis = true.

#[export] Instance movable_dec cur v kv : Decision (movable cur v kv).
Proof. unfold movable. apply _. Defined.

Definition usage_ok (core : CPUCoreInfo) : Prop := millis_range (UsageMillis core).

#[export] Instance usage_ok_dec core : Decision (usage_ok core).
Proof. unfold usage_ok, millis_range. apply _. Defined.

Lemma within_small u v : millis_range u -> 0 <= v -> within u v = true -> u <= 900.
Proof. unfold within, millis_range. intros Hu Hv H. apply orb_true_iff in H as [H|H]; z_bools; lia. Qed.

(** The loop of [findMigrationTargetCore]; the best usage is that of a core, or
    still [2.0] while no core qualifies. *)
Lemma migration_fold cur v l :
  millis_range v -> Forall (fun kv => usage_ok kv.2) l ->
  let best := foldl (migrationStep cur (millis_to_cores v)) (-1, of_int 2) l in
  (best = (-1, of_int 2) /\ Forall (fun kv => ~ movable cur v kv) l) \/
  (exists core, (best.1, core) ∈ l /\ movable cur v (best.1, core) /\ best.2 = millis_to_cores (UsageMillis core) /\
     Forall (fun kv => movable cur v kv -> UsageMillis core <= UsageMillis kv.2) l).
Proof.
  intros Hv. induction l as [|[i core] l IH] using rev_ind; intros Hl; [by left|].
  apply Forall_app in Hl as [Hl Hc]. apply Forall_cons in Hc as [Hc _]. simpl in Hc.
  specialize (IH Hl). cbv zeta in *. rewrite foldl_app. cbn [foldl].
  set (best := foldl _ _ l) in *. destruct best as [bc bu] eqn:Eb. unfold migrationStep.
  change (fadd (millis_to_cores (UsageMillis core)) (millis_to_cores v)) with (usageSum (UsageMillis core) v).
  rewrite within_exact by done.
  assert (Hskip : ~ movable cur v (i, core) ->
    (((bc, bu) = (-1, of_int 2) /\ Forall (fun kv => ~ movable cur v kv) (l ++ [(i, core)])) \/
     exists core', ((bc, bu).1, core') ∈ l ++ [(i, core)] /\ movable cur v ((bc, bu).1, core') /\
       (bc, bu).2 = millis_to_cores (UsageMillis core') /\
       Forall (fun kv => movable cur v kv -> UsageMillis core' <= UsageMillis kv.2) (l ++ [(i, core)]))).
  { intros Hno. destruct IH as [[E Hnone]|(core' & Hin & Hm & Hu & Hmin)]; [left|right].
    - split; [done|]. apply Forall_app. split; [done|by repeat constructor].
    - exists core'. split_and!; [set_solver|done|done|]. apply Forall_app. split; [done|by repeat constructor]. }
  destruct (Z.eqb_spec i cur) as [->|Hi]; [apply Hskip; intros [? _]; done|].
  destruct (within (UsageMillis core) v) eqn:Ew; simpl; [|apply Hskip; intros [_ ?]; simpl in *; congruence].
  assert (Hm : movable cur v (i, core)) by by split.
  destruct IH as [[[= -> ->] Hnone]|(core' & Hin & Hm' & Hu & Hmin)].
  - rewrite usage_below_two; [|done|pose proof (within_small (UsageMillis core) v Hc (proj1 Hv) Ew); lia].
    right. exists core. split_and!; [set_solver|done|done|]. apply Forall_app. split; [|repeat constructor; simpl; lia].
    eapply Forall_impl; [exact Hnone|]. by intros kv H1 H2.
  - simpl in Hu. subst bu. simpl in Hin, Hm'. assert (Hc' : usage_ok core').
    { rewrite Forall_forall in Hl. apply (Hl _ Hin). }
    destruct (fltb (millis_to_cores (UsageMillis core)) (millis_to_cores (UsageMillis core'))) eqn:Elt.
    + apply usage_order in Elt; [|done..]. right. exists core. split_and!; [set_solver|done|done|].
      apply Forall_app. split; [|repeat constructor; simpl; lia].
      eapply Forall_impl; [exact Hmin|]. intros kv H1 H2. specialize (H1 H2). lia.
    + assert (UsageMillis core' <= UsageMillis core).
      { destruct (Z.le_gt_cases (UsageMillis core') (UsageMillis core)); [done|].
        rewrite (proj2 (usage_order _ _ Hc Hc')) in Elt; [done|lia]. }
      right. exists core'. split_and!; [set_solver|done|done|].
      apply Forall_app. split; [done|by repeat constructor].
Qed.

Lemma migration_Some `{R : GoRuntime} p cur v c u :
  findMigrationTargetCore p cur v = Some (c, u) -> c <> cur /\ is_Some (Cores p !! c).
Proof.
  unfold findMigrationTargetCore.
  assert (Hgen : forall l best, (best.1 = -1 \/ (best.1 <> cur /\ is_Some (Cores p !! best.1))) ->
    (forall kv, kv ∈ l -> is_Some (Cores p !! kv.1)) ->
    let best' := foldl (migrationStep cur (millis_to_cores v)) best l in
    best'.1 = -1 \/ (best'.1 <> cur /\ is_Some (Cores p !! best'.1))).
  { induction l as [|[i core] l IH]; intros [bc bu] Hb Hl; [done|]. cbn [foldl]. apply IH; [|intros kv Hkv; apply Hl; by right].
    unfold migrationStep. destruct (Z.eqb_spec i cur); [done|].
    destruct (_ && _); [|done]. right. split; [done|]. apply (Hl (i, core)). by left. }
  specialize (Hgen (go_range "findMigrationTargetCore" (Cores p)) (-1, of_int 2) ltac:(by left)).
  destruct (foldl _ _ _) as [bc bu]. simpl in Hgen.
  destruct (Z.eqb_spec bc (-1)); [done|]. intros [= -> ->].
  destruct Hgen as [?|?]; [|done|done]. intros [i core] Hin. apply elem_of_go_range in Hin. eauto.
Qed.

Section targets.
Context `{R : GoRuntime}.

(** C24: [findMigrationTargetCore] finds a core to migrate to exactly when one
    exists: another core of the pool where the usage and the budget of the
    victim are together within 90% (decided in exact integers), and then one
    of least usage; whatever the iteration order. *)
Theorem findMigrationTargetCore_spec p cur v :
  millis_range v -> map_Forall (fun i core => 0 <= i /\ usage_ok core) (Cores p) ->
  match findMigrationTargetCore p cur v with
  | Some (c, u) =>
      exists core, Cores p !! c = Some core /\ movable cur v (c, core) /\ u = millis_to_cores (UsageMillis core) /\
        forall c' core', Cores p !! c' = Some core' -> movable cur v (c', core') ->
        UsageMillis core <= UsageMillis core'
  | None => forall c core, Cores p !! c = Some core -> ~ movable cur v (c, core)
  end.
Proof.
  intros Hv Hp. unfold findMigrationTargetCore.
  set (l := go_range "findMigrationTargetCore" (Cores p)).
  assert (Hl : forall i core, (i, core) ∈ l <-> Cores p !! i = Some core) by (intros; apply elem_of_go_range).
  assert (Hok : Forall (fun kv => usage_ok kv.2) l).
  { apply Forall_forall. intros [i core] Hin%Hl. apply (Hp _ _ Hin). }
  pose proof (migration_fold cur v l Hv Hok) as Hfold. cbv zeta in Hfold.
  destruct (foldl _ _ l) as [bc bu]. destruct Hfold as [[[= -> ->] Hnone]|(core & Hin & Hm & Hu & Hmin)].
  - intros c core Hc%Hl. rewrite Forall_forall in Hnone. by apply (Hnone (c, core)).
  - simpl in *. apply Hl in Hin. pose proof (proj1 (Hp _ _ Hin)) as Hi. simpl in Hi.
    destruct (Z.eqb_spec bc (-1)) as [E|_]; [lia|]. exists core. split_and!; try done.
    intros c' core' Hc'%Hl. rewrite Forall_forall in Hmin. apply (Hmin (c', core') Hc').
Qed.
End targets.

(** Two cores, the second one with 338 milli-CPUs. *)
Definition two_cores : CPUPool := AddPodToCore (newPool "n1" 3) 1 (mkPodInfo "a" "default" "LOW" 338 [1]).

Example findMigrationTargetCore_spec_witness :
  exists core, Cores two_cores !! 2 = Some core /\ movable 0 562 (2, core) /\ fzero = millis_to_cores (UsageMillis core) /\
    forall c' core', Cores two_cores !! c' = Some core' -> movable 0 562 (c', core') -> UsageMillis core <= UsageMillis core'.
Proof.
  apply (@findMigrationTargetCore_spec reference_runtime two_cores 0 562).
  - unfold millis_range. lia.
  - apply (bool_decide_unpack _). vm_compute. exact I.
Defined.

(** ** What preemption may do *)

Section calls.
Context `{R : GoRuntime} {W : Type} `{K : !KubeClient W, A : !NodeActuator W, T : !Clock W}.
Implicit Types (w : W) (pod : Pod).

(** The pod as [EvictPod] labels it. *)
Definition markEvicted (pod : Pod) : Pod := set_pod_labels (<["evicted" := "true"]> (pod_Labels pod)) pod.

(** The labelled pod, as it was sent or as the server answers the update. *)
Definition labelled (pod p : Pod) : Prop :=
  p = markEvicted pod \/ exists w w', UpdatePod w (markEvicted pod) = (w', Ok p).

(** A call about one pod: a status of its resource, a request about one of its
    containers, its label, its eviction. *)
Inductive acts_on (pod : Pod) : W -> W -> Prop :=
| acts_status mc w : spec_PodName (mc_Spec mc) = pod_Name pod -> acts_on pod w (UpdateMCKubeStatus w mc).1
| acts_post cs req auth w :
    cs ∈ pod_ContainerStatuses pod -> ContainerID req = cs_ContainerID cs ->
    acts_on pod w (PostCgroup w (daemonURL (pod_HostIP pod)) auth req).1
| acts_update w : acts_on pod w (UpdatePod w (markEvicted pod)).1
| acts_evict p w : labelled pod p -> acts_on pod w (CreateEviction w p).1.

(** A call of the preemption of [pod]: the clock, or about that pod. *)
Inductive victim_call (pod : Pod) : W -> W -> Prop :=
| call_clock w : victim_call pod w (time_Now w).1
| call_victim w w' : acts_on pod w w' -> victim_call pod w w'.

(** The calls of a computation. *)
Definition calls (C : W -> W -> Prop) (st st' : St W) : Prop := rtc C (world st) (world st').

#[export] Instance calls_preorder C : PreOrder (calls C).
Proof. unfold calls. split; [intros st; apply rtc_refl|intros st1 st2 st3 H1 H2; by transitivity (world st2)]. Qed.

(** The bookings a preemption of [podName] on [nodeName] leaves alone, with
    the pools of the other nodes and the states of all pods. *)
Definition spares (nodeName podName : string) (st st' : St W) : Prop :=
  (forall n, n <> nodeName -> globalPools st' !! n = globalPools st !! n) /\
  (forall c name, name <> podName -> booking (globalPools st') nodeName c name = booking (globalPools st) nodeName c name) /\
  podRuntimeState st' = podRuntimeState st.

#[export] Instance spares_preorder nodeName podName : PreOrder (spares nodeName podName).
Proof.
  split; [by intros st|]. intros st1 st2 st3 (H1 & H2 & H3) (H4 & H5 & H6). split_and!; [| |congruence].
  - intros n Hn. by rewrite H4, H1.
  - intros c name Hn. by rewrite H5, H2.
Qed.

(** Computations that call about one pod and change no booking. *)
Definition quiet (C : W -> W -> Prop) (st st' : St W) : Prop :=
  calls C st st' /\ globalPools st' = globalPools st /\ podRuntimeState st' = podRuntimeState st.

#[export] Instance quiet_preorder C : PreOrder (quiet C).
Proof.
  split; [by intros st|]. intros st1 st2 st3 (H1 & H2 & H3) (H4 & H5 & H6). split_and!; [|congruence..].
  by transitivity st2.
Qed.

Lemma quiet_call {B} (C : W -> W -> Prop) (f : W -> W * B) : (forall w, rtc C w (f w).1) -> evolves (quiet C) (call f).
Proof using Type. intros H st. split; [apply H|done]. Qed.

Lemma quiet_clock C : (forall w, C w (time_Now w).1) -> evolves (quiet C) (call time_Now).
Proof using Type. intros H. apply quiet_call. intros w. by apply rtc_once. Qed.

Lemma SendRTRequest_post w nodeIP req :
  (SendRTRequest w nodeIP req).1 = (PostCgroup w (daemonURL nodeIP) (authorization w) req).1.
Proof. unfold SendRTRequest. destruct (PostCgroup _ _ _ _) as [w' [[status body]|e]]; [|done]. by case_decide. Qed.

Context (pod : Pod).

Lemma quiet_acts {B} (f : W -> W * B) :
  (forall w, rtc (acts_on pod) w (f w).1) -> evolves (quiet (victim_call pod)) (call f).
Proof using Type.
  intros H. apply quiet_call. intros w. eapply rtc_subrel; [|apply H]. intros w1 w2. by apply call_victim.
Qed.

Lemma quiet_send cs req :
  cs ∈ pod_ContainerStatuses pod -> ContainerID req = cs_ContainerID cs ->
  evolves (quiet (victim_call pod)) (sendRequest (pod_HostIP pod) req).
Proof using Type.
  intros Hcs Hid. apply quiet_acts. intros w. rewrite SendRTRequest_post. apply rtc_once. by eapply acts_post.
Qed.

Lemma quiet_status mc :
  spec_PodName (mc_Spec mc) = pod_Name pod -> evolves (quiet (victim_call pod)) (updateStatus mc).
Proof using Type. intros H. apply quiet_acts. intros w. apply rtc_once. by apply acts_status. Qed.

Lemma quiet_evict :
  evolves (quiet (victim_call pod)) (call (fun w => let '(w, _, err) := EvictPod w pod in (w, err))).
Proof using Type.
  apply quiet_acts. intros w. unfold EvictPod. fold (markEvicted pod).
  pose proof (acts_update pod w) as H1. destruct (UpdatePod w (markEvicted pod)) as [w1 updated] eqn:E.
  set (p := match updated with Ok p => p | Err _ => markEvicted pod end).
  assert (Hp : labelled pod p) by (unfold p; destruct updated; [right; by exists w, w1|by left]).
  pose proof (acts_evict pod p w1 Hp) as H2. destruct (CreateEviction w1 p) as [w2 e2].
  by eapply rtc_l, rtc_once.
Qed.

Lemma quiet_throttled f : evolves (quiet (victim_call pod)) (modify (fun st => with_throttled (f st) st)).
Proof using Type. apply evolves_modify. intros st. split_and!; [apply rtc_refl|done..]. Qed.

Lemma quiet_throttle : evolves (quiet (victim_call pod)) (throttlePodRuntimeBeforeEviction pod).
Proof using Type.
  unfold throttlePodRuntimeBeforeEviction, throttleContainer, markThrottledVictim. evolve.
  - apply quiet_clock. apply call_clock.
  - by eapply quiet_send.
  - apply quiet_clock. apply call_clock.
  - apply quiet_throttled.
Qed.

Lemma quiet_affinity c : evolves (quiet (victim_call pod)) (updatePodCoreAffinity pod c).
Proof using Type.
  unfold updatePodCoreAffinity. apply evolves_query_bind; [apply _|]. intros w.
  destruct (ListMCKubes w _) as [items|e]; [|evolve].
  destruct (findByPodName items (pod_Name pod)) as [mc|] eqn:Ef; [|evolve].
  apply findByPodName_Some in Ef as [_ Hname].
  destruct (spec_RTSettings _) as [rt|]; [|evolve]. cbv zeta. evolve.
  - by apply quiet_status.
  - by eapply quiet_send.
Qed.
End calls.

Section preempt.
Context `{R : GoRuntime} {W : Type} `{K : !KubeClient W, A : !NodeActuator W, T : !Clock W}.
Implicit Types (st : St W).

(** Calls about the pod that the API server returns for the victim; without
    one there are no calls. *)
Definition calls_about (victim : PodInfo) (w w' : W) : Prop :=
  match GetPod w (pi_Namespace victim) (pi_Name victim) with
  | Ok pod => rtc (victim_call pod) w w'
  | Err _ => w' = w
  end.

(** One preemption calls about its victim only, and changes the victim's
    bookings on the node only. *)
Lemma preemptPod_evolves victim node c st :
  let st' := (preemptPod victim node c st).1 in
  calls_about victim (world st) (world st') /\ spares node (pi_Name victim) st st'.
Proof using Type.
  unfold preemptPod, calls_about. rewrite run_query. destruct (GetPod (world st) _ _) as [pod|e]; [|done].
  assert (Hpre : PreOrder (fun st st' : St W => calls (victim_call pod) st st' /\ spares node (pi_Name victim) st st')).
  { split; [by intros st0|]. intros st1 st2 st3 [H1 H2] [H3 H4]. split; by transitivity st2. }
  assert (Hquiet : forall B (m : ctl W B), evolves (quiet (victim_call pod)) m ->
    evolves (fun st st' => calls (victim_call pod) st st' /\ spares node (pi_Name victim) st st') m).
  { intros B m. apply evolves_weaken. intros st1 st2 (H1 & H2 & H3). split; [done|]. split_and!; [| |done]; by rewrite H2. }
  assert (Hpool : forall f, (forall p c name, name <> pi_Name victim -> pool_booking (f p) c name = pool_booking p c name) ->
    evolves (fun st st' => calls (victim_call pod) st st' /\ spares node (pi_Name victim) st st') (onPool (W := W) node f)).
  { intros f Hf. apply evolves_modify. intros st0. split; [apply rtc_refl|]. split_and!; [| |done]; simpl.
    - intros n Hn. by rewrite lookup_alter_ne.
    - intros c' name Hn. rewrite booking_alter, decide_True by done. unfold booking.
      destruct (globalPools st0 !! node) as [p|]; [|done]. simpl. by rewrite Hf. }
  match goal with |- context [(_ ≫= ?k) st] => generalize st; change (evolves (fun st st' =>
    calls (victim_call pod) st st' /\ spares node (pi_Name victim) st st') (poolOf node ≫= k)) end.
  apply evolves_bind; [done|apply Hquiet; evolve|]. intros pool.
  destruct (findMigrationTargetCore _ _ _) as [[newCore u]|].
  - apply evolves_bind; [done|apply Hpool; intros p c' name Hn; rewrite pool_booking_remove, decide_False; naive_solver|].
    intros _. apply evolves_bind; [done|apply Hpool; intros p c' name Hn; rewrite pool_booking_add, decide_False; naive_solver|].
    intros _. apply Hquiet, quiet_affinity.
  - apply evolves_bind; [done|apply Hquiet, quiet_throttle|]. intros _. apply Hquiet, quiet_evict.
Qed.
End preempt.

(** ** Preemption preserves the accounting *)

(** Entries are filed under their own names. *)
Definition named (g : Pools) : Prop :=
  forall node c name pi, booking g node c name = Some pi -> pi_Name pi = name.

Lemma pools_wf_named g : pools_wf g -> named g.
Proof.
  intros Hg node c name pi H. unfold booking in H.
  destruct (g !! node) as [p|] eqn:E1; [|done]. simpl in H. destruct (Cores p !! c) as [core|] eqn:E2; [|done].
  destruct (pool_cores _ _ _ (Hg _ _ E1) c core E2) as [_ _ _ Hn]. by apply (Hn name pi).
Qed.

(** Every pod is booked on one core of the node at most. *)
Definition single_booked (node : string) (g : Pools) : Prop :=
  forall name c1 c2, is_Some (booking g node c1 name) -> is_Some (booking g node c2 name) -> c1 = c2.

(** The pools after a migration. *)
Definition migrated (victim : PodInfo) (node : string) (c newCore : Z) (g : Pools) : Pools :=
  alter (fun p => AddPodToCore p newCore victim) node
    (alter (fun p => RemovePodFromCore p c (pi_Name victim)) node g).

Lemma booking_migrated victim node c newCore g n c' name :
  has_core g node newCore ->
  booking (migrated victim node c newCore g) n c' name =
  if decide (n = node /\ name = pi_Name victim) then
    (if decide (c' = newCore) then Some victim else if decide (c' = c) then None else booking g n c' name)
  else booking g n c' name.
Proof.
  intros (p & Hp & Hc). unfold migrated. rewrite booking_alter.
  destruct (decide (n = node)) as [->|Hn]; [|rewrite booking_alter, !decide_False; naive_solver].
  rewrite lookup_alter_eq, Hp. simpl. rewrite pool_booking_add, pool_booking_remove, (booking_pool _ _ _ _ _ Hp).
  assert (Hc' : is_Some (Cores (RemovePodFromCore p c (pi_Name victim)) !! newCore)) by by apply RemovePodFromCore_cores.
  destruct (decide (name = pi_Name victim)) as [->|Hname].
  - rewrite (decide_True (P := node = node /\ _)) by done.
    destruct (decide (c' = newCore)) as [->|Hne]; [by rewrite decide_True by done|].
    rewrite (decide_False (P := c' = newCore /\ _)) by naive_solver.
    destruct (decide (c' = c)) as [->|]; [by rewrite decide_True by done|by rewrite decide_False by naive_solver].
  - by rewrite !decide_False by naive_solver.
Qed.

Lemma migrated_wf victim node c newCore g :
  pools_wf g -> has_core g node newCore -> newCore <> c -> booking g node newCore (pi_Name victim) = None ->
  pools_wf (migrated victim node c newCore g).
Proof.
  intros Hg (p & Hp & _) Hne Hnone. apply pools_wf_alter.
  - intros p'. rewrite lookup_alter_eq, Hp. simpl. intros [= <-]. apply AddPodToCore_wf.
    rewrite pool_booking_remove, decide_False by naive_solver. by rewrite <- (booking_pool _ _ _ _ _ Hp).
  - apply pools_wf_alter; [|done]. intros. by apply RemovePodFromCore_wf.
Qed.

Lemma migrated_single victim node c newCore g :
  has_core g node newCore -> single_booked node g -> is_Some (booking g node c (pi_Name victim)) ->
  single_booked node (migrated victim node c newCore g).
Proof.
  intros Hcore Hs Hb name c1 c2. rewrite !booking_migrated by done.
  destruct (decide (node = node /\ name = pi_Name victim)) as [[_ ->]|Hn]; [|apply Hs].
  intros H1 H2. assert (Hone : forall c', is_Some (if decide (c' = newCore) then Some victim
      else if decide (c' = c) then None else booking g node c' (pi_Name victim)) -> c' = newCore).
  { intros c' H. case_decide; [done|]. case_decide; [by destruct H|]. destruct (Hs _ _ _ H Hb). done. }
  by rewrite (Hone c1), (Hone c2).
Qed.

Lemma migrated_has_core victim node c newCore g n c' :
  has_core (migrated victim node c newCore g) n c' <-> has_core g n c'.
Proof.
  unfold migrated, has_core. destruct (decide (n = node)) as [->|Hn]; [|by rewrite !lookup_alter_ne].
  rewrite !lookup_alter_eq. destruct (g !! node) as [p|]; simpl; [|done].
  split; intros (p' & [= <-] & Hc); eexists; (split; [done|]); by apply AddPodToCore_cores, RemovePodFromCore_cores in Hc
    || by apply AddPodToCore_cores, RemovePodFromCore_cores.
Qed.

Section accounting.
Context `{R : GoRuntime} {W : Type} `{K : !KubeClient W, A : !NodeActuator W, T : !Clock W}.
Implicit Types (st : St W).

Lemma throttle_pools pod : evolves (keeps globalPools) (throttlePodRuntimeBeforeEviction pod : ctl W _).
Proof using Type. unfold throttlePodRuntimeBeforeEviction, throttleContainer, markThrottledVictim. evolve. Qed.

Lemma affinity_pools pod c : evolves (keeps globalPools) (updatePodCoreAffinity pod c : ctl W _).
Proof using Type. unfold updatePodCoreAffinity. evolve. Qed.

(** The bookings after a preemption: the same, or those of a migration. *)
Lemma preemptPod_pools victim node c st :
  globalPools (preemptPod victim node c st).1 = globalPools st \/
  exists newCore, newCore <> c /\ has_core (globalPools st) node newCore /\
    globalPools (preemptPod victim node c st).1 = migrated victim node c newCore (globalPools st).
Proof using Type.
  unfold preemptPod. rewrite run_query.
  destruct (GetPod (world st) _ _) as [pod|e]; [|by left].
  destruct (globalPools st !! node) as [p|] eqn:Ep; [|rewrite (run_no_pool _ _ _ Ep); by left].
  rewrite (run_pool _ _ _ _ Ep).
  destruct (findMigrationTargetCore _ _ _) as [[newCore u]|] eqn:Em.
  - right. apply migration_Some in Em as [Hne Hcore]. exists newCore. split_and!; [done|by exists p|].
    rewrite !run_bind. simpl. apply affinity_pools.
  - left. rewrite run_bind. pose proof (throttle_pools pod st) as Hk. unfold keeps in Hk.
    destruct (throttlePodRuntimeBeforeEviction pod st) as [st1 [s|a]]; [done|]. simpl. done.
Qed.

Lemma preemptPod_accounting victim node c st :
  pools_wf (globalPools st) -> single_booked node (globalPools st) ->
  booking (globalPools st) node c (pi_Name victim) = Some victim ->
  pools_wf (globalPools (preemptPod victim node c st).1) /\ single_booked node (globalPools (preemptPod victim node c st).1).
Proof using Type.
  intros Hg Hs Hb. destruct (preemptPod_pools victim node c st) as [->|(newCore & Hne & Hcore & ->)]; [done|].
  assert (Hnone : booking (globalPools st) node newCore (pi_Name victim) = None).
  { apply eq_None_not_Some. intros Hn. apply Hne. by eapply Hs; [|eauto]. }
  split; [by apply migrated_wf|by apply migrated_single; [| |eauto]].
Qed.

Lemma preemptPod_named victim node c st :
  named (globalPools st) -> named (globalPools (preemptPod victim node c st).1).
Proof using Type.
  intros Hn. destruct (preemptPod_pools victim node c st) as [->|(newCore & _ & Hcore & ->)]; [done|].
  intros n c' name pi. rewrite booking_migrated by done. case_decide as Hd; [|apply Hn].
  destruct Hd as [-> ->]. case_decide; [by intros [= <-]|]. case_decide; [done|apply Hn].
Qed.
End accounting.

(** ** Preemption returns *)

Section total.
Context `{R : GoRuntime} {W : Type} `{K : !KubeClient W, A : !NodeActuator W, T : !Clock W}.

(** The pool of the node stays. *)
Definition has_pool (node : string) (g : Pools) : Prop := is_Some (g !! node).

Lemma returns_onPool node f : returns (on_pools (has_pool node)) (onPool (W := W) node f).
Proof using Type.
  apply returns_modify. intros st. unfold on_pools, has_pool. simpl. rewrite lookup_alter_eq.
  intros [p ->]. by eexists.
Qed.

Lemma returns_affinity P pod c : returns (on_pools P) (updatePodCoreAffinity pod c : ctl W _).
Proof using Type. unfold updatePodCoreAffinity. return_. Qed.

Lemma returns_throttle P pod : returns (on_pools P) (throttlePodRuntimeBeforeEviction pod : ctl W _).
Proof using Type. unfold throttlePodRuntimeBeforeEviction, throttleContainer, markThrottledVictim. return_. Qed.

Lemma preemptPod_returns victim node c : returns (on_pools (has_pool node)) (preemptPod victim node c : ctl W _).
Proof using Type.
  pose proof (returns_onPool node). pose proof (returns_affinity (has_pool node)).
  pose proof (returns_throttle (has_pool node)). pose proof (returns_pool (W := W) node (has_pool node) (fun g H => H)).
  unfold preemptPod. return_.
Qed.

Lemma checkAndPreempt_returns pod cores millis crit :
  returns (fun _ => True) (checkAndPreemptForPod pod cores millis crit : ctl W _).
Proof using Type.
  intros st _. split; [done|]. unfold checkAndPreemptForPod. case_decide; [by eexists|]. rewrite run_gets.
  unfold GetPoolForNode. destruct (globalPools st !! pod_NodeName pod) as [p|] eqn:Ep; [|by eexists].
  pose proof preemptPod_returns as Hpre. set (node := pod_NodeName pod) in *.
  pose proof (returns_pool (W := W) node (has_pool node) (fun g H => H)) as Hpool.
  assert (Hloop : returns (on_pools (has_pool node)) (for_each cores (preemptOnCore node millis crit);; mret None : ctl W (option error))).
  { unfold preemptOnCore. return_. }
  destruct (Hloop st) as [_ Ha]; [by exists p|done].
Qed.
End total.

(** ** Preemption of the pods of lower criticality only *)

Section safety.
Context `{R : GoRuntime} {W : Type} `{K : !KubeClient W, A : !NodeActuator W, T : !Clock W}.
Implicit Types (st : St W).

(** No booking of the pod on the node is of lower criticality. *)
Definition protected (criticality node : string) (st : St W) (name : string) : Prop :=
  forall c pi, booking (globalPools st) node c name = Some pi -> ~ lowerThan criticality pi.

(** The preemption of one pod: in the state it starts from, the victim is booked
    on one of the target cores with a lower criticality; the calls are about
    the victim's pod, and no other booking changes. *)
Definition preempts (criticality node : string) (cores : list Z) (st st' : St W) : Prop :=
  exists victim c, c ∈ cores /\ lowerThan criticality victim /\
    booking (globalPools st) node c (pi_Name victim) = Some victim /\
    calls_about victim (world st) (world st') /\ spares node (pi_Name victim) st st'.

Record preempted (criticality node : string) (cores : list Z) (st st' : St W) : Prop := {
  preempted_steps : rtc (preempts criticality node cores) st st';
  preempted_nodes n : n <> node -> globalPools st' !! n = globalPools st !! n;
  preempted_protected name c : protected criticality node st name ->
    booking (globalPools st') node c name = booking (globalPools st) node c name;
  preempted_runtime : podRuntimeState st' = podRuntimeState st
}.

#[export] Instance preempted_preorder criticality node cores : PreOrder (preempted criticality node cores).
Proof.
  split; [by intros st; split|]. intros st1 st2 st3 [H1 H2 H3 H4] [H5 H6 H7 H8]. split; [| | |congruence].
  - by transitivity st2.
  - intros n Hn. by rewrite H6, H2.
  - intros name c Hp. rewrite H7, H3; [done|done|]. intros c' pi. rewrite H3 by done. apply Hp.
Qed.

Lemma preempted_one criticality node cores victim c st :
  c ∈ cores -> lowerThan criticality victim -> booking (globalPools st) node c (pi_Name victim) = Some victim ->
  preempted criticality node cores st (preemptPod victim node c st).1.
Proof using Type.
  intros Hin Hlow Hb. pose proof (preemptPod_evolves victim node c st) as Hev. cbv zeta in Hev.
  pose proof Hev as [Hcalls (Hn & Hk & Hr)]. split; [|done| |done].
  - apply rtc_once. by exists victim, c.
  - intros name c' Hp. apply Hk. intros ->. by apply (Hp c victim).
Qed.

Lemma elem_of_victims pool c criticality needed v :
  v ∈ SelectMinimumVictims (findPreemptionVictims pool c criticality) needed ->
  lowerThan criticality v /\ exists name, pool_booking pool c name = Some v.
Proof using Type.
  intros Hv%SelectMinimumVictims_elem. rewrite findPreemptionVictims_filter in Hv.
  apply list_elem_of_filter in Hv as [Hlow Hin]. split; [done|]. by apply elem_of_GetPodsOnCore in Hin.
Qed.

Lemma victims_NoDup pool c criticality needed :
  (forall name pi, pool_booking pool c name = Some pi -> pi_Name pi = name) ->
  NoDup (pi_Name <$> SelectMinimumVictims (findPreemptionVictims pool c criticality) needed).
Proof using Type.
  intros Hn. pose proof (GetPodsOnCore_names pool c Hn) as Hnd. rewrite findPreemptionVictims_filter.
  unfold SelectMinimumVictims.
  destruct (takeVictims_prefix needed fzero (go_sort victimLess (filter (lowerThan criticality) (GetPodsOnCore pool c))))
    as (k & -> & _).
  rewrite fmap_take. eapply sublist_NoDup; [|apply sublist_take].
  rewrite (go_sort_perm victimLess). eapply sublist_NoDup; [exact Hnd|].
  apply fmap_sublist, sublist_filter.
Qed.

(** The loop over the victims of a core, for any invariant of the pools that a
    preemption keeps. *)
Lemma preemptOnCore_inv (P : Pools -> Prop) criticality node cores cpuMillis c st :
  c ∈ cores ->
  (forall victim st, P (globalPools st) -> lowerThan criticality victim ->
     booking (globalPools st) node c (pi_Name victim) = Some victim ->
     P (globalPools (preemptPod (W := W) victim node c st).1)) ->
  named (globalPools st) -> P (globalPools st) ->
  let st' := (preemptOnCore node cpuMillis criticality c st).1 in
  preempted criticality node cores st st' /\ named (globalPools st') /\ P (globalPools st').
Proof using Type.
  intros Hin HP Hn H0. unfold preemptOnCore.
  destruct (globalPools st !! node) as [p|] eqn:Ep; [|by rewrite (run_no_pool _ _ _ Ep)].
  rewrite (run_pool _ _ _ _ Ep). cbv zeta.
  destruct (fgtb _ _); [|by split]. destruct (findPreemptionVictims p c criticality) as [|v0 vs0] eqn:Ev; [by split|].
  rewrite <- Ev. set (needed := fsub _ _). clear v0 vs0 Ev.
  set (Inv := fun l st1 => preempted criticality node cores st st1 /\ named (globalPools st1) /\ P (globalPools st1) /\
    NoDup (pi_Name <$> l) /\ forall v, v ∈ l -> lowerThan criticality v /\
      booking (globalPools st1) node c (pi_Name v) = Some v).
  edestruct (for_each_inv Inv) as [l' (H1 & H2 & H3 & _)]; [| |split; [exact H1|by split]].
  - intros v l st1 (Hpre & Hnm & HPg & Hnd & Hl). rewrite fmap_cons in Hnd. apply NoDup_cons in Hnd as [Hv Hnd].
    destruct (Hl v) as [Hlow Hb]; [by left|]. rewrite run_bind.
    assert (Hst : forall st2, st2 = (preemptPod v node c st1).1 -> Inv l st2).
    { intros st2 ->. split_and!.
      - etrans; [done|by apply preempted_one].
      - by apply preemptPod_named.
      - by apply HP.
      - done.
      - intros x Hx. destruct (Hl x) as [Hxl Hxb]; [by right|]. split; [done|].
        destruct (preemptPod_evolves v node c st1) as [_ (_ & Hk & _)].
        rewrite Hk; [done|]. intros E. apply Hv. rewrite <- E. by apply list_elem_of_fmap_2. }
    specialize (Hst _ eq_refl). by destruct (preemptPod v node c st1) as [st2 [s|a]].
  - assert (Hb : forall name, pool_booking p c name = booking (globalPools st) node c name).
    { intros name. by rewrite (booking_pool _ _ _ _ _ Ep). }
    split_and!; [done..| |].
    + apply victims_NoDup. intros name pi. rewrite Hb. apply Hn.
    + intros v Hv. destruct (elem_of_victims _ _ _ _ _ Hv) as [Hlow [name Hname]]. split; [done|].
      rewrite Hb in Hname. by rewrite (Hn _ _ _ _ Hname).
Qed.

Lemma checkAndPreempt_inv (P : Pools -> Prop) pod cores cpuMillis criticality st :
  (forall victim c st, P (globalPools st) -> lowerThan criticality victim ->
     booking (globalPools st) (pod_NodeName pod) c (pi_Name victim) = Some victim ->
     P (globalPools (preemptPod (W := W) victim (pod_NodeName pod) c st).1)) ->
  named (globalPools st) -> P (globalPools st) ->
  let st' := (checkAndPreemptForPod pod cores cpuMillis criticality st).1 in
  preempted criticality (pod_NodeName pod) cores st st' /\ named (globalPools st') /\ P (globalPools st').
Proof using Type.
  intros HP Hn H0. unfold checkAndPreemptForPod. case_decide; [by split|]. rewrite run_bind. simpl.
  destruct (GetPoolForNode _ _); [|by split]. rewrite run_bind.
  assert (Hloop : let st1 := (for_each cores (preemptOnCore (pod_NodeName pod) cpuMillis criticality) st).1 in
    preempted criticality (pod_NodeName pod) cores st st1 /\ named (globalPools st1) /\ P (globalPools st1)).
  { edestruct (for_each_inv (fun (l : list Z) st1 => l ⊆ cores /\ preempted criticality (pod_NodeName pod) cores st st1 /\
      named (globalPools st1) /\ P (globalPools st1))) as [l' [_ Hres]]; [| |exact Hres].
    - intros core l st1 (Hl & H1 & H2 & H3).
      destruct (preemptOnCore_inv P criticality (pod_NodeName pod) cores cpuMillis core st1) as (H4 & H5 & H6);
        [apply Hl; by left| |done..|].
      + intros victim st2. apply HP.
      + split_and!; [intros x Hx; apply Hl; by right|by etrans|done..].
    - by split_and!. }
  by destruct (for_each _ _ st) as [st1 [s|a]].
Qed.
End safety.

(** ** Properties *)

Section properties.
Context `{R : GoRuntime} {W : Type} `{K : !KubeClient W, A : !NodeActuator W, T : !Clock W}.
Implicit Types (st : St W).

(** C2: preemption acts on booked pods of strictly lower criticality only: a check
    is a sequence of preemptions, each of a pod that is booked on a target core
    with a lower criticality at that moment; every call it makes reads the clock
    or is about that pod (its status, its containers, its label, its eviction),
    and no booking of another pod changes.  So the pools of other nodes are the
    same, and all bookings of a pod that has no booking of lower criticality on
    the node. *)
Theorem checkAndPreempt_lower_only pod cores cpuMillis criticality st st' r :
  named (globalPools st) ->
  checkAndPreemptForPod pod cores cpuMillis criticality st = (st', r) ->
  rtc (preempts criticality (pod_NodeName pod) cores) st st' /\
  (forall n, n <> pod_NodeName pod -> globalPools st' !! n = globalPools st !! n) /\
  (forall name c, protected criticality (pod_NodeName pod) st name ->
     booking (globalPools st') (pod_NodeName pod) c name = booking (globalPools st) (pod_NodeName pod) c name).
Proof using Type.
  intros Hn E. destruct (checkAndPreempt_inv (fun _ => True) pod cores cpuMillis criticality st) as [[H1 H2 H3 _] _];
    [done..|]. rewrite E in H1, H2, H3. by split_and!.
Qed.

(** C15: preemption keeps the accounting exact when every pod of the node is
    booked on at most one core, and keeps it so: a migration moves the whole
    budget of the victim, an eviction leaves the bookings as they are. *)
Theorem checkAndPreempt_accounting pod cores cpuMillis criticality st st' r :
  pools_wf (globalPools st) -> single_booked (pod_NodeName pod) (globalPools st) ->
  checkAndPreemptForPod pod cores cpuMillis criticality st = (st', r) ->
  pools_wf (globalPools st') /\ single_booked (pod_NodeName pod) (globalPools st').
Proof using Type.
  intros Hg Hs E.
  destruct (checkAndPreempt_inv (fun g => pools_wf g /\ single_booked (pod_NodeName pod) g) pod cores cpuMillis
    criticality st) as (_ & _ & Hres); [|by apply pools_wf_named|done|by rewrite E in Hres].
  intros victim c st1 [H1 H2] _ Hb. by apply preemptPod_accounting.
Qed.

(** Nothing is preempted without need: when on every target core the usage
    and the budget of the pod are together within 90%, the check changes
    nothing, neither in the controller nor outside. *)
Theorem checkAndPreempt_idle pod cores cpuMillis criticality st p :
  pod_NodeName pod <> "" -> globalPools st !! pod_NodeName pod = Some p -> millis_range cpuMillis ->
  Forall (fun c => exists core, Cores p !! c = Some core /\ usage_ok core /\ within (UsageMillis core) cpuMillis = true) cores ->
  checkAndPreemptForPod pod cores cpuMillis criticality st = (st, inr None).
Proof using Type.
  intros Hn Hp Hm Hall. unfold checkAndPreemptForPod. rewrite decide_False by done. rewrite run_bind. simpl.
  unfold GetPoolForNode. rewrite Hp. rewrite run_bind.
  assert (Hloop : for_each cores (preemptOnCore (pod_NodeName pod) cpuMillis criticality) st = (st, inr tt)).
  { induction Hall as [|c cores (core & Hc & Hok & Hw) _ IH]; [done|]. simpl. rewrite run_bind.
    unfold preemptOnCore at 1. rewrite (run_pool _ _ _ _ Hp). unfold GetCoreUtilization. rewrite Hc.
    change (fadd (millis_to_cores (UsageMillis core)) (millis_to_cores cpuMillis))
      with (usageSum (UsageMillis core) cpuMillis).
    by rewrite beyond_exact, Hw. }
  by rewrite Hloop.
Qed.
End properties.

(** A node on which the pod "v" of criticality LOW is booked on some cores. *)
Module Scenario.
Definition victim (millis : Z) (cores : list Z) : PodInfo := mkPodInfo "v" "default" "LOW" millis cores.

Definition pool (millis : Z) (cores : list Z) : CPUPool :=
  foldl (fun p c => AddPodToCore p c (victim millis cores)) (newPool "n1" DefaultNumCores) cores.

Definition server : Server :=
  mkServer [sample_mckube "v" "n1" "LOW" (mkRT 1000 300 500 (Some "0"))] [sample_pod "v" "n1"] [] false 200 [].

Definition state (p : CPUPool) : St Server := with_pools {["n1" := p]} (st_init server).

(** A pod of criticality HIGH that comes to the node. *)
Definition preemptor : Pod := sample_pod "p" "n1".

Definition check (p : CPUPool) (cores : list Z) (millis : Z) : St Server * (stuck + option error) :=
  @checkAndPreemptForPod reference_runtime Server _ _ _ preemptor cores millis "HIGH" (state p).
End Scenario.

Example checkAndPreempt_lower_only_witness :
  let st := Scenario.state (Scenario.pool 300 [0]) in
  let st' := (Scenario.check (Scenario.pool 300 [0]) [0] 700).1 in
  rtc (preempts "HIGH" "n1" [0]) st st' /\ globalPools st' <> globalPools st.
Proof.
  split; [|intros H; apply (f_equal (fun g => booking g "n1" 0 "v")) in H; vm_compute in H; discriminate H].
  refine (proj1 (@checkAndPreempt_lower_only reference_runtime Server _ _ _ Scenario.preemptor [0] 700 "HIGH"
    (Scenario.state (Scenario.pool 300 [0])) _ _ _ (surjective_pairing _))).
  apply pools_wf_named, (bool_decide_unpack _). vm_compute. exact I.
Defined.

(** The victim is booked on one core only. *)
Lemma Scenario_single : single_booked "n1" {["n1" := Scenario.pool 300 [0]]}.
Proof.
  assert (H : forall name c, is_Some (booking {["n1" := Scenario.pool 300 [0]]} "n1" c name) -> c = 0).
  { intros name c. unfold booking. rewrite lookup_singleton_eq.
    change (is_Some (pool_booking (AddPodToCore (newPool "n1" 16) 0 (Scenario.victim 300 [0])) c name) -> c = 0).
    rewrite pool_booking_add. case_decide as Hc; [intros _; apply Hc|].
    unfold pool_booking. rewrite newPool_cores. case_decide; simpl; [rewrite lookup_empty|]; by intros [? ?]. }
  intros name c1 c2 H1 H2. by rewrite (H name c1), (H name c2).
Qed.

Example checkAndPreempt_accounting_witness :
  pools_wf (globalPools (Scenario.check (Scenario.pool 300 [0]) [0] 700).1).
Proof.
  refine (proj1 (@checkAndPreempt_accounting reference_runtime Server _ _ _ Scenario.preemptor [0] 700 "HIGH"
    (Scenario.state (Scenario.pool 300 [0])) _ _ _ Scenario_single (surjective_pairing _))).
  apply (bool_decide_unpack _). vm_compute. exact I.
Defined.

(** In this scenario the victim is migrated, from core 0 to core 15. *)
Example Scenario_migrates :
  let st' := (Scenario.check (Scenario.pool 300 [0]) [0] 700).1 in
  booking (globalPools st') "n1" 15 "v" = Some (Scenario.victim 300 [0]) /\
  status_AllocatedCore <$> (mc_Status <$> srv_mckubes (world st')) = ["15"].
Proof. split; apply (bool_decide_unpack _); vm_compute; exact I. Qed.

Example checkAndPreempt_idle_witness :
  Scenario.check (Scenario.pool 300 [0]) [0; 1] 500 = (Scenario.state (Scenario.pool 300 [0]), inr None).
Proof.
  apply (@checkAndPreempt_idle reference_runtime Server _ _ _ Scenario.preemptor [0; 1] 500 "HIGH" _ (Scenario.pool 300 [0])).
  - done.
  - done.
  - unfold millis_range. lia.
  - repeat constructor; eexists; (split; [vm_compute; reflexivity|split; [|vm_compute; reflexivity]]);
      apply (bool_decide_unpack _); vm_compute; exact I.
Defined.

(** A victim booked on several cores is migrated to a core on which it is
    booked already; its budget is then counted twice there and the accounting
    is no longer exact: the core reports 600 milli-CPUs, 300 are booked. *)
Theorem migration_breaks_accounting :
  let p := Scenario.pool 300 (seqZ 0 16) in
  let st' := (Scenario.check p [0] 700).1 in
  pools_wf {["n1" := p]} /\ ~ pools_wf (globalPools st') /\
  (core ← globalPools st' !! "n1" ≫= fun p => Cores p !! 15; Some (UsageMillis core, booked (Pods core))) =
    Some (600, 300).
Proof.
  split_and!; apply (bool_decide_unpack _); vm_compute; exact I.
Qed.

(** The overload test counts the budget a pod has booked on its own core:
    when the budget of a pod on that core changes from 500 to 600 milli-CPUs,
    another pod with 200 is preempted, although 600 and 200 together fit. *)
Theorem own_booking_preempts :
  let p := AddPodToCore (Scenario.pool 200 [0]) 0 (mkPodInfo "p" "default" "HIGH" 500 [0]) in
  let st' := (Scenario.check p [0] 600).1 in
  within 200 600 = true /\
  booking {["n1" := p]} "n1" 0 "v" = Some (Scenario.victim 200 [0]) /\
  booking (globalPools st') "n1" 0 "v" = None.
Proof. split_and!; apply (bool_decide_unpack _); vm_compute; exact I. Qed.
