(* ===== verification/Reconcile.v ===== *)
(** * Reconcile: the reconcile loop

    [Reconcile], [updateCPUPoolForPod] and [applyRTSettingsToContainers] of
    [internal/controller/mckube_controller.go].  [Reconcile] is cut at its
    comments: deletion, finalizer, node, real-time settings, node pressure. *)
From S2P Require Import Prelude Float64 GoRuntime GoString CPUPool CoreSet ApiTypes Kube ApiServer Budget Conversions Scheduling DataCollector Pressure NodeEvents Controller Housekeeping Overrun Preemption.
From stdpp Require Import options.

Local Open Scope Z_scope.

(** [ctrl.Result]; the delay is in seconds. *)
Record Result := mkResult { Requeue : bool; RequeueAfter : Z }.

Definition done_ : Result := mkResult false 0.

(** The runtime in force for a pod in that state. *)
Definition effectiveRuntime (currentRuntimeState : string) (rt : RTSettings) : Z :=
  if decide (currentRuntimeState = "hi") then RuntimeHi rt else RuntimeLow rt.

(** The booked budget; 100 in place of 0. *)
Definition cpuMillisOf `{GoRuntime} (rt : RTSettings) (runtime : Z) : Z :=
  let cpuMillis := if 0 <? Period rt then runtimeMillis go_f2i runtime (Period rt) else 0 in
  if cpuMillis =? 0 then 100 else cpuMillis.

(** The pod is booked on the core with that budget and criticality. *)
Definition registeredOn (pool : CPUPool) (podName : string) (cpuMillis : Z) (criticality : string) (coreID : Z) : bool :=
  match Cores pool !! coreID with
  | None => false
  | Some core =>
      match Pods core !! podName with
      | None => false
      | Some existingPod =>
          (pi_CPUMillis existingPod =? cpuMillis) && bool_decide (pi_Criticality existingPod = criticality)
      end
  end.

Definition isPhase (phase : string) (pod : Pod) : bool := bool_decide (pod_Phase pod = phase).

Section reconcile.
Context `{R : GoRuntime} {W : Type}.
Context `{K : !KubeClient W, A : !NodeActuator W, U : !Unstructured W, T : !Clock W}.

(** The state and the budget of a pod, as both callers compute them. *)
Definition currentMillis (podName : string) (rt : RTSettings) : ctl W Z :=
  currentRuntimeState ← gets (fun st => str_get (podRuntimeState st) podName);
  mret (cpuMillisOf rt (effectiveRuntime currentRuntimeState rt)).

Definition updateCPUPoolForPod (pod : Pod) (mckube : MCKube) : ctl W (option error) :=
  match spec_RTSettings (mc_Spec mckube) with
  | None => mret None
  | Some rt =>
      match Core rt with
      | None => mret None
      | Some core =>
          let nodeName := pod_NodeName pod in
          if decide (nodeName = EmptyString) then mret (Some "pod has no assigned node")
          else
            pool ← getOrCreatePool nodeName;
            cpuMillis ← currentMillis (pod_Name pod) rt;
            cores ← parseCoreSet core;
            let criticality := spec_Criticality (mc_Spec mckube) in
            let podInfo := mkPodInfo (pod_Name pod) (pod_Namespace pod) criticality cpuMillis cores in
            let needsUpdate :=
              existsb (fun coreID => negb (registeredOn pool (pod_Name pod) cpuMillis criticality coreID)) cores in
            (if needsUpdate then
               for_each cores (fun coreID =>
                 onPool nodeName (fun p => RemovePodFromCore p coreID (pod_Name pod));;
                 onPool nodeName (fun p => AddPodToCore p coreID podInfo))
             else mret tt);;
            mret None
      end
  end.

(** One container.  The log lines dereference [coreToUse]. *)
Definition applyToContainer (nodeIP : string) (rt : RTSettings) (runtime : Z) (allocatedCore : string)
  (cs : ContainerStatus) : ctl W (option error) :=
  if decide (cs_ContainerID cs = EmptyString) then mret None
  else
    let coreToUse := if decide (allocatedCore <> EmptyString) then Some allocatedCore else Core rt in
    err ← sendRequest nodeIP (mkCgroupRequest (cs_ContainerID cs) (Period rt) runtime coreToUse false);
    match coreToUse with
    | None => stop Panics
    | Some _ => mret err
    end.

Definition applyRTSettingsToContainers (pod : Pod) (mckube : MCKube) : ctl W (option error) :=
  match spec_RTSettings (mc_Spec mckube) with
  | None => mret None
  | Some rt =>
      throttled ← (if decide (pod_UID pod <> EmptyString) then isVictimThrottled (pod_UID pod) else mret false);
      if throttled : bool then mret None
      else
        let nodeIP := pod_HostIP pod in
        if decide (nodeIP = EmptyString) then mret (Some "node IP not available")
        else
          currentRuntimeState ← gets (fun st => str_get (podRuntimeState st) (pod_Name pod));
          for_until (pod_ContainerStatuses pod)
            (applyToContainer nodeIP rt (effectiveRuntime currentRuntimeState rt) (status_AllocatedCore (mc_Status mckube)))
  end.

(** The resource is being deleted. *)
Definition reconcileDeletion (rt : MCKube) : ctl W (result Result) :=
  if containsString (mc_Finalizers rt) mckubeFinalizer then
    (if decide (spec_PodName (mc_Spec rt) <> EmptyString)
     then cleanupPodState (spec_PodName (mc_Spec rt)) (mc_Namespace rt) else mret tt);;
    err ← call (fun w => UpdateMCKube w (set_finalizers (removeString (mc_Finalizers rt) mckubeFinalizer) rt));
    mret (match err with Some e => Err e | None => Ok done_ end)
  else mret (Ok done_).

(** The resource is active and has no finalizer yet. *)
Definition addFinalizer (rt : MCKube) : ctl W (result Result) :=
  err ← call (fun w => UpdateMCKube w (set_finalizers (mc_Finalizers rt ++ [mckubeFinalizer]) rt));
  mret (match err with Some e => Err e | None => Ok (mkResult true 0) end).

(** The resource names no node. *)
Definition resolveNode (rt : MCKube) : ctl W (result Result) :=
  got ← query (fun w => GetPod w (mc_Namespace rt) (spec_PodName (mc_Spec rt)));
  match got with
  | Err e => mret (if IsNotFound (W := W) e then Ok (mkResult false 5) else Err e)
  | Ok pod =>
      if bool_decide (pod_NodeName pod = EmptyString) || (negb (isPhase "Running" pod) && negb (isPhase "Pending" pod))
      then mret (Ok (mkResult false 5))
      else
        err ← call (fun w => UpdateMCKube w (set_spec (set_Node (pod_NodeName pod)) rt));
        mret (match err with Some e => Err e | None => Ok (mkResult false 1) end)
  end.

(** [Status.AllocatedCore], initialised from the spec; the resource as the
    reconcile loop holds it from then on. *)
Definition allocateCore (rt : MCKube) (core : string) : ctl W MCKube :=
  if decide (status_AllocatedCore (mc_Status rt) <> EmptyString) then mret rt
  else
    let rt := set_status (set_AllocatedCore core) rt in
    _ ← updateStatus rt;
    mret rt.

(** The block for settings with a core. *)
Definition registerPod (pod : Pod) (rt : MCKube) (settings : RTSettings) (core : string) : ctl W MCKube :=
  rt ← allocateCore rt core;
  targetCores ← parseCoreSet (status_AllocatedCore (mc_Status rt));
  cpuMillis ← currentMillis (pod_Name pod) settings;
  let criticality := spec_Criticality (mc_Spec rt) in
  pool ← getOrCreatePool (pod_NodeName pod);
  let alreadyRegistered := forallb (registeredOn pool (pod_Name pod) cpuMillis criticality) targetCores in
  (if alreadyRegistered then mret tt
   else
     _ ← checkAndPreemptForPod pod targetCores cpuMillis criticality;
     _ ← updateCPUPoolForPod pod rt;
     mret tt);;
  mret rt.

(** The block for a resource with real-time settings. *)
Definition reconcileSettings (rt : MCKube) (settings : RTSettings) : ctl W unit :=
  got ← query (fun w => GetPod w (mc_Namespace rt) (spec_PodName (mc_Spec rt)));
  match got with
  | Err _ => mret tt
  | Ok pod =>
      if bool_decide (pod_NodeName pod <> EmptyString) && (isPhase "Pending" pod || isPhase "Running" pod) then
        ensurePodRuntimeStateInitialized (pod_Name pod);;
        rt ← match Core settings with
             | Some core => registerPod pod rt settings core
             | None => _ ← updateCPUPoolForPod pod rt; mret rt
             end;
        if isPhase "Running" pod && bool_decide (pod_DeletionTimestamp pod = None)
        then _ ← applyRTSettingsToContainers pod rt; mret tt
        else mret tt
      else mret tt
  end.

(** [r.EventHandler.HandleNodeCPUPressure] *)
Definition handlePressure (nodeName : string) : ctl W unit := fun st =>
  match HandleNodeCPUPressure (world st) (PressureState st) nodeName with
  | Some (w, ps) => (with_pressure ps (with_world w st), inr tt)
  | None => (st, inl Diverges)
  end.

(** The check of the node's pressure. *)
Definition reconcilePressure (nodeName : string) : ctl W unit :=
  got ← query (fun w => GetNode w nodeName);
  match got with
  | Err _ => mret tt
  | Ok node =>
      match node_Annotations node !! AnnCpuBusyKey with
      | None => mret tt
      | Some isCpuBusyStr =>
          let isCpuBusy := bool_decide (TrimSpace isCpuBusyStr = "true") in
          lastState ← gets (fun st => lastCpuBusyState st !! nodeName);
          if decide (lastState = Some isCpuBusy) then mret tt
          else
            modify (fun st => with_busy (<[nodeName := isCpuBusy]> (lastCpuBusyState st)) st);;
            if isCpuBusy : bool then handlePressure nodeName else handleCPURecovery nodeName
      end
  end.

(** An active resource with its finalizer. *)
Definition reconcileActive (rt : MCKube) : ctl W (result Result) :=
  if decide (spec_PodName (mc_Spec rt) = EmptyString) then mret (Ok done_)
  else if decide (spec_Node (mc_Spec rt) = EmptyString) then resolveNode rt
  else
    match spec_RTSettings (mc_Spec rt) with
    | Some settings => reconcileSettings rt settings
    | None => mret tt
    end;;
    reconcilePressure (spec_Node (mc_Spec rt));;
    mret (Ok done_).

Definition Reconcile (req : NamespacedName) : ctl W (result Result) :=
  cleanupExpiredThrottledVictims;;
  got ← query (fun w => GetMCKube w (nn_Namespace req) (nn_Name req));
  match got with
  | Err e => mret (if IsNotFound (W := W) e then Ok done_ else Err e)
  | Ok rt =>
      if decide (is_Some (mc_DeletionTimestamp rt)) then reconcileDeletion rt
      else if containsString (mc_Finalizers rt) mckubeFinalizer then reconcileActive rt
      else addFinalizer rt
  end.
End reconcile.

(** ** Booking: lemmas *)

Section booking.
Context {W : Type}.
Implicit Types (st : St W) (g : Pools).

(** Replacing a booking on one core, and on several in turn. *)
Definition rebook (node : string) (info : PodInfo) (g : Pools) (c : Z) : Pools :=
  alter (fun p => AddPodToCore p c info) node (alter (fun p => RemovePodFromCore p c (pi_Name info)) node g).

Definition rebookAll (node : string) (info : PodInfo) (cores : list Z) (g : Pools) : Pools :=
  foldl (rebook node info) g cores.

Lemma rebook_has_core node info g c n c' : has_core (rebook node info g c) n c' <-> has_core g n c'.
Proof using Type.
  unfold rebook, has_core. destruct (decide (n = node)) as [->|Hn].
  - rewrite !lookup_alter_eq. destruct (g !! node) as [p|]; simpl; [|done].
    split; intros (p' & [= <-] & Hc); eexists; (split; [done|]); by apply AddPodToCore_cores, RemovePodFromCore_cores in Hc
      || by apply AddPodToCore_cores, RemovePodFromCore_cores.
  - by rewrite !lookup_alter_ne.
Qed.

Lemma rebook_booking node info g c n c' name :
  booking (rebook node info g c) n c' name =
  if decide (n = node /\ c' = c /\ name = pi_Name info /\ has_core g node c) then Some info else booking g n c' name.
Proof using Type.
  unfold rebook. rewrite booking_alter. destruct (decide (n = node)) as [->|Hn].
  2: { rewrite booking_alter. by rewrite !decide_False by tauto. }
  rewrite lookup_alter_eq. destruct (g !! node) as [p|] eqn:Ep.
  2: { rewrite decide_False; [unfold booking; by rewrite Ep|]. intros (_ & _ & _ & p & Hp & _). congruence. }
  simpl. rewrite pool_booking_add, pool_booking_remove, (booking_pool _ _ _ _ _ Ep).
  assert (Hcore : has_core g node c <-> is_Some (Cores (RemovePodFromCore p c (pi_Name info)) !! c)).
  { rewrite RemovePodFromCore_cores. split; [intros (p' & Hp' & Hc); congruence|intros Hc; by exists p]. }
  destruct (decide (c' = c /\ name = pi_Name info)) as [[-> ->]|Hne].
  - destruct (decide (is_Some (Cores (RemovePodFromCore p c (pi_Name info)) !! c))) as [Hc|Hc].
    + rewrite !decide_True by tauto. done.
    + rewrite !decide_False by tauto. symmetry. unfold pool_booking.
      rewrite RemovePodFromCore_cores in Hc. apply eq_None_not_Some in Hc. by rewrite Hc.
  - by rewrite !decide_False by tauto.
Qed.

Lemma rebook_wf node info g c : pools_wf g -> pools_wf (rebook node info g c).
Proof using Type.
  intros Hg. apply pools_wf_alter.
  - intros p'. rewrite lookup_alter_eq. destruct (g !! node) as [p|] eqn:Ep; [|done]. simpl. intros [= <-].
    apply AddPodToCore_wf. by rewrite pool_booking_remove, decide_True.
  - apply pools_wf_alter; [|done]. intros. by apply RemovePodFromCore_wf.
Qed.

Lemma rebookAll_has_core node info cores g n c : has_core (rebookAll node info cores g) n c <-> has_core g n c.
Proof using Type.
  unfold rebookAll. revert g. induction cores as [|c0 cores IH]; intros g; [done|]. cbn [foldl].
  by rewrite IH, rebook_has_core.
Qed.

Lemma rebookAll_booking node info cores g n c name :
  booking (rebookAll node info cores g) n c name =
  if decide (n = node /\ c ∈ cores /\ name = pi_Name info /\ has_core g node c) then Some info else booking g n c name.
Proof using Type.
  unfold rebookAll. revert g. induction cores as [|c0 cores IH]; intros g; cbn [foldl].
  { rewrite decide_False; [done|]. by intros (_ & H%not_elem_of_nil & _). }
  rewrite IH, rebook_booking. assert (Hc := rebook_has_core node info g c0 node c).
  destruct (decide (n = node /\ c ∈ c0 :: cores /\ name = pi_Name info /\ has_core g node c)) as [H|H];
    rewrite elem_of_cons in H.
  - destruct (decide (c ∈ cores)) as [Hin|Hin]; [by rewrite decide_True by tauto|].
    rewrite decide_False by tauto. assert (c = c0) as -> by tauto. by rewrite decide_True by tauto.
  - rewrite decide_False by tauto. destruct (decide (c = c0)) as [->|Hne]; by rewrite decide_False by tauto.
Qed.

Lemma rebookAll_wf node info cores g : pools_wf g -> pools_wf (rebookAll node info cores g).
Proof using Type.
  unfold rebookAll. revert g. induction cores as [|c cores IH]; intros g Hg; [done|]. by apply IH, rebook_wf.
Qed.

Lemma rebookAll_pool node info cores g : is_Some (g !! node) -> is_Some (rebookAll node info cores g !! node).
Proof using Type.
  unfold rebookAll. revert g. induction cores as [|c cores IH]; intros g [p Hp]; [by exists p|]. cbn [foldl].
  apply IH. unfold rebook. rewrite !lookup_alter_eq, Hp. by eexists.
Qed.

(** The loop of [updateCPUPoolForPod]. *)
Lemma rebook_loop node info cores st :
  for_each cores (fun coreID =>
    onPool node (fun p => RemovePodFromCore p coreID (pi_Name info));;
    onPool node (fun p => AddPodToCore p coreID info)) st =
  (with_pools (rebookAll node info cores (globalPools st)) st, inr tt).
Proof using Type.
  unfold rebookAll. revert st. induction cores as [|c cores IH]; intros st; [by destruct st|].
  cbn [for_each foldl]. rewrite run_assoc, !run_onPool. by rewrite IH.
Qed.

Lemma registeredOn_booking g node p name millis crit c :
  g !! node = Some p ->
  registeredOn p name millis crit c = true <->
  exists pi, booking g node c name = Some pi /\ pi_CPUMillis pi = millis /\ pi_Criticality pi = crit.
Proof using Type.
  intros Hp. unfold registeredOn. rewrite (booking_pool _ _ _ _ _ Hp). unfold pool_booking.
  destruct (Cores p !! c) as [core|]; simpl; [|by split; [|intros (? & ? & _)]].
  destruct (Pods core !! name) as [pi|]; [|by split; [|intros (? & ? & _)]].
  rewrite andb_true_iff, Z.eqb_eq, bool_decide_eq_true. split; [intros [? ?]; by exists pi|].
  by intros (pi' & [= <-] & ? & ?).
Qed.

(** The pools once the pool of the node exists. *)
Definition ensured (g : Pools) (node : string) : Pools := (GetOrCreateCPUPool g node DefaultNumCores).1.

Lemma ensured_lookup g node : ensured g node !! node = Some (GetOrCreateCPUPool g node DefaultNumCores).2.
Proof using Type. unfold ensured, GetOrCreateCPUPool. destruct (g !! node) eqn:E; [done|]. cbn [fst snd]. by rewrite lookup_insert_eq. Qed.

Lemma ensured_booking g node n c name : booking (ensured g node) n c name = booking g n c name.
Proof using Type.
  unfold ensured, GetOrCreateCPUPool. destruct (g !! node) as [p|] eqn:E; [done|]. unfold booking.
  cbn [fst]. destruct (decide (n = node)) as [->|Hn]; [|by rewrite lookup_insert_ne].
  rewrite lookup_insert_eq, E. cbn [mbind option_bind]. rewrite newPool_cores. case_decide; [|done]. apply lookup_empty.
Qed.

Lemma ensured_id g node p : g !! node = Some p -> ensured g node = g.
Proof using Type. intros E. unfold ensured, GetOrCreateCPUPool. by rewrite E. Qed.

Lemma run_getOrCreate {B} node (k : CPUPool -> ctl W B) st :
  (getOrCreatePool node ≫= k) st =
  k (GetOrCreateCPUPool (globalPools st) node DefaultNumCores).2 (with_pools (ensured (globalPools st) node) st).
Proof using Type.
  unfold getOrCreatePool, ensured. rewrite run_bind. by destruct (GetOrCreateCPUPool _ _ _) as [g p].
Qed.

Lemma run_parse {B} s l (k : list Z -> ctl W B) st : ParseCoreSet s = Some l -> (parseCoreSet s ≫= k) st = k l st.
Proof using Type. intros E. unfold parseCoreSet. by rewrite E. Qed.
End booking.

(** ** Registration *)

Section registration.
Context `{R : GoRuntime} {W : Type}.
Context `{K : !KubeClient W, A : !NodeActuator W, U : !Unstructured W, T : !Clock W}.
Implicit Types (st : St W) (pod : Pod) (mc : MCKube).

(** The budget of a pod in its current state. *)
Definition millisIn st (podName : string) (rt : RTSettings) : Z :=
  cpuMillisOf rt (effectiveRuntime (str_get (podRuntimeState st) podName) rt).

Lemma run_millis {B} podName rt (k : Z -> ctl W B) st :
  (currentMillis podName rt ≫= k) st = k (millisIn st podName rt) st.
Proof using Type. done. Qed.

(** The pod is booked on the core with the budget and the criticality. *)
Definition registered (g : Pools) (node podName : string) (millis : Z) (crit : string) (c : Z) : Prop :=
  exists pi, booking g node c podName = Some pi /\ pi_CPUMillis pi = millis /\ pi_Criticality pi = crit.

Lemma updateCPUPool_run pod mc rt core cores st :
  spec_RTSettings (mc_Spec mc) = Some rt -> Core rt = Some core -> ParseCoreSet core = Some cores ->
  pod_NodeName pod <> "" ->
  let crit := spec_Criticality (mc_Spec mc) in
  let info := mkPodInfo (pod_Name pod) (pod_Namespace pod) crit (millisIn st (pod_Name pod) rt) cores in
  let g := ensured (globalPools st) (pod_NodeName pod) in
  updateCPUPoolForPod pod mc st =
  (with_pools
     (if forallb (registeredOn (GetOrCreateCPUPool (globalPools st) (pod_NodeName pod) DefaultNumCores).2
           (pod_Name pod) (millisIn st (pod_Name pod) rt) crit) cores
      then g else rebookAll (pod_NodeName pod) info cores g) st, inr None).
Proof using Type.
  intros Hrt Hcore Hparse Hn crit info g. unfold updateCPUPoolForPod. rewrite Hrt, Hcore.
  rewrite decide_False by done. rewrite run_getOrCreate, run_millis, (run_parse _ _ _ _ Hparse). cbv zeta.
  assert (Hex : forall (f : Z -> bool) l, existsb (fun c => negb (f c)) l = negb (forallb f l)).
  { intros f l. induction l as [|c l IH]; [done|]. simpl. rewrite IH. by destruct (f c). }
  rewrite Hex. destruct (forallb _ cores); cbn [negb]; [by rewrite run_ret|].
  pose proof (rebook_loop (pod_NodeName pod) info cores (with_pools g st)) as Hloop.
  unfold g, info, crit in Hloop |- *. cbn [pi_Name globalPools with_pools] in Hloop.
  exact (run_bind_inr _ _ _ _ _ Hloop).
Qed.

(** The bookings of the pod after [updateCPUPoolForPod]. *)
Lemma updateCPUPool_books pod mc rt core cores st :
  spec_RTSettings (mc_Spec mc) = Some rt -> Core rt = Some core -> ParseCoreSet core = Some cores ->
  pod_NodeName pod <> "" ->
  exists g, updateCPUPoolForPod pod mc st = (with_pools g st, inr None) /\
    is_Some (g !! pod_NodeName pod) /\
    (pools_wf (globalPools st) -> pools_wf g) /\
    (forall c, c ∈ cores -> has_core (ensured (globalPools st) (pod_NodeName pod)) (pod_NodeName pod) c ->
       registered g (pod_NodeName pod) (pod_Name pod) (millisIn st (pod_Name pod) rt) (spec_Criticality (mc_Spec mc)) c) /\
    (forall n c name, ~ (n = pod_NodeName pod /\ c ∈ cores /\ name = pod_Name pod) ->
       booking g n c name = booking (globalPools st) n c name).
Proof using Type.
  intros Hrt Hcore Hparse Hn. rewrite (updateCPUPool_run pod mc rt core cores st) by done. cbv zeta.
  set (millis := millisIn st _ rt). set (crit := spec_Criticality _). set (info := mkPodInfo _ _ _ _ _).
  set (g := ensured (globalPools st) (pod_NodeName pod)). pose proof (ensured_lookup (globalPools st) (pod_NodeName pod)) as Hg.
  fold g in Hg. set (p := (GetOrCreateCPUPool _ _ _).2) in *.
  assert (Hwf : pools_wf (globalPools st) -> pools_wf g).
  { apply GetOrCreateCPUPool_wf. unfold int64, DefaultNumCores. lia. }
  eexists. split; [reflexivity|]. destruct (forallb _ cores) eqn:Eall; split_and!; try done.
  - intros c Hc _. rewrite forallb_forall in Eall. apply list_elem_of_In, Eall in Hc.
    by apply (registeredOn_booking g (pod_NodeName pod) p).
  - intros n c name _. apply ensured_booking.
  - apply rebookAll_pool. by eexists.
  - intros H. by apply rebookAll_wf, Hwf.
  - intros c Hc Hcc. exists info. rewrite rebookAll_booking. by rewrite decide_True.
  - intros n c name Hne. rewrite rebookAll_booking, decide_False by (intros (? & ? & ? & _); tauto).
    apply ensured_booking.
Qed.

(** The resource as [allocateCore] leaves it. *)
Definition allocated (core : string) mc : MCKube :=
  if decide (status_AllocatedCore (mc_Status mc) <> "") then mc else set_status (set_AllocatedCore core) mc.

Lemma allocateCore_run mc core st :
  exists w, allocateCore mc core st = (with_world w st, inr (allocated core mc)).
Proof using Type.
  unfold allocateCore, allocated. case_decide; [exists (world st); by destruct st|].
  eexists. rewrite run_status. reflexivity.
Qed.

(** What the preemption check keeps for the registration that follows. *)
Lemma checkAndPreempt_keeps pod cores millis crit st :
  named (globalPools st) ->
  exists st' r, checkAndPreemptForPod pod cores millis crit st = (st', inr r) /\
  podRuntimeState st' = podRuntimeState st /\
  (forall c, has_core (globalPools st) (pod_NodeName pod) c -> has_core (globalPools st') (pod_NodeName pod) c).
Proof using Type.
  intros Hn. destruct (checkAndPreempt_returns pod cores millis crit st I) as [_ [r Hr]].
  destruct (checkAndPreempt_inv (fun g => forall c, has_core (globalPools st) (pod_NodeName pod) c ->
    has_core g (pod_NodeName pod) c) pod cores millis crit st) as ([_ _ _ Hrt] & _ & Hc); [|done..|].
  - intros victim c st1 H1 _ _ c' Hc'.
    destruct (preemptPod_pools victim (pod_NodeName pod) c st1) as [->|(newCore & _ & _ & ->)]; [by apply H1|].
    by apply migrated_has_core, H1.
  - destruct (checkAndPreemptForPod _ _ _ _ st) as [st' r']. simpl in *. subst r'. by exists st', r.
Qed.

(** The settings of the resource and its cores, as the registration reads them. *)
Record registrable (pod : Pod) (mc : MCKube) (settings : RTSettings) (core : string) (cores : list Z) : Prop := {
  reg_settings : spec_RTSettings (mc_Spec mc) = Some settings;
  reg_core : Core settings = Some core;
  reg_cores : ParseCoreSet core = Some cores;
  reg_nonempty : core <> "";
  reg_node : pod_NodeName pod <> "";
  reg_allocated : status_AllocatedCore (mc_Status mc) = "" \/ status_AllocatedCore (mc_Status mc) = core
}.

Lemma registrable_allocated pod mc settings core cores :
  registrable pod mc settings core cores -> status_AllocatedCore (mc_Status (allocated core mc)) = core /\
  mc_Spec (allocated core mc) = mc_Spec mc.
Proof using Type.
  intros [_ _ _ Hne _ Ha]. unfold allocated. case_decide as Hd; [|by split]. split; [|done].
  destruct Ha as [Ha|Ha]; [by destruct Hd|done].
Qed.

(** The pod is booked on all its cores with its current budget. *)
Definition settled pod mc settings cores st : Prop :=
  exists p, globalPools st !! pod_NodeName pod = Some p /\
    forallb (registeredOn p (pod_Name pod) (millisIn st (pod_Name pod) settings) (spec_Criticality (mc_Spec mc))) cores = true.

(** The registration of a resource whose core is allocated. *)
Lemma registerPod_run pod mc settings core cores st :
  registrable pod mc settings core cores -> status_AllocatedCore (mc_Status mc) = core ->
  registerPod pod mc settings core st =
  let st0 := with_pools (ensured (globalPools st) (pod_NodeName pod)) st in
  let crit := spec_Criticality (mc_Spec mc) in
  let millis := millisIn st (pod_Name pod) settings in
  if forallb (registeredOn (GetOrCreateCPUPool (globalPools st) (pod_NodeName pod) DefaultNumCores).2
       (pod_Name pod) millis crit) cores
  then (st0, inr mc)
  else (_ ← checkAndPreemptForPod pod cores millis crit; _ ← updateCPUPoolForPod pod mc; mret mc) st0.
Proof using Type.
  intros [_ _ Hparse Hne _ _] Ha. unfold registerPod, allocateCore. rewrite Ha, decide_True by done.
  rewrite run_ret, Ha, (run_parse _ _ _ _ Hparse), run_millis, run_getOrCreate. cbv zeta.
  destruct (forallb _ cores); [by rewrite run_ret|].
  rewrite run_assoc, !(run_bind (checkAndPreemptForPod _ _ _ _)).
  destruct (checkAndPreemptForPod _ _ _ _ _) as [st1 [s|r]]; [done|]. by rewrite run_assoc.
Qed.

Lemma registerPod_settles pod mc settings core cores st :
  registrable pod mc settings core cores -> named (globalPools st) ->
  (forall c, c ∈ cores -> has_core (ensured (globalPools st) (pod_NodeName pod)) (pod_NodeName pod) c) ->
  exists st1, registerPod pod mc settings core st = (st1, inr (allocated core mc)) /\
    settled pod mc settings cores st1 /\ podRuntimeState st1 = podRuntimeState st.
Proof using Type.
  intros Hreg Hn Hcores. pose proof (registrable_allocated _ _ _ _ _ Hreg) as [Ha Hspec].
  assert (Hreg' : registrable pod (allocated core mc) settings core cores).
  { destruct Hreg. split; rewrite ?Hspec; auto. }
  assert (E0 : exists w, registerPod pod mc settings core st =
    registerPod pod (allocated core mc) settings core (with_world w st)).
  { destruct (allocateCore_run mc core st) as [w E]. exists w. unfold registerPod.
    rewrite (run_bind_inr _ _ _ _ _ E). unfold allocateCore. rewrite Ha. rewrite decide_True by apply Hreg.
    rewrite run_ret. by rewrite Ha. }
  destruct E0 as [w ->]. rewrite (registerPod_run _ _ _ _ _ _ Hreg' Ha). cbv zeta. rewrite Hspec. simpl.
  set (node := pod_NodeName pod) in *. set (st0 := with_pools _ _).
  assert (Hp0 : globalPools st0 !! node = Some (GetOrCreateCPUPool (globalPools st) node DefaultNumCores).2)
    by apply ensured_lookup.
  destruct (forallb _ cores) eqn:Eall.
  { exists st0. split_and!; [done| |done]. eexists. split; [exact Hp0|]. exact Eall. }
  assert (Hn0 : named (globalPools st0)). { intros n c name pi. simpl. rewrite ensured_booking. apply Hn. }
  destruct (checkAndPreempt_keeps pod cores (millisIn st (pod_Name pod) settings) (spec_Criticality (mc_Spec mc)) st0 Hn0)
    as (st1 & r1 & E1 & Hr1 & Hc1). rewrite (run_bind_inr _ _ _ _ _ E1).
  destruct (updateCPUPool_books pod (allocated core mc) settings core cores st1) as (g & E2 & [p Hp] & _ & Hb & _);
    [by rewrite Hspec; apply Hreg|apply Hreg|apply Hreg|apply Hreg|].
  rewrite (run_bind_inr _ _ _ _ _ E2). eexists. split_and!; [reflexivity| |done].
  exists p. split; [exact Hp|]. apply forallb_forall. intros c Hc%list_elem_of_In.
  apply (registeredOn_booking g node p); [exact Hp|]. rewrite Hspec in Hb.
  assert (Hp1 : is_Some (globalPools st1 !! node)).
  { destruct (Hc1 c) as (p1 & Hp1 & _); [by apply Hcores|by exists p1]. }
  unfold millisIn in *. change (podRuntimeState (with_pools g st1)) with (podRuntimeState st1).
  rewrite Hr1 in Hb |- *. apply Hb; [done|]. destruct Hp1 as [p1 Hp1].
  fold node. rewrite (ensured_id _ _ _ Hp1). by apply Hc1, Hcores.
Qed.
(** C26: [updateCPUPoolForPod] returns without an error, and afterwards the pod is
    booked, with its current budget and criticality, on every core of its
    settings that the node's pool has (the pool is created if there is none);
    no other booking changes, and the accounting stays exact. *)
Theorem updateCPUPoolForPod_books pod mc rt core cores st st' r :
  spec_RTSettings (mc_Spec mc) = Some rt -> Core rt = Some core -> ParseCoreSet core = Some cores ->
  pod_NodeName pod <> "" -> updateCPUPoolForPod pod mc st = (st', r) ->
  r = inr None /\ st' = with_pools (globalPools st') st /\
  (pools_wf (globalPools st) -> pools_wf (globalPools st')) /\
  (forall c, c ∈ cores -> has_core (ensured (globalPools st) (pod_NodeName pod)) (pod_NodeName pod) c ->
     registered (globalPools st') (pod_NodeName pod) (pod_Name pod) (millisIn st (pod_Name pod) rt)
       (spec_Criticality (mc_Spec mc)) c) /\
  (forall n c name, ~ (n = pod_NodeName pod /\ c ∈ cores /\ name = pod_Name pod) ->
     booking (globalPools st') n c name = booking (globalPools st) n c name).
Proof using Type.
  intros Hrt Hcore Hparse Hn E. destruct (updateCPUPool_books pod mc rt core cores st) as (g & E' & _ & H1 & H2 & H3); [done..|].
  rewrite E in E'. injection E' as -> ->. by split_and!.
Qed.

(** C6: registering a pod settles: for a resource without an allocated core, or
    with its own, whose cores exist, the registration returns with the pod
    booked on all cores of its settings with its current budget, and a second
    registration then does nothing at all: it preempts nobody, calls nobody and
    leaves every booking as it is. *)
Theorem registerPod_idempotent pod mc settings core cores st :
  registrable pod mc settings core cores -> named (globalPools st) ->
  (forall c, c ∈ cores -> has_core (ensured (globalPools st) (pod_NodeName pod)) (pod_NodeName pod) c) ->
  exists st1, registerPod pod mc settings core st = (st1, inr (allocated core mc)) /\
    (exists p, globalPools st1 !! pod_NodeName pod = Some p /\
       forall c, c ∈ cores -> registeredOn p (pod_Name pod) (millisIn st1 (pod_Name pod) settings)
         (spec_Criticality (mc_Spec mc)) c = true) /\
    registerPod pod (allocated core mc) settings core st1 = (st1, inr (allocated core mc)).
Proof using Type.
  intros Hreg Hn Hcores. destruct (registerPod_settles _ _ _ _ _ _ Hreg Hn Hcores) as (st1 & E & (p & Hp & Hall) & _).
  exists st1. split_and!; [done| |].
  - exists p. split; [done|]. rewrite forallb_forall in Hall. intros c Hc. by apply Hall, list_elem_of_In.
  - pose proof (registrable_allocated _ _ _ _ _ Hreg) as [Ha Hspec].
    assert (Hreg' : registrable pod (allocated core mc) settings core cores).
    { destruct Hreg. split; rewrite ?Hspec; auto. }
    rewrite (registerPod_run _ _ _ _ _ _ Hreg' Ha). cbv zeta. rewrite Hspec.
    unfold GetOrCreateCPUPool at 1. rewrite Hp. cbn [snd]. rewrite Hall, (ensured_id _ _ _ Hp). by destruct st1.
Qed.
End registration.

(** ** Witnesses *)

Module Registration.
(** The LOW resource of the pod "v" on the node "n1", with a budget of 0.3 cores. *)
Definition settings : RTSettings := mkRT 1000 300 500 (Some "0-1").
Definition pod : Pod := sample_pod "v" "n1".
Definition resource : MCKube := sample_mckube "v" "n1" "LOW" settings.
Definition state : St Server := st_init (mkServer [resource] [pod] [] false 200 []).

Lemma cores_exist c : c ∈ [0; 1] -> has_core (ensured (globalPools state) "n1") "n1" c.
Proof.
  intros Hc. eexists. split; [apply ensured_lookup|].
  change (is_Some (Cores (newPool "n1" DefaultNumCores) !! c)). rewrite newPool_cores, decide_True; [by eexists|].
  unfold DefaultNumCores. rewrite !elem_of_cons, elem_of_nil in Hc. lia.
Qed.
End Registration.

Example updateCPUPoolForPod_books_witness :
  let st' := (@updateCPUPoolForPod reference_runtime Server Registration.pod Registration.resource Registration.state).1 in
  registered (globalPools st') "n1" "v" 300 "LOW" 1.
Proof.
  refine (proj1 (proj2 (proj2 (proj2 (@updateCPUPoolForPod_books reference_runtime Server Registration.pod
    Registration.resource Registration.settings "0-1" [0; 1] Registration.state _ _ eq_refl eq_refl _ _
    (surjective_pairing _))))) 1 _ _); [by vm_compute|done|by right; left|].
  apply Registration.cores_exist. by right; left.
Defined.

Example registerPod_idempotent_witness :
  exists st1 : St Server,
    @registerPod reference_runtime Server _ _ _ Registration.pod
      (allocated "0-1" Registration.resource) Registration.settings "0-1" st1 =
    (st1, inr (allocated "0-1" Registration.resource)).
Proof.
  destruct (@registerPod_idempotent reference_runtime Server _ _ _ Registration.pod Registration.resource
    Registration.settings "0-1" [0; 1] Registration.state) as (st1 & _ & _ & E).
  - split; [done|done|by vm_compute|done|done|by left].
  - intros n c name pi. unfold booking. simpl. by rewrite lookup_empty.
  - apply Registration.cores_exist.
  - by exists st1.
Defined.
