(* ===== verification/ReconcileSpec.v ===== *)
(** * ReconcileSpec: properties of the reconcile loop as a whole

    Which invocations of [Reconcile] return, the protocol of the finalizer, what
    happens to a throttled victim, the invariants of the controller's state over
    all sequences of its entry points, and defects shown on concrete clusters. *)
From S2P Require Import Prelude Float64 GoRuntime GoString CPUPool CoreSet ApiTypes Kube ApiServer Budget Conversions Scheduling DataCollector Pressure NodeEvents Controller Housekeeping Overrun Preemption Reconcile.
From stdpp Require Import options.

Local Open Scope Z_scope.

(** ** Returning *)

Section returning.
Context `{R : GoRuntime} {W : Type}.
Context `{K : !KubeClient W, A : !NodeActuator W, U : !Unstructured W, T : !Clock W}.
Implicit Types (st : St W) (pod : Pod) (mc : MCKube).

Abbreviation always := (returns (fun _ : St W => True)).

Lemma always_call {B} (f : W -> W * B) : always (call f).
Proof using Type. by apply returns_call. Qed.

Lemma always_modify f : always (modify f).
Proof using Type. by apply returns_modify. Qed.

Lemma always_parse s : ParseCoreSet s <> None -> always (parseCoreSet s).
Proof using Type. intros H. unfold parseCoreSet. destruct (ParseCoreSet s); [apply returns_ret|done]. Qed.

Lemma always_getOrCreate node : always (getOrCreatePool node).
Proof using Type.
  intros st _. split; [done|]. unfold getOrCreatePool. destruct (GetOrCreateCPUPool _ _ _). by eexists.
Qed.

Lemma always_recovery nodeName : always (handleCPURecovery nodeName).
Proof using Type.
  unfold handleCPURecovery, revertPod, revertContainers, sendRequest, setRuntimeState, updateStatus. return_.
Qed.

Lemma always_pressure nodeName : always (handlePressure nodeName).
Proof using Type.
  intros st _. split; [done|]. unfold handlePressure.
  destruct (HandleNodeCPUPressure_Some (world st) (PressureState st) nodeName) as [[w ps] ->]. by eexists.
Qed.

(** The settings of the resource do not stop the loop: every core string is one
    that [ParseCoreSet] returns on, and some core is given. *)
Definition well_behaved (mc : MCKube) : Prop :=
  forall settings, spec_RTSettings (mc_Spec mc) = Some settings ->
  ~ endless (status_AllocatedCore (mc_Status mc)) /\
  match Core settings with
  | Some core => ~ endless core /\ core <> ""
  | None => status_AllocatedCore (mc_Status mc) <> ""
  end.

Lemma not_endless s : ~ endless s -> ParseCoreSet s <> None.
Proof using Type. by rewrite ParseCoreSet_None. Qed.

Lemma always_updateCPUPool pod mc : well_behaved mc -> always (updateCPUPoolForPod pod mc).
Proof using Type.
  intros Hw. unfold updateCPUPoolForPod. destruct (spec_RTSettings (mc_Spec mc)) as [rt|] eqn:E; [|return_].
  destruct (Hw _ E) as [_ Hc]. destruct (Core rt) as [core|]; [|return_]. destruct Hc as [Hc%not_endless _].
  pose proof always_getOrCreate. pose proof (always_parse core Hc).
  unfold currentMillis, onPool. return_.
Qed.

Lemma always_apply pod mc : well_behaved mc -> always (applyRTSettingsToContainers pod mc).
Proof using Type.
  intros Hw. unfold applyRTSettingsToContainers, isVictimThrottled, applyToContainer, sendRequest.
  destruct (spec_RTSettings (mc_Spec mc)) as [rt|] eqn:E; [|return_]. destruct (Hw _ E) as [_ Hc].
  assert (Hcore : forall cs, always (match
      (if decide (status_AllocatedCore (mc_Status mc) <> "") then Some (status_AllocatedCore (mc_Status mc)) else Core rt)
    with None => stop Panics | Some _ => mret cs end : ctl W (option error))).
  { intros cs. case_decide; [return_|]. destruct (Core rt); [return_|done]. }
  return_.
Qed.

Lemma well_behaved_allocated core mc settings :
  spec_RTSettings (mc_Spec mc) = Some settings -> Core settings = Some core -> well_behaved mc ->
  well_behaved (allocated core mc).
Proof using Type.
  intros Hs Hc Hw. unfold allocated. case_decide; [done|]. intros settings' Hs'. simpl in *.
  destruct (Hw _ Hs) as [_ Hwc]. rewrite Hc in Hwc. replace settings' with settings by congruence. rewrite Hc. by destruct Hwc.
Qed.

(** Returning with a value that satisfies a predicate. *)
Definition yields {B} (Q : B -> Prop) (m : ctl W B) : Prop := forall st, exists st' b, m st = (st', inr b) /\ Q b.

Lemma yields_bind {B C} (Q : B -> Prop) (Q' : C -> Prop) (m : ctl W B) f :
  yields Q m -> (forall b, Q b -> yields Q' (f b)) -> yields Q' (m ≫= f).
Proof using Type.
  intros Hm Hf st. destruct (Hm st) as (st1 & b & E & Hb). rewrite (run_bind_inr _ _ _ _ _ E). by apply Hf.
Qed.

Lemma yields_ret {B} (Q : B -> Prop) b : Q b -> yields Q (mret b).
Proof using Type. intros H st. by exists st, b. Qed.

Lemma always_yields {B} (m : ctl W B) : always m <-> yields (fun _ => True) m.
Proof using Type.
  split.
  - intros H st. destruct (returns_run _ m st H I) as (st' & b & E & _). by exists st', b.
  - intros H st _. destruct (H st) as (st' & b & E & _). rewrite E. split; [done|by exists b].
Qed.

Lemma yields_always {B C} (Q : C -> Prop) (m : ctl W B) f :
  always m -> (forall b, yields Q (f b)) -> yields Q (m ≫= f).
Proof using Type. intros Hm%always_yields Hf. eapply yields_bind; [exact Hm|auto]. Qed.

Lemma yields_register pod mc settings core :
  spec_RTSettings (mc_Spec mc) = Some settings -> Core settings = Some core -> well_behaved mc ->
  yields well_behaved (registerPod pod mc settings core).
Proof using Type.
  intros Hs Hc Hw. pose proof (well_behaved_allocated _ _ _ Hs Hc Hw) as Hw'.
  assert (Hp : ParseCoreSet (status_AllocatedCore (mc_Status (allocated core mc))) <> None).
  { apply not_endless, (Hw' settings). unfold allocated. by case_decide. }
  pose proof (always_parse _ Hp) as H1. pose proof always_getOrCreate as H2. pose proof checkAndPreempt_returns as H3.
  pose proof (always_updateCPUPool pod _ Hw') as H4. unfold registerPod, currentMillis.
  apply yields_bind with (Q := fun mc' => mc' = allocated core mc).
  { intros st. destruct (allocateCore_run mc core st) as [w E]. by eexists _, _. }
  intros mc' ->. apply yields_always; [done|]. intros cores. apply yields_always; [return_|]. intros millis.
  apply yields_always; [done|]. intros pool. apply yields_always; [return_|]. intros _. by apply yields_ret.
Qed.

Lemma always_settings mc settings :
  spec_RTSettings (mc_Spec mc) = Some settings -> well_behaved mc -> always (reconcileSettings mc settings).
Proof using Type.
  intros Hs Hw. unfold reconcileSettings. apply returns_bind; [return_|]. intros [pod|e]; [|return_].
  destruct (_ && _); [|return_].
  apply returns_bind; [apply returns_modify; done|]. intros _.
  apply always_yields, yields_bind with (Q := well_behaved).
  - destruct (Core settings) as [core|] eqn:Hc; [by apply yields_register|].
    apply yields_always; [by apply always_updateCPUPool|]. intros _. by apply yields_ret.
  - intros mc' Hw'. apply always_yields. pose proof (always_apply pod mc' Hw'). return_.
Qed.

(** C23: [Reconcile] returns, with a result or an error, whatever the API server
    and the node-actuator answer, unless the settings of the resource are
    pathological: a core string with a range that ends at the largest [int], or
    no core at all. *)
Theorem Reconcile_returns `{TL : !ClockLaws W} req st :
  (forall mc, GetMCKube (world st) (nn_Namespace req) (nn_Name req) = Ok mc -> well_behaved mc) ->
  exists r, (Reconcile req st).2 = inr r.
Proof using Type.
  intros Hmc. unfold Reconcile. rewrite (run_bind_inr _ _ _ _ _ (cleanupExpired_run st)), run_query. simpl.
  rewrite clock_get. destruct (GetMCKube (world st) _ _) as [mc|e]; [|by eexists]. specialize (Hmc mc eq_refl).
  set (st1 := with_throttled _ _).
  assert (Hrest : always (if decide (is_Some (mc_DeletionTimestamp mc)) then reconcileDeletion mc
    else if containsString (mc_Finalizers mc) mckubeFinalizer then reconcileActive mc else addFinalizer mc));
    [|by apply Hrest].
  case_decide; [unfold reconcileDeletion, cleanupPodState; return_|].
  destruct (containsString _ _); [|unfold addFinalizer; return_].
  unfold reconcileActive, resolveNode, reconcilePressure.
  pose proof always_recovery. pose proof always_pressure.
  case_decide; [return_|]. case_decide; [return_|]. apply returns_bind; [|intros _; return_].
  destruct (spec_RTSettings _) as [settings|] eqn:Hs; [by apply always_settings|return_].
Qed.
End returning.

(** ** Throttled victims *)

Section throttling.
Context `{R : GoRuntime} {W : Type} `{K : !KubeClient W, A : !NodeActuator W, T : !Clock W}.
Implicit Types (st : St W) (pod : Pod) (mc : MCKube).


End throttling.

(** ** The settings of the containers *)

Section sending.
Context {W : Type} `{K : !KubeClient W, A : !NodeActuator W, T : !Clock W}.
Implicit Types (st : St W) (w : W) (pod : Pod) (mc : MCKube).

(** The node-actuator has accepted these requests, in this order. *)
Inductive delivered (nodeIP : string) : W -> list CgroupRequest -> W -> Prop :=
| delivered_nil w : delivered nodeIP w [] w
| delivered_cons w req w1 reqs w2 :
    SendRTRequest w nodeIP req = (w1, None) -> delivered nodeIP w1 reqs w2 -> delivered nodeIP w (req :: reqs) w2.

(** One request per started container: the runtime of the pod's state, on the
    allocated core, or on that of the settings when none is allocated. *)
Definition coreOf (mc : MCKube) (rt : RTSettings) : option string :=
  if decide (status_AllocatedCore (mc_Status mc) = "") then Core rt else Some (status_AllocatedCore (mc_Status mc)).

Definition settingsRequests pod mc (rt : RTSettings) (state : string) : list CgroupRequest :=
  (fun cs => mkCgroupRequest (cs_ContainerID cs) (Period rt) (effectiveRuntime state rt) (coreOf mc rt) false) <$>
  filter (fun cs => cs_ContainerID cs <> "") (pod_ContainerStatuses pod).

(** One container. *)
Lemma apply_run {B} nodeIP mc rt runtime cs (k : option error -> ctl W B) st :
  is_Some (coreOf mc rt) -> cs_ContainerID cs <> "" ->
  (applyToContainer nodeIP rt runtime (status_AllocatedCore (mc_Status mc)) cs ≫= k) st =
  (let '(w, err) := SendRTRequest (world st) nodeIP
     (mkCgroupRequest (cs_ContainerID cs) (Period rt) runtime (coreOf mc rt) false) in k err (with_world w st)).
Proof using Type.
  intros [core Hcore] Hid. unfold applyToContainer. rewrite decide_False by done. cbv zeta.
  assert (Hc : (if decide (status_AllocatedCore (mc_Status mc) <> "") then Some (status_AllocatedCore (mc_Status mc))
                else Core rt) = Some core) by (rewrite <- Hcore; unfold coreOf; by repeat case_decide).
  rewrite Hc, Hcore, run_assoc, run_send. by destruct (SendRTRequest _ _ _).
Qed.

Lemma apply_skip {B} nodeIP rt runtime core cs (k : option error -> ctl W B) st :
  cs_ContainerID cs = "" -> (applyToContainer nodeIP rt runtime core cs ≫= k) st = k None st.
Proof using Type. intros Hid. unfold applyToContainer. by rewrite Hid. Qed.

(** The loop over the containers. *)
Lemma apply_loop nodeIP mc rt state css st :
  is_Some (coreOf mc rt) ->
  let reqs := (fun cs => mkCgroupRequest (cs_ContainerID cs) (Period rt) (effectiveRuntime state rt) (coreOf mc rt) false) <$>
    filter (fun cs => cs_ContainerID cs <> "") css in
  let run := for_until css
    (applyToContainer nodeIP rt (effectiveRuntime state rt) (status_AllocatedCore (mc_Status mc))) st in
  (exists w, delivered nodeIP (world st) reqs w /\ run = (with_world w st, inr None)) \/
  (exists sent req rest w1 w2 e, reqs = sent ++ req :: rest /\ delivered nodeIP (world st) sent w1 /\
     SendRTRequest w1 nodeIP req = (w2, Some e) /\ run = (with_world w2 st, inr (Some e))).
Proof using Type.
  intros Hcore. revert st. induction css as [|cs css IH]; intros st; cbv zeta.
  { left. exists (world st). split; [constructor|by destruct st]. }
  rewrite filter_cons. cbn [for_until]. destruct (decide (cs_ContainerID cs <> "")) as [Hid|Hid].
  2: { apply dec_stable in Hid. rewrite apply_skip by done. apply IH. }
  rewrite apply_run by done. cbn [fmap list_fmap].
  destruct (SendRTRequest (world st) nodeIP _) as [w1 [e|]] eqn:E.
  - right. eexists [], _, _, (world st), w1, e. split_and!; [reflexivity|constructor|exact E|reflexivity].
  - destruct (IH (with_world w1 st)) as [(w & Hd & Hr)|(sent & req & rest & w2 & w3 & e & Hreqs & Hd & He & Hr)].
    + left. exists w. split; [by econstructor|exact Hr].
    + right. eexists (_ :: sent), req, rest, w2, w3, e.
      split_and!; [by rewrite Hreqs|by econstructor|exact He|exact Hr].
Qed.

(** C17: the settings of a running pod: for a pod that is not throttled, with the
    address of its node and a core, the runtime of its recorded state is sent for
    each of its started containers, in order.  All requests are accepted, or the
    first that is refused ends the loop with its error and no other container is
    asked for.  The controller's own state does not change. *)
Theorem applyRTSettings_sends pod mc rt st :
  spec_RTSettings (mc_Spec mc) = Some rt -> is_Some (coreOf mc rt) -> pod_HostIP pod <> "" ->
  throttledVictims st !! pod_UID pod = None ->
  let reqs := settingsRequests pod mc rt (str_get (podRuntimeState st) (pod_Name pod)) in
  let run := applyRTSettingsToContainers pod mc st in
  (exists w, delivered (pod_HostIP pod) (world st) reqs w /\ run = (with_world w st, inr None)) \/
  (exists sent req rest w1 w2 e, reqs = sent ++ req :: rest /\ delivered (pod_HostIP pod) (world st) sent w1 /\
     SendRTRequest w1 (pod_HostIP pod) req = (w2, Some e) /\ run = (with_world w2 st, inr (Some e))).
Proof using Type.
  intros Hrt Hcore Hip Hth reqs run.
  assert (Hrun : run = for_until (pod_ContainerStatuses pod) (applyToContainer (pod_HostIP pod) rt
    (effectiveRuntime (str_get (podRuntimeState st) (pod_Name pod)) rt) (status_AllocatedCore (mc_Status mc))) st).
  { unfold run, applyRTSettingsToContainers. rewrite Hrt. destruct (decide (pod_UID pod <> EmptyString)); cbv zeta.
    - unfold isVictimThrottled. rewrite run_assoc, run_gets, Hth. rewrite run_ret. by rewrite decide_False.
    - rewrite run_bind. cbn. by rewrite decide_False. }
  rewrite Hrun. by apply apply_loop.
Qed.
End sending.

(** ** The finalizer *)

Section finalizer.
Context `{R : GoRuntime} {W : Type}.
Context `{K : !KubeClient W, A : !NodeActuator W, U : !Unstructured W, T : !Clock W}.
Implicit Types (st : St W) (mc : MCKube).

(** C5: the finalizer protocol.  A resource that is being deleted keeps the
    finalizer until the bookings and the state of its pod are gone; the update
    that removes it removes nothing else, and is the only write.  An active
    resource without the finalizer gets it, and until then no pod is booked,
    configured or preempted for it. *)
Theorem Reconcile_finalizers `{TL : !ClockLaws W} req st mc st' r :
  GetMCKube (world st) (nn_Namespace req) (nn_Name req) = Ok mc ->
  Reconcile req st = (st', r) ->
  let w0 := (time_Now (world st)).1 in
  (is_Some (mc_DeletionTimestamp mc) -> mckubeFinalizer ∈ mc_Finalizers mc ->
     (forall node c name, booking (globalPools st') node c name =
        if decide (name = spec_PodName (mc_Spec mc) /\ name <> "") then None else booking (globalPools st) node c name) /\
     (spec_PodName (mc_Spec mc) <> "" -> podRuntimeState st' = delete (spec_PodName (mc_Spec mc)) (podRuntimeState st)) /\
     let '(w, err) := UpdateMCKube w0 (set_finalizers (filter (fun s => s <> mckubeFinalizer) (mc_Finalizers mc)) mc) in
     world st' = w /\ r = inr (match err with Some e => Err e | None => Ok done_ end)) /\
  (is_Some (mc_DeletionTimestamp mc) -> mckubeFinalizer ∉ mc_Finalizers mc ->
     world st' = w0 /\ globalPools st' = globalPools st /\ podRuntimeState st' = podRuntimeState st /\ r = inr (Ok done_)) /\
  (mc_DeletionTimestamp mc = None -> mckubeFinalizer ∉ mc_Finalizers mc ->
     globalPools st' = globalPools st /\ podRuntimeState st' = podRuntimeState st /\
     let '(w, err) := UpdateMCKube w0 (set_finalizers (mc_Finalizers mc ++ [mckubeFinalizer]) mc) in
     world st' = w /\ r = inr (match err with Some e => Err e | None => Ok (mkResult true 0) end)).
Proof using Type.
  intros Hget E w0. unfold Reconcile in E. rewrite (run_bind_inr _ _ _ _ _ (cleanupExpired_run st)), run_query in E.
  simpl in E. rewrite clock_get, Hget in E. fold w0 in E. set (st1 := with_throttled _ _) in E.
  pose proof (containsString_elem (mc_Finalizers mc) mckubeFinalizer) as Hfin. split_and!.
  - intros Hdel Hin%Hfin. rewrite decide_True in E by done. unfold reconcileDeletion in E.
    rewrite Hin, removeString_filter in E. set (mc1 := set_finalizers _ _) in E |- *.
    case_decide as Hp; rewrite run_bind in E; [rewrite cleanupPodState_run in E|unfold mret at 1, ctl_ret at 1 in E];
      cbv iota in E; rewrite run_call in E; simpl in E; fold w0;
      destruct (UpdateMCKube w0 mc1) as [w err]; injection E as <- <-; split_and!; try done.
    + intros node c name. destruct (withoutPod_spec (spec_PodName (mc_Spec mc)) st1) as [Hb _]. simpl in Hb |- *.
      rewrite Hb. apply decide_ext. split; [intros ->; done|by intros [? _]].
    + intros node c name. simpl. rewrite decide_False; [done|]. intros [-> Hn]. by apply Hn.
  - intros Hdel Hin. rewrite decide_True in E by done. unfold reconcileDeletion in E.
    destruct (containsString _ _); [destruct Hin; by apply Hfin|]. injection E as <- <-. by split_and!.
  - intros Hdel Hin. rewrite decide_False in E by (rewrite Hdel; apply is_Some_None).
    destruct (containsString _ _); [destruct Hin; by apply Hfin|]. unfold addFinalizer in E.
    rewrite run_call in E. simpl in E. fold w0. destruct (UpdateMCKube w0 _) as [w err]. injection E as <- <-. by split_and!.
Qed.
End finalizer.

(** ** Invariants of the controller *)

Section invariants.
Context {W : Type}.
Context `{K : !KubeClient W, A : !NodeActuator W, U : !Unstructured W, T : !Clock W}.
Implicit Types (st : St W) (pod : Pod) (mc : MCKube).

(** The known states of pods, no timers, and bookings filed under their pods. *)
Definition sound st : Prop :=
  map_Forall (fun _ s => s = "low" \/ s = "hi") (podRuntimeState st) /\ Timers st = ∅ /\ named (globalPools st).

(** One invocation of an entry point, in any iteration order: a reconciliation,
    an event of a pod or a node, an overrun request, a round of the taint
    thread, the background handler of a node and its end; and anything that
    happens outside the controller. *)
Inductive controller_step : St W -> St W -> Prop :=
| step_reconcile (R : GoRuntime) req st : controller_step st (Reconcile req st).1
| step_pod_event (R : GoRuntime) pod st : controller_step st (findObjectsForPod pod st).1
| step_overrun_request method body st : controller_step st (serveOverrun method body st).1
| step_taints (R : GoRuntime) st : controller_step st (taintRound st).1
| step_node_event node st :
    controller_step st (with_processing (FindObjectsForNode (ProcessingNodes st) node).1 st)
| step_background (R : GoRuntime) nodeName st : controller_step st (handlePressure nodeName st).1
| step_background_end nodeName st :
    controller_step st (with_processing (finishProcessing (ProcessingNodes st) nodeName) st)
| step_outside w st : controller_step st (with_world w st).

Lemma sound_call {B} (f : W -> W * B) : evolves (preserves sound) (call f).
Proof using Type. apply evolves_call. by intros w st H. Qed.

Lemma sound_modify f :
  (forall st, podRuntimeState (f st) = podRuntimeState st /\ Timers (f st) = Timers st /\ globalPools (f st) = globalPools st) ->
  evolves (preserves sound) (modify f).
Proof using Type. intros Hf. apply evolves_modify. intros st. unfold preserves, sound. by destruct (Hf st) as (-> & -> & ->). Qed.

Lemma sound_runtime podName s : s = "low" \/ s = "hi" -> evolves (preserves sound) (setRuntimeState podName s : ctl W _).
Proof using Type.
  intros Hs. apply evolves_modify. intros st (H1 & H2 & H3). split_and!; [|done..]. by apply map_Forall_insert_2.
Qed.

Lemma sound_pools (f : Pools -> Pools) :
  (forall g, named g -> named (f g)) -> evolves (preserves sound) (modify (fun st => with_pools (f (globalPools st)) st)).
Proof using Type. intros Hf. apply evolves_modify. intros st (H1 & H2 & H3). split_and!; [done..|by apply Hf]. Qed.

Lemma named_add node c info : forall g, named g -> named (alter (fun p => AddPodToCore p c info) node g).
Proof using Type.
  intros g Hn n c' name pi. rewrite booking_alter. case_decide as Hd; [|apply Hn]. subst n.
  destruct (g !! node) as [p|] eqn:Ep; [|done]. simpl. rewrite pool_booking_add.
  case_decide as Hc; [intros [= <-]; by destruct Hc as (_ & -> & _)|].
  rewrite <- (booking_pool _ _ _ _ _ Ep). apply Hn.
Qed.

Lemma named_remove node c podName : forall g, named g -> named (alter (fun p => RemovePodFromCore p c podName) node g).
Proof using Type.
  intros g Hn n c' name pi. rewrite booking_alter. case_decide as Hd; [|apply Hn]. subst n.
  destruct (g !! node) as [p|] eqn:Ep; [|done]. simpl. rewrite pool_booking_remove.
  case_decide; [done|]. rewrite <- (booking_pool _ _ _ _ _ Ep). apply Hn.
Qed.

Lemma sound_cleanup `{R : GoRuntime} podName ns : evolves (preserves sound) (cleanupPodState podName ns : ctl W _).
Proof using Type.
  intros st (H1 & H2 & H3). rewrite cleanupPodState_run. split_and!; simpl; [by apply map_Forall_delete|done|].
  intros node c name pi. destruct (withoutPod_spec podName st) as [Hb _]. simpl in Hb. rewrite Hb.
  case_decide; [done|]. apply H3.
Qed.

Lemma sound_getOrCreate node : evolves (preserves sound) (getOrCreatePool node : ctl W _).
Proof using Type.
  intros st (H1 & H2 & H3). pose proof (run_getOrCreate node (fun _ => mret tt) st) as E. unfold getOrCreatePool in *.
  destruct (GetOrCreateCPUPool _ _ _) as [g p] eqn:Eg. split_and!; [done..|]. simpl.
  intros n c name pi. pose proof (ensured_booking (globalPools st) node n c name) as Hb.
  unfold ensured in Hb. rewrite Eg in Hb. simpl in Hb. rewrite Hb. apply H3.
Qed.

Hint Resolve sound_call sound_getOrCreate sound_cleanup : ctl.
Hint Extern 1 (evolves (preserves sound) (sendRequest _ _)) => apply sound_call : ctl.
Hint Extern 1 (evolves (preserves sound) (updateStatus _)) => apply sound_call : ctl.
Hint Extern 1 (evolves (preserves sound) (modify _)) => (apply sound_modify; intros ?; by split_and!) : ctl.
Hint Extern 1 (evolves (preserves sound) (setRuntimeState _ _)) => (apply sound_runtime; auto) : ctl.
Hint Extern 1 (evolves (preserves sound) (onPool _ (fun p => AddPodToCore p _ _))) => apply sound_pools, named_add : ctl.
Hint Extern 1 (evolves (preserves sound) (onPool _ (fun p => RemovePodFromCore p _ _))) => apply sound_pools, named_remove : ctl.

Lemma sound_ensure podName : evolves (preserves sound) (ensurePodRuntimeStateInitialized podName : ctl W _).
Proof using Type.
  apply evolves_modify. intros st (H1 & H2 & H3). destruct (podRuntimeState st !! podName); [done|].
  split_and!; [|done..]. apply map_Forall_insert_2; auto.
Qed.

Lemma sound_overrun data : evolves (preserves sound) (handleOverrunEvent data : ctl W _).
Proof using Type. unfold handleOverrunEvent, findPodByContainerID, recordOverrun. evolve. Qed.

Lemma sound_recovery nodeName : evolves (preserves sound) (handleCPURecovery nodeName : ctl W _).
Proof using Type. unfold handleCPURecovery, revertPod, revertContainers. evolve. Qed.

Lemma sound_preempt `{R : GoRuntime} pod cores millis crit :
  evolves (preserves sound) (checkAndPreemptForPod pod cores millis crit : ctl W _).
Proof using Type.
  unfold checkAndPreemptForPod, preemptOnCore, preemptPod, throttlePodRuntimeBeforeEviction, throttleContainer,
    updatePodCoreAffinity, markThrottledVictim. evolve.
Qed.

Lemma sound_update `{R : GoRuntime} pod mc : evolves (preserves sound) (updateCPUPoolForPod pod mc : ctl W _).
Proof using Type. unfold updateCPUPoolForPod, currentMillis. evolve. Qed.

Lemma sound_handler `{R : GoRuntime} nodeName : evolves (preserves sound) (handlePressure nodeName : ctl W _).
Proof using Type. intros st H. unfold handlePressure. by destruct (HandleNodeCPUPressure _ _ _) as [[w ps]|]. Qed.

Hint Resolve sound_ensure sound_overrun sound_recovery sound_preempt sound_update sound_handler : ctl.

Lemma sound_reconcile `{R : GoRuntime} req : evolves (preserves sound) (Reconcile req : ctl W _).
Proof using Type.
  unfold Reconcile, cleanupExpiredThrottledVictims, reconcileDeletion, addFinalizer, reconcileActive, resolveNode,
    reconcileSettings, registerPod, allocateCore, currentMillis, applyRTSettingsToContainers, applyToContainer,
    isVictimThrottled, reconcilePressure. evolve.
Qed.

Lemma sound_pod_event `{R : GoRuntime} pod : evolves (preserves sound) (findObjectsForPod pod : ctl W _).
Proof using Type. unfold findObjectsForPod. evolve. Qed.

Lemma sound_serve method body : evolves (preserves sound) (serveOverrun method body : ctl W _).
Proof using Type. unfold serveOverrun. evolve. Qed.

Lemma taintRound_idle `{R : GoRuntime} st : Timers st = ∅ -> taintRound st = (st, inr tt).
Proof using Type.
  intros Ht. unfold taintRound. rewrite run_gets, Ht.
  assert (E : go_range "StartTaintThread" (∅ : gmap string Z) = []).
  { apply Permutation_nil_r. rewrite go_range_perm. by rewrite map_to_list_empty. }
  by rewrite E.
Qed.

Lemma controller_step_sound st st' : controller_step st st' -> sound st -> sound st'.
Proof using Type.
  destruct 1 as [R req st|R pod st|method body st|R st| |R nodeName st| |]; intros Hs; try done.
  - by apply sound_reconcile.
  - by apply sound_pod_event.
  - by apply sound_serve.
  - rewrite taintRound_idle; [done|apply Hs].
  - by apply sound_handler.
Qed.

(** C18: in every state the controller can reach from its start, in any order of
    its entry points and whatever happens outside, a recorded state of a pod is
    "low" or "hi", every booking is filed under its own pod, and no node has a
    timer: the taint monitoring thread never does anything. *)
Theorem reachable_controller w st :
  rtc controller_step (st_init w) st ->
  (forall name s, podRuntimeState st !! name = Some s -> s = "low" \/ s = "hi") /\
  named (globalPools st) /\
  forall R : GoRuntime, taintRound st = (st, inr tt).
Proof using Type.
  intros Hrtc. assert (Hs : sound st).
  { assert (H0 : sound (st_init w)).
    { split_and!; [apply map_Forall_empty|done|]. intros n c name pi. unfold booking. simpl. by rewrite lookup_empty. }
    revert H0. induction Hrtc as [|s1 s2 s3 Hstep _ IH]; [done|].
    intros Hs1. apply IH. by eapply controller_step_sound. }
  destruct Hs as (H1 & H2 & H3). split_and!; [|done|by intros R; apply taintRound_idle].
  intros name s Hn. by apply (H1 name s).
Qed.
End invariants.

(** ** Concrete clusters *)

Module Loop.
Definition req : NamespacedName := mkName "default" "mc-v".

(** The running pod "v" on the node "n1", with one container. *)
Definition pod : Pod :=
  {| pod_Name := "v"; pod_Namespace := "default"; pod_UID := "u"; pod_Labels := {["sdv.com" := "app"]};
     pod_Annotations := ∅; pod_DeletionTimestamp := None; pod_NodeName := "n1"; pod_Containers := [];
     pod_Phase := "Running"; pod_HostIP := "10.0.0.1";
     pod_ContainerStatuses := [mkContainerStatus "c" "containerd://abc"]; pod_InitContainerStatuses := [] |}.

Definition settings (core : option string) : RTSettings := mkRT 1000 300 500 core.

Definition resource (finalizers : list string) (deleted : option Z) (core : option string) (allocatedCore : string) : MCKube :=
  mkMCKube "mc-v" "default" finalizers deleted (mkSpec "n1" "v" "LOW" 0 0 (Some (settings core)))
    (mkStatus "" None allocatedCore).

Definition active (core : option string) (allocatedCore : string) : MCKube :=
  resource [mckubeFinalizer] None core allocatedCore.

Definition server (mc : MCKube) : Server := mkServer [mc] [pod] [sample_node "n1" 4] false 200 [].

(** The pod is booked on some cores, with 300 milli-CPUs. *)
Definition booked_on (cores : list Z) : Pools :=
  {["n1" := foldl (fun p c => AddPodToCore p c (mkPodInfo "v" "default" "LOW" 300 cores)) (newPool "n1" 16) cores]}.

Definition state (mc : MCKube) (g : Pools) (runtime : string) : St Server :=
  with_pools g (with_runtime {["v" := runtime]} (st_init (server mc))).

Definition reconcile (st : St Server) : St Server * (stuck + result Result) :=
  @Reconcile reference_runtime Server _ _ (reference_accessors []) _ req st.
End Loop.


(** The two outcomes on the sample server, which accepts or refuses everything. *)
Example applyRTSettings_sends_witness :
  let mc := Loop.active (Some "0") "3" in
  let st := Loop.state mc ∅ "hi" in
  exists w, @delivered Server _ "10.0.0.1" (world st) [mkCgroupRequest "containerd://abc" 1000 500 (Some "3") false] w /\
    @applyRTSettingsToContainers Server _ _ Loop.pod mc st = (with_world w st, inr None).
Proof.
  intros mc st.
  destruct (@applyRTSettings_sends Server _ _ Loop.pod mc (Loop.settings (Some "0")) st) as
    [H|(sent & req & rest & w1 & w2 & e & _ & _ & _ & Hr)]; [reflexivity|by exists "3"|done|reflexivity| |].
  - exact H.
  - vm_compute in Hr. discriminate Hr.
Defined.

Example Reconcile_finalizers_witness :
  let st := Loop.state (Loop.resource ["other"; mckubeFinalizer] (Some 1) (Some "0") "") (Loop.booked_on [0]) "low" in
  booking (globalPools (Loop.reconcile st).1) "n1" 0 "v" = None.
Proof.
  intros st. destruct (Loop.reconcile st) as [st' r] eqn:E.
  refine (proj1 (proj1 (@Reconcile_finalizers reference_runtime Server _ _ (reference_accessors []) _ _ Loop.req st
    (Loop.resource ["other"; mckubeFinalizer] (Some 1) (Some "0") "") st' r eq_refl E) _ _) "n1" 0 "v").
  - by exists 1.
  - right. by left.
Defined.

Example Reconcile_returns_witness :
  exists r, (Loop.reconcile (Loop.state (Loop.active (Some "0") "") ∅ "low")).2 = inr r.
Proof.
  apply (@Reconcile_returns reference_runtime Server _ _ (reference_accessors []) _ _).
  intros mc [= <-] settings [= <-].
  split; [|split; [|done]]; rewrite <- ParseCoreSet_None; by vm_compute.
Defined.

Example reachable_controller_witness :
  let st := (Loop.reconcile (st_init (Loop.server (Loop.active (Some "0") "")))).1 in
  podRuntimeState st !! "v" = Some "low" /\ named (globalPools st).
Proof.
  intros st. split; [by vm_compute|].
  refine (proj1 (proj2 (@reachable_controller Server _ _ (reference_accessors []) _
    (Loop.server (Loop.active (Some "0") "")) st _))).
  apply rtc_once. apply (@step_reconcile Server _ _ (reference_accessors []) _ reference_runtime).
Defined.

(** A pod that was migrated is booked twice as soon as its budget changes:
    it is allocated to core 15 while its settings still name core 0; after an
    overrun the loop books the new budget on core 0, the old one stays on core
    15, and the next reconciliation leaves it so. *)
Theorem migrated_pod_booked_twice :
  let st1 := (Loop.reconcile (Loop.state (Loop.active (Some "0") "15") (Loop.booked_on [15]) "hi")).1 in
  let st2 := (Loop.reconcile st1).1 in
  pi_CPUMillis <$> booking (globalPools st1) "n1" 0 "v" = Some 500 /\
  pi_CPUMillis <$> booking (globalPools st1) "n1" 15 "v" = Some 300 /\
  pi_CPUMillis <$> booking (globalPools st2) "n1" 0 "v" = Some 500 /\
  pi_CPUMillis <$> booking (globalPools st2) "n1" 15 "v" = Some 300.
Proof. split_and!; vm_compute; reflexivity. Qed.

(** Settings without a core stop the reconcile loop with a nil dereference in
    a log line, after the request for the first container was sent; the
    remaining containers and the check of the node's pressure are not reached. *)
Theorem Reconcile_panics_without_core :
  let (st', r) := Loop.reconcile (Loop.state (Loop.active None "") ∅ "low") in
  r = inl Panics /\
  srv_posts (world st') = [("http://10.0.0.1:8080/cgroup", Some "Bearer secret",
    mkCgroupRequest "containerd://abc" 1000 300 None false)].
Proof. vm_compute. split; reflexivity. Qed.

(** The webhooks and the controller disagree about a full core: a pod of
    criticality HIGH with a budget of 0.72 cores fits directly next to a LOW pod
    with 0.2, within the 95% of the webhooks, so no victim is announced; the
    controller, which allows 90%, preempts the LOW pod when the HIGH one comes. *)
Theorem direct_fit_still_preempts :
  let g := {["n1" := Scenario.pool 200 [0]]} in
  @CheckNodeCoreFeasibility reference_runtime g "n1" 0 (budgetOf 720 1000) "HIGH" = (true, []) /\
  booking g "n1" 0 "v" = Some (Scenario.victim 200 [0]) /\
  booking (globalPools (Scenario.check (Scenario.pool 200 [0]) [0] 720).1) "n1" 0 "v" = None.
Proof. split_and!; apply (bool_decide_unpack _); vm_compute; exact I. Qed.

(** The controller creates every pool with 16 cores; on a node with four, the
    next search of the mutating webhook can then select a core the node does
    not have. *)
Theorem selects_missing_core :
  let st' := (Loop.reconcile (Loop.state (Loop.active (Some "0-3") "") ∅ "low")).1 in
  let r := @SelectBestNodeAndCore reference_runtime (globalPools st') [sample_node "n1" 4] (budgetOf 300 1000) "LOW" [] in
  nodeNumCores (sample_node "n1" 4) = 4 /\ Feasible r = true /\ SelectedNodeName r = "n1" /\ 4 <= SelectedCoreID r.
Proof. split_and!; apply (bool_decide_unpack _); vm_compute; exact I. Qed.
