(* ===== verification/RuntimeStates.v ===== *)
(** * RuntimeStates: the state machine of a pod's runtime

    The abstract specification of [podRuntimeState]: a pod is unknown, "low" or
    "hi", and moves between these states in four ways.  Every step of the
    controller implements moves of this machine, for every pod at once; the move
    to "hi" is guarded: it is a move of the machine only where the node-actuator
    accepts the high runtime for a container of the pod. *)
From S2P Require Import Prelude Float64 GoRuntime GoString CPUPool CoreSet ApiTypes Kube ApiServer Budget Conversions DataCollector Pressure NodeEvents Controller Housekeeping Overrun Preemption Reconcile ReconcileSpec.
From stdpp Require Import options.

Local Open Scope Z_scope.

(** ** The machine *)

(** The moves that raise no runtime: a new pod starts "low", a recovery takes it
    back to "low", a deleted pod is forgotten. *)
Inductive calm_move (m : gmap string string) : gmap string string -> Prop :=
| move_start name : m !! name = None -> calm_move m (<[name := "low"]> m)
| move_revert name : m !! name = Some "hi" -> calm_move m (<[name := "low"]> m)
| move_forget name : is_Some (m !! name) -> calm_move m (delete name m).


Lemma calm_never_hi m m' name : rtc calm_move m m' -> m' !! name = Some "hi" -> m !! name = Some "hi".
Proof.
  induction 1 as [|m1 m2 m3 H _ IH]; [done|]. intros E%IH. destruct H as [n _|n _|n _].
  - by apply lookup_insert_Some in E as [[_ E]|[_ E]].
  - by apply lookup_insert_Some in E as [[_ E]|[_ E]].
  - by apply lookup_delete_Some in E as [_ E].
Qed.

Section machine.
Context {W : Type}.
Context `{K : !KubeClient W, A : !NodeActuator W, U : !Unstructured W, T : !Clock W}.
Implicit Types (st : St W) (pod : Pod) (mc : MCKube).

Definition calm st st' : Prop := rtc calm_move (podRuntimeState st) (podRuntimeState st').

#[local] Instance calm_preorder : PreOrder calm.
Proof using Type. unfold calm. split; [by intros st|]. intros st1 st2 st3 H1 H2. by etrans. Qed.

Lemma calm_keeps st st' : keeps podRuntimeState st st' -> calm st st'.
Proof using Type. unfold keeps, calm. by intros ->. Qed.

Lemma calm_quiet {B} (m : ctl W B) : evolves (keeps podRuntimeState) m -> evolves calm m.
Proof using Type. intros H st. apply calm_keeps, H. Qed.

Lemma calm_getOrCreate node : evolves calm (getOrCreatePool node : ctl W _).
Proof using Type. apply calm_quiet. intros st. unfold getOrCreatePool, keeps. by destruct (GetOrCreateCPUPool _ _ _). Qed.

Lemma calm_ensure podName : evolves calm (ensurePodRuntimeStateInitialized podName : ctl W _).
Proof using Type.
  apply evolves_modify. intros st. destruct (podRuntimeState st !! podName) as [s|] eqn:E; [done|].
  by apply rtc_once, move_start.
Qed.

Lemma calm_cleanup `{R : GoRuntime} podName ns : evolves calm (cleanupPodState podName ns : ctl W _).
Proof using Type.
  intros st. rewrite cleanupPodState_run. unfold calm. simpl.
  destruct (podRuntimeState st !! podName) eqn:E; [by apply rtc_once, move_forget|by rewrite delete_id].
Qed.

Lemma revertContainers_keeps nodeIP rt pod : evolves (keeps podRuntimeState) (revertContainers nodeIP rt pod : ctl W _).
Proof using Type. unfold revertContainers, sendRequest. evolve. Qed.

Lemma calm_revert pod : evolves calm (revertPod pod : ctl W _).
Proof using Type.
  intros st. unfold revertPod. rewrite run_gets. case_decide as Hhi; [done|].
  assert (Hst : podRuntimeState st !! pod_Name pod = Some "hi").
  { unfold str_get in Hhi. destruct (podRuntimeState st !! pod_Name pod); simpl in Hhi; congruence. }
  rewrite run_query. destruct (ListMCKubes _ _) as [items|]; [|done]. destruct (findByPodName _ _) as [mc|]; [|done].
  destruct (spec_RTSettings (mc_Spec mc)) as [rt|]; [|done]. cbv zeta. case_decide; [done|].
  pose proof (revertContainers_keeps (pod_HostIP pod) rt pod st) as Hk. rewrite run_bind.
  destruct (revertContainers _ _ _ st) as [st1 [s|u]]; simpl in Hk; [by apply calm_keeps|].
  unfold setRuntimeState, updateStatus, calm. rewrite run_modify, run_call. simpl. rewrite Hk.
  by apply rtc_once, move_revert.
Qed.

Hint Resolve calm_getOrCreate calm_ensure calm_cleanup calm_revert : ctl.
Hint Extern 1 (evolves calm (call _)) => (apply evolves_call; intros ? ?; by apply calm_keeps) : ctl.
Hint Extern 1 (evolves calm (sendRequest _ _)) => (apply evolves_call; intros ? ?; by apply calm_keeps) : ctl.
Hint Extern 1 (evolves calm (updateStatus _)) => (apply evolves_call; intros ? ?; by apply calm_keeps) : ctl.
Hint Extern 1 (evolves calm (modify _)) => (apply evolves_modify; intros ?; by apply calm_keeps) : ctl.
Hint Extern 1 (evolves calm (onPool _ _)) => (apply evolves_modify; intros ?; by apply calm_keeps) : ctl.

Lemma calm_recovery nodeName : evolves calm (handleCPURecovery nodeName : ctl W _).
Proof using Type. unfold handleCPURecovery. evolve. Qed.

Lemma calm_preempt `{R : GoRuntime} pod cores millis crit :
  evolves calm (checkAndPreemptForPod pod cores millis crit : ctl W _).
Proof using Type.
  unfold checkAndPreemptForPod, preemptOnCore, preemptPod, throttlePodRuntimeBeforeEviction, throttleContainer,
    updatePodCoreAffinity, markThrottledVictim. evolve.
Qed.

Lemma calm_update `{R : GoRuntime} pod mc : evolves calm (updateCPUPoolForPod pod mc : ctl W _).
Proof using Type. unfold updateCPUPoolForPod, currentMillis. evolve. Qed.

Lemma calm_handler `{R : GoRuntime} nodeName : evolves calm (handlePressure nodeName : ctl W _).
Proof using Type. intros st. unfold handlePressure. apply calm_keeps. by destruct (HandleNodeCPUPressure _ _ _) as [[w ps]|]. Qed.

Hint Resolve calm_recovery calm_preempt calm_update calm_handler : ctl.

Lemma calm_reconcile `{R : GoRuntime} req : evolves calm (Reconcile req : ctl W _).
Proof using Type.
  unfold Reconcile, cleanupExpiredThrottledVictims, reconcileDeletion, addFinalizer, reconcileActive, resolveNode,
    reconcileSettings, registerPod, allocateCore, currentMillis, applyRTSettingsToContainers, applyToContainer,
    isVictimThrottled, reconcilePressure. evolve.
Qed.

Lemma calm_pod_event `{R : GoRuntime} pod : evolves calm (findObjectsForPod pod : ctl W _).
Proof using Type. unfold findObjectsForPod. evolve. Qed.

Lemma calm_taints `{R : GoRuntime} : evolves calm (taintRound : ctl W _).
Proof using Type. unfold taintRound, untaint. evolve. Qed.

(** ** The move to "hi" *)

(** In this state the event finds the pod, which is not in the state "hi", and
    the node-actuator accepts the high runtime for the reported container. *)
Definition accepted st (data : OverrunData) (name : string) : Prop :=
  exists pod mc rt w body,
    overrunTarget (world st) data = Some (pod, mc, rt) /\ pod_Name pod = name /\
    podRuntimeState st !! name <> Some "hi" /\
    PostCgroup (world st) (daemonURL (pod_HostIP pod)) (authorization (world st)) (escalation data rt) =
      (w, Ok (StatusOK, body)).

(** An overrun event moves nothing, or the one pod to "hi". *)
Lemma overrun_moves data st :
  podRuntimeState (handleOverrunEvent data st).1 = podRuntimeState st \/
  exists name, accepted st data name /\
    podRuntimeState (handleOverrunEvent data st).1 = <[name := "hi"]> (podRuntimeState st).
Proof using Type.
  rewrite handleOverrunEvent_run. destruct (overrunTarget (world st) data) as [[[pod mc] rt]|] eqn:Et; [|by left].
  case_decide as Hd; [by left|].
  destruct (SendRTRequest _ _ _) as [w1 [e|]] eqn:Es; [by left|]. right. exists (pod_Name pod).
  split; [|by destruct (time_Now w1)]. apply SendRTRequest_accepted in Es as [body Hp].
  exists pod, mc, rt, w1, body. split_and!; [done..| |done].
  intros E. apply Hd. left. unfold str_get. by rewrite E.
Qed.

Lemma serveOverrun_state method body st :
  (serveOverrun method body st).1 = st \/
  exists data, (serveOverrun method body st).1 = (handleOverrunEvent data st).1.
Proof using Type.
  unfold serveOverrun. case_decide; [by left|]. destruct body as [data|]; [|by left].
  right. exists data. rewrite run_bind. by destruct (handleOverrunEvent data st) as [st1 [s|[]]].
Qed.

(** What a step does to a pod; what raised it, if it was raised. *)
Lemma controller_step_moves st st' :
  controller_step st st' ->
  calm st st' \/
  exists data name, accepted st data name /\ st' = (handleOverrunEvent data st).1 /\
    podRuntimeState st' = <[name := "hi"]> (podRuntimeState st).
Proof using Type.
  destruct 1 as [R req st|R pod st|method body st|R st| |R nodeName st| |];
    try (left; by apply calm_keeps).
  - left. apply calm_reconcile.
  - left. apply calm_pod_event.
  - destruct (serveOverrun_state method body st) as [->|[data ->]]; [left; by apply calm_keeps|].
    destruct (overrun_moves data st) as [Hsame|(name & Hacc & Hins)]; [left; by apply calm_keeps|].
    right. by exists data, name.
  - left. apply calm_taints.
  - left. apply calm_handler.
Qed.






(** Whenever a pod is in the state "hi", an overrun event for one of its
    containers has put it there: at that event the pod was not "hi", the
    node-actuator accepted the high runtime for the container, and the pod has
    been "hi" in every state since. *)
Theorem hi_was_accepted w st name :
  rtc controller_step (st_init w) st -> podRuntimeState st !! name = Some "hi" ->
  exists st0 data,
    rtc controller_step (st_init w) st0 /\ accepted st0 data name /\
    rtc (fun st1 st2 => controller_step st1 st2 /\ podRuntimeState st2 !! name = Some "hi")
      (handleOverrunEvent data st0).1 st.
Proof using Type.
  intros Hst. pattern st. revert st Hst. apply rtc_ind_r; [simpl; by rewrite lookup_empty|].
  intros st1 st2 Hrun Hstep IH Hhi.
  destruct (decide (podRuntimeState st1 !! name = Some "hi")) as [H1|H1].
  - destruct (IH H1) as (st0 & data & Hr & Ha & Hsince). exists st0, data. split_and!; [done..|].
    by eapply rtc_r.
  - destruct (controller_step_moves _ _ Hstep) as [Hc|(data & n & Ha & -> & Hn)].
    + by destruct H1; eapply calm_never_hi.
    + rewrite Hn in Hhi. apply lookup_insert_Some in Hhi as [[-> _]|[_ Hhi]]; [|by destruct H1].
      by exists st1, data.
Qed.
End machine.

(** ** Witnesses *)

Module Raise.
Definition event : OverrunData := mkOverrun "n1" "containerd://abc" 0.

(** The first event a controller serves, next to the pod "v" of [Loop]. *)
Definition start : St Server := st_init (Loop.server (Loop.active (Some "0") "")).
Definition raised : St Server := (@serveOverrun Server _ _ _ "POST" (Ok event) start).1.

Lemma step : @controller_step Server _ _ (reference_accessors []) _ start raised.
Proof. apply step_overrun_request. Qed.

Lemma run : rtc (@controller_step Server _ _ (reference_accessors []) _) start raised.
Proof. apply rtc_once, step. Qed.
End Raise.


Example hi_was_accepted_witness :
  exists st0 data, @accepted Server _ _ st0 data "v".
Proof.
  destruct (@hi_was_accepted Server _ _ (reference_accessors []) _ _ _ "v" Raise.run) as (st0 & data & _ & Ha & _).
  - by vm_compute.
  - by exists st0, data.
Defined.
