(* ===== verification/Manager.v ===== *)
(** * Manager: the entry point

    [main] of [cmd/main.go]: the command line, the options of the two servers,
    and the setup of the manager with the controller ([SetupWithManager] of
    [internal/controller/mckube_controller.go]) and the webhooks, up to the call
    that runs it.  [flag.Parse] of Go's standard library is written out; the
    calls to the controller-runtime library are recorded in a trace and answered
    by an environment. *)
From S2P Require Import Prelude GoString GoParse ApiTypes Kube Mutator.
From stdpp Require Import options.
From Stdlib Require Import Ascii.

Local Open Scope Z_scope.

(** ** The command line *)

Record Flags := mkFlags {
  metricsAddr : string;
  probeAddr : string;
  enableLeaderElection : bool;
  secureMetrics : bool;
  enableHTTP2 : bool
}.

#[export] Instance Flags_eq_dec : EqDecision Flags.
Proof. solve_decision. Defined.

Definition defaultFlags : Flags := mkFlags "0" ":8081" false true false.

Definition set_metricsAddr (v : string) (f : Flags) : Flags :=
  mkFlags v (probeAddr f) (enableLeaderElection f) (secureMetrics f) (enableHTTP2 f).
Definition set_probeAddr (v : string) (f : Flags) : Flags :=
  mkFlags (metricsAddr f) v (enableLeaderElection f) (secureMetrics f) (enableHTTP2 f).
Definition set_leader (v : bool) (f : Flags) : Flags :=
  mkFlags (metricsAddr f) (probeAddr f) v (secureMetrics f) (enableHTTP2 f).
Definition set_secure (v : bool) (f : Flags) : Flags :=
  mkFlags (metricsAddr f) (probeAddr f) (enableLeaderElection f) v (enableHTTP2 f).
Definition set_http2 (v : bool) (f : Flags) : Flags :=
  mkFlags (metricsAddr f) (probeAddr f) (enableLeaderElection f) (secureMetrics f) v.

(** A defined flag: with an argument, or boolean; a setter fails on a value that
    does not parse.  Flags of the libraries have no effect here. *)
Inductive flag := StringFlag (set : string -> option (Flags -> Flags)) | BoolFlag (set : string -> option (Flags -> Flags)).

Definition StringVar (set : string -> Flags -> Flags) : flag := StringFlag (fun v => Some (set v)).
Definition BoolVar (set : bool -> Flags -> Flags) : flag := BoolFlag (fun v => set <$> ParseBool v).

(** [flag.CommandLine] once all flags are defined; [other] has the flags the
    logging and configuration libraries define. *)
Definition formal (other : string -> option flag) (name : string) : option flag :=
  if decide (name = "metrics-bind-address") then Some (StringVar set_metricsAddr)
  else if decide (name = "health-probe-bind-address") then Some (StringVar set_probeAddr)
  else if decide (name = "leader-elect") then Some (BoolVar set_leader)
  else if decide (name = "metrics-secure") then Some (BoolVar set_secure)
  else if decide (name = "enable-http2") then Some (BoolVar set_http2)
  else other name.

(** The name and the value around the first "=" that is not the first byte. *)
Fixpoint cut_equals (s : string) : string * option string :=
  match s with
  | EmptyString => (EmptyString, None)
  | String c s =>
      if decide (c = "="%char) then (EmptyString, Some s)
      else let '(name, value) := cut_equals s in (String c name, value)
  end.

Definition name_value (s : string) : string * option string :=
  match s with
  | EmptyString => (EmptyString, None)
  | String c s => let '(name, value) := cut_equals s in (String c name, value)
  end.

(** One argument: the flags end here, perhaps with a terminator that is dropped;
    the syntax is bad; or a name with its value, if it has one. *)
Inductive token := Positional | Terminator | BadSyntax | FlagToken (name : string) (value : option string).

Definition bad_name (name : string) : bool :=
  match name with
  | EmptyString => true
  | String c _ => bool_decide (c = "-"%char \/ c = "="%char)
  end.

Definition flag_token (name : string) : token :=
  if bad_name name then BadSyntax else let '(name, value) := name_value name in FlagToken name value.

Definition tokenize (s : string) : token :=
  match s with
  | String c (String c' rest as name) =>
      if decide (c <> "-"%char) then Positional
      else if decide (c' = "-"%char) then match rest with EmptyString => Terminator | _ => flag_token rest end
      else flag_token name
  | _ => Positional
  end.

(** What [flag.Parse] leaves, or the code it exits with. *)
Inductive parsed := Parsed (flags : Flags) (args : list string) | ParseExit (code : Z).

Fixpoint Parse (other : string -> option flag) (args : list string) (flags : Flags) : parsed :=
  match args with
  | [] => Parsed flags []
  | s :: args' =>
      match tokenize s with
      | Positional => Parsed flags args
      | Terminator => Parsed flags args'
      | BadSyntax => ParseExit 2
      | FlagToken name value =>
          match formal other name with
          | None => ParseExit (if decide (name = "help" \/ name = "h") then 0 else 2)
          | Some (BoolFlag set) =>
              match set (default "true" value) with
              | Some f => Parse other args' (f flags)
              | None => ParseExit 2
              end
          | Some (StringFlag set) =>
              match value, args' with
              | Some v, _ =>
                  match set v with Some f => Parse other args' (f flags) | None => ParseExit 2 end
              | None, v :: args'' =>
                  match set v with Some f => Parse other args'' (f flags) | None => ParseExit 2 end
              | None, [] => ParseExit 2
              end
          end
      end
  end.

(** ** The servers' options *)

(** Of a [tls.Config] the source sets [NextProtos]. *)
Record tlsConfig := mkTLS { NextProtos : list string }.

Definition disableHTTP2 (c : tlsConfig) : tlsConfig := mkTLS ["http/1.1"].

Definition tlsOpts (flags : Flags) : list (tlsConfig -> tlsConfig) :=
  if negb (enableHTTP2 flags) then [disableHTTP2] else [].

(** [filters.WithAuthenticationAndAuthorization], or nil. *)
Inductive filter_provider := WithAuthenticationAndAuthorization.

Record MetricsOptions := mkMetrics {
  BindAddress : string;
  SecureServing : bool;
  metrics_TLSOpts : list (tlsConfig -> tlsConfig);
  FilterProvider : option filter_provider
}.

Record ManagerOptions := mkOptions {
  opt_Metrics : MetricsOptions;
  opt_WebhookTLSOpts : list (tlsConfig -> tlsConfig);
  opt_HealthProbeBindAddress : string;
  opt_LeaderElection : bool;
  opt_LeaderElectionID : string
}.

Definition metricsServerOptions (flags : Flags) : MetricsOptions :=
  mkMetrics (metricsAddr flags) (secureMetrics flags) (tlsOpts flags)
    (if secureMetrics flags then Some WithAuthenticationAndAuthorization else None).

Definition managerOptions (flags : Flags) : ManagerOptions :=
  mkOptions (metricsServerOptions flags) (tlsOpts flags) (probeAddr flags) (enableLeaderElection flags) "223f3cf1.sdv.com".

(** ** The parts that are wired together *)

Section wiring.
(** The clients of the manager, the dynamic client and the scheme. *)
Context {Client Dynamic Scheme : Type}.

Record DataCollector := mkDataCollector { dc_Client : Client; dc_DynamicClient : Dynamic }.
Record PodSpecHandler := mkPodSpecHandler { psh_Client : Client }.
Record EventHandler := mkEventHandler {
  eh_Client : Client;
  eh_DataCollector : option DataCollector;
  eh_PodSpecHandler : option PodSpecHandler
}.

Definition NewDataCollector (c : Client) (dc : Dynamic) : DataCollector := mkDataCollector c dc.
Definition NewPodSpecHandler (client : Client) : PodSpecHandler := mkPodSpecHandler client.
Definition NewEventHandler (client : Client) (dataCollector : option DataCollector)
  (podSpecHandler : option PodSpecHandler) : EventHandler := mkEventHandler client dataCollector podSpecHandler.

Record MCKubeReconciler := mkReconciler {
  r_Client : Client;
  r_Scheme : Scheme;
  r_DynamicClient : Dynamic;
  r_DataCollector : option DataCollector;
  r_PodSpecHandler : option PodSpecHandler;
  r_EventHandler : option EventHandler
}.

(** The handlers [SetupWithManager] stores in the reconciler. *)
Definition withHandlers (r : MCKubeReconciler) : MCKubeReconciler :=
  let dataCollector := NewDataCollector (r_Client r) (r_DynamicClient r) in
  let podSpecHandler := NewPodSpecHandler (r_Client r) in
  let eventHandler := NewEventHandler (r_Client r) (Some dataCollector) (Some podSpecHandler) in
  mkReconciler (r_Client r) (r_Scheme r) (r_DynamicClient r) (Some dataCollector) (Some podSpecHandler) (Some eventHandler).

(** ** The setup *)

(** The objects whose events start a reconciliation, and how they are mapped to
    requests. *)
Inductive watch := ForMCKube | WatchPods | WatchNodes.

Inductive hook := Mutating (m : PodMutator) | Validating.

(** What [main] does to the libraries and the runtime, in order.  The first
    group can fail, or end the process itself. *)
Inductive action :=
| AddToScheme (group : string)
| GetConfigOrDie
| NewManager (o : ManagerOptions)
| NewForConfigOrDie
| IndexField (field : string)
| CompleteController (r : MCKubeReconciler) (watches : list watch)
| AddHealthzCheck (name : string)
| AddReadyzCheck (name : string)
| StartManager
| StartOverrunListener (port : Z)
| Register (path : string) (h : hook)
| StartTaintThread.

(** How the program ends. *)
Inductive outcome := Exits (code : Z) | PanicsAtStart | Completes.

(** The environment answers a call, perhaps depending on what happened before. *)
Context (answer : list action -> action -> option error).

Definition setup (A : Type) : Type := list action -> list action * (outcome + A).

#[local] Instance setup_ret : MRet setup := fun A a tr => (tr, inr a).
#[local] Instance setup_bind : MBind setup := fun A B f m tr =>
  match m tr with
  | (tr, inr a) => f a tr
  | (tr, inl o) => (tr, inl o)
  end.

(** A call that may return an error, and one that cannot fail. *)
Definition invoke (a : action) : setup (option error) := fun tr => (tr ++ [a], inr (answer tr a)).
Definition perform (a : action) : setup unit := fun tr => (tr ++ [a], inr tt).
Definition finish {A} (o : outcome) : setup A := fun tr => (tr, inl o).

(** A library function that ends the process when it fails. *)
Definition orDie (a : action) (o : outcome) : setup unit :=
  err ← invoke a; match err with Some _ => finish o | None => mret tt end.

Definition SetupWithManager (r : MCKubeReconciler) : setup (option error) :=
  let r := withHandlers r in
  err ← invoke (IndexField ".metadata.name");
  match err with
  | Some e => mret (Some e)
  | None =>
      perform (StartOverrunListener 8090);;
      invoke (CompleteController r [ForMCKube; WatchPods; WatchNodes])
  end.

(** The webhooks, unless they are disabled; a nil [PodMutator] is an error. *)
Definition setupWebhooks (enableWebhooks : string) (podMutator : option PodMutator) : setup unit :=
  if decide (enableWebhooks <> "false") then
    match podMutator with
    | None => finish (Exits 1)
    | Some m =>
        perform (Register "/mutate-v1-pod" (Mutating m));;
        perform (Register "/validate-rt-pod" Validating)
    end
  else mret tt.

(** [init] of the package. *)
Definition main_init : setup unit :=
  orDie (AddToScheme "k8s.io") PanicsAtStart;;
  orDie (AddToScheme "mcoperator.sdv.com/v1") PanicsAtStart.

(** [main] after [flag.Parse]; the manager's client is not nil. *)
Definition run_main (flags : Flags) (enableWebhooks : string) (client : Client) (dynamic : Dynamic) (scheme : Scheme)
  : setup unit :=
  orDie GetConfigOrDie (Exits 1);;
  err ← invoke (NewManager (managerOptions flags));
  match err with
  | Some _ => finish (Exits 1)
  | None =>
      orDie NewForConfigOrDie PanicsAtStart;;
      let reconciler := mkReconciler client scheme dynamic None None None in
      err ← SetupWithManager reconciler;
      match err with
      | Some _ => finish (Exits 1)
      | None =>
          setupWebhooks enableWebhooks (Some (NewPodMutator true));;
          err ← invoke (AddHealthzCheck "healthz");
          match err with
          | Some _ => finish (Exits 1)
          | None =>
              err ← invoke (AddReadyzCheck "readyz");
              match err with
              | Some _ => finish (Exits 1)
              | None =>
                  perform StartTaintThread;;
                  err ← invoke StartManager;
                  match err with
                  | Some _ => finish (Exits 1)
                  | None => finish Completes
                  end
              end
          end
      end
  end.

(** The program: the trace of its actions and how it ends. *)
Definition main (other : string -> option flag) (args : list string) (enableWebhooks : string)
  (client : Client) (dynamic : Dynamic) (scheme : Scheme) : list action * outcome :=
  match main_init [] with
  | (tr, inl o) => (tr, o)
  | (tr, inr _) =>
      match Parse other args defaultFlags with
      | ParseExit code => (tr, Exits code)
      | Parsed flags _ =>
          match run_main flags enableWebhooks client dynamic scheme tr with
          | (tr, inl o) => (tr, o)
          | (tr, inr _) => (tr, Completes)
          end
      end
  end.
End wiring.

(** ** The plan of the setup *)

Section plan.
Context {Client Dynamic Scheme : Type}.
Abbreviation action := (@action Client Dynamic Scheme).
Context (answer : list action -> action -> option error).
Implicit Types (tr plan : list action) (a : action).

(** The actions that can fail, and how the program then ends. *)
Definition failure a : option outcome :=
  match a with
  | AddToScheme _ | NewForConfigOrDie => Some PanicsAtStart
  | StartOverrunListener _ | Register _ _ | StartTaintThread => None
  | _ => Some (Exits 1)
  end.

(** Performing a list of actions, up to the first that fails. *)
Fixpoint run_plan plan tr : list action * outcome :=
  match plan with
  | [] => (tr, Completes)
  | a :: plan =>
      match failure a, answer tr a with
      | Some o, Some _ => (tr ++ [a], o)
      | _, _ => run_plan plan (tr ++ [a])
      end
  end.

Definition init_plan : list action := [AddToScheme "k8s.io"; AddToScheme "mcoperator.sdv.com/v1"].

(** All that the program does if nothing fails: the webhooks are registered unless
    they are disabled; the overrun listener runs before the controller is
    complete, the taint thread before the manager, whoever is the leader. *)
Definition main_plan (flags : Flags) (enableWebhooks : string) (client : Client) (dynamic : Dynamic) (scheme : Scheme)
  : list action :=
  init_plan ++
  [GetConfigOrDie; NewManager (managerOptions flags); NewForConfigOrDie; IndexField ".metadata.name";
   StartOverrunListener 8090;
   CompleteController (withHandlers (mkReconciler client scheme dynamic None None None)) [ForMCKube; WatchPods; WatchNodes]] ++
  (if decide (enableWebhooks <> "false")
   then [Register "/mutate-v1-pod" (Mutating (NewPodMutator true)); Register "/validate-rt-pod" Validating] else []) ++
  [AddHealthzCheck "healthz"; AddReadyzCheck "readyz"; StartTaintThread; StartManager].

Lemma run_plan_app plan1 plan2 tr :
  run_plan (plan1 ++ plan2) tr =
  match run_plan plan1 tr with (tr', Completes) => run_plan plan2 tr' | r => r end.
Proof using Type.
  revert tr. induction plan1 as [|a plan1 IH]; intros tr; [done|]. cbn [run_plan app]. rewrite IH.
  destruct (failure a) as [o|] eqn:Ef, (answer tr a); try done. by destruct a; simplify_eq/=.
Qed.

(** [main] once the command line is parsed. *)
Lemma main_run_plan other args flags rest enableWebhooks client dynamic scheme :
  Parse other args defaultFlags = Parsed flags rest ->
  main answer other args enableWebhooks client dynamic scheme =
  run_plan (main_plan flags enableWebhooks client dynamic scheme) [].
Proof using Type.
  intros Hparse. unfold main, main_plan. rewrite Hparse, run_plan_app. unfold main_init, orDie, invoke, finish.
  unfold mbind, setup_bind. cbn [init_plan run_plan failure app].
  destruct (answer _ _); [done|]. cbn. destruct (answer _ _); [done|]. cbn.
  unfold run_main, orDie, SetupWithManager, setupWebhooks, invoke, perform, finish. unfold mbind, setup_bind. cbn.
  repeat (destruct (answer _ _); [done|]; cbn). destruct (decide (enableWebhooks <> "false")); cbn.
  all: repeat (destruct (answer _ _); [done|]; cbn). all: done.
Qed.

(** What running a plan leaves: a prefix of the plan, in which everything but
    perhaps the last action succeeded. *)
Lemma run_plan_spec plan tr tr' o :
  run_plan plan tr = (tr', o) ->
  exists done, tr' = tr ++ done /\
    ((o = Completes /\ done = plan /\
      forall pre a suf, plan = pre ++ a :: suf -> is_Some (failure a) -> answer (tr ++ pre) a = None) \/
     (exists pre a suf e, plan = pre ++ a :: suf /\ done = pre ++ [a] /\ failure a = Some o /\
      answer (tr ++ pre) a = Some e /\
      forall pre' a' suf', pre = pre' ++ a' :: suf' -> is_Some (failure a') -> answer (tr ++ pre') a' = None)).
Proof using Type.
  revert tr. induction plan as [|a plan IH]; intros tr; cbn [run_plan].
  { intros [= <- <-]. exists []. split; [by rewrite app_nil_r|]. left. split_and!; [done..|]. by intros [|]. }
  assert (Hstep : run_plan plan (tr ++ [a]) = (tr', o) -> (is_Some (failure a) -> answer tr a = None) -> exists done,
    tr' = tr ++ done /\
    ((o = Completes /\ done = a :: plan /\
      forall pre b suf, a :: plan = pre ++ b :: suf -> is_Some (failure b) -> answer (tr ++ pre) b = None) \/
     (exists pre b suf e, a :: plan = pre ++ b :: suf /\ done = pre ++ [b] /\ failure b = Some o /\
      answer (tr ++ pre) b = Some e /\
      forall pre' a' suf', pre = pre' ++ a' :: suf' -> is_Some (failure a') -> answer (tr ++ pre') a' = None))).
  { intros Hrun Ha. assert (Hfirst : forall b pre' suf' plan', a :: plan' = pre' ++ b :: suf' ->
      (forall pre b suf, plan' = pre ++ b :: suf -> is_Some (failure b) -> answer ((tr ++ [a]) ++ pre) b = None) ->
      is_Some (failure b) -> answer (tr ++ pre') b = None).
    { intros b [|x pre'] suf' plan' E Hrest Hf; injection E as <- E; [by rewrite app_nil_r; apply Ha|].
      specialize (Hrest _ _ _ E Hf). by rewrite <- app_assoc in Hrest. }
    destruct (IH _ Hrun) as (done & -> & [(-> & -> & H)|(pre & b & suf & e & -> & -> & Hf & He & H)]).
    - exists (a :: plan). split; [by rewrite <- app_assoc|]. left. split_and!; [done..|]. intros. by eapply Hfirst.
    - exists (a :: pre ++ [b]). split; [by rewrite <- app_assoc|]. right. exists (a :: pre), b, suf, e.
      split_and!; [done..| |]; [by rewrite <- app_assoc in He|]. intros pre' a' suf' E. by eapply Hfirst. }
  destruct (failure a) as [oa|] eqn:Ef; [destruct (answer tr a) as [e|] eqn:Ea|].
  - intros [= <- <-]. exists [a]. split; [done|]. right. exists [], a, plan, e. split_and!; [done..| |].
    + by rewrite app_nil_r.
    + by intros [|].
  - intros H. by apply Hstep.
  - intros H. apply Hstep; [done|]. by intros [? ?].
Qed.
End plan.

(** ** The command line: lemmas *)

(** The arguments that set all flags of the program. *)
Definition print_bool (b : bool) : string := if b then "true" else "false".

Definition printFlags (f : Flags) : list string :=
  ["--metrics-bind-address=" +:+ metricsAddr f; "--health-probe-bind-address=" +:+ probeAddr f;
   "--leader-elect=" +:+ print_bool (enableLeaderElection f); "-metrics-secure=" +:+ print_bool (secureMetrics f);
   "-enable-http2=" +:+ print_bool (enableHTTP2 f)].

Lemma parse_print_bool b : ParseBool (print_bool b) = Some b.
Proof. by destruct b. Qed.

(** A token that names no flag of a set leaves that set of flags alone; [P] is
    what the setters of all other flags keep. *)
Lemma Parse_keeps other (P : Flags -> Prop) (allowed : string -> Prop) args flags flags' rest :
  (forall name set v f, allowed name ->
     formal other name = Some (StringFlag set) \/ formal other name = Some (BoolFlag set) ->
     set v = Some f -> forall flags, P flags -> P (f flags)) ->
  (forall s name v, s ∈ args -> tokenize s = FlagToken name v -> allowed name) ->
  P flags -> Parse other args flags = Parsed flags' rest -> P flags'.
Proof.
  intros Hset. assert (Hgen : forall n args flags, (length args <= n)%nat ->
    (forall s name v, s ∈ args -> tokenize s = FlagToken name v -> allowed name) ->
    P flags -> Parse other args flags = Parsed flags' rest -> P flags'); [|by eapply (Hgen (length args))].
  clear args flags. induction n as [|n IH]; intros [|s args] flags Hlen Hargs HP; cbn [Parse];
    try (by intros [= <- _]); [simpl in Hlen; lia|]. simpl in Hlen.
  destruct (tokenize s) as [| | |name value] eqn:Et; try (by intros [= <- _]).
  assert (Ha : allowed name) by (eapply Hargs; [by left|exact Et]).
  destruct (formal other name) as [[set|set]|] eqn:Ef; [| |done].
  - destruct value as [v|].
    + destruct (set v) as [f|] eqn:Es; [|done]. apply IH; [lia|intros; eapply Hargs; [by right|done]|].
      apply (Hset name set v f Ha); [by left|done..].
    + destruct args as [|v args]; [done|]. destruct (set v) as [f|] eqn:Es; [|done].
      simpl in Hlen. apply IH; [lia|intros; eapply Hargs; [by right; right|done]|].
      apply (Hset name set v f Ha); [by left|done..].
  - destruct (set _) as [f|] eqn:Es; [|done]. apply IH; [lia|intros; eapply Hargs; [by right|done]|].
    apply (Hset name set (default "true" value) f Ha); [by right|done..].
Qed.

(** What a server's TLS configuration becomes. *)
Definition configured (opts : list (tlsConfig -> tlsConfig)) (c : tlsConfig) : tlsConfig := foldl (fun c f => f c) c opts.

(** ** Properties *)

Section properties.
Context {Client Dynamic Scheme : Type}.
Context (answer : list (@action Client Dynamic Scheme) -> @action Client Dynamic Scheme -> option error).

(** C28: the setup follows its plan: the program performs a prefix of it, every
    action of which succeeded except perhaps the last; it ends with the code of
    the first failure, and normally only if nothing failed.  In particular the
    manager is started only after everything else succeeded, and nothing is
    done after it has been started. *)
Theorem main_follows_plan other args flags rest enableWebhooks client dynamic scheme tr o :
  Parse other args defaultFlags = Parsed flags rest ->
  main answer other args enableWebhooks client dynamic scheme = (tr, o) ->
  let plan := main_plan flags enableWebhooks client dynamic scheme in
  ((o = Completes /\ tr = plan /\
    forall pre a suf, plan = pre ++ a :: suf -> is_Some (failure a) -> answer pre a = None) \/
   (exists pre a suf e, plan = pre ++ a :: suf /\ tr = pre ++ [a] /\ failure a = Some o /\ answer pre a = Some e /\
    forall pre' a' suf', pre = pre' ++ a' :: suf' -> is_Some (failure a') -> answer pre' a' = None)) /\
  (StartManager ∈ tr -> tr = plan).
Proof using Type.
  intros Hparse Hmain plan. rewrite (main_run_plan answer _ _ _ _ _ _ _ _ Hparse) in Hmain. fold plan in Hmain.
  destruct (run_plan_spec answer _ _ _ _ Hmain) as (done & -> & H). split; [exact H|].
  intros Hin. destruct H as [(_ & -> & _)|(pre & a & suf & e & Hplan & -> & _ & _)]; [done|].
  assert (Hlast : exists init, plan = init ++ [StartManager] /\ StartManager ∉ init).
  { unfold plan, main_plan. cbn [init_plan app]. destruct (decide (enableWebhooks <> "false")); cbn [app].
    all: match goal with |- exists init, ?l = _ /\ _ => exists (take (length l - 1) l) end.
    all: split; [reflexivity|]. all: cbn; rewrite !elem_of_cons, elem_of_nil; intros H'; repeat destruct H' as [H'|H']; done. }
  destruct Hlast as (init & Hinit & Hnot). rewrite Hinit in Hplan.
  destruct suf as [|x suf _] using rev_ind.
  - by rewrite Hinit, Hplan.
  - rewrite app_comm_cons, app_assoc in Hplan. apply app_inj_tail in Hplan as [-> <-]. destruct Hnot.
    rewrite app_nil_l in Hin. apply elem_of_app in Hin as [Hin|Hin]; apply elem_of_app; [by left|right].
    apply list_elem_of_singleton in Hin as <-. by left.
Qed.
End properties.

(** C34: the command line is read back from its printed form: the arguments that
    set every flag are parsed to those flags, whatever strings the addresses
    are, and the arguments after a terminator are left over. *)
Theorem Parse_print other f rest :
  Parse other (printFlags f ++ "--" :: rest) defaultFlags = Parsed f rest.
Proof. destruct f as [m p l s h]. by destruct l, s, h. Qed.

(** HTTP/2 is off unless it is asked for: when no argument names the flag
    [enable-http2], both servers offer HTTP/1.1 only, whatever the TLS
    configuration they start from, and the metrics are served without
    authentication only without TLS. *)
Theorem http2_off_by_default other args flags rest :
  (forall name set v f, other name = Some (StringFlag set) \/ other name = Some (BoolFlag set) ->
     set v = Some f -> forall flags, f flags = flags) ->
  (forall s v, s ∈ args -> tokenize s <> FlagToken "enable-http2" v) ->
  Parse other args defaultFlags = Parsed flags rest ->
  let o := managerOptions flags in
  (forall c, NextProtos (configured (opt_WebhookTLSOpts o) c) = ["http/1.1"]) /\
  (forall c, NextProtos (configured (metrics_TLSOpts (opt_Metrics o)) c) = ["http/1.1"]) /\
  (FilterProvider (opt_Metrics o) = None <-> SecureServing (opt_Metrics o) = false).
Proof.
  intros Hother Hargs Hparse o.
  assert (Hoff : enableHTTP2 flags = false).
  { eapply (Parse_keeps other (fun f => enableHTTP2 f = false) (fun name => name <> "enable-http2")); [| | |exact Hparse]; [| |done].
    - intros name set v f Hname Hset Hv flags0 H0. unfold formal in Hset.
      repeat (case_decide; [subst name; destruct Hset as [E|E]; try discriminate E; injection E as <-;
        first [injection Hv as <-; exact H0 | done
              | destruct (ParseBool v); [injection Hv as <-; exact H0|discriminate]]|]).
      by rewrite (Hother _ _ _ _ Hset Hv).
    - intros s name v Hs Ht ->. by eapply Hargs. }
  unfold o, managerOptions, metricsServerOptions, tlsOpts. rewrite Hoff. cbn. split_and!; [done..|].
  by destruct (secureMetrics flags).
Qed.

(** ** Witnesses *)

Module Deployment.
(** The arguments of the deployed manager. *)
Definition args : list string := ["--metrics-bind-address=:8443"; "--leader-elect"; "--health-probe-bind-address"; ":8081"].
Definition no_other (name : string) : option flag := None.
Definition flags : Flags := mkFlags ":8443" ":8081" true true false.
(** The health check cannot be added. *)
Definition answer (tr : list (@action unit unit unit)) (a : @action unit unit unit) : option error :=
  match a with AddHealthzCheck _ => Some "no" | _ => None end.
End Deployment.

Example main_follows_plan_witness :
  (main Deployment.answer Deployment.no_other Deployment.args "" tt tt tt).2 = Exits 1.
Proof.
  destruct (main Deployment.answer Deployment.no_other Deployment.args "" tt tt tt) as [tr o] eqn:E.
  pose proof (@main_follows_plan unit unit unit Deployment.answer Deployment.no_other Deployment.args Deployment.flags []
    "" tt tt tt tr o eq_refl E) as [_ _].
  revert E. vm_compute. by intros [= _ <-].
Defined.

Example http2_off_by_default_witness :
  NextProtos (configured (opt_WebhookTLSOpts (managerOptions Deployment.flags)) (mkTLS ["h2"; "http/1.1"])) = ["http/1.1"].
Proof.
  refine (proj1 (http2_off_by_default Deployment.no_other Deployment.args Deployment.flags [] _ _ eq_refl) _).
  - by intros name set v f [H|H].
  - intros s v Hs. unfold Deployment.args in Hs. rewrite !elem_of_cons, elem_of_nil in Hs.
    destruct Hs as [->|[->|[->|[->|[]]]]]; vm_compute; discriminate.
Defined.
