(* ===== verification/Concurrency.v ===== *)
(** * Concurrency: interleavings of the controller's goroutines

    The reconciler has one worker; overrun requests and events of pods are
    served by goroutines of their own, at the same time.  The operations that
    share the runtime states and the pools are written once more here, as
    threads of atomic actions: an action is what the source does under one
    mutex, or one call to another process.  Each thread run alone is the
    operation of [Overrun], [Housekeeping] or [Reconcile]; a rely-guarantee logic
    then proves what holds under every interleaving, and runs of the scheduler
    show what does not. *)
From S2P Require Import Prelude Float64 GoRuntime GoString CPUPool CoreSet ApiTypes Kube ApiServer Budget Conversions DataCollector Pressure NodeEvents Controller Housekeeping Overrun Preemption Reconcile ReconcileSpec.
From stdpp Require Import options.

Local Open Scope Z_scope.

(** ** Threads *)

Inductive thread (W : Type) : Type :=
| Finished
| Atomic {A : Type} (m : ctl W A) (k : A -> thread W).
Arguments Finished {W}.
Arguments Atomic {W A} m k.

(** A part of a thread that gives a result to the rest. *)
Definition prog (W A : Type) : Type := (A -> thread W) -> thread W.

#[export] Instance prog_ret {W} : MRet (prog W) := fun A a k => k a.
#[export] Instance prog_bind {W} : MBind (prog W) := fun A B f p k => p (fun a => f a k).

Section threads.
Context {W : Type}.

Definition atomic {A} (m : ctl W A) : prog W A := fun k => Atomic m k.

Fixpoint each {A} (l : list A) (body : A -> prog W unit) : prog W unit :=
  match l with
  | [] => mret tt
  | x :: l => body x;; each l body
  end.

Fixpoint until {A} (l : list A) (body : A -> prog W (option error)) : prog W (option error) :=
  match l with
  | [] => mret None
  | x :: l =>
      err ← body x;
      match err with
      | Some e => mret (Some e)
      | None => until l body
      end
  end.

(** A search loop that ends at the first hit. *)
Fixpoint search {A} (l : list A) (body : A -> prog W bool) : prog W bool :=
  match l with
  | [] => mret false
  | x :: l => hit ← body x; if hit : bool then mret true else search l body
  end.

Definition start {A} (p : prog W A) : thread W := p (fun _ => Finished).

(** A thread that is never interrupted. *)
Fixpoint complete (t : thread W) (st : St W) : St W * (stuck + unit) :=
  match t with
  | Finished => (st, inr tt)
  | Atomic m k =>
      match m st with
      | (st, inr a) => complete (k a) st
      | (st, inl s) => (st, inl s)
      end
  end.
End threads.

(** ** The operations as threads *)

Section operations.
Context `{R : GoRuntime} {W : Type} `{K : !KubeClient W, A : !NodeActuator W, T : !Clock W}.

Definition overrunThread (data : OverrunData) : prog W unit :=
  found ← atomic (findPodByContainerID (od_NodeName data) (od_ContainerID data));
  match found with
  | Err _ | Ok None => mret tt
  | Ok (Some pod) =>
      listed ← atomic (query (fun w => ListMCKubes w (pod_Namespace pod)));
      match listed with
      | Err _ => mret tt
      | Ok items =>
          match findByPodName items (pod_Name pod) with
          | None => mret tt
          | Some targetMcKube =>
              match spec_RTSettings (mc_Spec targetMcKube) with
              | None => mret tt
              | Some rt =>
                  currentState ← atomic (gets (fun st => str_get (podRuntimeState st) (pod_Name pod)));
                  if decide (currentState = "hi") then mret tt
                  else
                    let nodeIP := pod_HostIP pod in
                    if decide (nodeIP = EmptyString) then mret tt
                    else
                      err ← atomic (sendRequest nodeIP
                        (mkCgroupRequest (od_ContainerID data) (Period rt) (RuntimeHi rt) (Core rt) true));
                      match err with
                      | Some _ => mret tt
                      | None =>
                          atomic (setRuntimeState (pod_Name pod) "hi");;
                          now ← atomic (call time_Now);
                          _ ← atomic (updateStatus
                            (set_status (fun s => set_LastOverrunTime (Some now) (set_CurrentRuntime "hi" s)) targetMcKube));
                          mret tt
                      end
              end
          end
      end
  end.

Definition cleanupThread (podName : string) : prog W unit :=
  atomic (modify (fun st => with_runtime (delete podName (podRuntimeState st)) st));;
  atomic (modify (fun st => with_pools (RemovePodFromPool (globalPools st) podName).1 st)).

Definition podEventThread (pod : Pod) : prog W (list NamespacedName) :=
  if decide (pod_Namespace pod <> targetNamespace) then mret []
  else if decide (appOf pod = EmptyString) then mret []
  else
    (if decide (is_Some (pod_DeletionTimestamp pod)) then cleanupThread (pod_Name pod) else mret tt);;
    listed ← atomic (query (fun w => ListMCKubes w (pod_Namespace pod)));
    match listed with
    | Err _ => mret []
    | Ok items =>
        match findByPodName items (pod_Name pod) with
        | Some mckube => mret [mkName (mc_Namespace mckube) (mc_Name mckube)]
        | None => mret []
        end
    end.

(** The test of [updateCPUPoolForPod] on one core, under the pool's lock. *)
Definition registeredNow (nodeName podName : string) (cpuMillis : Z) (criticality : string) (coreID : Z) : ctl W bool :=
  gets (fun st => match globalPools st !! nodeName with
                  | Some pool => negb (registeredOn pool podName cpuMillis criticality coreID)
                  | None => true
                  end).

Definition updatePoolThread (pod : Pod) (mckube : MCKube) : prog W (option error) :=
  match spec_RTSettings (mc_Spec mckube) with
  | None => mret None
  | Some rt =>
      match Core rt with
      | None => mret None
      | Some core =>
          let nodeName := pod_NodeName pod in
          if decide (nodeName = EmptyString) then mret (Some "pod has no assigned node")
          else
            _ ← atomic (getOrCreatePool nodeName);
            cpuMillis ← atomic (currentMillis (pod_Name pod) rt);
            cores ← atomic (parseCoreSet core);
            let criticality := spec_Criticality (mc_Spec mckube) in
            let podInfo := mkPodInfo (pod_Name pod) (pod_Namespace pod) criticality cpuMillis cores in
            needsUpdate ← search cores (fun coreID =>
              atomic (registeredNow nodeName (pod_Name pod) cpuMillis criticality coreID));
            (if needsUpdate : bool then
               each cores (fun coreID =>
                 atomic (onPool nodeName (fun p => RemovePodFromCore p coreID (pod_Name pod)));;
                 atomic (onPool nodeName (fun p => AddPodToCore p coreID podInfo)))
             else mret tt);;
            mret None
      end
  end.

Definition applyThread (pod : Pod) (mckube : MCKube) : prog W (option error) :=
  match spec_RTSettings (mc_Spec mckube) with
  | None => mret None
  | Some rt =>
      throttled ← (if decide (pod_UID pod <> EmptyString) then atomic (isVictimThrottled (pod_UID pod)) else mret false);
      if throttled : bool then mret None
      else
        let nodeIP := pod_HostIP pod in
        if decide (nodeIP = EmptyString) then mret (Some "node IP not available")
        else
          currentRuntimeState ← atomic (gets (fun st => str_get (podRuntimeState st) (pod_Name pod)));
          until (pod_ContainerStatuses pod) (fun cs =>
            atomic (applyToContainer nodeIP rt (effectiveRuntime currentRuntimeState rt)
                      (status_AllocatedCore (mc_Status mckube)) cs))
  end.

Definition revertContainersThread (nodeIP : string) (rt : RTSettings) (pod : Pod) : prog W unit :=
  each (pod_ContainerStatuses pod) (fun cs =>
    if decide (cs_ContainerID cs = EmptyString) then mret tt
    else
      _ ← atomic (sendRequest nodeIP (mkCgroupRequest (cs_ContainerID cs) (Period rt) (RuntimeLow rt) (Core rt) true));
      mret tt).

Definition revertThread (pod : Pod) : prog W unit :=
  currentState ← atomic (gets (fun st => str_get (podRuntimeState st) (pod_Name pod)));
  if decide (currentState <> "hi") then mret tt
  else
    listed ← atomic (query (fun w => ListMCKubes w (pod_Namespace pod)));
    match listed with
    | Err _ => mret tt
    | Ok items =>
        match findByPodName items (pod_Name pod) with
        | None => mret tt
        | Some targetMcKube =>
            match spec_RTSettings (mc_Spec targetMcKube) with
            | None => mret tt
            | Some rt =>
                let nodeIP := pod_HostIP pod in
                if decide (nodeIP = EmptyString) then mret tt
                else
                  revertContainersThread nodeIP rt pod;;
                  atomic (setRuntimeState (pod_Name pod) "low");;
                  _ ← atomic (updateStatus (set_status (set_CurrentRuntime "low") targetMcKube));
                  mret tt
            end
        end
    end.

Definition recoveryThread (nodeName : string) : prog W unit :=
  listed ← atomic (query (fun w => ListPods w (Some targetNamespace)));
  match listed with
  | Err _ => mret tt
  | Ok items =>
      match rtPodsOn nodeName items with
      | [] => mret tt
      | nodePods =>
          each nodePods revertThread;;
          atomic (modify (fun st => with_pressure (delete nodeName (PressureState st)) st);;
                  modify (fun st => with_processing (clearProcessing (ProcessingNodes st) nodeName) st))
      end
  end.
End operations.

(** ** Each thread, run alone, is its operation *)

Section alone.
Context {W : Type}.

(** Whatever follows, the part runs like the computation. *)
Definition runs {A} (p : prog W A) (m : ctl W A) : Prop :=
  forall k st, complete (p k) st =
    match m st with
    | (st, inr a) => complete (k a) st
    | (st, inl s) => (st, inl s)
    end.

Lemma runs_atomic {A} (m : ctl W A) : runs (atomic m) m.
Proof. done. Qed.

Lemma runs_ret {A} (a : A) : runs (mret a) (mret a).
Proof. done. Qed.

Lemma runs_bind {A B} (p : prog W A) m (f : A -> prog W B) g :
  runs p m -> (forall a, runs (f a) (g a)) -> runs (p ≫= f) (m ≫= g).
Proof.
  intros Hp Hf k st. change (complete (p (fun a => f a k)) st = match (m ≫= g) st with
    | (st, inr a) => complete (k a) st | (st, inl s) => (st, inl s) end).
  rewrite Hp, run_bind. destruct (m st) as [st1 [s|a]]; [done|]. apply Hf.
Qed.

Lemma runs_each {A} (l : list A) body m : (forall x, runs (body x) (m x)) -> runs (each l body) (for_each l m).
Proof. intros H. induction l as [|x l IH]; [done|]. cbn [each for_each]. by apply runs_bind. Qed.

Lemma runs_until {A} (l : list A) body m : (forall x, runs (body x) (m x)) -> runs (until l body) (for_until l m).
Proof.
  intros H. induction l as [|x l IH]; [done|]. cbn [until for_until]. apply runs_bind; [done|]. by intros [e|].
Qed.

(** A search by reading is a test of the state. *)
Lemma runs_search {A} (l : list A) (f : A -> St W -> bool) :
  runs (search l (fun x => atomic (gets (f x)))) (gets (fun st => existsb (fun x => f x st) l)).
Proof.
  induction l as [|x l IH]; [done|]. intros k st. cbn [search existsb].
  change (complete ((if f x st then (mret true : prog W bool) else search l (fun x => atomic (gets (f x)))) k) st =
    complete (k (f x st || existsb (fun x => f x st) l)) st).
  destruct (f x st); [done|]. apply IH.
Qed.

Lemma runs_start {A} (p : prog W A) m st : runs p m -> (complete (start p) st).1 = (m st).1.
Proof. intros H. unfold start. rewrite H. by destruct (m st) as [st1 [s|a]]. Qed.

Lemma runs_ext {A} (p : prog W A) m m' : (forall st, m st = m' st) -> runs p m -> runs p m'.
Proof. intros E H k st. by rewrite H, E. Qed.
End alone.

Create HintDb threads.
#[export] Hint Resolve runs_ret runs_atomic : threads.

(** Follows the two programs. *)
Ltac run_step :=
  first
    [ solve [auto with threads]
    | apply runs_each; intros ? | apply runs_until; intros ?
    | apply runs_bind; [|intros ?]
    | match goal with |- runs (match ?x with _ => _ end) _ => destruct x end ].
Ltac run_alone := cbv zeta; repeat run_step.

Section alone_operations.
Context `{R : GoRuntime} {W : Type} `{K : !KubeClient W, A : !NodeActuator W, T : !Clock W}.
Implicit Types (st : St W) (pod : Pod) (mc : MCKube).

Lemma runs_overrun data : runs (overrunThread data) (handleOverrunEvent data).
Proof using Type. unfold overrunThread, handleOverrunEvent, recordOverrun. run_alone. Qed.

Lemma runs_cleanup podName ns : runs (cleanupThread podName : prog W unit) (cleanupPodState podName ns).
Proof using Type. unfold cleanupThread, cleanupPodState. run_alone. Qed.

Hint Resolve runs_cleanup : threads.

Lemma runs_pod_event pod : runs (podEventThread pod) (findObjectsForPod pod).
Proof using Type. unfold podEventThread, findObjectsForPod. run_alone. Qed.

Lemma runs_apply pod mc : runs (applyThread pod mc) (applyRTSettingsToContainers pod mc).
Proof using Type. unfold applyThread, applyRTSettingsToContainers. run_alone. Qed.

Lemma runs_revert pod : runs (revertThread pod) (revertPod pod).
Proof using Type. unfold revertThread, revertPod, revertContainersThread, revertContainers. run_alone. Qed.

Hint Resolve runs_revert : threads.

Lemma runs_recovery nodeName : runs (recoveryThread nodeName) (handleCPURecovery nodeName).
Proof using Type. unfold recoveryThread, handleCPURecovery. run_alone. Qed.

(** The search reads the pool that the call before it returned. *)
Lemma runs_update_pool pod mc : runs (updatePoolThread pod mc : prog W _) (updateCPUPoolForPod pod mc).
Proof using Type.
  unfold updatePoolThread, updateCPUPoolForPod. destruct (spec_RTSettings (mc_Spec mc)) as [rt|]; [|done].
  destruct (Core rt) as [core|]; [|done]. cbv zeta. case_decide; [done|].
  set (name := pod_Name pod). set (node := pod_NodeName pod). set (crit := spec_Criticality (mc_Spec mc)).
  apply (runs_ext _ (
    _ ← getOrCreatePool node;
    millis ← currentMillis name rt;
    cores ← parseCoreSet core;
    needsUpdate ← gets (fun st => existsb (fun c => match globalPools st !! node with
                                            | Some pool => negb (registeredOn pool name millis crit c)
                                            | None => true end) cores);
    (if needsUpdate : bool then
       for_each cores (fun c =>
         onPool node (fun p => RemovePodFromCore p c name);;
         onPool node (fun p => AddPodToCore p c (mkPodInfo name (pod_Namespace pod) crit millis cores)))
     else mret tt);;
    mret None)).
  2: { apply runs_bind; [done|intros _]. apply runs_bind; [done|intros millis]. apply runs_bind; [done|intros cores].
       apply runs_bind; [apply runs_search|intros needsUpdate]. run_alone. }
  intros st. rewrite !run_bind. unfold getOrCreatePool.
  destruct (GetOrCreateCPUPool (globalPools st) node DefaultNumCores) as [g p] eqn:Eg.
  assert (Hp : g !! node = Some p).
  { unfold GetOrCreateCPUPool in Eg. destruct (globalPools st !! node) as [p'|] eqn:E; injection Eg as <- <-; [done|].
    apply lookup_insert_eq. }
  unfold currentMillis, parseCoreSet. rewrite !run_assoc, !run_gets, !run_ret.
  destruct (ParseCoreSet core) as [cores|]; [|reflexivity]. rewrite !run_ret, run_gets.
  cbn [globalPools with_pools]. rewrite Hp. reflexivity.
Qed.

(** Each thread, when no other goroutine interrupts it, is the operation it
    stands for: the overrun request, the event of a pod, the registration in the
    pool, the application of the settings and the recovery of a node leave the
    state that the function of the sequential model leaves. *)
Theorem threads_run_alone pod mc data nodeName st :
  (complete (start (overrunThread data)) st).1 = (handleOverrunEvent data st).1 /\
  (complete (start (podEventThread pod)) st).1 = (findObjectsForPod pod st).1 /\
  (complete (start (updatePoolThread pod mc)) st).1 = (updateCPUPoolForPod pod mc st).1 /\
  (complete (start (applyThread pod mc)) st).1 = (applyRTSettingsToContainers pod mc st).1 /\
  (complete (start (recoveryThread nodeName)) st).1 = (handleCPURecovery nodeName st).1.
Proof using Type.
  split_and!; apply runs_start; [apply runs_overrun|apply runs_pod_event|apply runs_update_pool|apply runs_apply|apply runs_recovery].
Qed.
End alone_operations.

(** ** The scheduler *)

(** What the worker is given, and what arrives from outside. *)
Inductive work :=
| InitState (podName : string)
| UpdatePool (pod : Pod) (mc : MCKube)
| ApplySettings (pod : Pod) (mc : MCKube)
| Recover (nodeName : string).
Inductive event := Overrun (data : OverrunData) | PodEvent (pod : Pod).

Section scheduler.
Context `{R : GoRuntime} {W : Type} `{K : !KubeClient W, A : !NodeActuator W, T : !Clock W}.
Implicit Types (st : St W) (t : thread W).

Definition work_thread (x : work) : thread W :=
  match x with
  | InitState podName => start (atomic (ensurePodRuntimeStateInitialized podName))
  | Recover nodeName => start (recoveryThread nodeName)
  | UpdatePool pod mc => start (updatePoolThread pod mc)
  | ApplySettings pod mc => start (applyThread pod mc)
  end.

Definition event_thread (x : event) : thread W :=
  match x with
  | Overrun data => start (overrunThread data)
  | PodEvent pod => start (podEventThread pod)
  end.

(** The state, the states before it (the last one first), the reconciler's one
    worker, and the goroutines that serve events. *)
Record config := mkConfig {
  now : St W;
  past : list (St W);
  worker : thread W;
  serving : list (thread W)
}.

(** The next action of a thread; a panic or a call that does not return has no
    next state. *)
Definition advance t st : option (St W * thread W) :=
  match t with
  | Finished => None
  | Atomic m k => match m st with (st', inr a) => Some (st', k a) | (_, inl _) => None end
  end.

Inductive choice :=
| WorkerTakes (x : work)
| WorkerActs
| Arrives (x : event)
| ServingActs (i : nat)
| WorldMoves (w : W).

Definition pick (ch : choice) (c : config) : option config :=
  match ch with
  | WorkerTakes x =>
      match worker c with
      | Finished => Some (mkConfig (now c) (past c) (work_thread x) (serving c))
      | _ => None
      end
  | WorkerActs =>
      '(st, t) ← advance (worker c) (now c);
      Some (mkConfig st (now c :: past c) t (serving c))
  | Arrives x => Some (mkConfig (now c) (past c) (worker c) (serving c ++ [event_thread x]))
  | ServingActs i =>
      t ← serving c !! i;
      '(st, t) ← advance t (now c);
      Some (mkConfig st (now c :: past c) (worker c) (<[i := t]> (serving c)))
  | WorldMoves w => Some (mkConfig (with_world w (now c)) (now c :: past c) (worker c) (serving c))
  end.

Definition step (c c' : config) : Prop := exists ch, pick ch c = Some c'.

Fixpoint schedule (l : list choice) (c : config) : option config :=
  match l with
  | [] => Some c
  | ch :: l => c ← pick ch c; schedule l c
  end.

Lemma schedule_steps l c c' : schedule l c = Some c' -> rtc step c c'.
Proof using Type.
  revert c. induction l as [|ch l IH]; intros c; cbn [schedule]; [by intros [= <-]|].
  destruct (pick ch c) as [c1|] eqn:E; [|done]. cbn. intros H. eapply rtc_l; [by exists ch|by apply IH].
Qed.

Definition idle st : config := mkConfig st [] Finished [].

(** ** Rely and guarantee *)

(** A state with the states before it. *)
Definition moment : Type := St W * list (St W).
Definition after (h : moment) st : moment := (st, h.1 :: h.2).

Context (Inv : moment -> Prop) (Worker Serving : St W -> St W -> Prop).

Definition world_moves st st' : Prop := exists w, st' = with_world w st.

(** The actions of the others, as the worker and a goroutine see them. *)
Definition around_worker st st' : Prop := Serving st st' \/ world_moves st st'.
Definition around_serving st st' : Prop := Worker st st' \/ Serving st st' \/ world_moves st st'.

Definition env (Rely : St W -> St W -> Prop) (h h' : moment) : Prop := exists st, Rely h.1 st /\ h' = after h st.

(** From a moment with [P], each action keeps the invariant and the guarantee,
    however often the others act in between. *)
Fixpoint proves (Rely Guar : St W -> St W -> Prop) (P : moment -> Prop) t : Prop :=
  match t with
  | Finished => True
  | @Atomic _ B m k =>
      exists Q : B -> moment -> Prop,
        (forall h h', P h -> rtc (env Rely) h h' -> Inv h' ->
           forall st a, m h'.1 = (st, inr a) -> Inv (after h' st) /\ Guar h'.1 st /\ Q a (after h' st)) /\
        forall a, proves Rely Guar (Q a) (k a)
  end.

Definition proves_part (Rely Guar : St W -> St W -> Prop) {B} (P : moment -> Prop) (p : prog W B)
  (Q : B -> moment -> Prop) : Prop :=
  forall k, (forall a, proves Rely Guar (Q a) (k a)) -> proves Rely Guar P (p k).

Lemma proves_weaken Rely Guar (P P' : moment -> Prop) t :
  (forall h, P h -> P' h) -> proves Rely Guar P' t -> proves Rely Guar P t.
Proof using Type.
  destruct t as [|B m k]; [done|]. intros HP (Q & H1 & H2). exists Q. split; [|done]. intros h h' Hh. by apply H1, HP.
Qed.

Lemma proves_ret Rely Guar {B} (P : moment -> Prop) (a : B) Q :
  (forall h, P h -> Q a h) -> proves_part Rely Guar P (mret a) Q.
Proof using Type. intros H k Hk. by eapply proves_weaken. Qed.

Lemma proves_bind Rely Guar {B C} P (p : prog W B) (f : B -> prog W C) Q Q' :
  proves_part Rely Guar P p Q -> (forall a, proves_part Rely Guar (Q a) (f a) Q') ->
  proves_part Rely Guar P (p ≫= f) Q'.
Proof using Type. intros Hp Hf k Hk. apply Hp. intros a. by apply Hf. Qed.

Lemma proves_atomic Rely Guar {B} (P : moment -> Prop) (m : ctl W B) (Q : B -> moment -> Prop) :
  (forall h h', P h -> rtc (env Rely) h h' -> Inv h' ->
     forall st a, m h'.1 = (st, inr a) -> Inv (after h' st) /\ Guar h'.1 st /\ Q a (after h' st)) ->
  proves_part Rely Guar P (atomic m) Q.
Proof using Type. intros H k Hk. by exists Q. Qed.

Lemma part_weaken Rely Guar {B} (P P' : moment -> Prop) (p : prog W B) Q :
  proves_part Rely Guar P' p Q -> (forall h, P h -> P' h) -> proves_part Rely Guar P p Q.
Proof using Type. intros Hp HP k Hk. eapply proves_weaken; [exact HP|]. by apply Hp. Qed.

Lemma proves_start Rely Guar {B} P (p : prog W B) :
  proves_part Rely Guar P p (fun _ _ => True) -> proves Rely Guar P (start p).
Proof using Type. intros H. by apply H. Qed.

(** Loops whose bodies need nothing. *)
Definition always_ : moment -> Prop := fun _ => True.

Lemma proves_each Rely Guar {B} (l : list B) body :
  (forall x, proves_part Rely Guar always_ (body x) (fun _ => always_)) ->
  proves_part Rely Guar always_ (each l body) (fun _ => always_).
Proof using Type.
  intros H. induction l as [|x l IH]; [by apply proves_ret|]. cbn [each]. eapply proves_bind; [apply H|by intros []].
Qed.

Lemma proves_until Rely Guar {B} (l : list B) body :
  (forall x, proves_part Rely Guar always_ (body x) (fun _ => always_)) ->
  proves_part Rely Guar always_ (until l body) (fun _ => always_).
Proof using Type.
  intros H. induction l as [|x l IH]; [by apply proves_ret|]. cbn [until]. eapply proves_bind; [apply H|].
  intros [e|]; [by apply proves_ret|done].
Qed.

Lemma proves_search Rely Guar {B} (l : list B) body :
  (forall x, proves_part Rely Guar always_ (body x) (fun _ => always_)) ->
  proves_part Rely Guar always_ (search l body) (fun _ => always_).
Proof using Type.
  intros H. induction l as [|x l IH]; [by apply proves_ret|]. cbn [search]. eapply proves_bind; [apply H|].
  intros [|]; [by apply proves_ret|done].
Qed.

(** A thread in the middle of its work. *)
Definition live (Rely Guar : St W -> St W -> Prop) (h : moment) t : Prop :=
  exists P h0, P h0 /\ rtc (env Rely) h0 h /\ proves Rely Guar P t.

Lemma live_start Rely Guar h t : proves Rely Guar always_ t -> live Rely Guar h t.
Proof using Type. intros H. by exists always_, h. Qed.

Lemma live_env (Rely Guar : St W -> St W -> Prop) h st t :
  Rely h.1 st -> live Rely Guar h t -> live Rely Guar (after h st) t.
Proof using Type. intros Hr (P & h0 & HP & Henv & Ht). exists P, h0. split_and!; [done| |done]. eapply rtc_r; [done|by exists st]. Qed.

Lemma live_advance Rely Guar h t st t' :
  Inv h -> live Rely Guar h t -> advance t h.1 = Some (st, t') ->
  Inv (after h st) /\ Guar h.1 st /\ live Rely Guar (after h st) t'.
Proof using Type.
  intros Hinv (P & h0 & HP & Henv & Ht) E. destruct t as [|B m k]; [done|]. cbn in E, Ht. destruct Ht as (Q & H1 & H2).
  destruct (m h.1) as [st1 [s|a]] eqn:Em; [done|]. injection E as -> <-.
  destruct (H1 _ _ HP Henv Hinv _ _ Em) as (Hi & Hg & Hq). split_and!; [done..|]. by exists (Q a), (after h st).
Qed.

Context (tasks_prove : forall x, proves around_worker Worker always_ (work_thread x)).
Context (events_prove : forall x, proves around_serving Serving always_ (event_thread x)).
Context (world_keeps : forall h w, Inv h -> Inv (after h (with_world w h.1))).

Definition safe (c : config) : Prop :=
  Inv (now c, past c) /\ live around_worker Worker (now c, past c) (worker c) /\
  Forall (live around_serving Serving (now c, past c)) (serving c).

Lemma Forall_live_env Rely Guar h st l :
  Rely h.1 st -> Forall (live Rely Guar h) l -> Forall (live Rely Guar (after h st)) l.
Proof using Type. intros Hr Hl. eapply Forall_impl; [exact Hl|]. intros t. by apply live_env. Qed.

Lemma step_safe c c' : step c c' -> safe c -> safe c'.
Proof using events_prove tasks_prove world_keeps.
  intros [ch E] (Hi & Hw & Hs). destruct ch as [x| |x|i|w]; cbn [pick] in E.
  - destruct (worker c); [|done]. injection E as <-. split_and!; [done|apply live_start, tasks_prove|done].
  - destruct (advance (worker c) (now c)) as [[st t]|] eqn:Ea; [|done]. injection E as <-.
    destruct (live_advance _ _ (now c, past c) _ _ _ Hi Hw Ea) as (Hi' & Hg & Hw').
    split_and!; [done..|]. apply (Forall_live_env _ _ (now c, past c) st); [by left|done].
  - injection E as <-. split_and!; [done..|]. apply Forall_app. split; [done|]. constructor; [apply live_start, events_prove|done].
  - destruct (serving c !! i) as [t|] eqn:Ei; [|done]. cbn in E.
    destruct (advance t (now c)) as [[st t']|] eqn:Ea; [|done]. injection E as <-.
    pose proof (proj1 (Forall_lookup _ _) Hs i t Ei) as Ht.
    destruct (live_advance _ _ (now c, past c) _ _ _ Hi Ht Ea) as (Hi' & Hg & Ht').
    split_and!; [done| |].
    + apply (live_env _ _ (now c, past c)); [by left|done].
    + apply Forall_insert; [|done]. apply (Forall_live_env _ _ (now c, past c) st); [by right; left|done].
  - injection E as <-. split_and!.
    + apply (world_keeps (now c, past c) w Hi).
    + apply (live_env _ _ (now c, past c)); [by right; exists w|done].
    + apply (Forall_live_env _ _ (now c, past c)); [by right; right; exists w|done].
Qed.

(** Every interleaving keeps the invariant. *)
Lemma interleavings_keep st c : Inv (st, []) -> rtc step (idle st) c -> Inv (now c, past c).
Proof using events_prove tasks_prove world_keeps.
  intros H0 Hrun. assert (Hs : safe (idle st)).
  { split_and!; [done|by apply live_start|constructor]. }
  enough (safe c) as [Hi _] by exact Hi. clear H0.
  induction Hrun as [|c1 c2 c3 Hstep _ IH]; [done|]. apply IH. by eapply step_safe.
Qed.
End scheduler.

(** Follows a thread whose parts need nothing; what is left are the actions
    that matter. *)
Ltac prove_step :=
  lazymatch goal with
  | |- proves_part _ _ _ _ (mret _) _ => apply proves_ret; done
  | |- proves_part _ _ _ _ (each _ _) _ => apply proves_each; intros ?
  | |- proves_part _ _ _ _ (until _ _) _ => apply proves_until; intros ?
  | |- proves_part _ _ _ _ (search _ _) _ => apply proves_search; intros ?
  | |- proves_part _ _ _ _ (_ ≫= _) _ => apply (proves_bind) with (Q := fun _ => always_); [|intros ?]
  | |- proves_part _ _ _ _ (match ?x with _ => _ end) _ => destruct x
  | |- _ => solve [auto with threads]
  end.

(** ** The accounting under interleavings *)

Section accounting.
Context `{R : GoRuntime} {W : Type} `{K : !KubeClient W, A : !NodeActuator W, T : !Clock W}.
Implicit Types (st : St W) (h : @moment W).

Definition accounted h : Prop := pools_wf (globalPools h.1).

(** The goroutines that serve events book nothing. *)
Definition books_nothing st st' : Prop :=
  forall node c name, booking (globalPools st) node c name = None -> booking (globalPools st') node c name = None.

Definition anything st st' : Prop := True.

Abbreviation worker_proves := (proves_part accounted (around_worker books_nothing) anything).
Abbreviation serving_proves := (proves_part accounted (around_serving anything books_nothing) books_nothing).

Lemma unbooked_env h h' node c name :
  rtc (env (around_worker books_nothing)) h h' ->
  booking (globalPools h.1) node c name = None -> booking (globalPools h'.1) node c name = None.
Proof using Type.
  induction 1 as [|h1 h2 h3 (st & Hst & ->) _ IH]; [done|]. intros Hb. apply IH. cbn.
  destruct Hst as [Hst|[w ->]]; [by apply Hst|done].
Qed.

Lemma pools_action st0 (m : ctl W unit) st a :
  evolves (keeps globalPools) m -> m st0 = (st, inr a) -> globalPools st = globalPools st0.
Proof using Type. intros H E. specialize (H st0). by rewrite E in H. Qed.

Lemma worker_quiet {B} P (m : ctl W B) : evolves (keeps globalPools) m -> worker_proves P (atomic m) (fun _ => always_).
Proof using Type.
  intros Hm. apply proves_atomic. intros h h' _ _ Hi st a E. specialize (Hm h'.1). rewrite E in Hm.
  split_and!; [|done|done]. unfold accounted. cbn in *. by rewrite Hm.
Qed.

Lemma serving_quiet {B} P (m : ctl W B) : evolves (keeps globalPools) m -> serving_proves P (atomic m) (fun _ => always_).
Proof using Type.
  intros Hm. apply proves_atomic. intros h h' _ _ Hi st a E. specialize (Hm h'.1). rewrite E in Hm. cbn in Hm.
  split_and!; [|intros node c name; by rewrite Hm|done]. unfold accounted. cbn in *. by rewrite Hm.
Qed.

Hint Resolve worker_quiet serving_quiet : threads.
Hint Extern 2 (evolves (keeps globalPools) _) => (unfold currentMillis, isVictimThrottled, applyToContainer,
  registeredNow, findPodByContainerID, sendRequest, setRuntimeState, updateStatus; evolve) : threads.

Lemma worker_apply pod mc : worker_proves always_ (applyThread pod mc : prog W _) (fun _ => always_).
Proof using Type. unfold applyThread. cbv zeta. repeat prove_step. Qed.

Lemma worker_init P podName : worker_proves P (atomic (ensurePodRuntimeStateInitialized podName)) (fun _ => always_).
Proof using Type.
  apply worker_quiet, evolves_modify. intros st. unfold keeps. by destruct (podRuntimeState st !! podName).
Qed.

Lemma worker_revert pod : worker_proves always_ (revertThread pod : prog W _) (fun _ => always_).
Proof using Type. unfold revertThread, revertContainersThread. cbv zeta. repeat prove_step. Qed.

Hint Resolve worker_revert : threads.

Lemma worker_recovery nodeName : worker_proves always_ (recoveryThread nodeName : prog W _) (fun _ => always_).
Proof using Type. unfold recoveryThread. repeat prove_step. Qed.

Lemma worker_ensure node : worker_proves always_ (atomic (getOrCreatePool node)) (fun _ => always_).
Proof using Type.
  apply proves_atomic. intros h h' _ _ Hi st a E. split_and!; [|done|done]. unfold getOrCreatePool in E.
  destruct (GetOrCreateCPUPool _ _ _) as [g p] eqn:Eg. injection E as <- <-. unfold accounted. cbn.
  change g with (g, p).1. rewrite <- Eg. apply GetOrCreateCPUPool_wf; [by vm_compute|done].
Qed.

(** Released and added again: nothing can book the pod there in between. *)
Lemma worker_rebook node c info :
  worker_proves always_
    (atomic (onPool node (fun p => RemovePodFromCore p c (pi_Name info)));;
     atomic (onPool node (fun p => AddPodToCore p c info))) (fun _ => always_).
Proof using Type.
  apply proves_bind with (Q := fun _ h => booking (globalPools h.1) node c (pi_Name info) = None).
  - apply proves_atomic. intros h h' _ _ Hi st a [= <- _]. split_and!; [|done|].
    + unfold accounted. cbn. apply pools_wf_alter; [|done]. intros. by apply RemovePodFromCore_wf.
    + cbn. rewrite booking_alter, decide_True by done. destruct (globalPools h'.1 !! node); [|done]. cbn.
      by rewrite pool_booking_remove, decide_True.
  - intros _. apply proves_atomic. intros h h' Hb Henv Hi st a [= <- _]. split_and!; [|done|done].
    apply (unbooked_env _ _ _ _ _ Henv) in Hb. unfold accounted. cbn. apply pools_wf_alter; [|done].
    intros p Hp. apply AddPodToCore_wf. by rewrite <- (booking_pool _ _ _ _ _ Hp).
Qed.

Hint Resolve worker_ensure : threads.

Lemma worker_update pod mc : worker_proves always_ (updatePoolThread pod mc : prog W _) (fun _ => always_).
Proof using Type.
  unfold updatePoolThread. destruct (spec_RTSettings (mc_Spec mc)) as [rt|]; [|prove_step].
  destruct (Core rt) as [core|]; [|prove_step]. cbv zeta. case_decide; [prove_step|].
  do 3 (prove_step; [prove_step|]). prove_step; [repeat prove_step|]. prove_step; [|repeat prove_step].
  match goal with |- proves_part _ _ _ _ (if ?b then _ else _) _ => destruct b; [|prove_step] end. prove_step.
  match goal with |- proves_part _ _ _ _ (_;; atomic (onPool ?n (fun p => AddPodToCore p ?c ?i))) _ =>
    apply (worker_rebook n c i) end.
Qed.

Lemma serving_remove podName :
  serving_proves always_ (atomic (modify (fun st => with_pools (RemovePodFromPool (globalPools st) podName).1 st)))
    (fun _ => always_).
Proof using Type.
  apply proves_atomic. intros h h' _ _ Hi st a [= <- _]. split_and!; [|intros node c name Hb|done].
  - unfold accounted. cbn. by apply RemovePodFromPool_wf.
  - change (booking (RemovePodFromPool (globalPools h'.1) podName).1 node c name = None).
    rewrite RemovePodFromPool_split. cbn [fst]. rewrite booking_releaseEverywhere. by case_decide.
Qed.

Hint Resolve serving_remove : threads.

Lemma serving_event x : proves accounted (around_serving anything books_nothing) books_nothing always_ (event_thread x).
Proof using Type.
  destruct x as [data|pod]; apply proves_start.
  - unfold overrunThread. cbv zeta. repeat prove_step.
  - unfold podEventThread, cleanupThread. repeat prove_step.
Qed.

(** C11: the accounting of the pools is exact under every interleaving: while the
    worker books pods, applies settings and recovers nodes, and overrun requests and events of
    pods are served at any time between two of its actions, the usage of each
    core is the sum of the budgets booked on it, in every state on the way. *)
Theorem interleaved_accounting st c :
  pools_wf (globalPools st) -> rtc step (idle st) c -> pools_wf (globalPools (now c)).
Proof using Type.
  intros Hst Hrun. refine (interleavings_keep accounted anything books_nothing _ _ _ st c Hst Hrun).
  - intros [podName|pod mc|pod mc|nodeName]; apply proves_start;
      [apply worker_init|apply worker_update|apply worker_apply|apply worker_recovery].
  - apply serving_event.
  - done.
Qed.
End accounting.

(** ** Escalations under interleavings *)

Section escalations.
Context `{R : GoRuntime} {W : Type} `{K : !KubeClient W, A : !NodeActuator W, T : !Clock W}.
Implicit Types (st : St W) (h : @moment W) (name : string).

(** In a past state the pod of the container was listed, in a later one its
    resource, and then the node-actuator accepted the high runtime for it. *)
Definition found_pod (data : OverrunData) (pod : Pod) (states : list (St W)) : Prop :=
  exists st pods, st ∈ states /\ ListPods (world st) None = Ok pods /\
    List.find (matchesOverrun (od_NodeName data) (od_ContainerID data)) pods = Some pod.

Definition found_resource (pod : Pod) (mc : MCKube) (states : list (St W)) : Prop :=
  exists st items, st ∈ states /\ ListMCKubes (world st) (pod_Namespace pod) = Ok items /\
    findByPodName items (pod_Name pod) = Some mc.

Definition escalated name (states : list (St W)) : Prop :=
  exists data pod mc rt st w,
    pod_Name pod = name /\ found_pod data pod states /\ found_resource pod mc states /\
    spec_RTSettings (mc_Spec mc) = Some rt /\ st ∈ states /\
    SendRTRequest (world st) (pod_HostIP pod) (escalation data rt) = (w, None).

Definition hi_escalated h : Prop :=
  forall name, podRuntimeState h.1 !! name = Some "hi" -> escalated name h.2.

Lemma found_pod_mono data pod l l' : l ⊆ l' -> found_pod data pod l -> found_pod data pod l'.
Proof using Type. intros Hl (st & pods & Hst & H). exists st, pods. split; [by apply Hl|done]. Qed.

Lemma found_resource_mono pod mc l l' : l ⊆ l' -> found_resource pod mc l -> found_resource pod mc l'.
Proof using Type. intros Hl (st & items & Hst & H). exists st, items. split; [by apply Hl|done]. Qed.

Lemma escalated_mono name l l' : l ⊆ l' -> escalated name l -> escalated name l'.
Proof using Type.
  intros Hl (data & pod & mc & rt & st & w & H1 & H2 & H3 & H4 & H5 & H6). exists data, pod, mc, rt, st, w.
  split_and!; [done|by eapply found_pod_mono|by eapply found_resource_mono|done|by apply Hl|done].
Qed.

Lemma past_grows (Rely : St W -> St W -> Prop) h h' : rtc (env Rely) h h' -> h.2 ⊆ h'.2.
Proof using Type.
  induction 1 as [|h1 h2 h3 (st & _ & ->) _ IH]; [done|]. etrans; [|exact IH]. intros x Hx. by right.
Qed.

Lemma past_subseteq h st : h.2 ⊆ (after h st).2.
Proof using Type. intros x Hx. by right. Qed.

(** An action that raises no pod keeps the invariant. *)
Lemma hi_calm h st :
  (forall name, podRuntimeState st !! name = Some "hi" -> podRuntimeState h.1 !! name = Some "hi") ->
  hi_escalated h -> hi_escalated (after h st).
Proof using Type.
  intros Hc Hi name Hn. eapply escalated_mono; [apply past_subseteq|]. by apply Hi, Hc.
Qed.

Abbreviation part_proves Rely := (proves_part hi_escalated Rely anything).

Lemma quiet_action Rely {B} P (m : ctl W B) (Q : B -> @moment W -> Prop) :
  evolves (keeps podRuntimeState) m ->
  (forall h h' st a, P h -> h.2 ⊆ h'.2 -> m h'.1 = (st, inr a) -> Q a (after h' st)) ->
  part_proves Rely P (atomic m) Q.
Proof using Type.
  intros Hm HQ. apply proves_atomic. intros h h' HP Henv Hi st a E. split_and!; [|done|].
  - apply hi_calm; [|done]. specialize (Hm h'.1). rewrite E in Hm. cbn in Hm. intros name. by rewrite Hm.
  - eapply HQ; [exact HP|by eapply past_grows|done].
Qed.

Lemma quiet_part Rely {B} P (m : ctl W B) :
  evolves (keeps podRuntimeState) m -> part_proves Rely P (atomic m) (fun _ => always_).
Proof using Type. intros Hm. by apply quiet_action. Qed.

Lemma forget_part Rely P podName :
  part_proves Rely P (atomic (modify (fun st => with_runtime (delete podName (podRuntimeState st)) st))) (fun _ => always_).
Proof using Type.
  apply proves_atomic. intros h h' _ _ Hi st a [= <- _]. split_and!; [|done|done]. apply hi_calm; [|done].
  intros name. cbn. by intros [_ H]%lookup_delete_Some.
Qed.

(** Setting a state to "low", or initialising it, raises no pod. *)
Lemma calm_part Rely P (f : gmap string string -> gmap string string) (m : ctl W unit) :
  (forall st, m st = (with_runtime (f (podRuntimeState st)) st, inr tt)) ->
  (forall m name, f m !! name = Some "hi" -> m !! name = Some "hi") ->
  part_proves Rely P (atomic m) (fun _ => always_).
Proof using Type.
  intros Hm Hf. apply proves_atomic. intros h h' _ _ Hi st a E. rewrite Hm in E. injection E as <- _.
  split_and!; [|done|done]. apply hi_calm; [|done]. intros name. cbn. apply Hf.
Qed.

Lemma low_part Rely P podName : part_proves Rely P (atomic (setRuntimeState podName "low")) (fun _ => always_).
Proof using Type.
  apply (calm_part _ _ (fun m => <[podName := "low"]> m)); [done|].
  intros m name [[_ H]|[_ H]]%lookup_insert_Some; [discriminate H|done].
Qed.

Lemma init_part Rely P podName : part_proves Rely P (atomic (ensurePodRuntimeStateInitialized podName)) (fun _ => always_).
Proof using Type.
  apply (calm_part _ _ (fun m => match m !! podName with Some _ => m | None => <[podName := "low"]> m end)).
  - intros st. unfold ensurePodRuntimeStateInitialized, modify. destruct (podRuntimeState st !! podName); [by destruct st|done].
  - intros m name. destruct (m !! podName); [done|]. intros [[_ H]|[_ H]]%lookup_insert_Some; [discriminate H|done].
Qed.

Hint Resolve quiet_part forget_part low_part init_part : threads.
Hint Extern 2 (evolves (keeps podRuntimeState) _) => (unfold currentMillis, isVictimThrottled, applyToContainer,
  registeredNow, findPodByContainerID, sendRequest, updateStatus, getOrCreatePool; evolve) : threads.

Lemma ensure_keeps node : evolves (keeps podRuntimeState) (getOrCreatePool node : ctl W _).
Proof using Type. intros st. unfold getOrCreatePool, keeps. by destruct (GetOrCreateCPUPool _ _ _). Qed.

Hint Resolve ensure_keeps : threads.

Lemma revert_part pod Rely : part_proves Rely always_ (revertThread pod) (fun _ => always_).
Proof using Type. unfold revertThread, revertContainersThread. cbv zeta. repeat prove_step. Qed.

Hint Resolve revert_part : threads.

Lemma work_part x Rely : proves hi_escalated Rely anything always_ (work_thread x).
Proof using Type.
  destruct x as [podName|pod mc|pod mc|nodeName]; apply proves_start;
    [|unfold updatePoolThread|unfold applyThread|unfold recoveryThread]; cbv zeta; repeat prove_step.
Qed.

Lemma pod_event_part pod Rely : part_proves Rely always_ (podEventThread pod) (fun _ => always_).
Proof using Type. unfold podEventThread, cleanupThread. repeat prove_step. Qed.

Lemma find_part Rely data :
  part_proves Rely always_ (atomic (findPodByContainerID (od_NodeName data) (od_ContainerID data)))
    (fun found h => forall pod, found = Ok (Some pod) -> found_pod data pod h.2).
Proof using Type.
  apply quiet_action; [unfold findPodByContainerID; evolve|]. intros h h' st found _ _ E pod ->.
  exists h'.1. unfold findPodByContainerID in E. rewrite run_query in E.
  destruct (ListPods (world h'.1) None) as [pods|e]; [|done]. injection E as _ Hf. exists pods.
  split_and!; [by left|done|done].
Qed.

Lemma list_part Rely data pod :
  part_proves Rely (fun h => found_pod data pod h.2) (atomic (query (fun w => ListMCKubes w (pod_Namespace pod))))
    (fun listed h => found_pod data pod h.2 /\
       forall items mc, listed = Ok items -> findByPodName items (pod_Name pod) = Some mc -> found_resource pod mc h.2).
Proof using Type.
  apply quiet_action; [evolve|]. intros h h' st listed Hp Hl [= _ E]. split.
  - eapply found_pod_mono; [|exact Hp]. etrans; [exact Hl|apply past_subseteq].
  - intros items mc -> Hf. exists h'.1, items. split_and!; [by left|done|done].
Qed.

(** What the thread knows when it asks for the high runtime, and afterwards. *)
Definition known data pod mc h : Prop := found_pod data pod h.2 /\ found_resource pod mc h.2.

Lemma known_mono data pod mc h h' : h.2 ⊆ h'.2 -> known data pod mc h -> known data pod mc h'.
Proof using Type. intros Hl [H1 H2]. split; [by eapply found_pod_mono|by eapply found_resource_mono]. Qed.

Lemma read_part Rely data pod mc {B} (f : St W -> B) :
  part_proves Rely (known data pod mc) (atomic (gets f)) (fun _ => known data pod mc).
Proof using Type.
  apply quiet_action; [evolve|]. intros h h' st b Hk Hl _. eapply known_mono; [|exact Hk].
  etrans; [exact Hl|apply past_subseteq].
Qed.

Lemma send_part Rely data pod mc rt :
  spec_RTSettings (mc_Spec mc) = Some rt ->
  part_proves Rely (known data pod mc) (atomic (sendRequest (pod_HostIP pod) (escalation data rt)))
    (fun err h => err = None -> escalated (pod_Name pod) h.2).
Proof using Type.
  intros Hrt. apply quiet_action; [unfold sendRequest; evolve|]. intros h h' st err Hk Hl [= <- E] Herr.
  apply (known_mono _ _ _ _ (after h' (with_world (SendRTRequest (world h'.1) (pod_HostIP pod) (escalation data rt)).1 h'.1)))
    in Hk as [Hp Hr]; [|etrans; [exact Hl|apply past_subseteq]].
  exists data, pod, mc, rt, h'.1, (SendRTRequest (world h'.1) (pod_HostIP pod) (escalation data rt)).1.
  split_and!; [done..|by left|]. rewrite Herr in E. rewrite <- E. by destruct (SendRTRequest _ _ _).
Qed.

Lemma record_part Rely podName :
  part_proves Rely (fun h => escalated podName h.2) (atomic (setRuntimeState podName "hi")) (fun _ => always_).
Proof using Type.
  apply proves_atomic. intros h h' He Henv Hi st a [= <- _]. split_and!; [|done|done].
  intros name Hn. apply (escalated_mono name h'.2); [apply past_subseteq|]. cbn in Hn.
  apply lookup_insert_Some in Hn as [[<- _]|[_ Hn]]; [|by apply Hi].
  eapply escalated_mono; [by eapply past_grows|done].
Qed.

Lemma overrun_part Rely data : part_proves Rely always_ (overrunThread data) (fun _ => always_).
Proof using Type.
  unfold overrunThread. eapply proves_bind; [apply find_part|]. intros [[pod|]|e]; try by apply proves_ret.
  eapply proves_bind; [eapply part_weaken; [apply (list_part Rely data pod)|intros h Hh; by apply Hh]|].
  intros [items|e]; [|by apply proves_ret]. destruct (findByPodName items (pod_Name pod)) as [mc|] eqn:Ef; [|by apply proves_ret].
  destruct (spec_RTSettings (mc_Spec mc)) as [rt|] eqn:Ert; [|by apply proves_ret].
  eapply proves_bind; [eapply part_weaken; [apply (read_part Rely data pod mc)|]|].
  { intros h [Hp Hr]. split; [done|by apply (Hr items)]. }
  intros state. cbv zeta. case_decide; [by apply proves_ret|]. case_decide; [by apply proves_ret|].
  eapply proves_bind; [by apply send_part|]. intros [e|]; [by apply proves_ret|].
  eapply proves_bind; [eapply part_weaken; [apply record_part|intros h Hh; by apply Hh]|].
  intros []. repeat prove_step.
Qed.

(** C8: under every interleaving a pod is in the state "hi" only because the
    node-actuator has accepted its high runtime: some goroutine has found the pod
    of a reported container, then its resource, and then the daemon on the pod's
    node accepted the resource's high runtime for the container, each in an
    earlier state of the run. *)
Theorem interleaved_hi_escalated w c name :
  rtc step (idle (st_init w)) c -> podRuntimeState (now c) !! name = Some "hi" -> escalated name (past c).
Proof using Type.
  intros Hrun. refine (interleavings_keep hi_escalated anything anything _ _ _ (st_init w) c _ Hrun name).
  - intros x. apply work_part.
  - intros [data|pod]; apply proves_start; [apply overrun_part|apply pod_event_part].
  - intros h w' Hi. by apply hi_calm.
  - intros n. cbn. by rewrite lookup_empty.
Qed.
End escalations.

(** ** A lost escalation *)

Section lost.
Context `{R : GoRuntime} {W : Type} `{K : !KubeClient W, A : !NodeActuator W, T : !Clock W}.
Implicit Types (st : St W) (c : @config W).

(** One action of the worker. *)
Lemma worker_acts {B} (m : ctl W B) k st st' a past serv :
  m st = (st', inr a) -> step (mkConfig st past (Atomic m k) serv) (mkConfig st' (st :: past) (k a) serv).
Proof using Type. intros E. exists WorkerActs. cbn. by rewrite E. Qed.

(** A goroutine that the others leave alone finishes. *)
Lemma serving_completes t st past w serv i st' :
  serv !! i = Some t -> complete t st = (st', inr tt) ->
  exists past', rtc step (mkConfig st past w serv) (mkConfig st' past' w (<[i := Finished]> serv)).
Proof using Type.
  revert st past serv. induction t as [|B m k IH]; intros st past serv Hi.
  { intros [= <-]. exists past. by rewrite list_insert_id. }
  cbn [complete]. destruct (m st) as [st1 [s|a]] eqn:Em; [done|]. intros Hc.
  assert (Hi1 : <[i := k a]> serv !! i = Some (k a)) by (apply list_lookup_insert_eq; by eapply lookup_lt_Some).
  destruct (IH a st1 (st :: past) _ Hi1 Hc) as [past' Hrun]. exists past'. rewrite list_insert_insert_eq in Hrun.
  eapply rtc_l; [|exact Hrun]. exists (ServingActs i). cbn. rewrite Hi. cbn. by rewrite Em.
Qed.

(** The request of [applyRTSettingsToContainers] for a container of a pod that is
    not "hi". *)
Definition lowApply (mc : MCKube) (rt : RTSettings) (cs : ContainerStatus) : CgroupRequest :=
  mkCgroupRequest (cs_ContainerID cs) (Period rt) (RuntimeLow rt) (coreOf mc rt) false.

Lemma applyToContainer_sends nodeIP mc rt cs st :
  is_Some (coreOf mc rt) -> cs_ContainerID cs <> "" ->
  exists err, applyToContainer nodeIP rt (RuntimeLow rt) (status_AllocatedCore (mc_Status mc)) cs st =
    (with_world (SendRTRequest (world st) nodeIP (lowApply mc rt cs)).1 st, inr err).
Proof using Type.
  intros Hcore Hid. pose proof (apply_run nodeIP mc rt (RuntimeLow rt) cs mret st Hcore Hid) as H.
  fold (lowApply mc rt cs) in H. rewrite run_bind in H. destruct (applyToContainer _ _ _ _ _ st) as [st1 [s|err]];
    destruct (SendRTRequest _ _ _) as [w e]; [discriminate H|]. injection H as -> ->. by exists e.
Qed.

(** The thread of the worker up to the first container: it has read the state. *)
Definition applyLow pod mc rt : thread W :=
  until (pod_ContainerStatuses pod) (fun cs =>
    atomic (applyToContainer (pod_HostIP pod) rt (RuntimeLow rt) (status_AllocatedCore (mc_Status mc)) cs))
    (fun _ => Finished).

Lemma worker_reads st pod mc rt :
  spec_RTSettings (mc_Spec mc) = Some rt -> throttledVictims st !! pod_UID pod = None -> pod_HostIP pod <> "" ->
  str_get (podRuntimeState st) (pod_Name pod) <> "hi" ->
  exists past, rtc step (idle st) (mkConfig st past (applyLow pod mc rt) []).
Proof using Type.
  intros Hrt Hth Hip Hhi.
  assert (Htake : step (idle st) (mkConfig st [] (work_thread (ApplySettings pod mc)) [])) by (by exists (WorkerTakes (ApplySettings pod mc))).
  assert (Hlow : effectiveRuntime (str_get (podRuntimeState st) (pod_Name pod)) rt = RuntimeLow rt)
    by (unfold effectiveRuntime; by rewrite decide_False).
  assert (Hgets : forall p, step (mkConfig st p (Atomic (gets (fun st => str_get (podRuntimeState st) (pod_Name pod)))
      (fun s => until (pod_ContainerStatuses pod) (fun cs => atomic (applyToContainer (pod_HostIP pod) rt
        (effectiveRuntime s rt) (status_AllocatedCore (mc_Status mc)) cs)) (fun _ => Finished))) [])
    (mkConfig st (st :: p) (applyLow pod mc rt) [])).
  { intros p. unfold applyLow. rewrite <- Hlow. exact (worker_acts _ _ st st _ p [] eq_refl). }
  unfold work_thread, start, applyThread in Htake. rewrite Hrt in Htake.
  destruct (decide (pod_UID pod <> "")) as [Hu|Hu].
  - exists [st; st]. eapply rtc_l; [exact Htake|]. eapply rtc_l; [|apply rtc_once, Hgets].
    assert (Hv : isVictimThrottled (pod_UID pod) st = (st, inr false)) by (unfold isVictimThrottled; by rewrite run_gets, Hth).
    refine (eq_rect _ (fun t => step _ (mkConfig st [st] t [])) (worker_acts _ _ _ _ _ _ _ Hv) _ _).
    cbn. by rewrite decide_False.
  - exists [st]. eapply rtc_l; [exact Htake|]. apply rtc_once.
    change (mret false : prog W bool) with (fun k : bool -> thread W => k false).
    cbn. rewrite decide_False by done. apply Hgets.
Qed.

Lemma overrunTarget_settings (w : W) data pod mc rt :
  overrunTarget w data = Some (pod, mc, rt) -> spec_RTSettings (mc_Spec mc) = Some rt.
Proof using Type.
  unfold overrunTarget. destruct (ListPods w None) as [pods|]; [|done]. destruct (List.find _ pods) as [p|]; [|done].
  cbn. destruct (ListMCKubes w _) as [items|]; [|done]. destruct (findByPodName items _) as [m|]; [|done]. cbn.
  destruct (spec_RTSettings (mc_Spec m)) as [r|] eqn:E; [|done]. by intros [= _ <- <-].
Qed.

(** C39: an escalation can be lost.  Take any state in which an overrun of the
    first container of a pod would be escalated: its pod and resource are found,
    the pod is not "hi", and the node-actuator accepts the high runtime.  If the
    worker applies the settings of the same pod, whose resource has a core and
    which is not throttled, some interleaving of the two ends with the pod
    recorded as "hi" while the last request for the container, sent when the
    pod was "hi" already, was the one for the low runtime; and every further
    overrun of the pod is then ignored. *)
Theorem escalation_lost st data pod mc rt w1 cs rest :
  overrunTarget (world st) data = Some (pod, mc, rt) ->
  str_get (podRuntimeState st) (pod_Name pod) <> "hi" -> pod_HostIP pod <> "" ->
  SendRTRequest (world st) (pod_HostIP pod) (escalation data rt) = (w1, None) ->
  throttledVictims st !! pod_UID pod = None -> pod_ContainerStatuses pod = cs :: rest ->
  cs_ContainerID cs = od_ContainerID data -> od_ContainerID data <> "" -> is_Some (coreOf mc rt) ->
  exists c st1, rtc step (idle st) c /\ st1 ∈ past c /\
    podRuntimeState st1 !! pod_Name pod = Some "hi" /\
    now c = with_world (SendRTRequest (world st1) (pod_HostIP pod) (lowApply mc rt cs)).1 st1 /\
    (forall data' pod' mc' rt', overrunTarget (world (now c)) data' = Some (pod', mc', rt') ->
       pod_Name pod' = pod_Name pod -> handleOverrunEvent data' (now c) = (now c, inr tt)).
Proof using Type.
  intros Ht Hhi Hip Hsend Hth Hcs Hid Hne Hcore.
  destruct (worker_reads st pod mc rt) as [past Hread]; [by eapply overrunTarget_settings|done..|].
  assert (Hover : complete (event_thread (Overrun data)) st =
      (with_runtime (<[pod_Name pod := "hi"]> (podRuntimeState st))
         (with_world (UpdateMCKubeStatus (time_Now w1).1 (overrunStatus (time_Now w1).2 mc)).1 st), inr tt)).
  { unfold event_thread, start. rewrite runs_overrun, handleOverrunEvent_run, Ht, decide_False by tauto.
    rewrite Hsend. by destruct (time_Now w1). }
  set (st1 := with_runtime _ _) in Hover.
  destruct (serving_completes (event_thread (Overrun data)) st past (applyLow pod mc rt) [event_thread (Overrun data)] 0%nat
    st1 eq_refl Hover) as [past' Hserve].
  destruct (applyToContainer_sends (pod_HostIP pod) mc rt cs st1) as [err Hsent]; [done|by rewrite Hid|].
  set (st2 := with_world _ st1) in Hsent.
  assert (Hhi2 : podRuntimeState st2 !! pod_Name pod = Some "hi") by apply lookup_insert_eq.
  eexists (mkConfig st2 (st1 :: past') _ _), st1. split_and!.
  - etrans; [exact Hread|]. eapply rtc_l; [by exists (Arrives (Overrun data))|]. etrans; [exact Hserve|].
    apply rtc_once. unfold applyLow. rewrite Hcs. exact (worker_acts _ _ _ _ _ _ _ Hsent).
  - by left.
  - exact Hhi2.
  - done.
  - intros data' pod' mc' rt' Ht' Hn. cbn [now] in *. rewrite handleOverrunEvent_run, Ht', decide_True; [done|].
    left. unfold str_get. by rewrite Hn, Hhi2.
Qed.
End lost.

Module Race.
Definition event : OverrunData := mkOverrun "n1" "containerd://abc" 0.
Definition resource : MCKube := Loop.active (Some "0") "0".

(** The pod "v" runs with its low runtime. *)
Definition start : St Server := Loop.state resource ∅ "low".

(** The worker has read the state when the overrun is served; its request comes
    last.  Another overrun of the same container is served afterwards. *)
Definition choices : list (@choice Server) :=
  [WorkerTakes (ApplySettings Loop.pod resource); WorkerActs; WorkerActs; Arrives (Overrun event)]
  ++ repeat (ServingActs 0) 7 ++ [WorkerActs; Arrives (Overrun event)] ++ repeat (ServingActs 1) 3.

Definition final : option (@config Server) := @schedule reference_runtime Server _ _ _ choices (idle start).

Definition finished (t : thread Server) : bool := match t with Finished => true | _ => false end.

(** The container and the runtime of each request, and who is still at work. *)
Definition observed (c : @config Server) : option string * list (string * Z) * list bool :=
  (podRuntimeState (now c) !! "v",
   (fun '(_, _, req) => (ContainerID req, req_Runtime req)) <$> srv_posts (world (now c)),
   finished (worker c) :: (finished <$> serving c)).
End Race.

(** The requests for the container in the order of their arrival. *)
Theorem race_observed :
  exists c, rtc (@step reference_runtime Server _ _ _) (idle Race.start) c /\
    Race.observed c = (Some "hi", [("containerd://abc", 500); ("containerd://abc", 300)], [true; true; true]).
Proof.
  assert (Hc : Race.observed <$> Race.final =
    Some (Some "hi", [("containerd://abc", 500); ("containerd://abc", 300)], [true; true; true])) by (vm_compute; reflexivity).
  destruct Race.final as [c|] eqn:E; [|discriminate Hc]. exists c.
  split; [exact (schedule_steps _ _ _ E)|]. exact (Some_inj _ _ Hc).
Qed.

(** ** Witnesses *)

Example escalation_lost_witness :
  exists c st1, rtc (@step reference_runtime Server _ _ _) (idle Race.start) c /\ podRuntimeState st1 !! "v" = Some "hi" /\
    now c = with_world (SendRTRequest (world st1) "10.0.0.1"
      (mkCgroupRequest "containerd://abc" 1000 300 (Some "0") false)).1 st1.
Proof.
  destruct (@escalation_lost reference_runtime Server _ _ _ Race.start Race.event Loop.pod Race.resource
    (Loop.settings (Some "0"))
    (SendRTRequest (world Race.start) "10.0.0.1" (escalation Race.event (Loop.settings (Some "0")))).1
    (mkContainerStatus "c" "containerd://abc") []) as (c & st1 & Hrun & _ & Hhi & Hnow & _).
  1: vm_compute; reflexivity.
  1, 2: by vm_compute.
  1: vm_compute; reflexivity.
  1: vm_compute; reflexivity.
  1, 2: reflexivity.
  1: done.
  1: by eexists.
  exists c, st1. split_and!; [exact Hrun|exact Hhi|exact Hnow].
Defined.

Module Interleaving.
Definition deleted : Pod :=
  {| pod_Name := "v"; pod_Namespace := "default"; pod_UID := "u"; pod_Labels := {["sdv.com" := "app"]};
     pod_Annotations := ∅; pod_DeletionTimestamp := Some 1; pod_NodeName := "n1"; pod_Containers := [];
     pod_Phase := "Running"; pod_HostIP := "10.0.0.1"; pod_ContainerStatuses := []; pod_InitContainerStatuses := [] |}.

(** The worker books "v" on two cores; its deletion is served in between. *)
Definition choices : list (@choice Server) :=
  WorkerTakes (UpdatePool Loop.pod (Loop.active (Some "0-1") "")) :: repeat WorkerActs 6
  ++ [Arrives (PodEvent deleted); ServingActs 0; ServingActs 0; WorkerActs; WorkerActs].

Definition start : St Server := st_init (Loop.server (Loop.active (Some "0-1") "")).

Definition final : option (@config Server) := @schedule reference_runtime Server _ _ _ choices (idle start).

(** Where "v" is booked when both are done. *)
Definition bookings (c : @config Server) : list bool :=
  (fun core => bool_decide (is_Some (booking (globalPools (now c)) "n1" core "v"))) <$> [0; 1].
End Interleaving.

Example interleaved_accounting_witness :
  exists c, rtc (@step reference_runtime Server _ _ _) (idle Interleaving.start) c /\
    pools_wf (globalPools (now c)) /\ Interleaving.bookings c = [false; true].
Proof.
  assert (Hb : Interleaving.bookings <$> Interleaving.final = Some [false; true]) by (vm_compute; reflexivity).
  destruct Interleaving.final as [c|] eqn:E; [|discriminate Hb]. exists c.
  pose proof (schedule_steps _ _ _ E) as Hrun. split; [exact Hrun|]. split; [|exact (Some_inj _ _ Hb)].
  refine (@interleaved_accounting reference_runtime Server _ _ _ Interleaving.start c _ Hrun).
  apply map_Forall_empty.
Defined.

Example interleaved_hi_escalated_witness :
  exists c, rtc (@step reference_runtime Server _ _ _) (idle (st_init (Loop.server Race.resource))) c /\ escalated "v" (past c).
Proof.
  set (start := st_init (Loop.server Race.resource)).
  assert (Hb : Race.observed <$> @schedule reference_runtime Server _ _ _ Race.choices (idle start) =
    Some (Some "hi", [("containerd://abc", 500); ("containerd://abc", 300)], [true; true; true])) by (vm_compute; reflexivity).
  destruct (@schedule reference_runtime Server _ _ _ Race.choices (idle start)) as [c|] eqn:E; [|discriminate Hb].
  exists c. pose proof (schedule_steps _ _ _ E) as Hrun. split; [exact Hrun|].
  apply (@interleaved_hi_escalated reference_runtime Server _ _ _ _ c "v" Hrun).
  exact (f_equal (fun x => x.1.1) (Some_inj _ _ Hb)).
Defined.
