(* ===== verification/EndToEnd.v ===== *)
(** * EndToEnd: from the admission of a pod to its booking

    The mutating webhook places a pod with its high runtime and writes the core
    to the resource; the reconciler later books the pod there with the runtime
    of its current state.  This file composes the two: what the placement
    promises about the booked usage, and where the promise ends. *)
From S2P Require Import Prelude Float64 GoRuntime GoString CPUPool CoreSet ApiTypes Kube ApiServer Budget Conversions Scheduling SchedulingSpec Validator Mutator DataCollector Pressure NodeEvents Controller Housekeeping Overrun Preemption Reconcile.
From stdpp Require Import options.

Local Open Scope Z_scope.

(** ** The usage of a core after a booking *)

Lemma rebook_usage node info g c :
  has_core g node c -> booking g node c (pi_Name info) = None ->
  coreUsage (rebook node info g c !! node) c = wrap64 (coreUsage (g !! node) c + pi_CPUMillis info).
Proof.
  intros (p & Hp & core & Hc) Hb. unfold rebook. rewrite !lookup_alter_eq, Hp. cbn.
  rewrite (booking_pool _ _ _ _ _ Hp) in Hb. unfold pool_booking in Hb. rewrite Hc in *. cbn in Hb |- *.
  unfold AddPodToCore, RemovePodFromCore. rewrite Hc. cbn. rewrite lookup_insert_eq. cbn.
  rewrite lookup_insert_eq. cbn. unfold releasePod. by rewrite Hb.
Qed.

Lemma ensured_usage g node n c : coreUsage (ensured g node !! n) c = coreUsage (g !! n) c.
Proof.
  unfold ensured, GetOrCreateCPUPool. destruct (g !! node) as [p|] eqn:E; [done|]. cbn [fst].
  destruct (decide (n = node)) as [->|Hn]; [|by rewrite lookup_insert_ne].
  rewrite lookup_insert_eq, E. unfold coreUsage. rewrite newPool_cores. by case_decide.
Qed.

(** The budget of valid settings in milli-CPUs, in either state. *)
Lemma millis_of_valid `{R : GoRuntime} rt state :
  valid_settings rt -> Period rt <= 100000000 -> Period rt <= 1000 * RuntimeLow rt ->
  cpuMillisOf rt (effectiveRuntime state rt) = 1000 * effectiveRuntime state rt / Period rt /\
  0 < 1000 * effectiveRuntime state rt / Period rt <= 1000 * RuntimeHi rt / Period rt.
Proof.
  intros (H1 & H2 & _) Hp Hone.
  assert (He : RuntimeLow rt <= effectiveRuntime state rt <= RuntimeHi rt) by (unfold effectiveRuntime; case_decide; lia).
  assert (0 < 1000 * effectiveRuntime state rt / Period rt) by (apply Z.div_str_pos; lia).
  split; [|split; [done|apply Z.div_le_mono; lia]].
  unfold cpuMillisOf. rewrite (proj2 (Z.ltb_lt _ _)) by lia. rewrite runtimeMillis_floor by lia.
  by rewrite (proj2 (Z.eqb_neq _ _)) by lia.
Qed.

(** A placement within the cap leaves room for the budget in whole milli-CPUs. *)
Lemma fits_millis hi period u : 0 < period -> fits hi period u 0 -> u + 1000 * hi / period <= 950.
Proof.
  unfold fits. intros Hp Hf. assert (1000 * hi / period <= 950 - u); [|lia]. apply Z.div_le_upper_bound; nia.
Qed.

(** The selection when some evaluated core holds the request with something left. *)
Lemma direct_selection `{R : GoRuntime} g nodes crit hi period node c0 :
  workload g -> request hi period -> (node, c0) ∈ placements g nodes [] ->
  fits_with_slack hi period (coreUsage (g !! node) c0) 0 ->
  let r := SelectBestNodeAndCore g nodes (budgetOf hi period) crit [] in
  fits hi period (coreUsage (g !! SelectedNodeName r) (SelectedCoreID r)) 0.
Proof.
  intros Hw Hr Hin Hslack r. apply (fitsDirectly_exact g node c0 hi period Hw Hr) in Hslack. unfold r.
  destruct (SelectBest_outcome g nodes (budgetOf hi period) crit [] (workload_wf g Hw)) as [n c _ Hfit _|n c _ Hnone _ _|Hnone].
  - by apply (fitsDirectly_exact g n c hi period).
  - by rewrite (Hnone _ _ Hin) in Hslack.
  - apply Hnone in Hin as [Hin _]. congruence.
Qed.

Section placement.
Context `{R : GoRuntime} {W : Type}.
Implicit Types (st : St W) (pod : Pod) (mc : MCKube).

(** C7: a pod that the mutating webhook has placed directly fits when the
    reconciler books it: with the settings the webhook wrote back, and as long
    as the bookings have not changed, [updateCPUPoolForPod] books the pod on the
    selected core with exactly the integer budget of its current runtime, and
    the usage of the core grows by that and stays within 95%, in the state "hi"
    as well as in the state "low". *)
Theorem placed_pod_fits st nodes rt pod mc node c0 :
  workload (globalPools st) -> valid_settings rt -> Period rt <= 100000000 -> Period rt <= 1000 * RuntimeLow rt ->
  (node, c0) ∈ placements (globalPools st) nodes [] ->
  fits_with_slack (RuntimeHi rt) (Period rt) (coreUsage (globalPools st !! node) c0) 0 ->
  let r := SelectBestNodeAndCore (globalPools st) nodes (budgetOf (RuntimeHi rt) (Period rt))
             (spec_Criticality (mc_Spec mc)) [] in
  let n := SelectedNodeName r in
  let c := SelectedCoreID r in
  spec_RTSettings (mc_Spec mc) = Some (set_Core (Some (itoa c)) rt) ->
  pod_NodeName pod = n -> n <> "" -> has_core (ensured (globalPools st) n) n c ->
  booking (globalPools st) n c (pod_Name pod) = None ->
  exists g', updateCPUPoolForPod pod mc st = (with_pools g' st, inr None) /\
    let m := 1000 * effectiveRuntime (str_get (podRuntimeState st) (pod_Name pod)) rt / Period rt in
    pi_CPUMillis <$> booking g' n c (pod_Name pod) = Some m /\
    coreUsage (g' !! n) c = coreUsage (globalPools st !! n) c + m /\
    coreUsage (g' !! n) c <= 950.
Proof using Type.
  intros Hw Hv Hp Hone Hin Hslack r n c Hrt Hnode Hn Hcore Hb.
  assert (Hreq := valid_request rt Hv Hp). set (g := globalPools st) in *. set (state := str_get _ _).
  pose proof (direct_selection g nodes (spec_Criticality (mc_Spec mc)) _ _ node c0 Hw Hreq Hin Hslack) as Hfit.
  cbv zeta in Hfit. fold r n c in Hfit.
  assert (Hwf : pools_wf (ensured g n)) by (apply GetOrCreateCPUPool_wf; [by vm_compute|apply Hw]).
  assert (Hc : CoreSet.core_id c).
  { destruct Hcore as (p & Hp' & core & Hc). destruct (Hwf _ _ Hp') as [_ Hcores]. by destruct (Hcores _ _ Hc). }
  assert (Hparse : ParseCoreSet (itoa c) = Some [c]).
  { rewrite <- core_list_single. apply ParseCoreSet_core_list. by repeat constructor; apply Hc. }
  destruct (millis_of_valid rt state Hv Hp Hone) as [Hm Hle]. set (m := 1000 * effectiveRuntime state rt / Period rt) in *.
  assert (Hmillis : millisIn st (pod_Name pod) (set_Core (Some (itoa c)) rt) = m) by (rewrite <- Hm; by destruct rt).
  assert (Hfits := fits_millis _ _ _ (Z.lt_le_trans _ _ _ (proj1 (request_hi _ _ Hreq)) (proj2 (request_hi _ _ Hreq))) Hfit).
  eexists. split; [rewrite (updateCPUPool_run _ _ _ _ _ _ Hrt eq_refl Hparse) by congruence; reflexivity|].
  cbv zeta. rewrite Hmillis, Hnode. fold g. set (info := mkPodInfo _ _ _ _ _).
  assert (Hnot : forallb (registeredOn (GetOrCreateCPUPool g n DefaultNumCores).2 (pod_Name pod) m
                  (spec_Criticality (mc_Spec mc))) [c] = false).
  { apply not_true_iff_false. cbn [forallb]. rewrite andb_true_r.
    rewrite (registeredOn_booking (ensured g n) n) by apply ensured_lookup.
    rewrite ensured_booking, Hb. by intros (? & ? & _). }
  rewrite Hnot. change (rebookAll n info [c] (ensured g n)) with (rebook n info (ensured g n) c).
  rewrite rebook_booking, decide_True by done. split; [done|].
  rewrite rebook_usage by (done || by rewrite ensured_booking). rewrite ensured_usage. cbn [pi_CPUMillis info].
  pose proof (usage_bound g n c Hw). rewrite wrap64_id by (unfold int64; lia). lia.
Qed.

(** A core that the node's pool does not have is never booked: on a node of
    which the controller knows nothing yet, a pod whose cores all lie beyond the
    first sixteen is reported as booked without an error, and no booking exists
    or changes; the next check then finds those cores as empty as before. *)
Theorem cores_beyond_pool_unbooked st pod mc rt core cores :
  spec_RTSettings (mc_Spec mc) = Some rt -> Core rt = Some core -> ParseCoreSet core = Some cores ->
  pod_NodeName pod <> "" -> globalPools st !! pod_NodeName pod = None -> Forall (fun c => DefaultNumCores <= c) cores ->
  exists g', updateCPUPoolForPod pod mc st = (with_pools g' st, inr None) /\
    (forall n c name, booking g' n c name = booking (globalPools st) n c name) /\
    (forall c, c ∈ cores -> coreUsage (g' !! pod_NodeName pod) c = 0).
Proof using Type.
  intros Hrt Hcore Hparse Hn Hnone Hcores.
  eexists. split; [rewrite (updateCPUPool_run _ _ _ _ _ _ Hrt Hcore Hparse) by done; reflexivity|]. cbv zeta.
  assert (Hhas : forall c, c ∈ cores -> ~ has_core (ensured (globalPools st) (pod_NodeName pod)) (pod_NodeName pod) c).
  { intros c Hc (p & Hp & Hcc). rewrite ensured_lookup in Hp. injection Hp as <-. unfold GetOrCreateCPUPool in Hcc.
    rewrite Hnone in Hcc. cbn [snd] in Hcc. rewrite newPool_cores in Hcc. rewrite Forall_forall in Hcores.
    specialize (Hcores _ Hc). rewrite decide_False in Hcc by lia. by apply is_Some_None in Hcc. }
  split.
  - intros n c name. destruct (forallb _ _); [apply ensured_booking|].
    rewrite rebookAll_booking, decide_False, ensured_booking; [done|]. intros (_ & Hc & _ & Hh). by apply (Hhas c).
  - intros c Hc. assert (Hno : forall g, ~ has_core g (pod_NodeName pod) c -> coreUsage (g !! pod_NodeName pod) c = 0).
    { intros g Hg. unfold coreUsage. destruct (g !! pod_NodeName pod) as [p|] eqn:Ep; [|done].
      destruct (Cores p !! c) as [core'|] eqn:Ec; [|done]. destruct Hg. exists p. split; [done|by exists core']. }
    apply Hno. destruct (forallb _ _); [by apply Hhas|]. rewrite rebookAll_has_core. by apply Hhas.
Qed.
End placement.

(** ** Two admissions *)

Section admissions.
Context `{R : GoRuntime} {Raw W V : Type} `{C : !PodCodec Raw, KV : !KubeClient V}.
Context `{K : !KubeClient W, A : !NodeActuator W, T : !Clock W}.
Implicit Types (st : St W) (pod : Pod) (mc : MCKube) (v : V).

Lemma checkAndPreempt_no_victims pod cores millis crit st p :
  pod_NodeName pod <> "" -> globalPools st !! pod_NodeName pod = Some p ->
  (forall c name info, c ∈ cores -> booking (globalPools st) (pod_NodeName pod) c name = Some info -> ~ lowerThan crit info) ->
  checkAndPreemptForPod pod cores millis crit st = (st, inr None).
Proof using Type.
  intros Hn Hp Hno. unfold checkAndPreemptForPod. rewrite decide_False by done. rewrite run_bind. simpl.
  unfold GetPoolForNode. rewrite Hp. rewrite run_bind.
  assert (Hloop : for_each cores (preemptOnCore (pod_NodeName pod) millis crit) st = (st, inr tt)); [|by rewrite Hloop].
  induction cores as [|c cores IH]; [done|]. simpl. rewrite run_bind.
  unfold preemptOnCore at 1. rewrite (run_pool _ _ _ _ Hp), findPreemptionVictims_filter.
  assert (Hnil : filter (lowerThan crit) (GetPodsOnCore p c) = []).
  { destruct (filter _ _) as [|info l] eqn:E; [done|]. assert (Hin : info ∈ info :: l) by by left.
    rewrite <- E in Hin. apply list_elem_of_filter in Hin as [Hl [name Hb]%elem_of_GetPodsOnCore].
    destruct (Hno c name info); [by left|by rewrite (booking_pool _ _ _ _ _ Hp)|done]. }
  rewrite Hnil. destruct (fgtb _ _); (apply IH; intros c' name info Hc'; apply Hno; by right).
Qed.

(** The registration of a pod on one core where it may preempt nobody. *)
Lemma register_one pod mc rt c st :
  let n := pod_NodeName pod in
  let g := globalPools st in
  let m := millisIn st (pod_Name pod) rt in
  registrable pod mc rt (itoa c) [c] -> has_core (ensured g n) n c -> booking g n c (pod_Name pod) = None ->
  (forall name info, booking g n c name = Some info -> ~ lowerThan (spec_Criticality (mc_Spec mc)) info) ->
  exists g' w, registerPod pod mc rt (itoa c) st = (with_pools g' (with_world w st), inr (allocated (itoa c) mc)) /\
    (forall name, booking g' n c name =
       if decide (name = pod_Name pod)
       then Some (mkPodInfo (pod_Name pod) (pod_Namespace pod) (spec_Criticality (mc_Spec mc)) m [c]) else booking g n c name) /\
    coreUsage (g' !! n) c = wrap64 (coreUsage (g !! n) c + m) /\ has_core (ensured g' n) n c.
Proof using Type.
  intros n g m Hreg Hcore Hb Hno. pose proof (registrable_allocated _ _ _ _ _ Hreg) as [Ha Hspec].
  set (mc' := allocated (itoa c) mc) in *.
  assert (Hreg' : registrable pod mc' rt (itoa c) [c]) by (destruct Hreg; split; rewrite ?Hspec; auto).
  destruct (allocateCore_run mc (itoa c) st) as [w E0].
  assert (E : registerPod pod mc rt (itoa c) st = registerPod pod mc' rt (itoa c) (with_world w st)).
  { unfold registerPod at 1. rewrite (run_bind_inr _ _ _ _ _ E0). unfold registerPod, allocateCore. fold mc'. rewrite Ha.
    rewrite decide_True by apply Hreg. by rewrite run_ret, Ha. }
  rewrite E, (registerPod_run _ _ _ _ _ _ Hreg' Ha). cbv zeta. rewrite Hspec. cbn [globalPools with_world].
  change (millisIn (with_world w st) (pod_Name pod) rt) with m. fold n g. set (crit := spec_Criticality (mc_Spec mc)) in *.
  assert (Hnot : forallb (registeredOn (GetOrCreateCPUPool g n DefaultNumCores).2 (pod_Name pod) m crit) [c] = false).
  { apply not_true_iff_false. cbn [forallb]. rewrite andb_true_r.
    rewrite (registeredOn_booking (ensured g n) n) by apply ensured_lookup.
    rewrite ensured_booking, Hb. by intros (? & ? & _). }
  rewrite Hnot. set (st0 := with_pools (ensured g n) (with_world w st)).
  assert (Hp : globalPools st0 !! n = Some (GetOrCreateCPUPool g n DefaultNumCores).2) by apply ensured_lookup.
  rewrite (run_bind_inr _ _ _ _ _ (checkAndPreempt_no_victims pod [c] m crit st0 _ (reg_node _ _ _ _ _ Hreg) Hp ltac:(
    intros c' name info ->%list_elem_of_singleton Hbook; simpl in Hbook; rewrite ensured_booking in Hbook; by eapply Hno))).
  assert (Hset : spec_RTSettings (mc_Spec mc') = Some rt) by (rewrite Hspec; apply Hreg).
  pose proof (updateCPUPool_run pod mc' rt (itoa c) [c] st0 Hset (reg_core _ _ _ _ _ Hreg) (reg_cores _ _ _ _ _ Hreg)
    (reg_node _ _ _ _ _ Hreg)) as Eu. cbv zeta in Eu. fold n in Eu.
  rewrite (ensured_id _ _ _ Hp), Hspec in Eu. change (millisIn st0 (pod_Name pod) rt) with m in Eu. fold crit in Eu.
  unfold GetOrCreateCPUPool at 1 in Eu. rewrite Hp in Eu. cbn [snd] in Eu. rewrite Hnot in Eu.
  set (info := mkPodInfo (pod_Name pod) (pod_Namespace pod) crit m [c]) in *.
  change (rebookAll n info [c] (globalPools st0)) with (rebook n info (ensured g n) c) in Eu.
  rewrite (run_bind_inr _ _ _ _ _ Eu).
  exists (rebook n info (ensured g n) c), w. split_and!; [done| | |].
  - intros name. rewrite rebook_booking, ensured_booking. destruct (decide (name = pod_Name pod)) as [->|Hne].
    + by rewrite decide_True.
    + rewrite decide_False; [done|]. by intros (_ & _ & ? & _).
  - rewrite rebook_usage by (done || by rewrite ensured_booking). by rewrite ensured_usage.
  - destruct Hcore as (p & Hp' & Hc). assert (Hh : has_core (rebook n info (ensured g n) c) n c)
      by (apply rebook_has_core; by exists p).
    destruct Hh as (p' & Hp'' & Hc'). exists p'. split; [|done]. by rewrite (ensured_id _ _ _ Hp'').
Qed.

(** A pod that fits on the core that has been fixed for it, where it is not booked
    yet and may preempt nobody. *)
Record awaits v (g : Pools) (nodes : list Node) (c : Z) (req : Request Raw) pod mc rt : Prop := {
  aw_reaches : exists pod0, reaches_budget v req pod0 mc rt nodes;
  aw_valid : valid_settings rt;
  aw_period : Period rt <= 100000000;
  aw_milli : Period rt <= 1000 * RuntimeLow rt;
  aw_registrable : registrable pod mc rt (itoa c) [c];
  aw_node : spec_Node (mc_Spec mc) = pod_NodeName pod;
  aw_fits : rt_fits_with_slack g rt (spec_Criticality (mc_Spec mc)) (pod_NodeName pod, c);
  aw_unbooked : booking g (pod_NodeName pod) c (pod_Name pod) = None;
  aw_no_victim name info :
    booking g (pod_NodeName pod) c name = Some info -> ~ lowerThan (spec_Criticality (mc_Spec mc)) info
}.

Lemma awaits_allowed v g nodes c req pod mc rt :
  workload g -> awaits v g nodes c req pod mc rt -> exists msg, RTValidator_Handle v g req = Some (Allowed msg).
Proof using Type.
  intros Hw [[pod0 Hreach] Hv Hp _ [_ Hcore Hparse Hne Hnode Ha] Hn Hfit _ _].
  rewrite (Handle_budget _ _ _ _ _ _ _ Hreach), (proj2 (validateRTSettings_valid rt ltac:(lia)) Hv).
  assert (Hsel : selectedCoreStr mc rt = itoa c).
  { unfold selectedCoreStr. rewrite Hcore. destruct Ha as [->| ->]; by case_decide. }
  unfold checkBudget. rewrite Hsel, Hn, decide_True by (split; [exact Hne|by rewrite <- Hn in Hnode |- *]). rewrite Hparse.
  pose proof (Check_complete g (pod_NodeName pod) c _ rt Hw Hv Hp Hfit) as Hchk.
  destruct (CheckNodeCoreFeasibility _ _ _ _ _) as [ok victims]. simpl in Hchk. subst ok. by eexists.
Qed.

(** C40: admissions do not reserve.  Take two pods that are not booked yet and for
    which the same core has been fixed, each of which fits there with the
    bookings of this moment, where neither may preempt anybody, the first one
    being of no lower criticality than the second.  The validating webhook admits
    both, and when both are then registered, in this order, both are booked on the
    core and its usage grows by the sum of the two budgets, however much that is:
    nothing between the admission and the booking compares it with the cap. *)
Theorem admissions_overcommit v st nodes c req1 pod1 mc1 rt1 req2 pod2 mc2 rt2 :
  workload (globalPools st) ->
  awaits v (globalPools st) nodes c req1 pod1 mc1 rt1 -> awaits v (globalPools st) nodes c req2 pod2 mc2 rt2 ->
  pod_NodeName pod1 = pod_NodeName pod2 -> pod_Name pod1 <> pod_Name pod2 ->
  rank (spec_Criticality (mc_Spec mc2)) <= rank (spec_Criticality (mc_Spec mc1)) ->
  has_core (ensured (globalPools st) (pod_NodeName pod1)) (pod_NodeName pod1) c ->
  let budget pod rt := 1000 * effectiveRuntime (str_get (podRuntimeState st) (pod_Name pod)) rt / Period rt in
  (exists msg, RTValidator_Handle v (globalPools st) req1 = Some (Allowed msg)) /\
  (exists msg, RTValidator_Handle v (globalPools st) req2 = Some (Allowed msg)) /\
  exists st1 st2, registerPod pod1 mc1 rt1 (itoa c) st = (st1, inr (allocated (itoa c) mc1)) /\
    registerPod pod2 mc2 rt2 (itoa c) st1 = (st2, inr (allocated (itoa c) mc2)) /\
    pi_CPUMillis <$> booking (globalPools st2) (pod_NodeName pod2) c (pod_Name pod1) = Some (budget pod1 rt1) /\
    pi_CPUMillis <$> booking (globalPools st2) (pod_NodeName pod2) c (pod_Name pod2) = Some (budget pod2 rt2) /\
    coreUsage (globalPools st2 !! pod_NodeName pod2) c =
      coreUsage (globalPools st !! pod_NodeName pod2) c + budget pod1 rt1 + budget pod2 rt2.
Proof using Type.
  intros Hw H1 H2 Hnode Hname Hrank Hcore budget. split; [by eapply awaits_allowed|]. split; [by eapply awaits_allowed|].
  assert (Hbudget : forall pod rt, valid_settings rt -> Period rt <= 100000000 -> Period rt <= 1000 * RuntimeLow rt ->
    millisIn st (pod_Name pod) rt = budget pod rt /\ 0 < budget pod rt <= 950).
  { intros pod rt Hv Hp Hone. destruct (millis_of_valid rt (str_get (podRuntimeState st) (pod_Name pod)) Hv Hp Hone) as [E Hle].
    split; [exact E|]. split; [apply Hle|]. etrans; [apply Hle|]. destruct Hv as (Hv1 & Hv2 & _).
    apply Z.div_le_upper_bound; lia. }
  destruct (Hbudget pod1 rt1) as [E1 B1]; [apply H1..|]. destruct (Hbudget pod2 rt2) as [E2 B2]; [apply H2..|].
  destruct (register_one pod1 mc1 rt1 c st (aw_registrable _ _ _ _ _ _ _ _ H1) Hcore (aw_unbooked _ _ _ _ _ _ _ _ H1)
    (aw_no_victim _ _ _ _ _ _ _ _ H1)) as (g1 & w1 & R1 & Hb1 & Hu1 & Hc1). rewrite E1 in Hb1, Hu1.
  rewrite Hnode in Hb1, Hu1, Hc1. set (st1 := with_pools g1 (with_world w1 st)) in *.
  destruct (register_one pod2 mc2 rt2 c st1 (aw_registrable _ _ _ _ _ _ _ _ H2) Hc1) as (g2 & w2 & R2 & Hb2 & Hu2 & _).
  { change (globalPools st1) with g1. rewrite Hb1, decide_False by done. apply H2. }
  { intros name info. change (globalPools st1) with g1. rewrite Hb1. case_decide; [|apply H2].
    intros [= <-]. unfold lowerThan. simpl. lia. }
  change (globalPools st1) with g1 in Hb2, Hu2. change (millisIn st1 (pod_Name pod2) rt2) with (millisIn st (pod_Name pod2) rt2) in Hb2, Hu2.
  rewrite E2 in Hb2, Hu2. exists st1, (with_pools g2 (with_world w2 st1)). split_and!; [exact R1|exact R2| | |].
  - cbn [globalPools with_pools with_world]. by rewrite Hb2, decide_False, Hb1, decide_True by done.
  - cbn [globalPools with_pools with_world]. by rewrite Hb2, decide_True by done.
  - cbn [globalPools with_pools with_world]. rewrite Hu2, Hu1.
    pose proof (usage_bound (globalPools st) (pod_NodeName pod2) c Hw).
    rewrite (wrap64_id (_ + budget pod1 rt1)) by (unfold int64; lia). rewrite wrap64_id by (unfold int64; lia). lia.
Qed.
End admissions.

(** ** Concrete clusters *)

Module Admissions.
Definition rt : RTSettings := mkRT 1000 500 600 None.

(** Two pods of the same criticality, whose resources leave the core open. *)
Definition pod (name : string) : Pod := sample_pod name "n1".
Definition resource (name : string) : MCKube := sample_mckube name "" "LOW" rt.
Definition pools : Pools := {["n1" := newPool "n1" 16]}.

(** The placement of each of them. *)
Definition selected : FeasibilityResult :=
  @SelectBestNodeAndCore reference_runtime pools [sample_node "n1" 16] (budgetOf 600 1000) "LOW" [].

(** The resources as the mutating webhook writes them back. *)
Definition placed (name : string) : MCKube :=
  withCore (itoa (SelectedCoreID selected)) (SelectedNodeName selected) (resource name).
Definition server : Server := mkServer [placed "a"; placed "b"] [pod "a"; pod "b"] [sample_node "n1" 16] false 200 [].

Definition core : Z := Eval vm_compute in SelectedCoreID selected.
Definition st : St Server := with_pools pools (st_init server).
Definition core_rt : RTSettings := set_Core (Some (itoa core)) rt.

Lemma fresh_workload : workload (globalPools st).
Proof. apply (bool_decide_eq_true_1 _). vm_compute. reflexivity. Qed.

Lemma pod_awaits name :
  name = "a" \/ name = "b" ->
  @awaits Pod Server _ _ server (globalPools st) [sample_node "n1" 16] core (mkRequest (pod name) None) (pod name) (placed name) core_rt.
Proof.
  intros Hname. split.
  - exists (pod name). destruct Hname as [->| ->]; split; vm_compute; reflexivity.
  - apply (bool_decide_unpack _). vm_compute. exact I.
  - done.
  - done.
  - destruct Hname as [->| ->]; split; try (vm_compute; reflexivity); try (by vm_compute); left; vm_compute; reflexivity.
  - destruct Hname as [->| ->]; vm_compute; reflexivity.
  - unfold rt_fits_with_slack, fits_with_slack. destruct Hname as [->| ->]; apply (bool_decide_unpack _); vm_compute; exact I.
  - destruct Hname as [->| ->]; vm_compute; reflexivity.
  - intros n info Hb. exfalso. revert Hb. destruct Hname as [->| ->]; vm_compute; discriminate.
Qed.
End Admissions.

(** ** Witnesses *)

Module Placement.
Definition rt : RTSettings := mkRT 1000000 200000 300000 None.
Definition mc : MCKube := sample_mckube "new" "n1" "HIGH" (set_Core (Some "0") rt).
Definition st : St Server := with_pools Cluster.pools (st_init (mkServer [mc] [sample_pod "new" "n1"] [] false 200 [])).
End Placement.

Example placed_pod_fits_witness :
  coreUsage (globalPools (@updateCPUPoolForPod reference_runtime Server (sample_pod "new" "n1") Placement.mc Placement.st).1
    !! "n1") 0 <= 950.
Proof.
  assert (Hr : @SelectBestNodeAndCore reference_runtime Cluster.pools [Cluster.node] (budgetOf 300000 1000000) "HIGH" [] =
    Scheduling.mkResult true "n1" 0 []) by (vm_compute; reflexivity).
  pose proof (@placed_pod_fits reference_runtime Server Placement.st [Cluster.node] Placement.rt (sample_pod "new" "n1")
    Placement.mc "n1" 0 Cluster.pools_workload) as H.
  cbv zeta in H. cbn [Placement.rt RuntimeHi Period Placement.mc sample_mckube mc_Spec spec_Criticality] in H.
  change (globalPools Placement.st) with Cluster.pools in H. rewrite Hr in H.
  cbn [SelectedNodeName SelectedCoreID] in H. destruct H as (g' & E & _ & _ & Hle).
  - by apply (bool_decide_unpack _).
  - done.
  - done.
  - apply (bool_decide_unpack _). vm_compute. exact I.
  - by vm_compute.
  - vm_compute. reflexivity.
  - reflexivity.
  - done.
  - eexists. split; [reflexivity|]. by eexists.
  - vm_compute. reflexivity.
  - rewrite E. exact Hle.
Defined.

(** Both are admitted for the same core, which is then used to 100%, above the
    95% cap. *)
Example admissions_overcommit_witness :
  exists st1 st2,
    (@registerPod reference_runtime Server _ _ _ (Admissions.pod "a") (Admissions.placed "a") Admissions.core_rt
       (itoa Admissions.core) Admissions.st).1 = st1 /\
    (@registerPod reference_runtime Server _ _ _ (Admissions.pod "b") (Admissions.placed "b") Admissions.core_rt
       (itoa Admissions.core) st1).1 = st2 /\
    coreUsage (globalPools st2 !! "n1") Admissions.core = 1000.
Proof.
  destruct (@admissions_overcommit reference_runtime Pod Server Server _ _ _ _ _ Admissions.server Admissions.st
    [sample_node "n1" 16] Admissions.core (mkRequest (Admissions.pod "a") None) (Admissions.pod "a") (Admissions.placed "a")
    Admissions.core_rt (mkRequest (Admissions.pod "b") None) (Admissions.pod "b") (Admissions.placed "b") Admissions.core_rt
    Admissions.fresh_workload) as (_ & _ & st1 & st2 & R1 & R2 & _ & _ & Hu).
  - apply Admissions.pod_awaits. by left.
  - apply Admissions.pod_awaits. by right.
  - done.
  - done.
  - vm_compute. discriminate.
  - apply (bool_decide_unpack _). vm_compute. exact I.
  - exists st1, st2. split_and!; [by rewrite R1|by rewrite R2|]. exact Hu.
Defined.

Example cores_beyond_pool_unbooked_witness :
  booking (globalPools (@updateCPUPoolForPod reference_runtime Server (sample_pod "v" "n1")
    (sample_mckube "v" "n1" "LOW" (mkRT 1000 300 500 (Some "40"))) (st_init (mkServer [] [] [] false 200 []))).1) "n1" 40 "v" = None.
Proof.
  pose proof (@cores_beyond_pool_unbooked reference_runtime Server (st_init (mkServer [] [] [] false 200 []))
    (sample_pod "v" "n1") (sample_mckube "v" "n1" "LOW" (mkRT 1000 300 500 (Some "40"))) (mkRT 1000 300 500 (Some "40"))
    "40" [40] eq_refl eq_refl) as H.
  assert (Hparse : ParseCoreSet "40" = Some [40]) by (vm_compute; reflexivity).
  assert (Hbeyond : Forall (fun c => DefaultNumCores <= c) [40]) by (repeat constructor; done).
  destruct (H Hparse ltac:(done) eq_refl Hbeyond) as (g' & E & Hb & _).
  rewrite E. exact (Hb "n1" 40 "v").
Defined.
